(* ===== verification/_CoqProject ===== *)
-Q . S2P
Prelude.v
Buffer.v
Content.v
ContentCorrect.v
HashTable.v
HashTableMap.v
TopicString.v
TopicLevels.v
ChildTable.v
TopicTree.v
TreeResults.v
TreeMatch.v
TreeSearch.v
TreeInsert.v
TreeCorrect.v
TreeRemove.v
SubList.v
WaiterStatus.v
WaiterLock.v
WaiterCorrect.v
WaiterProgress.v
Utf8.v
Utf8Correct.v
MqttProp.v
MqttVarInt.v
MqttPropCorrect.v
MqttPacket.v
MqttPacketCorrect.v
MqttFrame.v
MqttReason.v
MsgExpiry.v
SimpQueue.v
SimpQueuePages.v
SimpQueuePut.v
SimpQueueOps.v
SimpQueueCorrect.v
SimpQueueDelete.v
SimpQueueExamples.v
