(* ===== verification/Prelude.v ===== *)
(** * Amlen: a verification development

    Amlen is a message broker written in C.  Its server is made of libraries:
    server_utils (buffers, encodings, containers), server_engine (topics,
    subscriptions, queues, consumers), server_store (persistence), server_protocol
    (MQTT, JMS), server_transport, server_admin and others.  A publisher's message
    comes through a protocol to the engine, which analyses its topic, finds the
    matching subscriptions in the topic tree, puts the message on the queue of each
    and delivers it from there to the consumer that waits.  Messages carry their
    properties in a compact binary form.  This development follows that path.

    ** Files and sources

    - Prelude: machine integers with their wrap-around, the outcomes of C code
      ([Ret], [Crash] for undefined behaviour and failed assertions, [Hang] for
      exhausted fuel), return codes, big-endian numbers, lists.
    - Buffer, Content, ContentCorrect: server_utils/src/content.c.  Buffer has the
      growing output buffer and [ensureBuffer]; Content has one definition per
      [ism_protocol_get*] and [ism_protocol_put*] function, the tables [FieldTypes]
      and [FieldLen], and the searches [ism_findPropertyName] and
      [ism_findPropertyNameIndex].
    - HashTable, HashTableMap: server_engine/src/engineHashTable.c.  The table is an
      array of chains sorted by hash; HashTableMap relates it to a finite map.
    - TopicString, TopicLevels: server_engine/src/topicTreeUtils.c.  The analysis of
      a topic string into levels, with its arrays that grow, the validation of topic
      strings, and the hashes.
    - ChildTable: what the topic tree needs of the table of a node's children, as a
      class of operations and a class of laws, with the hash table as an instance.
    - TopicTree, TreeResults, TreeMatch, TreeSearch, TreeInsert, TreeCorrect:
      server_engine/src/topicTree.c, the tree of subscription nodes:
      [iett_insertOrFindSubsNode], [iett_addActiveSubsNodes] and
      [iett_findMatchingSubsNodes], over a heap of nodes.
    - TreeRemove: the removal of inactive nodes,
      [iett_removeInactiveSubsNodesFromEngineTopicTree].
    - SubList: server_engine/src/topicTree.c, the lists of subscriptions of a node.
    - WaiterStatus, WaiterLock, WaiterCorrect, WaiterProgress:
      server_engine/src/waiterStatus.c, with the operations of simpQ.c,
      intermediateQ.c and engine.c that move the status word of a queue's consumer.
      Threads run programs over the shared word and are interleaved by a step
      relation.
    - Utf8, Utf8Correct: server_utils/src/global.c, the validation and the repair of
      UTF-8 strings, with the restrictions on characters.
    - MqttProp, MqttVarInt, MqttPropCorrect: server_utils/src/filter.c, the variable
      length integers and the properties of MQTT 5: checking, searching, writing.
    - MqttPacket, MqttPacketCorrect, MqttFrame, MqttReason:
      server_protocol/src/mqtt.c, the table of properties and its check in a packet,
      acknowledgements, the reassembly of packets from the bytes of a connection
      ([ism_mqtt_wsbReceive]) and the tables of reason codes.
    - MsgExpiry: server_engine/src/messageExpiry.c, what a queue keeps to know when
      its messages expire.
    - SimpQueue: server_engine/src/simpQ.c, a queue as a chain of pages in a heap, with
      puts, gets, delivery, expiry, discarding, commits and deletion.  The calls to the
      rest of the engine (use counts of messages, deliveries, the soft log) are a list
      in the state.  SimpQueuePages has the invariant of the pages, SimpQueuePut the
      put cursor, SimpQueueOps the whole queue over its slots, SimpQueueCorrect the
      queue as a list of messages, SimpQueueDelete the deletion, SimpQueueExamples
      concrete queues.

    Allocation can fail.  In the topic strings, the topic tree, the lists of
    subscriptions, the hash table and the simple queue, functions that allocate take
    an oracle [mem : nat -> bool] and the number of allocations made so far; their
    theorems hold for every oracle, or say where they ask for memory.  In the tree the
    number of an allocation is also the address of what it returns, and in the simple
    queue as well.  The output buffers (Buffer) take an [allocator] instead.  The
    theorems about what is written to them (Content, MQTT properties and variable
    length integers) ask that every request is met ([alloc_total]) and that the sizes
    stay below 2^30: without memory the code drops bytes or writes through a null
    pointer, which is shown by [byte_dropped_without_memory] and
    [put_without_memory_crashes].  The frames of MqttFrame hold for every oracle, a
    crash for want of memory being one of the outcomes.

    ** What the theorems show

    - Content.  What a put writes is given exactly, and a get reads it back
      ([put_object_exact], [content_roundtrip]); a property is found by its name
      ([find_property_by_name]).  The encodings of float zero, characters and long
      transaction ids do not fit their readers ([float_zero_desynchronizes],
      [find_property_hangs_on_char], [long_xid_misread]), and negative shorts come
      back as positive numbers ([short_sign_lost]).
    - Hash table.  Each operation refines the operation of a finite map and keeps the
      table's invariant ([get_refines], [put_refines], [remove_refines],
      [resize_refines], [remove_empty_refines], [traverse_visits_all]); a resize that
      runs out of memory does not ([failed_resize_dangles]).
    - Topic strings.  The analysis splits a string at its slashes, whatever its length
      up to the bound, or fails for lack of memory ([analyse_splits_levels]); what
      the validation accepts is characterised ([validate_characterised]), which is not
      quite what its remark says ([validation_remark_differs]).
    - Topic tree.  A search returns exactly the active nodes whose filter matches the
      topic by the MQTT rules, system topics included, without duplicates
      ([search_exact]); inserting a filter adds its node and keeps the others
      ([insert_adds_filter]), and a filter that is there is found
      ([insert_finds_filter]); removing an inactive node takes away the nodes that
      lead to nothing else and no others ([remove_inactive]).
    - Lists of subscriptions: [add_subscription], [remove_subscription], and what
      failures leave behind ([add_active_rolled_back],
      [remove_active_lost_on_failure]).
    - Waiter.  For any number of threads and every interleaving: mutual exclusion
      ([waiter_mutual_exclusion]); no assertion fails if the application keeps the
      contract of the message callback ([waiter_never_fails]); consumer references and
      callbacks balance as long as no queue is dumped and none is resumed while it is
      being deleted ([waiter_balanced], [waiter_release_is_covered]); and the lock is
      never lost ([waiter_lock_not_lost]).  For one thread: what each operation does in
      each state ([complete_acts_on_every_bit], [resume_outcome], [disable_outcome]).
      Departures from the intent: [dump_over_releases], [dump_enables_disconnected],
      [declining_without_suspending_fails], [simple_term_spins],
      [delivery_status_characterised].
    - UTF-8.  What the validation accepts is exactly the encodings of allowed
      characters ([utf8_exact]); what the repair makes of a valid string
      ([replace_valid]), which can be an invalid one ([replace_breaks]).
    - MQTT.  A stream of packets is cut into the same packets however the bytes arrive
      ([frames_refine_stream]), unless memory is wanting
      ([frame_without_memory_crashes]).  Variable length integers: [varint_exact],
      [varint_roundtrip].  The check of properties agrees with the grammar
      ([check_exact]), what is written is found again ([properties_roundtrip],
      [get_property]).  Acknowledgements ([ack_short], [ack_long_misread],
      [ack_error_forgotten]), property searches that stop at binary data ([bytes_end_search]), and reason codes
      ([error_stays_error], [granted_qos_not_allowed]).
    - Simple queue.  Any sequence of operations on a new queue behaves as on a list of
      messages, first in, first out, with the documented refusals, and always returns
      ([simple_queue_refines]); a transaction's put at its commit ([commit_puts]);
      reaping removes the expired messages ([reap_removes_expired]); deletion frees
      every page and releases every message ([deletion_frees_all]).  Three departures
      from the intent: [unlimited_queue_discards], [expiry_lost_after_failure],
      [reap_paths_disagree].

    ** Fuel

    Loops that are not structural take fuel, and the theorems say that the fuel used
    is enough: the analysis of a topic runs once per character and once more; the
    property search advances at least a byte per item (where it does not, it hangs,
    which is a theorem); the search of the tree descends to nodes with larger
    addresses, so that the number of nodes is enough; the removal of duplicates
    restarts at most once per result; the loops of a simple queue pass at most two
    nodes per message that was put.  A thread that owns the waiter's lock reaches its
    next decision, or returns, within 60 instructions when it is not disturbed.

    ** Not modelled

    The store, transport, administration, monitoring, the bridges and the proxy do
    I/O or wrap other libraries.  The cluster code is C++; the web UI, the clients
    and the plug-ins are Java.  In the modelled parts: tracing, statistics and the
    memory accounting of [iemem_*] are left out; compiled regular expressions are a
    parameter; the read-write locks around the tree are assumed held, as the
    functions' comments require; atomic instructions are sequentially consistent.
    Around the waiter, the delivery loops are those of the simple queue, and a call
    made from inside another operation is a thread of its own, which is enough for
    safety; [ieq_drain] is called by unit tests only and is not among the operations.

    In the simple queue operations run one at a time, under their locks; the
    interleaving of the getter with others is the subject of WaiterCorrect.  Whether a
    try-lock succeeds and how many messages the consumer takes are inputs.

    ** Plan

    Next: the message selector and the topic and LIKE matching of
    server_utils/src/filter.c; the topics tree of retained messages (topicTree.c); the
    intermediate queue (intermediateQ.c); the lock manager and transactions of the
    engine. *)

From Stdlib Require Export ZArith Lia Bool.
From stdpp Require Export base tactics numbers option decidable.
From stdpp Require Export list.

#[global] Open Scope Z_scope.

(** ** Machine integers

    C integers are modelled by [Z] with the wrap-around written out: [wrapu w]
    is conversion to an unsigned [w]-bit type, [wraps w] conversion to a signed
    one (two's complement, as on x86-64, the only supported target). *)
Definition wrapu (w v : Z) : Z := v mod 2 ^ w.
Definition wraps (w v : Z) : Z := (v + 2 ^ (w - 1)) mod 2 ^ w - 2 ^ (w - 1).

Abbreviation u8 := (wrapu 8).
Abbreviation u16 := (wrapu 16).
Abbreviation u32 := (wrapu 32).
Abbreviation u64 := (wrapu 64).
Abbreviation i8 := (wraps 8).
Abbreviation i16 := (wraps 16).
Abbreviation i32 := (wraps 32).
Abbreviation i64 := (wraps 64).

Definition is_byte (v : Z) : Prop := 0 <= v < 256.
Definition is_i32 (v : Z) : Prop := - 2 ^ 31 <= v < 2 ^ 31.
Definition is_i64 (v : Z) : Prop := - 2 ^ 63 <= v < 2 ^ 63.

#[global] Instance is_byte_dec v : Decision (is_byte v).
Proof. unfold is_byte; apply _. Defined.
#[global] Instance is_i32_dec v : Decision (is_i32 v).
Proof. unfold is_i32; apply _. Defined.
#[global] Instance is_i64_dec v : Decision (is_i64 v).
Proof. unfold is_i64; apply _. Defined.

Create HintDb amlen discriminated.

Section Wrapping.
Context (w : Z) (Hw : 0 < w).

Lemma wrapu_range v : 0 <= wrapu w v < 2 ^ w.
Proof. apply Z.mod_pos_bound, Z.pow_pos_nonneg; lia. Qed.

Lemma wrapu_small v : 0 <= v < 2 ^ w -> wrapu w v = v.
Proof. intros; by apply Z.mod_small. Qed.

Lemma wrapu_idemp v : wrapu w (wrapu w v) = wrapu w v.
Proof. apply wrapu_small, wrapu_range. Qed.

Lemma pow2_half : 2 ^ w = 2 * 2 ^ (w - 1).
Proof. replace w with (1 + (w - 1)) at 1 by lia. rewrite Z.pow_add_r by lia. lia. Qed.

Lemma wraps_range v : - 2 ^ (w - 1) <= wraps w v < 2 ^ (w - 1).
Proof.
  unfold wraps. pose proof (Z.mod_pos_bound (v + 2 ^ (w - 1)) (2 ^ w)).
  pose proof (Z.pow_pos_nonneg 2 w). rewrite pow2_half in *. lia.
Qed.

Lemma wraps_small v : - 2 ^ (w - 1) <= v < 2 ^ (w - 1) -> wraps w v = v.
Proof.
  intros Hv. unfold wraps. rewrite Z.mod_small by (rewrite pow2_half; lia). lia.
Qed.

Lemma wraps_wrapu v : wraps w (wrapu w v) = wraps w v.
Proof.
  unfold wraps, wrapu. rewrite Zplus_mod_idemp_l. reflexivity.
Qed.

Lemma wrapu_wraps v : wrapu w (wraps w v) = wrapu w v.
Proof.
  unfold wraps, wrapu. rewrite Zminus_mod_idemp_l. f_equal. lia.
Qed.

Lemma wraps_mul_add_idemp a m c : wraps w (wraps w a * m + c) = wraps w (a * m + c).
Proof.
  rewrite <-(wraps_wrapu (wraps w a * m + c)), <-(wraps_wrapu (a * m + c)). f_equal.
  unfold wrapu. rewrite <-(Zplus_mod_idemp_l (wraps w a * m)), <-(Zplus_mod_idemp_l (a * m)).
  rewrite <-(Zmult_mod_idemp_l (wraps w a)), <-(Zmult_mod_idemp_l a).
  fold (wrapu w (wraps w a)). by rewrite wrapu_wraps.
Qed.

Lemma wraps_0 : wraps w 0 = 0.
Proof. apply wraps_small. pose proof (Z.pow_pos_nonneg 2 (w - 1)). lia. Qed.
End Wrapping.

(** Closes a goal [wrapu w v = v] / [wraps w v = v] with [w] a numeral. *)
Ltac wrap_small :=
  first [ apply wrapu_small | apply wraps_small ]; simpl Z.sub; lia.

(** Closes [Forall is_byte l] for a list of numerals. *)
Ltac is_bytes := repeat first [apply Forall_cons_2 | apply Forall_nil_2]; unfold is_byte; lia.

(** ** Outcomes of C code

    [Crash]: an access outside an object or through a null pointer (undefined
    behaviour).  [Hang]: the fuel of a loop ran out. *)
Inductive outcome (A : Type) : Type :=
  | Ret (a : A)
  | Crash
  | Hang.
Arguments Ret {A} a.
Arguments Crash {A}.
Arguments Hang {A}.

#[global] Instance outcome_ret : MRet outcome := @Ret.
#[global] Instance outcome_bind : MBind outcome := fun A B f m =>
  match m with Ret a => f a | Crash => Crash | Hang => Hang end.

Lemma bind_ret {A B} (a : A) (f : A -> outcome B) : (Ret a ≫= f) = f a.
Proof. reflexivity. Qed.

Lemma ret_inj {A} (a b : A) : Ret a = Ret b -> a = b.
Proof. by intros [= ->]. Qed.

Lemma bind_ret_inv {A B} (m : outcome A) (f : A -> outcome B) r :
  m ≫= f = Ret r -> exists a, m = Ret a /\ f a = Ret r.
Proof. destruct m; simpl; naive_solver. Qed.

Lemma cons_eq_inv {A} (x y : A) l k : x :: l = y :: k -> x = y /\ l = k.
Proof. by intros [= -> ->]. Qed.

(** ** Return codes (server_utils/include/ismrc.h) *)

Definition OK : Z := 0.
Definition ISMRC_NoMsgAvail : Z := 11.
Definition ISMRC_ExistingKey : Z := 19.
Definition ISMRC_AllocateError : Z := 103.
Definition ISMRC_NotFound : Z := 113.
Definition ISMRC_DestNotValid : Z := 124.
Definition ISMRC_InvalidParameter : Z := 207.

(** ** Lists *)

Lemma filter_all {A} (P : A -> Prop) `{!forall x, Decision (P x)} l : Forall P l -> filter P l = l.
Proof. induction 1; [done|]. rewrite filter_cons_True by done. by f_equal. Qed.

(** ** Big-endian numbers *)

(** The [n] low-order bytes of [v], most significant first. *)
Fixpoint be_bytes (n : nat) (v : Z) : list Z :=
  match n with
  | O => []
  | S n => u8 (Z.shiftr v (8 * Z.of_nat n)) :: be_bytes n v
  end.

Definition be_val (bs : list Z) : Z := foldl (fun acc c => acc * 256 + c) 0 bs.

Lemma length_be_bytes n v : length (be_bytes n v) = n.
Proof. induction n; simpl; auto. Qed.

Lemma be_bytes_byte n v : Forall is_byte (be_bytes n v).
Proof. induction n; simpl; constructor; auto. apply (wrapu_range 8); lia. Qed.

Lemma foldl_be_acc bs acc :
  foldl (fun acc c => acc * 256 + c) acc bs = acc * 256 ^ Z.of_nat (length bs) + be_val bs.
Proof.
  unfold be_val. revert acc. induction bs as [|c bs IH]; intros acc; simpl foldl.
  - simpl. lia.
  - rewrite IH. change (0 * 256 + c) with c. rewrite (IH c). simpl length.
    rewrite Nat2Z.inj_succ, Z.pow_succ_r by lia. lia.
Qed.

Lemma be_val_cons c bs : be_val (c :: bs) = c * 256 ^ Z.of_nat (length bs) + be_val bs.
Proof. unfold be_val at 1. simpl foldl. apply foldl_be_acc. Qed.

Lemma pow256 n : 256 ^ Z.of_nat n = 2 ^ (8 * Z.of_nat n).
Proof. rewrite Z.pow_mul_r by lia. reflexivity. Qed.

Lemma be_val_be_bytes n v : be_val (be_bytes n v) = v mod 256 ^ Z.of_nat n.
Proof.
  induction n as [|n IH].
  - simpl. by rewrite Z.mod_1_r.
  - simpl be_bytes. rewrite be_val_cons, IH, length_be_bytes.
    rewrite Nat2Z.inj_succ, (Z.pow_succ_r 256) by lia.
    rewrite (Z.mul_comm 256), (Z.rem_mul_r v (256 ^ Z.of_nat n) 256);
      [|apply Z.pow_nonzero; lia|lia].
    unfold wrapu. rewrite Z.shiftr_div_pow2, <-pow256 by lia.
    change (2 ^ 8) with 256. lia.
Qed.

Lemma be_val_range bs : Forall is_byte bs -> 0 <= be_val bs < 256 ^ Z.of_nat (length bs).
Proof.
  induction 1 as [|c bs Hc Hbs IH]; [vm_compute; split; congruence|].
  rewrite be_val_cons. simpl length. rewrite Nat2Z.inj_succ, Z.pow_succ_r by lia.
  unfold is_byte in Hc. nia.
Qed.

(** ** Bits *)

(** A decidable fact about bytes, by trying them all. *)
Lemma byte_cases (P : Z -> bool) : forallb P (seqZ 0 256) = true -> forall c, is_byte c -> P c = true.
Proof.
  intros H c Hc. rewrite forallb_forall in H. apply H.
  rewrite <-list_elem_of_In, elem_of_seqZ. unfold is_byte in Hc. lia.
Qed.

(** Bits below and above a position. *)
Lemma lor_shiftl k h l : 0 <= k -> 0 <= l < 2 ^ k -> Z.lor (Z.shiftl h k) l = h * 2 ^ k + l.
Proof.
  intros Hk Hl. assert (Z.land (Z.shiftl h k) l = 0) as E.
  { apply Z.bits_inj'. intros n Hn. rewrite Z.land_spec, Z.bits_0.
    destruct (Z.ltb_spec n k); [by rewrite Z.shiftl_spec_low by lia|].
    rewrite <-(Z.mod_small l (2 ^ k)) by lia. by rewrite Z.mod_pow2_bits_high, andb_false_r by lia. }
  pose proof (Z.add_lor_land (Z.shiftl h k) l) as A. rewrite E, Z.shiftl_mul_pow2 in A by lia.
  rewrite Z.shiftl_mul_pow2 by lia. lia.
Qed.

(** ** Strings of C *)

(** The bytes of a C string: everything up to the first null. *)
Fixpoint until_nul (bs : list Z) : list Z :=
  match bs with
  | [] => []
  | c :: bs => if c =? 0 then [] else c :: until_nul bs
  end.

Definition is_char (c : Z) : Prop := 0 < c < 256.
Definition is_cstr (s : list Z) : Prop := Forall is_char s.

#[global] Instance is_char_dec c : Decision (is_char c).
Proof. unfold is_char; apply _. Defined.
#[global] Instance is_cstr_dec s : Decision (is_cstr s).
Proof. unfold is_cstr; apply _. Defined.

Lemma until_nul_app s rest : is_cstr s -> until_nul (s ++ 0 :: rest) = s.
Proof.
  induction 1 as [|c s Hc Hs IH]; [done|]. simpl. unfold is_char in Hc.
  destruct (Z.eqb_spec c 0); [lia|]. by rewrite IH.
Qed.

Lemma is_cstr_bytes s : is_cstr s -> Forall is_byte s.
Proof. intros Hs. eapply Forall_impl; [exact Hs|]. unfold is_char, is_byte. lia. Qed.

#[export] Hint Resolve be_bytes_byte is_cstr_bytes : amlen.
