(* ===== verification/Buffer.v ===== *)
(** * Allocation buffers

    [concat_alloc_t] (server_utils/include/ismutil.h), the growable byte buffer
    that the encoders of the server write to and its decoders read from, with
    [ensureBuffer] of server_utils/src/content.c.  Bytes are unsigned values
    [0..255]; [i8] gives the value of a (signed) [char]. *)

From S2P Require Import Prelude.

(** ** Model *)

(** [cbuf] holds the allocated bytes, so an index outside it is an access
    outside the object.  The [compact] and [resv] members belong to the JSON
    writer and are not used by the code modelled here. *)
Record concat_alloc_t := mk_concat {
  cbuf : list Z;
  clen : Z;
  cused : Z;
  cpos : Z;
  cinheap : bool
}.

Definition set_buf (b : concat_alloc_t) v := mk_concat v (clen b) (cused b) (cpos b) (cinheap b).
Definition set_used (b : concat_alloc_t) v := mk_concat (cbuf b) (clen b) v (cpos b) (cinheap b).
Definition set_pos (b : concat_alloc_t) v := mk_concat (cbuf b) (clen b) (cused b) v (cinheap b).

(** [buf[i]], as an unsigned byte. *)
Definition rd (b : concat_alloc_t) (i : Z) : outcome Z :=
  if decide (0 <= i) then
    match cbuf b !! Z.to_nat i with Some v => Ret v | None => Crash end
  else Crash.

(** [buf[i] = (char)v]. *)
Definition wr (b : concat_alloc_t) (i v : Z) : outcome concat_alloc_t :=
  if decide (0 <= i < Z.of_nat (length (cbuf b)))
  then Ret (set_buf b (<[Z.to_nat i := u8 v]> (cbuf b)))
  else Crash.

(** [buf[used++] = (char)v]. *)
Definition putc (v : Z) (b : concat_alloc_t) : outcome concat_alloc_t :=
  b ← wr b (cused b) v; Ret (set_used b (cused b + 1)).

(** [memcpy(buf + off, src, n)]: fails when [n] is negative (a huge [size_t]),
    when [src] has fewer than [n] bytes, or when the destination is too small. *)
Definition memcpy_at (b : concat_alloc_t) (off : Z) (src : list Z) (n : Z) : outcome concat_alloc_t :=
  if decide (0 <= n <= Z.of_nat (length src) /\ 0 <= off /\ off + n <= Z.of_nat (length (cbuf b))) then
    Ret (set_buf b (take (Z.to_nat off) (cbuf b) ++ take (Z.to_nat n) src
                    ++ drop (Z.to_nat (off + n)) (cbuf b)))
  else Crash.

(** [memcpy(buf + used, src, n); used += n]. *)
Definition putbytes (src : list Z) (n : Z) (b : concat_alloc_t) : outcome concat_alloc_t :=
  b ← memcpy_at b (cused b) src n; Ret (set_used b (cused b + n)).

(** The allocator: whether a request for [n] bytes is met, and the (arbitrary)
    initial contents of the memory it returns. *)
Record allocator := mk_allocator {
  alloc_ok : Z -> bool;
  alloc_junk : Z -> list Z
}.

Definition alloc_bytes (mem : allocator) (n : Z) : list Z :=
  if alloc_ok mem n then
    take (Z.to_nat n) (alloc_junk mem n ++ replicate (Z.to_nat n) 0)
  else [].

(** [while (newsize < need) newsize *= 2;] *)
Fixpoint grow_size (fuel : nat) (newsize need : Z) : outcome Z :=
  if newsize <? need then
    match fuel with
    | O => Hang
    | S fuel => grow_size fuel (i32 (newsize * 2)) need
    end
  else Ret newsize.

(** The doubling starts at 2^15, so 16 rounds reach every representable size. *)
Definition grow_fuel : nat := 40.

(** The [newsize] bytes that [realloc], or [malloc] and the copy of what was
    written, leave in the buffer. *)
Definition moved_bytes (mem : allocator) (b : concat_alloc_t) (newsize : Z) : list Z :=
  let keep := if cinheap b then clen b
              else if cused b >? clen b then clen b else cused b in
  take (Z.to_nat keep) (cbuf b) ++ drop (Z.to_nat keep) (alloc_bytes mem newsize).

Definition ensureBuffer (mem : allocator) (b : concat_alloc_t) (n : Z) : outcome concat_alloc_t :=
  if cused b + n + 7 >? clen b then
    newsize ← grow_size grow_fuel (32 * 1024) (cused b + n + 7);
    let buf := if alloc_ok mem newsize then moved_bytes mem b newsize else [] in
    Ret (mk_concat buf newsize (cused b) (cpos b) true)
  else Ret b.

(** Without memory nothing is written: a buffer on the heap stays as it was, one
    on the stack loses its bytes.  The callers do not look at the pointer that is
    returned. *)
Definition ism_common_allocBufferCopyLen (mem : allocator) (newbuf : list Z) (len : Z)
    (b : concat_alloc_t) : outcome concat_alloc_t :=
  if cused b + len >? clen b then
    newsize ← grow_size grow_fuel (64 * 1024) (cused b + len);
    if alloc_ok mem newsize then
      putbytes newbuf len (mk_concat (moved_bytes mem b newsize) newsize (cused b) (cpos b) true)
    else Ret (if cinheap b then b else set_buf b [])
  else putbytes newbuf len b.

(** [bputchar] of server_utils/src/filter.c *)
Definition bputchar (mem : allocator) (ch : Z) (b : concat_alloc_t) : outcome concat_alloc_t :=
  if cused b + 1 <? clen b then putc ch b
  else ism_common_allocBufferCopyLen mem [u8 ch] 1 b.

(** ** Invariant and abstraction *)

(** What has been written: the first [used] bytes. *)
Definition contents (b : concat_alloc_t) : list Z := take (Z.to_nat (cused b)) (cbuf b).

Record buf_wf (b : concat_alloc_t) : Prop := {
  wf_len : clen b = Z.of_nat (length (cbuf b));
  wf_used : 0 <= cused b <= clen b;
  wf_bytes : Forall is_byte (cbuf b)
}.

(** The allocator serves every request, with bytes. *)
Definition alloc_total (mem : allocator) : Prop :=
  forall n, alloc_ok mem n = true /\ Forall is_byte (alloc_junk mem n).

(** [f] appends exactly [bs] to any well-formed buffer that has room for it,
    and touches nothing else. *)
Definition emits (f : concat_alloc_t -> outcome concat_alloc_t) (bs : list Z) : Prop :=
  forall b, buf_wf b -> cused b + Z.of_nat (length bs) <= clen b ->
  exists b', f b = Ret b' /\ buf_wf b' /\ contents b' = contents b ++ bs
    /\ clen b' = clen b /\ cpos b' = cpos b
    /\ cused b' = cused b + Z.of_nat (length bs).

(** As [emits], for a function that makes its own room: all it needs is that the
    sizes stay below [2^30], where the growth of the buffer is exact. *)
Definition emits_grow (mem : allocator) (f : concat_alloc_t -> outcome concat_alloc_t)
    (bs : list Z) : Prop :=
  forall b, buf_wf b -> cused b + Z.of_nat (length bs) + 16 <= 2 ^ 30 ->
  exists b', f b = Ret b' /\ buf_wf b' /\ contents b' = contents b ++ bs
    /\ cpos b' = cpos b
    /\ cused b' = cused b + Z.of_nat (length bs).

(** ** Lemmas *)

Lemma length_contents b : buf_wf b -> Z.of_nat (length (contents b)) = cused b.
Proof. intros [? ? ?]. unfold contents. rewrite length_take. lia. Qed.

Lemma u8_byte v : is_byte (u8 v).
Proof. apply (wrapu_range 8); lia. Qed.

Lemma emits_nil : emits Ret [].
Proof.
  intros b Hb Hr. exists b. rewrite app_nil_r. simpl in *.
  repeat split; auto; try apply Hb; lia.
Qed.

Lemma emits_bind f g bs cs :
  emits f bs -> emits g cs -> emits (fun b => f b ≫= g) (bs ++ cs).
Proof.
  intros Hf Hg b Hb Hr. rewrite length_app, Nat2Z.inj_add in Hr.
  destruct (Hf b Hb ltac:(lia)) as (b1 & -> & Hb1 & Hc1 & Hl1 & Hp1 & Hu1).
  destruct (Hg b1 Hb1 ltac:(lia)) as (b2 & E & Hb2 & Hc2 & Hl2 & Hp2 & Hu2).
  exists b2. rewrite bind_ret, E, Hc2, Hc1, <-app_assoc, length_app, Nat2Z.inj_add.
  split; [done|]. split; [done|]. split; [done|]. lia.
Qed.

Lemma emits_ext f g bs : (forall b, f b = g b) -> emits f bs -> emits g bs.
Proof. intros E H b. rewrite <-E. apply H. Qed.

Lemma emits_putbytes src n :
  0 <= n <= Z.of_nat (length src) -> Forall is_byte src ->
  emits (putbytes src n) (take (Z.to_nat n) src).
Proof.
  intros Hn Hs b Hb Hr. destruct Hb as [Hl Hu Hby].
  rewrite length_take in Hr |- *.
  unfold putbytes, memcpy_at. rewrite decide_True by lia. simpl.
  eexists. split; [done|].
  assert (Hlen : length (take (Z.to_nat (cused b)) (cbuf b) ++ take (Z.to_nat n) src
            ++ drop (Z.to_nat (cused b + n)) (cbuf b)) = length (cbuf b)).
  { rewrite !length_app, !length_take, length_drop. lia. }
  split; [split|split].
  - simpl. by rewrite Hlen.
  - simpl. lia.
  - simpl. rewrite !Forall_app. auto using Forall_take, Forall_drop.
  - unfold contents; simpl. rewrite app_assoc, take_app_le by (rewrite length_app, !length_take; lia).
    rewrite take_ge; [done|]. rewrite length_app, !length_take; lia.
  - simpl. split; [done|]. split; [done|]. lia.
Qed.

Lemma putc_putbytes v b : buf_wf b -> cused b + 1 <= clen b -> putc v b = putbytes [u8 v] 1 b.
Proof.
  intros [Hl Hu _] Hr. unfold putc, wr, putbytes, memcpy_at. simpl length.
  rewrite !decide_True by lia. simpl. do 2 f_equal. unfold set_buf. f_equal.
  change (Pos.to_nat 1) with 1%nat. simpl.
  rewrite Z2Nat.inj_add by lia. change (Z.to_nat 1) with 1%nat.
  rewrite insert_take_drop by lia. by rewrite Nat.add_1_r.
Qed.

Lemma emits_putc v : emits (putc v) [u8 v].
Proof.
  intros b Hb Hr. simpl in Hr. rewrite putc_putbytes by (auto; lia).
  apply (emits_putbytes [u8 v] 1); simpl; auto using Forall_singleton; [lia|].
  apply Forall_singleton, u8_byte.
Qed.

Lemma emits_putc_cons v c g cs :
  u8 v = c -> emits g cs -> emits (fun b => putc v b ≫= g) (c :: cs).
Proof. intros <- Hg. exact (emits_bind _ _ [_] _ (emits_putc v) Hg). Qed.

Lemma emits_putc_eq v c : u8 v = c -> emits (putc v) [c].
Proof. intros <-. apply emits_putc. Qed.

Lemma emits_putall bs len :
  len = Z.of_nat (length bs) -> Forall is_byte bs -> emits (putbytes bs len) bs.
Proof.
  intros -> Hbs. pose proof (emits_putbytes bs (Z.of_nat (length bs)) ltac:(lia) Hbs) as H.
  by rewrite Nat2Z.id, take_ge in H by lia.
Qed.

Lemma grow_size_ok fuel k need :
  (k <= 30)%nat -> (30 - k <= fuel)%nat -> need <= 2 ^ 30 ->
  exists s, grow_size fuel (2 ^ Z.of_nat k) need = Ret s /\ need <= s <= 2 ^ 30.
Proof.
  revert k. induction fuel as [|fuel IH]; intros k Hk Hf Hn; simpl;
    destruct (Z.ltb_spec (2 ^ Z.of_nat k) need) as [H|H].
  - assert (k = 30)%nat as -> by lia. simpl in H. lia.
  - eexists. split; [done|]. split; [lia|]. apply Z.pow_le_mono_r; lia.
  - assert (k <> 30)%nat by (intros ->; simpl in H; lia).
    rewrite (wraps_small 32); [|lia|].
    + destruct (IH (S k)) as (s & E & Hs); [lia..|].
      exists s. rewrite <-E. split; [|done]. f_equal.
      rewrite Nat2Z.inj_succ, Z.pow_succ_r by lia. lia.
    + assert (2 ^ Z.of_nat k <= 2 ^ 29) by (apply Z.pow_le_mono_r; lia).
      pose proof (Z.pow_pos_nonneg 2 (Z.of_nat k)). simpl Z.sub. lia.
  - eexists. split; [done|]. split; [lia|]. apply Z.pow_le_mono_r; lia.
Qed.

Lemma length_alloc_bytes mem n :
  alloc_ok mem n = true -> length (alloc_bytes mem n) = Z.to_nat n.
Proof.
  intros E. unfold alloc_bytes. rewrite E, length_take, length_app, length_replicate. lia.
Qed.

Lemma alloc_bytes_byte mem n : alloc_total mem -> Forall is_byte (alloc_bytes mem n).
Proof.
  intros H. destruct (H n) as [E Hj]. unfold alloc_bytes. rewrite E.
  apply Forall_take, Forall_app. split; [done|]. apply Forall_replicate. unfold is_byte; lia.
Qed.

(** A buffer that was moved to [newsize] bytes holds what it held. *)
Lemma moved_ok mem b newsize :
  alloc_total mem -> buf_wf b -> clen b <= newsize \/ cused b <= newsize /\ cinheap b = false ->
  let b' := mk_concat (moved_bytes mem b newsize) newsize (cused b) (cpos b) true in
  buf_wf b' /\ contents b' = contents b.
Proof.
  intros Hm [Hl Hu Hby] Hs. destruct (Hm newsize) as [Ok Hj]. simpl. unfold moved_bytes.
  set (keep := if cinheap b then _ else _).
  assert (Hkeep : cused b <= keep <= clen b /\ keep <= newsize).
  { subst keep. destruct (cinheap b); [naive_solver lia|].
    destruct (Z.gtb_spec (cused b) (clen b)); lia. }
  assert (Hlen : length (take (Z.to_nat keep) (cbuf b) ++ drop (Z.to_nat keep) (alloc_bytes mem newsize))
                 = Z.to_nat newsize).
  { rewrite length_app, length_take, length_drop, length_alloc_bytes by done. lia. }
  split; [split|].
  - simpl. rewrite Hlen. lia.
  - simpl. lia.
  - simpl. apply Forall_app. split; [by apply Forall_take|]. by apply Forall_drop, alloc_bytes_byte.
  - unfold contents; simpl. rewrite take_app_le by (rewrite length_take; lia).
    rewrite take_take. f_equal. lia.
Qed.

(** After [ensureBuffer(b, n)] there is room for [n + 7] more bytes and what
    was written is unchanged. *)
Lemma ensureBuffer_ok mem b n :
  alloc_total mem -> buf_wf b -> 0 <= n -> cused b + n + 7 <= 2 ^ 30 ->
  exists b', ensureBuffer mem b n = Ret b' /\ buf_wf b' /\ contents b' = contents b
    /\ cused b' = cused b /\ cpos b' = cpos b /\ cused b + n + 7 <= clen b'.
Proof.
  intros Hm Hb Hn Hs. unfold ensureBuffer. rewrite Z.gtb_ltb.
  destruct (Z.ltb_spec (clen b) (cused b + n + 7)) as [H|H]; [|eauto 10].
  destruct (grow_size_ok grow_fuel 15 (cused b + n + 7)) as (s & E & Hns); [unfold grow_fuel; lia..|].
  change (2 ^ Z.of_nat 15) with (32 * 1024) in E. rewrite E. simpl.
  destruct (Hm s) as [-> _].
  destruct (moved_ok mem b s) as [Hw Hc]; [done..|lia|].
  eexists. split; [done|]. split; [done|]. split; [done|]. simpl. repeat split; lia.
Qed.

(** Making room first turns [emits] into [emits_grow]. *)
Lemma emits_ensure mem f bs n :
  alloc_total mem -> 0 <= n -> n <= Z.of_nat (length bs) + 9 ->
  Z.of_nat (length bs) <= n + 7 ->
  emits f bs -> emits_grow mem (fun b => ensureBuffer mem b n ≫= f) bs.
Proof.
  intros Hm Hn Hn1 Hn2 Hf b Hb Hs.
  destruct (ensureBuffer_ok mem b n) as (b1 & -> & Hb1 & Hc1 & Hu1 & Hp1 & Hl1); [done..|lia|].
  destruct (Hf b1) as (b2 & E & Hb2 & Hc2 & Hl2 & Hp2 & Hu2); [done|lia|].
  exists b2. rewrite bind_ret, E, Hc2, Hc1. repeat split; try apply Hb2; lia.
Qed.

Lemma emits_grow_emits_pre mem f g bs n :
  alloc_total mem -> 0 <= n -> n <= Z.of_nat (length bs) + 9 ->
  emits_grow mem g bs -> (forall b, f b = ensureBuffer mem b n ≫= g) -> emits_grow mem f bs.
Proof.
  intros Hm Hn Hn1 Hg E b Hb Hs. rewrite E.
  destruct (ensureBuffer_ok mem b n) as (b1 & -> & Hb1 & Hc1 & Hu1 & Hp1 & Hl1); [done..|lia|].
  destruct (Hg b1) as (b2 & E2 & Hb2 & Hc2 & Hp2 & Hu2); [done|lia|].
  exists b2. rewrite bind_ret, E2, Hc2, Hc1. repeat split; try apply Hb2; lia.
Qed.

Lemma emits_emits_grow mem f bs :
  (forall b, buf_wf b -> cused b + Z.of_nat (length bs) <= 2 ^ 30 ->
     exists b1, f b = b1 ≫= putbytes bs (Z.of_nat (length bs)) /\
       exists b2, b1 = Ret b2 /\ buf_wf b2 /\ contents b2 = contents b /\ cpos b2 = cpos b
         /\ cused b2 = cused b /\ cused b + Z.of_nat (length bs) <= clen b2) ->
  Forall is_byte bs -> emits_grow mem f bs.
Proof.
  intros H Hbs b Hb Hs. destruct (H b Hb ltac:(lia)) as (? & -> & b2 & -> & Hb2 & Hc & Hp & Hu & Hl).
  destruct (emits_putall bs _ eq_refl Hbs b2 Hb2 ltac:(lia)) as (b3 & E & Hb3 & Hc3 & _ & Hp3 & Hu3).
  exists b3. rewrite bind_ret, E, Hc3, Hc. repeat split; try apply Hb3; lia.
Qed.

Lemma emits_grow_copyLen mem bs len :
  alloc_total mem -> len = Z.of_nat (length bs) -> Forall is_byte bs ->
  emits_grow mem (ism_common_allocBufferCopyLen mem bs len) bs.
Proof.
  intros Hm -> Hbs. apply emits_emits_grow; [|done]. intros b Hb Hs.
  unfold ism_common_allocBufferCopyLen. rewrite Z.gtb_ltb.
  destruct (Z.ltb_spec (clen b) (cused b + Z.of_nat (length bs))) as [H|H].
  2: { exists (Ret b). split; [done|]. exists b. auto 10. }
  destruct (grow_size_ok grow_fuel 16 (cused b + Z.of_nat (length bs))) as (s & E & Hns);
    [unfold grow_fuel; lia..|].
  change (2 ^ Z.of_nat 16) with (64 * 1024) in E. rewrite E. cbn [mbind outcome_bind].
  destruct (Hm s) as [-> _]. destruct (moved_ok mem b s) as [Hw Hc]; [done..|lia|].
  eexists (Ret _). split; [done|]. eexists. split; [done|]. split; [done|]. split; [done|].
  simpl. repeat split; lia.
Qed.

Lemma emits_grow_bputchar mem ch : alloc_total mem -> emits_grow mem (bputchar mem ch) [u8 ch].
Proof.
  intros Hm b Hb Hs. unfold bputchar. destruct (Z.ltb_spec (cused b + 1) (clen b)).
  - destruct (emits_putc ch b Hb) as (b' & E & ? & ? & _ & ? & ?); [simpl; lia|]. eauto 10.
  - apply (emits_grow_copyLen mem [u8 ch] 1); auto using Forall_singleton.
    apply Forall_singleton, u8_byte.
Qed.

Lemma emits_grow_nil mem : emits_grow mem Ret [].
Proof. intros b Hb _. exists b. rewrite app_nil_r. simpl. repeat split; try apply Hb; lia. Qed.

Lemma emits_grow_bind mem f g bs cs :
  emits_grow mem f bs -> emits_grow mem g cs -> emits_grow mem (fun b => f b ≫= g) (bs ++ cs).
Proof.
  intros Hf Hg b Hb Hs. rewrite length_app, Nat2Z.inj_add in Hs.
  destruct (Hf b Hb ltac:(lia)) as (b1 & -> & Hb1 & Hc1 & Hp1 & Hu1).
  destruct (Hg b1 Hb1 ltac:(lia)) as (b2 & E & Hb2 & Hc2 & Hp2 & Hu2).
  exists b2. rewrite bind_ret, E, Hc2, Hc1, <-app_assoc, length_app, Nat2Z.inj_add.
  split; [done|]. split; [done|]. split; [done|]. lia.
Qed.

Lemma emits_grow_ext mem f g bs : (forall b, f b = g b) -> emits_grow mem f bs -> emits_grow mem g bs.
Proof. intros E H b. rewrite <-E. apply H. Qed.

(** Reading inside the written part. *)
Lemma rd_contents b i v :
  buf_wf b -> contents b !! i = Some v -> rd b (Z.of_nat i) = Ret v.
Proof.
  intros Hb E. unfold rd. rewrite decide_True by lia. rewrite Nat2Z.id.
  unfold contents in E. apply lookup_take_Some in E as [E _]. by rewrite E.
Qed.

#[export] Hint Resolve emits_putc emits_nil : amlen.

(** Overwriting a byte of the written part. *)
Lemma wr_inside b i v :
  buf_wf b -> (i < length (contents b))%nat ->
  exists b', wr b (Z.of_nat i) v = Ret b' /\ buf_wf b'
    /\ contents b' = <[i := u8 v]> (contents b)
    /\ clen b' = clen b /\ cpos b' = cpos b /\ cused b' = cused b.
Proof.
  intros Hb Hi. pose proof (length_contents b Hb) as Hlc. destruct Hb as [Hl Hu Hby].
  unfold wr. rewrite decide_True by lia. eexists. split; [done|].
  split; [split|split]; simpl; rewrite ?length_insert; auto.
  - apply Forall_insert; auto using u8_byte.
  - unfold contents; simpl. rewrite Nat2Z.id. by rewrite take_insert_lt by lia.
Qed.

(** Reserving one byte. *)
Lemma reserve_one b :
  buf_wf b -> cused b + 1 <= clen b ->
  exists x, buf_wf (set_used b (cused b + 1)) /\ contents (set_used b (cused b + 1)) = contents b ++ [x].
Proof.
  intros [Hl Hu Hby] Hr.
  destruct (lookup_lt_is_Some_2 (cbuf b) (Z.to_nat (cused b))) as [x Hx]; [lia|].
  exists x. split; [split; simpl; auto; lia|].
  unfold contents; simpl. rewrite Z2Nat.inj_add by lia. change (Z.to_nat 1) with 1%nat.
  rewrite Nat.add_1_r. by apply take_S_r.
Qed.

Lemma emits_len f bs b b' :
  emits f bs -> buf_wf b -> cused b + Z.of_nat (length bs) <= clen b -> f b = Ret b' ->
  buf_wf b' /\ contents b' = contents b ++ bs.
Proof. intros Hf Hb Hr E. destruct (Hf b Hb Hr) as (b2 & E2 & H). rewrite E in E2. simplify_eq. tauto. Qed.

(** [b] has [bs] at its read position, inside its written part. *)
Definition reads_at (b : concat_alloc_t) (bs : list Z) : Prop :=
  0 <= cpos b /\ exists post, drop (Z.to_nat (cpos b)) (contents b) = bs ++ post.

Lemma reads_at_intro b pre bs post :
  contents b = pre ++ bs ++ post -> cpos b = Z.of_nat (length pre) -> reads_at b bs.
Proof.
  intros Hc Hp. split; [lia|]. exists post. rewrite Hp, Nat2Z.id, Hc. by rewrite drop_app_length.
Qed.

Lemma reads_at_bound b bs :
  buf_wf b -> reads_at b bs -> bs <> [] -> cpos b + Z.of_nat (length bs) <= cused b.
Proof.
  intros Hb [Hp [post E]] Hne. pose proof (length_contents b Hb).
  apply (f_equal length) in E. rewrite length_drop, length_app in E.
  destruct bs; [done|]. simpl in *. lia.
Qed.

Lemma reads_at_cons b c bs :
  buf_wf b -> reads_at b (c :: bs) ->
  rd b (cpos b) = Ret c /\ reads_at (set_pos b (cpos b + 1)) bs
  /\ buf_wf (set_pos b (cpos b + 1)) /\ cpos b < cused b.
Proof.
  intros Hb Hr. pose proof (reads_at_bound _ _ Hb Hr ltac:(done)) as Hbd.
  destruct Hr as [Hp [post E]]. simpl length in Hbd.
  split; [|split; [|split; [destruct Hb; by split|lia]]].
  - rewrite <-(Z2Nat.id (cpos b)) by lia. apply rd_contents; [done|].
    rewrite <-(Nat.add_0_r (Z.to_nat (cpos b))), <-lookup_drop, E. done.
  - split; simpl; [lia|]. exists post. unfold contents in *; simpl.
    rewrite Z2Nat.inj_add by lia. change (Z.to_nat 1) with 1%nat.
    rewrite <-drop_drop, E. done.
Qed.

Lemma reads_at_app b bs cs :
  buf_wf b -> reads_at b (bs ++ cs) -> reads_at (set_pos b (cpos b + Z.of_nat (length bs))) cs.
Proof.
  intros Hb [Hp [post E]]. split; simpl; [lia|]. exists post.
  rewrite Z2Nat.inj_add by lia. rewrite Nat2Z.id, <-drop_drop.
  change (contents (set_pos b (cpos b + Z.of_nat (length bs)))) with (contents b).
  rewrite E, <-app_assoc. by rewrite drop_app_length.
Qed.

Lemma reads_at_prefix b bs cs : reads_at b (bs ++ cs) -> reads_at b bs.
Proof. intros [Hp [post E]]. split; [done|]. exists (cs ++ post). by rewrite app_assoc. Qed.

Lemma set_pos_wf b p : buf_wf b -> buf_wf (set_pos b p).
Proof. intros [? ? ?]. by split. Qed.

Lemma set_pos_set_pos b p q : set_pos (set_pos b p) q = set_pos b q.
Proof. done. Qed.

#[export] Hint Resolve set_pos_wf : amlen.

(** ** Requests for memory that are not met *)

(** A byte for which there is neither room nor memory is dropped without notice: a
    buffer on the heap stays as it was, one on the stack loses even its pointer. *)
Theorem byte_dropped_without_memory mem ch b :
  (forall n, alloc_ok mem n = false) -> cused b = clen b -> clen b < 2 ^ 30 ->
  bputchar mem ch b = Ret (if cinheap b then b else set_buf b []).
Proof.
  intros Hm Hu Hl. unfold bputchar, ism_common_allocBufferCopyLen. rewrite Z.gtb_ltb, Hu.
  rewrite (proj2 (Z.ltb_ge _ _)), (proj2 (Z.ltb_lt _ _)) by lia.
  destruct (grow_size_ok grow_fuel 16 (clen b + 1)) as (s & E & _); [unfold grow_fuel; lia..|].
  change (2 ^ Z.of_nat 16) with (64 * 1024) in E. by rewrite E, bind_ret, Hm.
Qed.

(** ** A concrete allocator and buffer, for examples *)

Definition mem0 : allocator := mk_allocator (fun _ => true) (fun _ => []).
Definition buf0 : concat_alloc_t := mk_concat (replicate 64 0) 64 0 0 false.

Lemma mem0_total : alloc_total mem0.
Proof. intros n. split; [reflexivity|constructor]. Qed.

Lemma buf0_wf : buf_wf buf0.
Proof.
  split; [reflexivity|vm_compute; split; congruence|].
  by apply (bool_decide_unpack (Forall is_byte (replicate 64 0))).
Qed.
