(* ===== verification/Content.v ===== *)
(** * The concise content encoding

    server_utils/src/content.c: the typed, variable-length encoding in which the
    server keeps message properties and JMS map and stream bodies.  A value is a
    type byte, which also carries the length or the value of short items,
    followed by its bytes.  The put functions append to a [concat_alloc_t], the
    get functions read at its [pos]. *)

From S2P Require Import Prelude Buffer.

(** ** Types and tables *)

(** [enum S_Type]. *)
Inductive S_Type :=
  | STYPE_Bad | STYPE_Null | STYPE_String | STYPE_StrLen | STYPE_Boolean
  | STYPE_Byte | STYPE_UByte | STYPE_Short | STYPE_UShort | STYPE_Char
  | STYPE_Int | STYPE_UInt | STYPE_Long | STYPE_ULong | STYPE_Float
  | STYPE_Double | STYPE_BArray | STYPE_Name | STYPE_NameLen | STYPE_ID
  | STYPE_Array | STYPE_Time | STYPE_User | STYPE_Map | STYPE_Xid.

#[global] Instance S_Type_eq_dec : EqDecision S_Type.
Proof. solve_decision. Defined.

(** [enum S_Mask]: value masks and the longest in-line lengths. *)
Definition S_FloatValue : Z := 1.
Definition S_DoubleValue : Z := 1.
Definition S_ShortValue : Z := 3.
Definition S_IntValue : Z := 7.
Definition S_LongValue : Z := 15.
Definition S_NameValue : Z := 31.
Definition S_NameMax : Z := 30.
Definition S_StringMax : Z := 60.
Definition S_ByteMax : Z := 20.

(** Type bytes ([enum] of imacontent.h). *)
Definition S_NullString : Z := 0x01.
Definition S_Boolean : Z := 0x02.
Definition S_Float : Z := 0x04.
Definition S_Double : Z := 0x06.
Definition S_ByteLen : Z := 0x10.
Definition S_UByteLen : Z := 0x11.
Definition S_ID : Z := 0x14.
Definition S_Char : Z := 0x1C.
Definition S_StrLen : Z := 0x28.
Definition S_Byte : Z := 0x30.
Definition S_Map : Z := 0x48.
Definition S_Short : Z := 0x50.
Definition S_UShort : Z := 0x54.
Definition S_NameLen : Z := 0x58.
Definition S_Xid : Z := 0x5E.
Definition S_Int : Z := 0x60.
Definition S_UInt : Z := 0x68.
Definition S_Long : Z := 0x70.
Definition S_ByteArray : Z := 0x90.
Definition S_Name : Z := 0xA0.
Definition S_String : Z := 0xC0.

(** Type of each type byte. *)
Definition FieldTypes : list S_Type := [
  STYPE_Bad; STYPE_Null; STYPE_Boolean; STYPE_Boolean; STYPE_Float; STYPE_Float; STYPE_Double; STYPE_Double;
  STYPE_Time; STYPE_Time; STYPE_Bad; STYPE_Bad; STYPE_Bad; STYPE_Bad; STYPE_Bad; STYPE_Bad;
  STYPE_Byte; STYPE_UByte; STYPE_Bad; STYPE_Bad; STYPE_ID; STYPE_ID; STYPE_ID; STYPE_ID;
  STYPE_Bad; STYPE_Bad; STYPE_Bad; STYPE_Bad; STYPE_Char; STYPE_Char; STYPE_Char; STYPE_Char;
  STYPE_Bad; STYPE_User; STYPE_User; STYPE_User; STYPE_User; STYPE_Bad; STYPE_Bad; STYPE_Bad;
  STYPE_StrLen; STYPE_StrLen; STYPE_StrLen; STYPE_StrLen; STYPE_StrLen; STYPE_Bad; STYPE_Bad; STYPE_Bad;
  STYPE_Byte; STYPE_Byte; STYPE_Byte; STYPE_Byte; STYPE_Byte; STYPE_Byte; STYPE_Byte; STYPE_Byte;
  STYPE_Byte; STYPE_Byte; STYPE_Byte; STYPE_Byte; STYPE_Byte; STYPE_Byte; STYPE_Byte; STYPE_Byte;
  STYPE_Byte; STYPE_Byte; STYPE_Byte; STYPE_Byte; STYPE_Byte; STYPE_Bad; STYPE_Bad; STYPE_Bad;
  STYPE_Map; STYPE_Map; STYPE_Map; STYPE_Map; STYPE_Map; STYPE_Bad; STYPE_Bad; STYPE_Bad;
  STYPE_Short; STYPE_Short; STYPE_Short; STYPE_Bad; STYPE_UShort; STYPE_UShort; STYPE_UShort; STYPE_Bad;
  STYPE_NameLen; STYPE_NameLen; STYPE_NameLen; STYPE_NameLen; STYPE_NameLen; STYPE_Bad; STYPE_Xid; STYPE_Bad;
  STYPE_Int; STYPE_Int; STYPE_Int; STYPE_Int; STYPE_Int; STYPE_Bad; STYPE_Bad; STYPE_Bad;
  STYPE_UInt; STYPE_UInt; STYPE_UInt; STYPE_UInt; STYPE_UInt; STYPE_Bad; STYPE_Bad; STYPE_Bad;
  STYPE_Long; STYPE_Long; STYPE_Long; STYPE_Long; STYPE_Long; STYPE_Long; STYPE_Long; STYPE_Long;
  STYPE_Long; STYPE_Bad; STYPE_Bad; STYPE_Bad; STYPE_Bad; STYPE_Bad; STYPE_Bad; STYPE_Bad;
  STYPE_ULong; STYPE_ULong; STYPE_ULong; STYPE_ULong; STYPE_ULong; STYPE_ULong; STYPE_ULong; STYPE_ULong;
  STYPE_ULong; STYPE_Bad; STYPE_Bad; STYPE_Bad; STYPE_Bad; STYPE_Bad; STYPE_Bad; STYPE_Bad;
  STYPE_BArray; STYPE_BArray; STYPE_BArray; STYPE_BArray; STYPE_BArray; STYPE_Bad; STYPE_Bad; STYPE_Bad;
  STYPE_Array; STYPE_Array; STYPE_Array; STYPE_Array; STYPE_Array; STYPE_Bad; STYPE_Bad; STYPE_Bad;
  STYPE_Name; STYPE_Name; STYPE_Name; STYPE_Name; STYPE_Name; STYPE_Name; STYPE_Name; STYPE_Name;
  STYPE_Name; STYPE_Name; STYPE_Name; STYPE_Name; STYPE_Name; STYPE_Name; STYPE_Name; STYPE_Name;
  STYPE_Name; STYPE_Name; STYPE_Name; STYPE_Name; STYPE_Name; STYPE_Name; STYPE_Name; STYPE_Name;
  STYPE_Name; STYPE_Name; STYPE_Name; STYPE_Name; STYPE_Name; STYPE_Name; STYPE_Name; STYPE_Bad;
  STYPE_String; STYPE_String; STYPE_String; STYPE_String; STYPE_String; STYPE_String; STYPE_String; STYPE_String;
  STYPE_String; STYPE_String; STYPE_String; STYPE_String; STYPE_String; STYPE_String; STYPE_String; STYPE_String;
  STYPE_String; STYPE_String; STYPE_String; STYPE_String; STYPE_String; STYPE_String; STYPE_String; STYPE_String;
  STYPE_String; STYPE_String; STYPE_String; STYPE_String; STYPE_String; STYPE_String; STYPE_String; STYPE_String;
  STYPE_String; STYPE_String; STYPE_String; STYPE_String; STYPE_String; STYPE_String; STYPE_String; STYPE_String;
  STYPE_String; STYPE_String; STYPE_String; STYPE_String; STYPE_String; STYPE_String; STYPE_String; STYPE_String;
  STYPE_String; STYPE_String; STYPE_String; STYPE_String; STYPE_String; STYPE_String; STYPE_String; STYPE_String;
  STYPE_String; STYPE_String; STYPE_String; STYPE_String; STYPE_String; STYPE_Bad; STYPE_Bad; STYPE_Bad].

(** Length of an item including its type byte, as the property search skips it. *)
Definition FieldLen : list Z := [
  0; 1; 1; 1; 1; 5; 1; 9; 1; 9; 0; 0; 0; 0; 0; 0;
  2; 2; 0; 0; 0; 2; 3; 3; 0; 0; 0; 0; 0; 0; 0; 0;
  0; 2; 3; 4; 5; 0; 0; 0; 1; 2; 3; 4; 5; 0; 0; 0;
  1; 1; 1; 1; 1; 1; 1; 1; 1; 1; 1; 1; 1; 1; 1; 1;
  1; 1; 1; 1; 1; 0; 0; 0; 1; 2; 3; 4; 5; 0; 0; 0;
  1; 2; 3; 0; 1; 2; 3; 0; 1; 2; 3; 4; 5; 0; 2; 0;
  1; 2; 3; 4; 5; 0; 0; 0; 0; 1; 2; 3; 4; 5; 0; 0;
  1; 2; 3; 4; 5; 6; 7; 8; 9; 0; 0; 0; 0; 0; 0; 0;
  1; 2; 3; 4; 5; 6; 7; 8; 9; 0; 0; 0; 0; 0; 0; 0;
  1; 2; 3; 4; 5; 0; 0; 0; 1; 2; 3; 4; 5; 0; 0; 0;
  1; 2; 3; 4; 5; 6; 7; 8; 9; 10; 11; 12; 13; 14; 15; 16;
  17; 18; 19; 20; 21; 22; 23; 24; 25; 26; 27; 28; 29; 30; 31; 0;
  1; 2; 3; 4; 5; 6; 7; 8; 9; 10; 11; 12; 13; 14; 15; 16;
  17; 18; 19; 20; 21; 22; 23; 24; 25; 26; 27; 28; 29; 30; 31; 32;
  33; 34; 35; 36; 37; 38; 39; 40; 41; 42; 43; 44; 45; 46; 47; 48;
  49; 50; 51; 52; 53; 54; 55; 56; 57; 58; 59; 60; 61; 0; 0; 0].

Definition field_type (otype : Z) : S_Type := nth (Z.to_nat otype) FieldTypes STYPE_Bad.
Definition field_len (otype : Z) : Z := nth (Z.to_nat otype) FieldLen 0.

(** [ism_field_t]: the type tag with the member of the value union that the tag
    selects.  [P] is the type of the [char *] values: a byte string for a value
    handed to a put function, an offset in the buffer for a value that a get
    function returns.  Floats and doubles are given by their bits. *)
Inductive ism_field_t (P : Type) : Type :=
  | VT_Null
  | VT_String (s : option P)
  | VT_ByteArray (s : P) (len : Z)
  | VT_Boolean (i : Z)
  | VT_Byte (i : Z)
  | VT_UByte (i : Z)
  | VT_Short (i : Z)
  | VT_UShort (i : Z)
  | VT_Integer (i : Z)
  | VT_UInt (i : Z)
  | VT_Long (l : Z)
  | VT_ULong (l : Z)
  | VT_Float (bits : Z)
  | VT_Double (bits : Z)
  | VT_Name (s : option P)
  | VT_NameIndex (i : Z)
  | VT_Char (i : Z)
  | VT_Map (s : P) (len : Z)
  | VT_Unset
  | VT_Xid (s : P) (len : Z).
Arguments VT_Null {P}.
Arguments VT_String {P} s.
Arguments VT_ByteArray {P} s len.
Arguments VT_Boolean {P} i.
Arguments VT_Byte {P} i.
Arguments VT_UByte {P} i.
Arguments VT_Short {P} i.
Arguments VT_UShort {P} i.
Arguments VT_Integer {P} i.
Arguments VT_UInt {P} i.
Arguments VT_Long {P} l.
Arguments VT_ULong {P} l.
Arguments VT_Float {P} bits.
Arguments VT_Double {P} bits.
Arguments VT_Name {P} s.
Arguments VT_NameIndex {P} i.
Arguments VT_Char {P} i.
Arguments VT_Map {P} s len.
Arguments VT_Unset {P}.
Arguments VT_Xid {P} s len.

Abbreviation out_field := (ism_field_t Z).
Abbreviation in_field := (ism_field_t (list Z)).

(** ** Getting values *)

(** The loop [while (len-- > 0) val = (val<<8) + (uint8_t)buf[pos++];] *)
Fixpoint get_be_loop (wrap : Z -> Z) (n : nat) (val : Z) (b : concat_alloc_t)
    : outcome (Z * concat_alloc_t) :=
  match n with
  | O => Ret (val, b)
  | S n =>
      c ← rd b (cpos b);
      get_be_loop wrap n (wrap (Z.shiftl val 8 + c)) (set_pos b (cpos b + 1))
  end.

Definition ism_protocol_getByteValue (b : concat_alloc_t) (otype : Z) : outcome (Z * concat_alloc_t) :=
  if otype >=? S_Byte then Ret (otype - S_Byte, b)
  else if cpos b >=? cused b then Ret (0, set_pos b (cused b))
  else c ← rd b (cpos b); Ret (i8 c, set_pos b (cpos b + 1)).

Definition ism_protocol_getShortValue (b : concat_alloc_t) (otype : Z) : outcome (Z * concat_alloc_t) :=
  let len := Z.land otype S_ShortValue in
  if i32 (cpos b + len) >? cused b then Ret (0, set_pos b (cused b))
  else get_be_loop i32 (Z.to_nat len) 0 b.

Definition ism_protocol_getIntValue (b : concat_alloc_t) (otype : Z) : outcome (Z * concat_alloc_t) :=
  let len := Z.land otype S_IntValue in
  if i32 (cpos b + len) >? cused b then Ret (0, set_pos b (cused b))
  else get_be_loop i32 (Z.to_nat len) 0 b.

Definition ism_protocol_getInteger (b : concat_alloc_t) (otype : Z) : outcome (Z * concat_alloc_t) :=
  match field_type otype with
  | STYPE_Boolean => Ret (Z.land otype 1, b)
  | STYPE_Byte => ism_protocol_getByteValue b otype
  | STYPE_UByte => '(v, b) ← ism_protocol_getByteValue b otype; Ret (u8 v, b)
  | STYPE_Short => ism_protocol_getShortValue b otype
  | STYPE_UShort => '(v, b) ← ism_protocol_getShortValue b otype; Ret (u16 v, b)
  | STYPE_Char => ism_protocol_getShortValue b otype
  | STYPE_UInt | STYPE_Int => ism_protocol_getIntValue b otype
  | _ => Ret (-1, b)
  end.

Definition ism_protocol_getLongValue (b : concat_alloc_t) (otype : Z) : outcome (Z * concat_alloc_t) :=
  let len := Z.land otype S_LongValue in
  if i32 (cpos b + len) >? cused b then Ret (0, set_pos b (cused b))
  else get_be_loop i64 (Z.to_nat len) 0 b.

(** The bits of the float: [0.0] has all bits clear. *)
Definition ism_protocol_getFloatValue (b : concat_alloc_t) (otype : Z) : outcome (Z * concat_alloc_t) :=
  if Z.land otype S_FloatValue =? 0 then Ret (0, b)
  else ism_protocol_getIntValue b 4.

Definition ism_protocol_getDoubleValue (b : concat_alloc_t) (otype : Z) : outcome (Z * concat_alloc_t) :=
  if Z.land otype S_DoubleValue =? 0 then Ret (0, b)
  else ism_protocol_getLongValue b 8.

(** Bounds check and advance shared by the string and name getters: the offset
    of the bytes, [None] for a null pointer. *)
Definition get_span (b : concat_alloc_t) (len : Z) : option Z * concat_alloc_t :=
  if i32 (cpos b + len) >? cused b then (None, set_pos b (cused b))
  else (Some (cpos b), set_pos b (i32 (cpos b + len))).

Definition ism_protocol_getStringValue (b : concat_alloc_t) (otype : Z)
    : outcome (option Z * concat_alloc_t) :=
  match field_type otype with
  | STYPE_StrLen =>
      '(len, b) ← ism_protocol_getIntValue b (otype - S_StrLen);
      Ret (get_span b len)
  | STYPE_String => Ret (get_span b (Z.land otype 0x3f))
  | _ => Ret (None, b)
  end.

Definition ism_protocol_getByteArrayValue (b : concat_alloc_t) (otype : Z)
    : outcome (Z * out_field * concat_alloc_t) :=
  match field_type otype with
  | STYPE_BArray =>
      '(len, b) ← ism_protocol_getIntValue b (otype - S_ByteArray);
      if i32 (cpos b + len) >? cused b then Ret (2, VT_Null, set_pos b (cused b))
      else Ret (0, VT_ByteArray (cpos b) len, set_pos b (i32 (cpos b + len)))
  | STYPE_Null => Ret (0, VT_Null, b)
  | _ => Ret (1, VT_Null, b)
  end.

Definition ism_protocol_getUserValue (b : concat_alloc_t) (otype : Z)
    : outcome (Z * out_field * concat_alloc_t) :=
  match field_type otype with
  | STYPE_User =>
      '(len, b) ← ism_protocol_getIntValue b (Z.land otype S_IntValue);
      Ret (0, VT_ByteArray (cpos b + 1) (u32 (len - 1)), set_pos b (i32 (cpos b + len)))
  | _ => Ret (1, VT_Null, b)
  end.

Definition ism_protocol_getMapValue (b : concat_alloc_t) (otype : Z)
    : outcome (Z * out_field * concat_alloc_t) :=
  match field_type otype with
  | STYPE_Map =>
      '(len, b) ← ism_protocol_getIntValue b (Z.land otype S_IntValue);
      Ret (0, VT_Map (cpos b) (u32 len), set_pos b (i32 (cpos b + len)))
  | _ => Ret (1, VT_Null, b)
  end.

(** The length byte is a (signed) [char]. *)
Definition ism_protocol_getXidValue (b : concat_alloc_t) : outcome (Z * out_field * concat_alloc_t) :=
  c ← rd b (cpos b);
  let len := i8 c in
  let b := set_pos b (cpos b + 1) in
  Ret (0, VT_Xid (cpos b) (u32 len), set_pos b (i32 (cpos b + len))).

Definition ism_protocol_getNameValue (b : concat_alloc_t) (otype : Z)
    : outcome (option Z * concat_alloc_t) :=
  match field_type otype with
  | STYPE_NameLen =>
      '(len, b) ← ism_protocol_getIntValue b (otype - S_StrLen);
      Ret (get_span b len)
  | STYPE_Name => Ret (get_span b (Z.land otype S_NameValue))
  | _ => Ret (None, b)
  end.

(** [if (action->pos < 0) return -3; return 0;] *)
Definition get_done (f : out_field) (b : concat_alloc_t) : outcome (Z * out_field * concat_alloc_t) :=
  Ret (if cpos b <? 0 then -3 else 0, f, b).

(** [while (alen-- > 0) get(action, &var);] *)
Fixpoint skip_elements (get : concat_alloc_t -> outcome (Z * out_field * concat_alloc_t))
    (n : nat) (b : concat_alloc_t) : outcome concat_alloc_t :=
  match n with
  | O => Ret b
  | S n => '(_, _, b) ← get b; skip_elements get n b
  end.

(** The switch on the type of the type byte [otype], which has been read.  [get]
    is the recursive call that skips the elements of an array. *)
Definition get_case (get : concat_alloc_t -> outcome (Z * out_field * concat_alloc_t))
    (otype : Z) (b : concat_alloc_t) : outcome (Z * out_field * concat_alloc_t) :=
  match field_type otype with
  | STYPE_Null => get_done VT_Null b
  | STYPE_Boolean => get_done (VT_Boolean (Z.land otype 1)) b
  | STYPE_Byte => '(v, b) ← ism_protocol_getByteValue b otype; get_done (VT_Byte v) b
  | STYPE_UByte => '(v, b) ← ism_protocol_getByteValue b otype; get_done (VT_UByte (u8 v)) b
  | STYPE_Short => '(v, b) ← ism_protocol_getShortValue b otype; get_done (VT_Short v) b
  | STYPE_UShort => '(v, b) ← ism_protocol_getShortValue b otype; get_done (VT_UShort (u16 v)) b
  | STYPE_Char => '(v, b) ← ism_protocol_getShortValue b otype; get_done (VT_Char v) b
  | STYPE_UInt => '(v, b) ← ism_protocol_getIntValue b otype; get_done (VT_UInt v) b
  | STYPE_Int => '(v, b) ← ism_protocol_getIntValue b otype; get_done (VT_Integer v) b
  | STYPE_Time | STYPE_ULong => '(v, b) ← ism_protocol_getLongValue b otype; get_done (VT_ULong v) b
  | STYPE_Long => '(v, b) ← ism_protocol_getLongValue b otype; get_done (VT_Long v) b
  | STYPE_Float => '(v, b) ← ism_protocol_getFloatValue b otype; get_done (VT_Float v) b
  | STYPE_Double => '(v, b) ← ism_protocol_getDoubleValue b otype; get_done (VT_Double v) b
  | STYPE_StrLen | STYPE_String => '(s, b) ← ism_protocol_getStringValue b otype; get_done (VT_String s) b
  | STYPE_BArray => '(_, f, b) ← ism_protocol_getByteArrayValue b otype; get_done f b
  | STYPE_NameLen | STYPE_Name => '(s, b) ← ism_protocol_getNameValue b otype; get_done (VT_Name s) b
  | STYPE_ID => '(v, b) ← ism_protocol_getShortValue b otype; get_done (VT_NameIndex v) b
  | STYPE_User => '(_, f, b) ← ism_protocol_getUserValue b otype; get_done f b
  | STYPE_Map => '(_, f, b) ← ism_protocol_getMapValue b otype; get_done f b
  | STYPE_Xid => '(_, f, b) ← ism_protocol_getXidValue b; get_done f b
  | STYPE_Array =>
      '(alen, b) ← ism_protocol_getIntValue b otype;
      b ← skip_elements get (Z.to_nat alen) b;
      get_done VT_Null b
  | STYPE_Bad => Ret (-2, VT_Null, b)
  end.

(** [(rc, field, buffer)]; the fuel bounds the nesting of arrays. *)
Fixpoint ism_protocol_getObjectValue (fuel : nat) (b : concat_alloc_t) {struct fuel}
    : outcome (Z * out_field * concat_alloc_t) :=
  match fuel with
  | O => Hang
  | S fuel =>
    if cpos b >=? cused b then Ret (-1, VT_Null, b) else
    otype ← rd b (cpos b);
    get_case (ism_protocol_getObjectValue fuel) otype (set_pos b (cpos b + 1))
  end.

(** ** Putting values *)

(** The loop over [shift = 8 * (n - 1), ..., 8, 0] of the put functions: emits the
    bytes of [val] from its first non-zero one on; gives the number of bytes. *)
Fixpoint put_be_loop (n : nat) (val count : Z) (b : concat_alloc_t)
    : outcome (Z * concat_alloc_t) :=
  match n with
  | O => Ret (count, b)
  | S n =>
      let shift := 8 * Z.of_nat n in
      let bval := i32 (Z.shiftr val shift) in
      let count := if (count =? 0) && negb (bval =? 0) then Z.shiftr shift 3 + 1 else count in
      b ← (if count >? 0 then putc bval b else Ret b);
      put_be_loop n val count b
  end.

(** A type byte with a byte count, filled in after the bytes: [otype + count]. *)
Definition put_counted (n : nat) (val otype : Z) (b : concat_alloc_t) : outcome concat_alloc_t :=
  let savepos := cused b in
  let b := set_used b (cused b + 1) in
  '(count, b) ← (if val =? 0 then Ret (0, b) else put_be_loop n val 0 b);
  wr b savepos (otype + count).

Definition ism_protocol_putNullValue : concat_alloc_t -> outcome concat_alloc_t := putc S_NullString.

Definition ism_protocol_putBooleanValue (val : Z) : concat_alloc_t -> outcome concat_alloc_t :=
  putc (if val =? 0 then S_Boolean else S_Boolean + 1).

Definition ism_protocol_putByteValue (val : Z) (b : concat_alloc_t) : outcome concat_alloc_t :=
  if (val >=? 0) && (val <=? S_ByteMax) then putc (S_Byte + val) b
  else b ← putc S_ByteLen b; putc val b.

Definition ism_protocol_putUByteValue (val : Z) (b : concat_alloc_t) : outcome concat_alloc_t :=
  b ← putc S_UByteLen b; putc val b.

Definition ism_protocol_putSmallValue (val otype : Z) : concat_alloc_t -> outcome concat_alloc_t :=
  put_counted 4 val otype.

Definition ism_protocol_putShortValue (val : Z) : concat_alloc_t -> outcome concat_alloc_t :=
  ism_protocol_putSmallValue (Z.land val 0xffff) S_Short.

Definition ism_protocol_putIntValue (val : Z) : concat_alloc_t -> outcome concat_alloc_t :=
  put_counted 4 val S_Int.

Definition ism_protocol_putLongValue (val : Z) : concat_alloc_t -> outcome concat_alloc_t :=
  put_counted 8 val S_Long.

(** [(char)(ival>>(8*(n-1))), ..., (char)ival]. *)
Fixpoint put_all_bytes (n : nat) (ival : Z) (b : concat_alloc_t) : outcome concat_alloc_t :=
  match n with
  | O => Ret b
  | S n => b ← putc (Z.shiftr ival (8 * Z.of_nat n)) b; put_all_bytes n ival b
  end.

(** [val == 0.0] of a float with these bits: both zeros compare equal. *)
Definition float_is_zero (bits : Z) : bool := (u32 bits =? 0) || (u32 bits =? 2 ^ 31).
Definition double_is_zero (bits : Z) : bool := (u64 bits =? 0) || (u64 bits =? 2 ^ 63).

Definition ism_protocol_putFloatValue (bits : Z) (b : concat_alloc_t) : outcome concat_alloc_t :=
  b ← putc (if float_is_zero bits then S_Float else S_Float + 1) b;
  put_all_bytes 4 bits b.

Definition ism_protocol_putDoubleValue (bits : Z) (b : concat_alloc_t) : outcome concat_alloc_t :=
  b ← putc (if double_is_zero bits then S_Double else S_Double + 1) b;
  put_all_bytes 8 bits b.

Section WithAllocator.
Context (mem : allocator).

(** A C string is the list of its bytes before the terminating null. *)
Definition ism_protocol_putStringValue (str : option (list Z)) (b : concat_alloc_t)
    : outcome concat_alloc_t :=
  match str with
  | None => ism_protocol_putNullValue b
  | Some str =>
      let len := i32 (Z.of_nat (length str)) + 1 in
      b ← ensureBuffer mem b (len + 2);
      b ← (if len <=? S_StringMax then putc (S_String + len) b
           else ism_protocol_putSmallValue len S_StrLen b);
      putbytes (str ++ [0]) len b
  end.

Definition ism_protocol_putStringLenValue (str : option (list Z)) (len : Z) (b : concat_alloc_t)
    : outcome concat_alloc_t :=
  match str with
  | None => ism_protocol_putNullValue b
  | Some str =>
      if len <? 0 then ism_protocol_putNullValue b else
      b ← ensureBuffer mem b (len + 1);
      b ← (if len <? S_StringMax then putc (S_String + len + 1) b
           else ism_protocol_putSmallValue (len + 1) S_StrLen b);
      b ← putbytes str len b;
      putc 0 b
  end.

Definition ism_protocol_putNameValue (str : list Z) (b : concat_alloc_t) : outcome concat_alloc_t :=
  let len := i32 (Z.of_nat (length str)) + 1 in
  b ← ensureBuffer mem b (len + 3);
  b ← (if len <=? S_NameMax then putc (S_Name + len) b
       else ism_protocol_putSmallValue len S_NameLen b);
  putbytes (str ++ [0]) len b.

Definition ism_protocol_putNameLenValue (str : list Z) (len : Z) (b : concat_alloc_t)
    : outcome concat_alloc_t :=
  let flen := len + 1 in
  b ← ensureBuffer mem b (len + 4);
  b ← (if flen <=? S_NameMax then putc (S_Name + flen) b
       else ism_protocol_putSmallValue flen S_NameLen b);
  b ← memcpy_at b (cused b) str len;
  b ← wr b (cused b + len) 0;
  Ret (set_used b (cused b + flen)).

Definition ism_protocol_putNameIndex (id : Z) (b : concat_alloc_t) : outcome concat_alloc_t :=
  b ← putc (S_ID + 1) b; putc id b.

Definition ism_protocol_putByteArrayValue (str : list Z) (len : Z) (b : concat_alloc_t)
    : outcome concat_alloc_t :=
  b ← ensureBuffer mem b len;
  b ← ism_protocol_putSmallValue len S_ByteArray b;
  putbytes str len b.

Definition ism_protocol_putXidValueF (str : list Z) (len : Z) (b : concat_alloc_t)
    : outcome concat_alloc_t :=
  b ← ensureBuffer mem b (len + 2);
  b ← putc S_Xid b;
  b ← putc len b;
  putbytes str len b.

(** [ism_xid_t]. *)
Record ism_xid_t := mk_xid {
  formatID : Z;
  gtrid_length : Z;
  bqual_length : Z;
  xid_data : list Z
}.

Definition ism_protocol_putXidValue (xid : ism_xid_t) (b : concat_alloc_t) : outcome concat_alloc_t :=
  let len := gtrid_length xid + bqual_length xid + 6 in
  if len >? 256 then ism_protocol_putNullValue b else
  b ← ensureBuffer mem b (len + 2);
  b ← putc S_Xid b;
  b ← putc len b;
  b ← put_all_bytes 4 (formatID xid) b;
  b ← putc (gtrid_length xid) b;
  b ← putc (bqual_length xid) b;
  putbytes (xid_data xid) (len - 6) b.

Definition ism_protocol_putMapValue (str : list Z) (len : Z) (b : concat_alloc_t)
    : outcome concat_alloc_t :=
  b ← ensureBuffer mem b len;
  b ← ism_protocol_putSmallValue len S_Map b;
  putbytes str len b.

Definition ism_protocol_putObjectValue (var : in_field) (b : concat_alloc_t)
    : outcome concat_alloc_t :=
  b ← ensureBuffer mem b 8;
  match var with
  | VT_Null => ism_protocol_putNullValue b
  | VT_String s => ism_protocol_putStringValue s b
  | VT_ByteArray s len => ism_protocol_putByteArrayValue s len b
  | VT_Boolean i => ism_protocol_putBooleanValue i b
  | VT_Byte i => ism_protocol_putByteValue i b
  | VT_UByte i => ism_protocol_putUByteValue (Z.land i 0xff) b
  | VT_Short i => ism_protocol_putShortValue i b
  | VT_UShort i => ism_protocol_putSmallValue (Z.land i 0xffff) S_UShort b
  | VT_Integer i => ism_protocol_putIntValue i b
  | VT_UInt i => ism_protocol_putSmallValue i S_UInt b
  | VT_Long l => ism_protocol_putLongValue l b
  | VT_ULong l => ism_protocol_putLongValue l b
  | VT_Float f => ism_protocol_putFloatValue f b
  | VT_Double d => ism_protocol_putDoubleValue d b
  | VT_Name (Some s) => ism_protocol_putNameValue s b
  | VT_Name None => Crash (* strlen(NULL) *)
  | VT_NameIndex i => ism_protocol_putSmallValue (Z.land i 0xffff) S_ID b
  | VT_Char i => ism_protocol_putSmallValue (Z.land i 0x1ffff) S_Char b
  | VT_Map s len => ism_protocol_putMapValue s len b
  | VT_Xid s len => ism_protocol_putXidValueF s len b
  | VT_Unset => Ret b
  end.

(** A property name: a pointer below 0x10000 is a name index. *)
Inductive prop_name :=
  | PN_None
  | PN_Index (i : Z)
  | PN_String (s : list Z).

Definition ism_protocol_putPropertyValue (name : prop_name) (var : in_field) (b : concat_alloc_t)
    : outcome concat_alloc_t :=
  b ← match name with
      | PN_None => Ret b
      | PN_Index i => ism_protocol_putNameIndex i b
      | PN_String s => ism_protocol_putNameValue s b
      end;
  ism_protocol_putObjectValue var b.
End WithAllocator.

(** ** Finding a property *)

(** [!strcmp(name, buf + off)]. *)
Fixpoint strcmp_at (b : concat_alloc_t) (off : Z) (name : list Z) : outcome bool :=
  c ← rd b off;
  match name with
  | [] => Ret (c =? 0)
  | x :: name => if c =? x then strcmp_at b (off + 1) name else Ret false
  end.

(** What both searches do with an item that is not a name of theirs. *)
Definition skip_item (otype : Z) (b : concat_alloc_t) : outcome concat_alloc_t :=
  match field_type otype with
  | STYPE_StrLen => '(_, b) ← ism_protocol_getStringValue b otype; Ret b
  | STYPE_BArray => '(_, _, b) ← ism_protocol_getByteArrayValue b otype; Ret b
  | STYPE_Map => '(_, _, b) ← ism_protocol_getMapValue b otype; Ret b
  | STYPE_Xid => '(_, _, b) ← ism_protocol_getXidValue b; Ret b
  | STYPE_User => '(_, _, b) ← ism_protocol_getUserValue b otype; Ret b
  | _ => Ret (set_pos b (cpos b + (field_len otype - 1)))
  end.

(** [(rc, *f)]; the loops run on a copy of the buffer structure. *)
Fixpoint find_name_loop (fuel : nat) (name : list Z) (b : concat_alloc_t) : outcome (Z * out_field) :=
  match fuel with
  | O => Hang
  | S fuel' =>
    if cpos b <? cused b then
      otype ← rd b (cpos b);
      let b := set_pos b (cpos b + 1) in
      match field_type otype with
      | STYPE_Bad => Ret (1, VT_Null)
      | STYPE_Name | STYPE_NameLen =>
          '(fname, b) ← ism_protocol_getNameValue b otype;
          match fname with
          | None => Crash
          | Some off =>
              eq ← strcmp_at b off name;
              if (eq : bool) then '(_, f, _) ← ism_protocol_getObjectValue fuel b; Ret (0, f)
              else find_name_loop fuel' name b
          end
      | _ => b ← skip_item otype b; find_name_loop fuel' name b
      end
    else Ret (1, VT_Null)
  end.

Fixpoint find_index_loop (fuel : nat) (index : Z) (b : concat_alloc_t) : outcome (Z * out_field) :=
  match fuel with
  | O => Hang
  | S fuel' =>
    if cpos b <? cused b then
      otype ← rd b (cpos b);
      let b := set_pos b (cpos b + 1) in
      match field_type otype with
      | STYPE_Bad => Ret (1, VT_Null)
      | STYPE_ID =>
          '(findex, b) ← ism_protocol_getShortValue b otype;
          if findex =? index then '(_, f, _) ← ism_protocol_getObjectValue fuel b; Ret (0, f)
          else find_index_loop fuel' index b
      | _ => b ← skip_item otype b; find_index_loop fuel' index b
      end
    else Ret (1, VT_Null)
  end.

(** [props] is [None] when it, or its buffer, is a null pointer; the field is
    [None] when [*f] is left as it was. *)
Definition ism_findPropertyNameIndex (fuel : nat) (props : option concat_alloc_t) (index : Z)
    : outcome (Z * option out_field) :=
  match props with
  | None => Ret (1, None)
  | Some b => '(rc, f) ← find_index_loop fuel index (set_pos b 0); Ret (rc, Some f)
  end.

Definition ism_findPropertyName (fuel : nat) (props : option concat_alloc_t) (name : prop_name)
    : outcome (Z * option out_field) :=
  match name with
  | PN_None => ism_findPropertyNameIndex fuel props 0
  | PN_Index i => ism_findPropertyNameIndex fuel props i
  | PN_String name =>
      match props with
      | None => Ret (1, None)
      | Some b => '(rc, f) ← find_name_loop fuel name (set_pos b 0); Ret (rc, Some f)
      end
  end.
