(* ===== verification/ContentCorrect.v ===== *)
(** * Correctness of the concise content encoding

    For every field the put functions of content.c append exactly its encoding
    [enc_field], never writing outside the buffer, and the get functions read it
    back; a property list that was put can be searched by name. *)

From S2P Require Import Prelude Buffer Content.

(** ** The encoding as a function on values *)

(** Bytes that the put loop emits for [v] out of at most [n]. *)
Fixpoint byte_count (n : nat) (v : Z) : nat :=
  match n with
  | O => O
  | S m => if i32 (Z.shiftr v (8 * Z.of_nat m)) =? 0 then byte_count m v else n
  end.

Definition enc_counted (n : nat) (v otype : Z) : list Z :=
  let k := byte_count n v in u8 (otype + Z.of_nat k) :: be_bytes k v.

Definition enc_span (short_max short_type long_type : Z) (bs : list Z) : list Z :=
  let len := Z.of_nat (length bs) in
  (if len <=? short_max then [u8 (short_type + len)] else enc_counted 4 len long_type) ++ bs.

Definition enc_string (s : list Z) : list Z := enc_span S_StringMax S_String S_StrLen (s ++ [0]).
Definition enc_name (s : list Z) : list Z := enc_span S_NameMax S_Name S_NameLen (s ++ [0]).

Definition enc_field (f : in_field) : list Z :=
  match f with
  | VT_Null | VT_String None => [S_NullString]
  | VT_String (Some s) => enc_string s
  | VT_ByteArray s len => enc_counted 4 len S_ByteArray ++ s
  | VT_Boolean i => [if i =? 0 then S_Boolean else S_Boolean + 1]
  | VT_Byte i => if (i >=? 0) && (i <=? S_ByteMax) then [S_Byte + i] else [S_ByteLen; u8 i]
  | VT_UByte i => [S_UByteLen; u8 i]
  | VT_Short i => enc_counted 4 (Z.land i 0xffff) S_Short
  | VT_UShort i => enc_counted 4 (Z.land i 0xffff) S_UShort
  | VT_Integer i => enc_counted 4 i S_Int
  | VT_UInt i => enc_counted 4 i S_UInt
  | VT_Long l | VT_ULong l => enc_counted 8 l S_Long
  | VT_Float f => (if float_is_zero f then S_Float else S_Float + 1) :: be_bytes 4 f
  | VT_Double d => (if double_is_zero d then S_Double else S_Double + 1) :: be_bytes 8 d
  | VT_Name (Some s) => enc_name s
  | VT_Name None => []
  | VT_NameIndex i => enc_counted 4 (Z.land i 0xffff) S_ID
  | VT_Char i => enc_counted 4 (Z.land i 0x1ffff) S_Char
  | VT_Map s len => enc_counted 4 len S_Map ++ s
  | VT_Unset => []
  | VT_Xid s len => [S_Xid; u8 len] ++ s
  end.

(** What a caller of [ism_protocol_putObjectValue] hands over: members of the
    value union at their width, strings without inner nulls, lengths that match
    their bytes, and sizes for which 32-bit offsets are exact.  A name is not null. *)
Definition max_bytes : Z := 2 ^ 29.

Definition wf_bytes (s : list Z) (len : Z) : Prop :=
  len = Z.of_nat (length s) /\ len <= max_bytes /\ Forall is_byte s.

Definition wf_string (s : list Z) : Prop := is_cstr s /\ Z.of_nat (length s) < max_bytes.

Definition wf_field (f : in_field) : Prop :=
  match f with
  | VT_Null | VT_String None | VT_Unset => True
  | VT_String (Some s) | VT_Name (Some s) => wf_string s
  | VT_ByteArray s len | VT_Map s len => wf_bytes s len
  | VT_Xid s len => wf_bytes s len
  | VT_Boolean i | VT_Byte i | VT_UByte i | VT_Short i | VT_UShort i | VT_Integer i
  | VT_UInt i | VT_NameIndex i | VT_Char i | VT_Float i => is_i32 i
  | VT_Long l | VT_ULong l | VT_Double l => is_i64 l
  | VT_Name None => False
  end.

(** ** The put functions emit the encoding *)


Lemma u8_of_u32 v : u8 (u32 v) = u8 v.
Proof.
  unfold wrapu. apply Z.mod_mod_divide. exists (2 ^ 24). lia.
Qed.

Lemma u8_i32 v : u8 (i32 v) = u8 v.
Proof. rewrite <-(u8_of_u32 (i32 v)), wrapu_wraps, u8_of_u32 by lia. done. Qed.

Lemma emits_all_bytes n v : emits (put_all_bytes n v) (be_bytes n v).
Proof.
  induction n as [|n IH]; simpl; [apply emits_nil|].
  exact (emits_bind _ _ [_] _ (emits_putc _) IH).
Qed.

Lemma put_be_loop_started n v count :
  0 < count ->
  exists f, emits f (be_bytes n v) /\
    forall b, buf_wf b -> cused b + Z.of_nat n <= clen b ->
      put_be_loop n v count b = (b ← f b; Ret (count, b)).
Proof.
  intros Hc. induction n as [|n (f & Hf & E)]; [exists Ret; split; [apply emits_nil|done]|].
  exists (fun b => putc (Z.shiftr v (8 * Z.of_nat n)) b ≫= f). split.
  - exact (emits_bind _ _ [_] _ (emits_putc _) Hf).
  - intros b Hb Hr. simpl put_be_loop. destruct (Z.eqb_spec count 0); [lia|]. simpl.
    rewrite (proj2 (Z.gtb_lt count 0)) by lia.
    rewrite !putc_putbytes, u8_i32 by (auto; lia).
    destruct (emits_putc (Z.shiftr v (8 * Z.of_nat n)) b Hb ltac:(simpl; lia))
      as (b1 & E1 & Hb1 & _ & Hl1 & _ & Hu1).
    rewrite putc_putbytes in E1 by (auto; lia). rewrite E1. simpl in *. apply E; [done|lia].
Qed.

Lemma put_be_loop_emits n v b :
  buf_wf b -> cused b + Z.of_nat (byte_count n v) <= clen b ->
  exists b', put_be_loop n v 0 b = Ret (Z.of_nat (byte_count n v), b') /\ buf_wf b'
    /\ contents b' = contents b ++ be_bytes (byte_count n v) v
    /\ clen b' = clen b /\ cpos b' = cpos b
    /\ cused b' = cused b + Z.of_nat (byte_count n v).
Proof.
  revert b. induction n as [|n IH]; intros b Hb Hr.
  - exists b. simpl. rewrite app_nil_r. repeat split; try apply Hb; lia.
  - simpl put_be_loop. simpl byte_count in *. simpl Z.eqb.
    destruct (Z.eqb_spec (i32 (Z.shiftr v (8 * Z.of_nat n))) 0) as [E|E]; simpl.
    + apply IH; [done|lia].
    + replace (Z.shiftr (8 * Z.of_nat n) 3 + 1) with (Z.of_nat (S n)).
      2:{ rewrite Z.shiftr_div_pow2 by lia. change (2 ^ 3) with 8. rewrite Z.mul_comm, Z.div_mul by lia. lia. }
      destruct (put_be_loop_started (S n) v (Z.of_nat (S n)) ltac:(lia)) as (f & Hf & Ef).
      specialize (Ef b Hb Hr). cbn [put_be_loop] in Ef.
      destruct (Z.eqb_spec (Z.of_nat (S n)) 0); [lia|]. cbn [andb] in Ef.
      rewrite Ef. destruct (Hf b Hb) as (b' & -> & Hb' & Hc & Hl & Hp & Hu); [rewrite length_be_bytes; lia|].
      rewrite length_be_bytes in Hu. exists b'. eauto 10.
Qed.

Lemma byte_count_0 n : byte_count n 0 = O.
Proof. induction n; simpl; auto. by rewrite Z.shiftr_0_l. Qed.

Lemma emits_counted n v otype : emits (put_counted n v otype) (enc_counted n v otype).
Proof.
  intros b Hb Hr. unfold enc_counted in *. simpl length in *. rewrite length_be_bytes in *.
  pose proof (length_contents b Hb) as Hlc.
  destruct (reserve_one b Hb ltac:(lia)) as (x & Hb1 & Hc1).
  set (b1 := set_used b (cused b + 1)) in *.
  assert (exists b2, (if v =? 0 then Ret (0, b1) else put_be_loop n v 0 b1)
             = Ret (Z.of_nat (byte_count n v), b2) /\ buf_wf b2
             /\ contents b2 = contents b1 ++ be_bytes (byte_count n v) v
             /\ clen b2 = clen b /\ cpos b2 = cpos b
             /\ cused b2 = cused b + 1 + Z.of_nat (byte_count n v)) as (b2 & E2 & Hb2 & Hc2 & Hl2 & Hp2 & Hu2).
  { destruct (Z.eqb_spec v 0) as [->|Hv].
    - rewrite byte_count_0. exists b1. rewrite app_nil_r. repeat split; try apply Hb1; simpl; lia.
    - destruct (put_be_loop_emits n v b1 Hb1) as (b2 & E & Hb2 & Hc & Hl & Hp & Hu); [simpl; lia|].
      exists b2. simpl in *. eauto 10. }
  unfold put_counted. fold b1. rewrite E2. simpl. rewrite <-Hlc.
  destruct (wr_inside b2 (length (contents b)) (otype + Z.of_nat (byte_count n v)) Hb2)
    as (b3 & -> & Hb3 & Hc3 & Hl3 & Hp3 & Hu3).
  { rewrite Hc2, Hc1, !length_app. simpl. lia. }
  exists b3. split; [done|]. split; [done|]. split; [|lia].
  rewrite Hc3, Hc2, Hc1, <-app_assoc. rewrite insert_app_r_alt, Nat.sub_diag by lia. done.
Qed.

Lemma byte_count_le n v : (byte_count n v <= n)%nat.
Proof. induction n as [|n IH]; simpl; [lia|]. case_match; lia. Qed.

Lemma length_enc_counted n v otype : length (enc_counted n v otype) = S (byte_count n v).
Proof. unfold enc_counted. cbn [length]. by rewrite length_be_bytes. Qed.

#[global] Opaque enc_counted.

#[export] Hint Resolve emits_counted emits_all_bytes : amlen.

(** Spans: a type byte with the length, then the bytes. *)
Lemma emits_span_head smax stype ltype len :
  emits (fun b => if len <=? smax then putc (stype + len) b else ism_protocol_putSmallValue len ltype b)
    (if len <=? smax then [u8 (stype + len)] else enc_counted 4 len ltype).
Proof. destruct (len <=? smax); [exact (emits_putc (stype + len))|exact (emits_counted 4 len ltype)]. Qed.

Lemma length_enc_span smax stype ltype bs :
  (length bs < length (enc_span smax stype ltype bs) <= length bs + 5)%nat.
Proof.
  unfold enc_span. rewrite length_app.
  pose proof (byte_count_le 4 (Z.of_nat (length bs))).
  destruct (_ <=? smax); [simpl|rewrite length_enc_counted]; lia.
Qed.

Lemma emits_span smax stype ltype bs len :
  len = Z.of_nat (length bs) -> Forall is_byte bs ->
  emits (fun b => b ← (if len <=? smax then putc (stype + len) b
                       else ism_protocol_putSmallValue len ltype b); putbytes bs len b)
    (enc_span smax stype ltype bs).
Proof.
  intros -> Hbs. unfold enc_span.
  apply (emits_bind _ _ _ _ (emits_span_head smax stype ltype _)).
  by apply emits_putall.
Qed.

Lemma emits_counted_bytes v otype bs len :
  len = Z.of_nat (length bs) -> Forall is_byte bs ->
  emits (fun b => b ← ism_protocol_putSmallValue v otype b; putbytes bs len b)
    (enc_counted 4 v otype ++ bs).
Proof.
  intros -> Hbs. apply (emits_bind _ _ _ _ (emits_counted _ _ _)).
  by apply emits_putall.
Qed.

Lemma nul_terminated s : is_cstr s -> Forall is_byte (s ++ [0]).
Proof.
  intros. apply Forall_app. split; [auto with amlen|]. apply Forall_singleton. unfold is_byte; lia.
Qed.

Lemma u8_land_ff i : u8 (Z.land i 0xff) = u8 i.
Proof. change 0xff with (Z.ones 8). rewrite Z.land_ones by lia. apply (wrapu_idemp 8); lia. Qed.

Lemma putByteValue_emits i : emits (ism_protocol_putByteValue i) (enc_field (VT_Byte i)).
Proof.
  unfold ism_protocol_putByteValue, enc_field.
  destruct ((i >=? 0) && (i <=? S_ByteMax)) eqn:E.
  - apply andb_true_iff in E as [E1 E2]. rewrite Z.geb_le in E1. rewrite Z.leb_le in E2.
    unfold S_ByteMax in E2. apply emits_putc_eq. unfold S_Byte. apply (wrapu_small 8); lia.
  - apply emits_putc_cons; [done|]. apply emits_putc.
Qed.

Lemma putFloatValue_emits f : emits (ism_protocol_putFloatValue f) (enc_field (VT_Float f)).
Proof.
  apply emits_putc_cons; [by destruct (float_is_zero f)|]. apply (emits_all_bytes 4).
Qed.

Lemma putDoubleValue_emits f : emits (ism_protocol_putDoubleValue f) (enc_field (VT_Double f)).
Proof.
  apply emits_putc_cons; [by destruct (double_is_zero f)|]. apply (emits_all_bytes 8).
Qed.

Section PutCorrect.
Context (mem : allocator) (Hmem : alloc_total mem).

(** Strings, names, byte arrays, maps and XIDs make their own room. *)
Lemma putStringValue_emits s :
  wf_string s -> emits_grow mem (ism_protocol_putStringValue mem (Some s)) (enc_string s).
Proof.
  intros [Hs Hl]. unfold max_bytes in Hl. unfold ism_protocol_putStringValue, enc_string.
  rewrite (wraps_small 32) by (simpl; lia).
  pose proof (length_enc_span S_StringMax S_String S_StrLen (s ++ [0])) as Hsp.
  rewrite length_app in Hsp. simpl in Hsp.
  apply emits_ensure; [done|lia..|].
  apply emits_span; [rewrite length_app; simpl; lia|by apply nul_terminated].
Qed.

Lemma putNameValue_emits s :
  wf_string s -> emits_grow mem (ism_protocol_putNameValue mem s) (enc_name s).
Proof.
  intros [Hs Hl]. unfold max_bytes in Hl. unfold ism_protocol_putNameValue, enc_name.
  rewrite (wraps_small 32) by (simpl; lia).
  pose proof (length_enc_span S_NameMax S_Name S_NameLen (s ++ [0])) as Hsp.
  rewrite length_app in Hsp. simpl in Hsp.
  apply emits_ensure; [done|lia..|].
  apply emits_span; [rewrite length_app; simpl; lia|by apply nul_terminated].
Qed.

Lemma putCountedBytes_emits s len otype :
  wf_bytes s len ->
  emits_grow mem (fun b => b ← ensureBuffer mem b len;
                           b ← ism_protocol_putSmallValue len otype b; putbytes s len b)
    (enc_counted 4 len otype ++ s).
Proof.
  intros (-> & Hl & Hs). pose proof (byte_count_le 4 (Z.of_nat (length s))).
  apply emits_ensure; rewrite ?length_app, ?length_enc_counted; [done|lia..|].
  by apply emits_counted_bytes.
Qed.

Lemma putXidValueF_emits s len :
  wf_bytes s len -> emits_grow mem (ism_protocol_putXidValueF mem s len) ([S_Xid; u8 len] ++ s).
Proof.
  intros (-> & Hl & Hs). apply emits_ensure; rewrite ?length_app; simpl length; [done|lia..|].
  apply emits_putc_cons; [done|]. apply emits_putc_cons; [done|]. by apply emits_putall.
Qed.

(** Putting a value of any type never writes outside the buffer and appends
    exactly the encoding of the value. *)
Lemma putObjectValue_emits f :
  wf_field f -> emits_grow mem (ism_protocol_putObjectValue mem f) (enc_field f).
Proof.
  intros Hf.
  assert (Hsc : forall g bs, (length bs <= 15)%nat -> emits g bs ->
            emits_grow mem (fun b => ensureBuffer mem b 8 ≫= g) bs).
  { intros; apply emits_ensure; auto; lia. }
  assert (Hsp : forall g bs, emits_grow mem g bs ->
            emits_grow mem (fun b => ensureBuffer mem b 8 ≫= g) bs).
  { intros g bs Hg. apply (emits_grow_emits_pre mem _ g bs 8); auto; lia. }
  assert (Hct : forall n v o, (n <= 8)%nat -> emits_grow mem
            (fun b => ensureBuffer mem b 8 ≫= put_counted n v o) (enc_counted n v o)).
  { intros n v o Hn. apply Hsc; [|apply emits_counted].
    pose proof (byte_count_le n v). rewrite length_enc_counted. lia. }
  unfold ism_protocol_putObjectValue, ism_protocol_putShortValue, ism_protocol_putIntValue,
    ism_protocol_putLongValue, ism_protocol_putSmallValue, ism_protocol_putNullValue.
  destruct f as [|[s|]|s len|i|i|i|i|i|i|i|l|l|bits|bits|[s|]|i|i|s len| |s len];
    simpl in Hf; try done; try (apply Hct; lia).
  - apply Hsc; [simpl; lia|by apply emits_putc_eq].
  - by apply Hsp, putStringValue_emits.
  - apply Hsc; [simpl; lia|by apply emits_putc_eq].
  - by apply Hsp, putCountedBytes_emits.
  - apply Hsc; [simpl; lia|]. apply emits_putc_eq. by destruct (i =? 0).
  - apply Hsc; [simpl; case_match; simpl; lia|]. by apply putByteValue_emits.
  - apply Hsc; [simpl; lia|]. apply emits_putc_cons; [done|]. apply emits_putc_eq. apply u8_land_ff.
  - apply Hsc; [simpl; lia|]. by apply putFloatValue_emits.
  - apply Hsc; [simpl; lia|]. by apply putDoubleValue_emits.
  - by apply Hsp, putNameValue_emits.
  - by apply Hsp, putCountedBytes_emits.
  - apply Hsc; [simpl; lia|apply emits_nil].
  - by apply Hsp, putXidValueF_emits.
Qed.
End PutCorrect.

(** ** The get functions read the encoding back *)

Lemma get_be_loop_reads wrap bs val b :
  buf_wf b -> reads_at b bs ->
  get_be_loop wrap (length bs) val b
  = Ret (foldl (fun acc c => wrap (acc * 256 + c)) val bs, set_pos b (cpos b + Z.of_nat (length bs))).
Proof.
  revert val b. induction bs as [|c bs IH]; intros val b Hb Hr; cbn [length get_be_loop foldl].
  - rewrite Z.add_0_r. by destruct b.
  - destruct (reads_at_cons b c bs Hb Hr) as (E & Hr1 & Hb1 & _). rewrite E, bind_ret.
    rewrite IH by done. simpl cpos. rewrite set_pos_set_pos, Nat2Z.inj_succ.
    rewrite Z.shiftl_mul_pow2 by lia. do 3 f_equal. lia.
Qed.

Lemma foldl_wraps w bs val : 0 < w -> wraps w val = val ->
  foldl (fun acc c => wraps w (acc * 256 + c)) val bs
  = wraps w (foldl (fun acc c => acc * 256 + c) val bs).
Proof.
  intros Hw. revert val. induction bs as [|c bs IH]; intros val Hv; simpl; [done|].
  rewrite IH by (apply wraps_small, wraps_range; lia).
  rewrite (foldl_be_acc bs (wraps w _)), (foldl_be_acc bs (val * 256 + c)).
  by apply wraps_mul_add_idemp.
Qed.

Lemma get_be_wraps w bs b :
  0 < w -> buf_wf b -> reads_at b bs ->
  get_be_loop (wraps w) (length bs) 0 b
  = Ret (wraps w (be_val bs), set_pos b (cpos b + Z.of_nat (length bs))).
Proof.
  intros Hw Hb Hr. rewrite get_be_loop_reads, foldl_wraps by (auto using wraps_0). done.
Qed.

(** What the readers rely on: [used] and [pos] are valid positions that fit an [int]. *)
Record rd_ok (b : concat_alloc_t) : Prop := {
  rd_wf : buf_wf b;
  rd_pos : 0 <= cpos b <= cused b;
  rd_fits : cused b < 2 ^ 31
}.

Lemma rd_ok_advance b bs cs :
  rd_ok b -> reads_at b (bs ++ cs) ->
  rd_ok (set_pos b (cpos b + Z.of_nat (length bs)))
  /\ reads_at (set_pos b (cpos b + Z.of_nat (length bs))) cs
  /\ cpos b + Z.of_nat (length bs) <= cused b.
Proof.
  intros [Hb Hp Hf] Hr. assert (cpos b + Z.of_nat (length bs) <= cused b).
  { destruct bs as [|c bs]; [simpl; lia|].
    apply reads_at_bound; [done|by eapply reads_at_prefix|done]. }
  split; [split; simpl; auto with amlen; lia|]. split; [by apply reads_at_app|done].
Qed.

Lemma in_range_int b n :
  rd_ok b -> 0 <= n -> cpos b + n <= cused b -> (i32 (cpos b + n) >? cused b) = false.
Proof.
  intros [Hb Hp Hf] Hn Hr. rewrite (wraps_small 32) by (simpl; lia).
  rewrite Z.gtb_ltb. apply Z.ltb_ge. lia.
Qed.

Lemma getIntValue_reads b otype bs cs :
  rd_ok b -> reads_at b (bs ++ cs) -> Z.land otype S_IntValue = Z.of_nat (length bs) ->
  ism_protocol_getIntValue b otype = Ret (i32 (be_val bs), set_pos b (cpos b + Z.of_nat (length bs))).
Proof.
  intros Hb Hr Hl. destruct (rd_ok_advance b bs cs Hb Hr) as (_ & _ & Hbd).
  unfold ism_protocol_getIntValue. rewrite Hl, in_range_int, Nat2Z.id by (auto; lia).
  apply get_be_wraps; [lia|apply Hb|by eapply reads_at_prefix].
Qed.

Lemma getShortValue_reads b otype bs cs :
  rd_ok b -> reads_at b (bs ++ cs) -> Z.land otype S_ShortValue = Z.of_nat (length bs) ->
  ism_protocol_getShortValue b otype = Ret (i32 (be_val bs), set_pos b (cpos b + Z.of_nat (length bs))).
Proof.
  intros Hb Hr Hl. destruct (rd_ok_advance b bs cs Hb Hr) as (_ & _ & Hbd).
  unfold ism_protocol_getShortValue. rewrite Hl, in_range_int, Nat2Z.id by (auto; lia).
  apply get_be_wraps; [lia|apply Hb|by eapply reads_at_prefix].
Qed.

Lemma getLongValue_reads b otype bs cs :
  rd_ok b -> reads_at b (bs ++ cs) -> Z.land otype S_LongValue = Z.of_nat (length bs) ->
  ism_protocol_getLongValue b otype = Ret (i64 (be_val bs), set_pos b (cpos b + Z.of_nat (length bs))).
Proof.
  intros Hb Hr Hl. destruct (rd_ok_advance b bs cs Hb Hr) as (_ & _ & Hbd).
  unfold ism_protocol_getLongValue. rewrite Hl, in_range_int, Nat2Z.id by (auto; lia).
  apply get_be_wraps; [lia|apply Hb|by eapply reads_at_prefix].
Qed.

Lemma get_span_reads b bs cs :
  rd_ok b -> reads_at b (bs ++ cs) ->
  get_span b (Z.of_nat (length bs)) = (Some (cpos b), set_pos b (cpos b + Z.of_nat (length bs))).
Proof.
  intros Hb Hr. destruct (rd_ok_advance b bs cs Hb Hr) as (_ & _ & Hbd).
  unfold get_span. rewrite in_range_int by (auto; lia).
  destruct Hb as [_ Hp Hf]. by rewrite (wraps_small 32) by (simpl; lia).
Qed.

(** ** Byte counts *)

Lemma byte_count_small n v :
  (n <= 8)%nat -> - 2 ^ (8 * Z.of_nat n - 1) <= v < 2 ^ (8 * Z.of_nat n) ->
  byte_count n v = n \/ 0 <= v < 256 ^ Z.of_nat (byte_count n v).
Proof.
  induction n as [|n IH]; intros Hn Hv; [by left|]. cbn [byte_count].
  set (x := Z.shiftr v (8 * Z.of_nat n)).
  assert (Hx : - 2 ^ 7 <= x < 2 ^ 8 /\ x * 2 ^ (8 * Z.of_nat n) <= v < (x + 1) * 2 ^ (8 * Z.of_nat n)).
  { subst x. rewrite Z.shiftr_div_pow2 by lia. rewrite Nat2Z.inj_succ in Hv.
    replace (8 * Z.succ (Z.of_nat n)) with (8 * Z.of_nat n + 8) in Hv by lia.
    replace (8 * Z.of_nat n + 8 - 1) with (8 * Z.of_nat n + 7) in Hv by lia.
    rewrite !Z.pow_add_r in Hv by lia.
    pose proof (Z.pow_pos_nonneg 2 (8 * Z.of_nat n) ltac:(lia) ltac:(lia)) as Hp.
    set (p := 2 ^ (8 * Z.of_nat n)) in *.
    pose proof (Z.div_mod v p ltac:(lia)). pose proof (Z.mod_pos_bound v p Hp). nia. }
  rewrite (wraps_small 32) by (simpl; lia).
  destruct (Z.eqb_spec x 0) as [E|E]; [|by left]. right. rewrite E in Hx.
  destruct (IH ltac:(lia)) as [E2|E2]; [|rewrite E2, pow256; lia|done].
  pose proof (Z.pow_nonneg 2 (8 * Z.of_nat n - 1)). lia.
Qed.

Lemma byte_count_bound n m v : (n <= 8)%nat -> 0 <= v < 256 ^ Z.of_nat m -> (byte_count n v <= m)%nat.
Proof.
  intros Hn Hv. induction n as [|n IH]; cbn [byte_count]; [lia|].
  destruct (Z.eqb_spec (i32 (Z.shiftr v (8 * Z.of_nat n))) 0) as [E|E]; [apply IH; lia|].
  destruct (decide (S n <= m)%nat) as [|H]; [done|]. contradict E.
  rewrite Z.shiftr_div_pow2, <-pow256 by lia.
  rewrite Z.div_small; [done|]. split; [lia|].
  apply (Z.lt_le_trans _ _ _ (proj2 Hv)), Z.pow_le_mono_r; lia.
Qed.

Arguments byte_count : simpl never.
Arguments be_bytes : simpl never.

Lemma counted_value n v :
  (0 < n <= 8)%nat -> - 2 ^ (8 * Z.of_nat n - 1) <= v < 2 ^ (8 * Z.of_nat n - 1) ->
  wraps (8 * Z.of_nat n) (be_val (be_bytes (byte_count n v) v)) = v.
Proof.
  intros Hn Hv. rewrite be_val_be_bytes.
  pose proof (pow2_half (8 * Z.of_nat n) ltac:(lia)).
  destruct (byte_count_small n v) as [->|E]; [lia|lia| |].
  - rewrite pow256. fold (wrapu (8 * Z.of_nat n) v). rewrite wraps_wrapu by lia.
    apply wraps_small; lia.
  - rewrite Z.mod_small by done. apply wraps_small; lia.
Qed.

Lemma counted_value_small m v :
  (m <= 3)%nat -> 0 <= v < 256 ^ Z.of_nat m -> i32 (be_val (be_bytes (byte_count 4 v) v)) = v.
Proof.
  intros Hm Hv. pose proof (Z.pow_le_mono_r 256 (Z.of_nat m) 3 ltac:(lia) ltac:(lia)).
  apply (counted_value 4); [lia|]. simpl in *. lia.
Qed.

(** ** Type bytes of counted items *)

(** [k] bytes follow the type byte [otype + k], for every [k] up to [max]. *)
Definition counted_type (st : S_Type) (otype mask : Z) (max : nat) : bool :=
  forallb (fun k => bool_decide (field_type (otype + Z.of_nat k) = st)
             && (Z.land (otype + Z.of_nat k) mask =? Z.of_nat k)
             && (otype + Z.of_nat k <? 256)) (seq 0 (S max)).

Lemma counted_type_spec st otype mask max k :
  counted_type st otype mask max = true -> (k <= max)%nat -> 0 <= otype ->
  field_type (otype + Z.of_nat k) = st /\ Z.land (otype + Z.of_nat k) mask = Z.of_nat k
  /\ u8 (otype + Z.of_nat k) = otype + Z.of_nat k.
Proof.
  intros H Hk Ho. unfold counted_type in H. rewrite forallb_forall in H.
  specialize (H k). rewrite !andb_true_iff, bool_decide_eq_true, Z.eqb_eq, Z.ltb_lt in H.
  destruct H as [[? ?] ?]; [apply in_seq; lia|]. repeat split; auto. apply (wrapu_small 8); lia.
Qed.

Lemma enc_counted_eq n v otype :
  enc_counted n v otype = u8 (otype + Z.of_nat (byte_count n v)) :: be_bytes (byte_count n v) v.
Proof. with_strategy transparent [enc_counted] reflexivity. Qed.

(** ** What a field that was read means *)

(** The bytes a returned pointer refers to, in the written part [c] of the buffer. *)
Definition view_string (c : list Z) (p : option Z) : option (list Z) :=
  off ← p; Some (until_nul (drop (Z.to_nat off) c)).
Definition view_bytes (c : list Z) (off len : Z) : list Z := take (Z.to_nat len) (drop (Z.to_nat off) c).

Definition view (c : list Z) (f : out_field) : in_field :=
  match f with
  | VT_Null => VT_Null
  | VT_String p => VT_String (view_string c p)
  | VT_ByteArray p len => VT_ByteArray (view_bytes c p len) len
  | VT_Boolean i => VT_Boolean i
  | VT_Byte i => VT_Byte i
  | VT_UByte i => VT_UByte i
  | VT_Short i => VT_Short i
  | VT_UShort i => VT_UShort i
  | VT_Integer i => VT_Integer i
  | VT_UInt i => VT_UInt i
  | VT_Long l => VT_Long l
  | VT_ULong l => VT_ULong l
  | VT_Float b => VT_Float b
  | VT_Double b => VT_Double b
  | VT_Name p => VT_Name (view_string c p)
  | VT_NameIndex i => VT_NameIndex i
  | VT_Char i => VT_Char i
  | VT_Map p len => VT_Map (view_bytes c p len) len
  | VT_Unset => VT_Unset
  | VT_Xid p len => VT_Xid (view_bytes c p len) len
  end.

(** The value a reader gets for a field that was put: truth values become 0 or 1,
    bytes keep their low 8 bits with their sign, shorts come back as the unsigned
    value of their low 16 bits, unsigned longs as longs, characters with 17 bits,
    and a null string as the null value. *)
Definition norm (f : in_field) : in_field :=
  match f with
  | VT_String None => VT_Null
  | VT_Boolean i => VT_Boolean (if i =? 0 then 0 else 1)
  | VT_Byte i => VT_Byte (i8 i)
  | VT_UByte i => VT_UByte (u8 i)
  | VT_Short i => VT_Short (u16 i)
  | VT_UShort i => VT_UShort (u16 i)
  | VT_ULong l => VT_Long l
  | VT_NameIndex i => VT_NameIndex (u16 i)
  | VT_Char i => VT_Char (Z.land i 0x1ffff)
  | f => f
  end.

(** Fields that are read back: all but the zeros of the floating-point types,
    XIDs of more than 127 bytes, and the unset field, which is not written at all. *)
Definition readable (f : in_field) : Prop :=
  wf_field f /\
  match f with
  | VT_Float b => float_is_zero b = false
  | VT_Double b => double_is_zero b = false
  | VT_Xid _ len => len <= 127
  | VT_Unset => False
  | _ => True
  end.

(** [get] reads [f] from its encoding: it returns 0, leaves the position after the
    encoding, and the field means [norm f]. *)
Definition reads_field (b : concat_alloc_t) (f : in_field) : Prop :=
  forall fuel, exists g,
    ism_protocol_getObjectValue (S fuel) b
    = Ret (0, g, set_pos b (cpos b + Z.of_nat (length (enc_field f))))
    /\ view (contents b) g = norm f.

Lemma drop_reads b bs : reads_at b bs -> exists post, drop (Z.to_nat (cpos b)) (contents b) = bs ++ post.
Proof. intros [_ H]. done. Qed.

Lemma view_bytes_reads b bs cs :
  reads_at b (bs ++ cs) -> view_bytes (contents b) (cpos b) (Z.of_nat (length bs)) = bs.
Proof.
  intros [_ [post E]]. unfold view_bytes. rewrite E, Nat2Z.id, <-app_assoc. by rewrite take_app_length.
Qed.

Lemma view_string_reads b s cs :
  reads_at b ((s ++ [0]) ++ cs) -> is_cstr s -> view_string (contents b) (Some (cpos b)) = Some s.
Proof.
  intros [_ [post E]] Hs. unfold view_string. simpl. rewrite E, <-!app_assoc. simpl.
  by rewrite until_nul_app.
Qed.

(** One step of the reader: the type byte. *)
Lemma rd_type_byte b t bs :
  rd_ok b -> reads_at b (t :: bs) ->
  rd b (cpos b) = Ret t /\ (cpos b >=? cused b) = false
  /\ rd_ok (set_pos b (cpos b + 1)) /\ reads_at (set_pos b (cpos b + 1)) bs
  /\ contents (set_pos b (cpos b + 1)) = contents b.
Proof.
  intros Hb Hr. destruct (reads_at_cons b t bs (rd_wf _ Hb) Hr) as (E & Hr1 & Hb1 & Hlt).
  split; [done|]. split; [rewrite Z.geb_leb; apply Z.leb_gt; lia|]. split; [|done].
  destruct Hb. split; simpl; auto with amlen; lia.
Qed.

Lemma getObjectValue_step b t bs fuel :
  rd_ok b -> reads_at b (t :: bs) ->
  ism_protocol_getObjectValue (S fuel) b
  = get_case (ism_protocol_getObjectValue fuel) t (set_pos b (cpos b + 1)).
Proof.
  intros Hb Hr. destruct (rd_type_byte _ _ _ Hb Hr) as (E & Hend & _).
  simpl. by rewrite Hend, E.
Qed.

Lemma get_done_ok f b : rd_ok b -> get_done f b = Ret (0, f, b).
Proof. intros [_ Hp _]. unfold get_done. destruct (Z.ltb_spec (cpos b) 0); [lia|done]. Qed.

(** [get_case] reads the payload [bs] of type byte [t] as [g]. *)
Definition case_reads (t : Z) (bs : list Z) (g : concat_alloc_t -> out_field) : Prop :=
  forall get b rest, rd_ok b -> reads_at b (bs ++ rest) ->
    get_case get t b = Ret (0, g b, set_pos b (cpos b + Z.of_nat (length bs))).

(** The payload cases share their shape: a getter runs on the payload, and the
    buffer it leaves is still readable. *)
Ltac case_start Hft :=
  intros get b rest Hb Hr; unfold get_case; rewrite Hft;
  let H := fresh "Hadv" in pose proof (proj1 (rd_ok_advance _ _ _ Hb Hr)) as H.

Lemma case_nothing t g :
  match field_type t with
  | STYPE_Null => g = VT_Null
  | STYPE_Boolean => g = VT_Boolean (Z.land t 1)
  | STYPE_Byte => t >= S_Byte /\ g = VT_Byte (t - S_Byte)
  | _ => False
  end -> case_reads t [] (fun _ => g).
Proof.
  intros H get b rest Hb Hr. unfold get_case. simpl length. rewrite Z.add_0_r.
  replace (set_pos b (cpos b)) with b by (by destruct b).
  destruct (field_type t); try done; subst; rewrite ?get_done_ok by done; try done.
  destruct H as [Ht ->]. unfold ism_protocol_getByteValue. rewrite Z.geb_leb, (proj2 (Z.leb_le _ _)) by lia.
  rewrite bind_ret. by apply get_done_ok.
Qed.

Lemma getByteValue_reads b t c rest :
  rd_ok b -> reads_at b ([c] ++ rest) -> t < S_Byte ->
  ism_protocol_getByteValue b t = Ret (i8 c, set_pos b (cpos b + 1)).
Proof.
  intros Hb Hr Ht. destruct (rd_type_byte _ _ _ Hb Hr) as (E & Hend & _).
  unfold ism_protocol_getByteValue. rewrite Hend, E, Z.geb_leb, (proj2 (Z.leb_gt _ _)) by lia. done.
Qed.

Lemma case_byte c : case_reads S_ByteLen [c] (fun _ => VT_Byte (i8 c)).
Proof.
  case_start (eq_refl : field_type S_ByteLen = STYPE_Byte).
  rewrite (getByteValue_reads b S_ByteLen c rest Hb Hr) by (vm_compute; reflexivity).
  rewrite bind_ret. by apply get_done_ok.
Qed.

Lemma case_ubyte c : case_reads S_UByteLen [c] (fun _ => VT_UByte (u8 c)).
Proof.
  case_start (eq_refl : field_type S_UByteLen = STYPE_UByte).
  rewrite (getByteValue_reads b S_UByteLen c rest Hb Hr) by (vm_compute; reflexivity).
  rewrite bind_ret, (wrapu_wraps 8) by lia. by apply get_done_ok.
Qed.

Lemma case_short t bs :
  Z.land t S_ShortValue = Z.of_nat (length bs) ->
  let v := i32 (be_val bs) in
  forall g, match field_type t with
            | STYPE_Short => g = VT_Short v | STYPE_UShort => g = VT_UShort (u16 v)
            | STYPE_Char => g = VT_Char v | STYPE_ID => g = VT_NameIndex v | _ => False end ->
  case_reads t bs (fun _ => g).
Proof.
  intros Hl v g Hg get b rest Hb Hr. unfold get_case.
  pose proof (proj1 (rd_ok_advance _ _ _ Hb Hr)) as Hadv.
  pose proof (getShortValue_reads b t bs rest Hb Hr Hl) as G. fold v in G.
  destruct (field_type t); try done; rewrite G, bind_ret, get_done_ok by done; by rewrite Hg.
Qed.

Lemma case_int t bs :
  Z.land t S_IntValue = Z.of_nat (length bs) ->
  forall g, match field_type t with
            | STYPE_Int => g = VT_Integer (i32 (be_val bs)) | STYPE_UInt => g = VT_UInt (i32 (be_val bs))
            | _ => False end ->
  case_reads t bs (fun _ => g).
Proof.
  intros Hl g Hg get b rest Hb Hr. unfold get_case.
  pose proof (proj1 (rd_ok_advance _ _ _ Hb Hr)) as Hadv.
  pose proof (getIntValue_reads b t bs rest Hb Hr Hl) as G.
  destruct (field_type t); try done; rewrite G, bind_ret, get_done_ok by done; by rewrite Hg.
Qed.

Lemma case_long t bs :
  Z.land t S_LongValue = Z.of_nat (length bs) -> field_type t = STYPE_Long ->
  case_reads t bs (fun _ => VT_Long (i64 (be_val bs))).
Proof.
  intros Hl Hft. case_start Hft.
  rewrite (getLongValue_reads b t bs rest Hb Hr Hl), bind_ret. by apply get_done_ok.
Qed.

Lemma case_float bs : length bs = 4%nat -> case_reads (S_Float + 1) bs (fun _ => VT_Float (i32 (be_val bs))).
Proof.
  intros Hl. case_start (eq_refl : field_type (S_Float + 1) = STYPE_Float).
  unfold ism_protocol_getFloatValue. change (Z.land (S_Float + 1) S_FloatValue =? 0) with false. cbv iota.
  rewrite (getIntValue_reads b 4 bs rest Hb Hr), bind_ret by (by rewrite Hl). by apply get_done_ok.
Qed.

Lemma case_double bs : length bs = 8%nat -> case_reads (S_Double + 1) bs (fun _ => VT_Double (i64 (be_val bs))).
Proof.
  intros Hl. case_start (eq_refl : field_type (S_Double + 1) = STYPE_Double).
  unfold ism_protocol_getDoubleValue. change (Z.land (S_Double + 1) S_DoubleValue =? 0) with false. cbv iota.
  rewrite (getLongValue_reads b 8 bs rest Hb Hr), bind_ret by (by rewrite Hl). by apply get_done_ok.
Qed.

(** Spans: the length is in the type byte, or in the bytes that follow it. *)
Lemma case_short_span t bs (name : bool) :
  (if name then field_type t = STYPE_Name /\ Z.land t S_NameValue = Z.of_nat (length bs)
   else field_type t = STYPE_String /\ Z.land t 0x3f = Z.of_nat (length bs)) ->
  case_reads t bs (fun b => if name then VT_Name (Some (cpos b)) else VT_String (Some (cpos b))).
Proof.
  intros H get b rest Hb Hr. unfold get_case, ism_protocol_getNameValue, ism_protocol_getStringValue.
  pose proof (proj1 (rd_ok_advance _ _ _ Hb Hr)) as Hadv.
  destruct name, H as [-> ->]; rewrite (get_span_reads b bs rest Hb Hr), bind_ret; by apply get_done_ok.
Qed.

(** The length bytes of a long item: what [getIntValue] makes of them. *)
Lemma get_length b otype len bs rest :
  rd_ok b -> reads_at b ((be_bytes (byte_count 4 len) len ++ bs) ++ rest) ->
  0 <= len < 2 ^ 31 -> Z.land otype S_IntValue = Z.of_nat (byte_count 4 len) ->
  let b1 := set_pos b (cpos b + Z.of_nat (byte_count 4 len)) in
  ism_protocol_getIntValue b otype = Ret (len, b1) /\ rd_ok b1 /\ reads_at b1 (bs ++ rest).
Proof.
  intros Hb Hr Hlen Hmask b1. rewrite <-app_assoc in Hr.
  pose proof (rd_ok_advance _ _ _ Hb Hr) as (Hb1 & Hr1 & _). rewrite length_be_bytes in Hb1, Hr1.
  split; [|done].
  rewrite (getIntValue_reads b otype _ _ Hb Hr) by (by rewrite length_be_bytes).
  rewrite length_be_bytes. do 2 f_equal. apply (counted_value 4); simpl; lia.
Qed.

Lemma mask_StrLen k : (k <= 4)%nat ->
  Z.land (S_StrLen + Z.of_nat k - S_StrLen) S_IntValue = Z.of_nat k
  /\ Z.land (S_NameLen + Z.of_nat k - S_StrLen) S_IntValue = Z.of_nat k
  /\ Z.land (S_ByteArray + Z.of_nat k - S_ByteArray) S_IntValue = Z.of_nat k
  /\ Z.land (Z.land (S_Map + Z.of_nat k) S_IntValue) S_IntValue = Z.of_nat k.
Proof. intros. do 5 (destruct k as [|k]; [done|]). lia. Qed.

Definition long_span_type (st : S_Type) : Z :=
  match st with STYPE_StrLen => S_StrLen | STYPE_NameLen => S_NameLen
  | STYPE_BArray => S_ByteArray | _ => S_Map end.

Lemma case_long_span st bs len (g : Z -> out_field) :
  len = Z.of_nat (length bs) -> len <= 2 ^ 30 ->
  match st with
  | STYPE_StrLen => g = (fun p => VT_String (Some p)) | STYPE_NameLen => g = (fun p => VT_Name (Some p))
  | STYPE_BArray => g = (fun p => VT_ByteArray p len) | STYPE_Map => g = (fun p => VT_Map p len)
  | _ => False
  end ->
  let k := byte_count 4 len in
  case_reads (long_span_type st + Z.of_nat k) (be_bytes k len ++ bs) (fun b => g (cpos b + Z.of_nat k)).
Proof.
  intros Hlen Hmax Hg k get b rest Hb Hr.
  pose proof (byte_count_le 4 len) as Hk. fold k in Hk.
  destruct (mask_StrLen k Hk) as (M1 & M2 & M3 & M4).
  assert (Hft : field_type (long_span_type st + Z.of_nat k) = st).
  { destruct st; try done; clear -Hk; do 5 (destruct k as [|k]; [done|]); lia. }
  pose proof (proj1 (rd_ok_advance _ _ _ Hb Hr)) as Hadv.
  rewrite length_app, length_be_bytes in Hadv |- *. fold k in Hadv |- *.
  assert (G : forall o, Z.land o S_IntValue = Z.of_nat k ->
     ism_protocol_getIntValue b o = Ret (len, set_pos b (cpos b + Z.of_nat k))).
  { intros o Ho. apply (get_length b o len bs rest Hb Hr); [lia|done]. }
  destruct (get_length b (Z.of_nat k) len bs rest Hb Hr ltac:(lia)) as (_ & Hb1 & Hr1).
  { clear -Hk. fold k. do 5 (destruct k as [|k]; [done|]). lia. }
  fold k in Hb1, Hr1. pose proof (get_span_reads _ _ _ Hb1 Hr1) as Sp.
  pose proof (rd_ok_advance _ _ _ Hb1 Hr1) as (_ & _ & Hend).
  rewrite <-Hlen in Sp, Hend. cbn [cpos cused set_pos] in Sp, Hend.
  assert (Hi : i32 (cpos b + Z.of_nat k + len) = cpos b + Z.of_nat k + len).
  { destruct Hb1 as [_ Hp Hf]. cbn [cpos cused set_pos] in Hp, Hf. apply (wraps_small 32); [lia|].
    change (2 ^ (32 - 1)) with 2147483648. lia. }
  assert (Hu : u32 len = len) by (apply (wrapu_small 32); lia).
  unfold get_case. rewrite Hft.
  replace (cpos b + Z.of_nat (k + length bs)) with (cpos b + Z.of_nat k + len) in * by lia.
  pose proof (in_range_int (set_pos b (cpos b + Z.of_nat k)) len Hb1 ltac:(lia) ltac:(cbn [cpos cused set_pos]; lia)) as Rg.
  destruct st; try done; subst g;
    unfold ism_protocol_getStringValue, ism_protocol_getNameValue, ism_protocol_getByteArrayValue,
      ism_protocol_getMapValue; rewrite Hft, G by done; rewrite !bind_ret;
    rewrite ?Sp, ?bind_ret, ?Rg; cbn [cpos set_pos]; rewrite ?Hi, ?Hu, ?bind_ret;
    first [by apply get_done_ok | rewrite ?set_pos_set_pos; by apply get_done_ok].
Qed.

Lemma case_xid s len :
  len = Z.of_nat (length s) -> len <= 127 ->
  case_reads S_Xid (u8 len :: s) (fun b => VT_Xid (cpos b + 1) len).
Proof.
  intros Hlen Hmax. case_start (eq_refl : field_type S_Xid = STYPE_Xid).
  destruct (rd_type_byte _ _ _ Hb Hr) as (E & _ & Hb1 & Hr1 & _).
  unfold ism_protocol_getXidValue. rewrite E, bind_ret. cbn [length] in Hadv |- *.
  rewrite (wraps_wrapu 8), (wraps_small 8 ltac:(lia) len) by (simpl; lia).
  rewrite (wrapu_small 32) by lia. cbn [cpos set_pos].
  pose proof (rd_ok_advance _ _ _ Hb1 Hr1) as (_ & _ & Hend). destruct Hb1 as [_ Hp Hf]. simpl in *.
  rewrite (wraps_small 32 ltac:(lia) (cpos b + 1 + len)) by (simpl; lia).
  replace (cpos b + Z.of_nat (S (length s))) with (cpos b + 1 + len) in * by lia.
  exact (get_done_ok _ _ Hadv).
Qed.

(** ** Round trip *)

Lemma u16_land i : Z.land i 0xffff = u16 i.
Proof. change 0xffff with (Z.ones 16). by rewrite Z.land_ones by lia. Qed.

Lemma case_counted_short (st : S_Type) otype v g :
  counted_type st otype S_ShortValue 3 = true \/ (counted_type st otype S_ShortValue 2 = true /\ v < 2 ^ 16) ->
  0 <= otype -> 0 <= v < 2 ^ 24 ->
  match st with
  | STYPE_Short => g = VT_Short v | STYPE_UShort => g = VT_UShort (u16 v)
  | STYPE_Char => g = VT_Char v | STYPE_ID => g = VT_NameIndex v | _ => False end ->
  exists t, enc_counted 4 v otype = t :: be_bytes (byte_count 4 v) v
    /\ case_reads t (be_bytes (byte_count 4 v) v) (fun _ => g).
Proof.
  intros Hct Ho Hv Hg. exists (otype + Z.of_nat (byte_count 4 v)).
  assert (field_type (otype + Z.of_nat (byte_count 4 v)) = st
          /\ Z.land (otype + Z.of_nat (byte_count 4 v)) S_ShortValue = Z.of_nat (byte_count 4 v)
          /\ u8 (otype + Z.of_nat (byte_count 4 v)) = otype + Z.of_nat (byte_count 4 v)) as (Hft & Hm & Hu).
  { destruct Hct as [Hct|[Hct Hlt]]; apply (counted_type_spec _ _ _ _ _ Hct); auto;
      apply byte_count_bound; simpl; lia. }
  split; [by rewrite enc_counted_eq, Hu|]. apply case_short; [by rewrite length_be_bytes|].
  by rewrite Hft, (counted_value_small 3) by (simpl; lia).
Qed.

Lemma case_counted_int (st : S_Type) otype v g :
  counted_type st otype S_IntValue 4 = true -> 0 <= otype -> is_i32 v ->
  match st with STYPE_Int => g = VT_Integer v | STYPE_UInt => g = VT_UInt v | _ => False end ->
  exists t, enc_counted 4 v otype = t :: be_bytes (byte_count 4 v) v
    /\ case_reads t (be_bytes (byte_count 4 v) v) (fun _ => g).
Proof.
  intros Hct Ho Hv Hg.
  destruct (counted_type_spec _ _ _ _ _ Hct (byte_count_le 4 v) Ho) as (Hft & Hm & Hu).
  eexists. split; [by rewrite enc_counted_eq, Hu|]. apply case_int; [by rewrite length_be_bytes|].
  pose proof (counted_value 4 v ltac:(lia) Hv) as E. change (8 * Z.of_nat 4) with 32 in E.
  by rewrite Hft, E.
Qed.

Lemma case_counted_long v :
  is_i64 v -> exists t, enc_counted 8 v S_Long = t :: be_bytes (byte_count 8 v) v
    /\ case_reads t (be_bytes (byte_count 8 v) v) (fun _ => VT_Long v).
Proof.
  intros Hv.
  destruct (counted_type_spec STYPE_Long S_Long S_LongValue 8 _ eq_refl (byte_count_le 8 v)) as (Hft & Hm & Hu);
    [done|].
  eexists. split; [by rewrite enc_counted_eq, Hu|].
  pose proof (counted_value 8 v ltac:(lia) Hv) as E. change (8 * Z.of_nat 8) with 64 in E.
  pose proof (case_long _ (be_bytes (byte_count 8 v) v) ltac:(rewrite length_be_bytes; exact Hm) Hft) as C.
  by rewrite E in C.
Qed.

(** The encoding of [f] is a type byte and a payload that [get_case] reads as a
    field meaning [norm f]. *)
Definition decodes (f : in_field) : Prop :=
  exists t bs g, enc_field f = t :: bs /\ case_reads t bs g
    /\ forall b rest, reads_at b (bs ++ rest) -> view (contents b) (g b) = norm f.

Lemma decodes_counted_short st otype v f g :
  counted_type st otype S_ShortValue 3 = true \/ (counted_type st otype S_ShortValue 2 = true /\ v < 2 ^ 16) ->
  0 <= otype -> 0 <= v < 2 ^ 24 ->
  match st with
  | STYPE_Short => g = VT_Short v | STYPE_UShort => g = VT_UShort (u16 v)
  | STYPE_Char => g = VT_Char v | STYPE_ID => g = VT_NameIndex v | _ => False end ->
  enc_field f = enc_counted 4 v otype -> (forall c, view c g = norm f) -> decodes f.
Proof.
  intros Hct Ho Hv Hg Ef Hn. destruct (case_counted_short st otype v g) as (t & E & C); auto.
  exists t, (be_bytes (byte_count 4 v) v), (fun _ => g). rewrite Ef. auto.
Qed.

Lemma decodes_counted_int st otype v f g :
  counted_type st otype S_IntValue 4 = true -> 0 <= otype -> is_i32 v ->
  match st with STYPE_Int => g = VT_Integer v | STYPE_UInt => g = VT_UInt v | _ => False end ->
  enc_field f = enc_counted 4 v otype -> (forall c, view c g = norm f) -> decodes f.
Proof.
  intros Hct Ho Hv Hg Ef Hn. destruct (case_counted_int st otype v g) as (t & E & C); auto.
  exists t, (be_bytes (byte_count 4 v) v), (fun _ => g). rewrite Ef. auto.
Qed.

Lemma decodes_counted_long l f :
  is_i64 l -> enc_field f = enc_counted 8 l S_Long -> norm f = VT_Long l -> decodes f.
Proof.
  intros Hl Ef Hn. destruct (case_counted_long l Hl) as (t & E & C).
  exists t, (be_bytes (byte_count 8 l) l), (fun _ => VT_Long l). rewrite Ef, Hn. auto.
Qed.

Lemma decodes_byte i : is_i32 i -> decodes (VT_Byte i).
Proof.
  intros Hi. unfold decodes, enc_field, norm. destruct ((i >=? 0) && (i <=? S_ByteMax)) eqn:E.
  - apply andb_true_iff in E as [E1 E2]. rewrite Z.geb_le in E1. rewrite Z.leb_le in E2.
    exists (S_Byte + i), [], (fun _ => VT_Byte i). split; [done|]. unfold S_ByteMax in E2. split.
    + apply case_nothing. rewrite <-(Z2Nat.id i) by lia. assert (Z.to_nat i <= 20)%nat as H by lia.
      revert H. generalize (Z.to_nat i) as n. intros n Hn.
      do 21 (destruct n as [|n]; [split; [vm_compute; congruence|f_equal; unfold S_Byte; lia]|]). lia.
    + intros. simpl. by rewrite (wraps_small 8) by (simpl; lia).
  - exists S_ByteLen, [u8 i], (fun _ => VT_Byte (i8 (u8 i))). split; [done|].
    split; [apply case_byte|]. intros. simpl. by rewrite (wraps_wrapu 8) by lia.
Qed.

Lemma decodes_float bits : is_i32 bits -> float_is_zero bits = false -> decodes (VT_Float bits).
Proof.
  intros Hb Hz. exists (S_Float + 1), (be_bytes 4 bits), (fun _ => VT_Float bits).
  unfold enc_field. rewrite Hz. split; [done|]. split; [|done].
  pose proof (case_float (be_bytes 4 bits) (length_be_bytes _ _)) as C.
  rewrite be_val_be_bytes, pow256 in C. change (8 * Z.of_nat 4) with 32 in C. fold (wrapu 32 bits) in C.
  rewrite (wraps_wrapu 32), (wraps_small 32) in C by (auto; lia). done.
Qed.

Lemma decodes_double bits : is_i64 bits -> double_is_zero bits = false -> decodes (VT_Double bits).
Proof.
  intros Hb Hz. exists (S_Double + 1), (be_bytes 8 bits), (fun _ => VT_Double bits).
  unfold enc_field. rewrite Hz. split; [done|]. split; [|done].
  pose proof (case_double (be_bytes 8 bits) (length_be_bytes _ _)) as C.
  rewrite be_val_be_bytes, pow256 in C. change (8 * Z.of_nat 8) with 64 in C. fold (wrapu 64 bits) in C.
  rewrite (wraps_wrapu 64), (wraps_small 64) in C by (auto; lia). done.
Qed.

(** The payload of a long item: length bytes, then the item. *)
Lemma reads_at_payload b bs cs rest :
  rd_ok b -> reads_at b ((bs ++ cs) ++ rest) ->
  reads_at (set_pos b (cpos b + Z.of_nat (length bs))) (cs ++ rest).
Proof. intros Hb Hr. rewrite <-app_assoc in Hr. apply reads_at_app; [apply Hb|done]. Qed.

Lemma short_span_type (name : bool) len :
  0 <= len -> len <= (if name then S_NameMax else S_StringMax) ->
  if name then field_type (S_Name + len) = STYPE_Name /\ Z.land (S_Name + len) S_NameValue = len
  else field_type (S_String + len) = STYPE_String /\ Z.land (S_String + len) 0x3f = len.
Proof.
  intros Hl Hm. rewrite <-(Z2Nat.id len) in * by lia.
  destruct name; unfold S_NameMax, S_StringMax in Hm.
  - destruct (counted_type_spec STYPE_Name S_Name S_NameValue 30 (Z.to_nat len) eq_refl) as (? & ? & _);
      [lia|done|done].
  - destruct (counted_type_spec STYPE_String S_String 0x3f 60 (Z.to_nat len) eq_refl) as (? & ? & _);
      [lia|done|done].
Qed.

Lemma view_long_string b k len s rest :
  reads_at b ((be_bytes k len ++ (s ++ [0])) ++ rest) -> is_cstr s ->
  view_string (contents b) (Some (cpos b + Z.of_nat k)) = Some s.
Proof.
  intros [Hp [post E]] Hs. unfold view_string. simpl. f_equal.
  rewrite Z2Nat.inj_add, Nat2Z.id, <-drop_drop, E, <-!app_assoc by lia.
  rewrite <-(length_be_bytes k len) at 1. rewrite drop_app_length. simpl. by apply until_nul_app.
Qed.

Lemma enc_span_short smax stype ltype bs :
  let len := Z.of_nat (length bs) in
  len <= smax -> 0 <= stype -> stype + len < 256 -> enc_span smax stype ltype bs = (stype + len) :: bs.
Proof.
  intros len Hl Hs Hm. unfold enc_span. fold len. rewrite (proj2 (Z.leb_le _ _) Hl).
  rewrite (wrapu_small 8) by lia. done.
Qed.

Lemma enc_span_long smax stype ltype bs :
  let len := Z.of_nat (length bs) in let k := byte_count 4 len in
  ~ len <= smax -> 0 <= ltype < 250 ->
  enc_span smax stype ltype bs = (ltype + Z.of_nat k) :: be_bytes k len ++ bs.
Proof.
  intros len k Hl Hs. pose proof (byte_count_le 4 len). unfold enc_span. fold len.
  rewrite (proj2 (Z.leb_gt len smax)) by lia. rewrite enc_counted_eq. fold k.
  rewrite (wrapu_small 8) by lia. done.
Qed.

(** Strings and names: in-line or with length bytes. *)
Lemma decodes_string (name : bool) s :
  wf_string s -> decodes (if name then VT_Name (Some s) else VT_String (Some s)).
Proof.
  intros [Hs Hl]. unfold max_bytes in Hl.
  set (len := Z.of_nat (length (s ++ [0]))).
  assert (Hlen : 0 < len <= 2 ^ 29) by (subst len; rewrite length_app; simpl; lia).
  destruct (decide (len <= if name then S_NameMax else S_StringMax)) as [Hsh|Hsh].
  - exists ((if name then S_Name else S_String) + len), (s ++ [0]),
      (fun b => if name then VT_Name (Some (cpos b)) else VT_String (Some (cpos b))).
    split; [|split].
    + destruct name; apply enc_span_short; fold len; auto; unfold S_NameMax, S_StringMax, S_Name, S_String in *; lia.
    + apply case_short_span. fold len. pose proof (short_span_type name len ltac:(lia) Hsh). by destruct name.
    + intros b rest Hr. destruct name; cbn [view norm]; by rewrite (view_string_reads b s rest Hr Hs).
  - pose proof (byte_count_le 4 len) as Hk. set (k := byte_count 4 len) in *.
    exists ((if name then S_NameLen else S_StrLen) + Z.of_nat k), (be_bytes k len ++ (s ++ [0])),
      (fun b => if name then VT_Name (Some (cpos b + Z.of_nat k)) else VT_String (Some (cpos b + Z.of_nat k))).
    split; [|split].
    + destruct name; apply enc_span_long; fold len; auto; unfold S_NameLen, S_StrLen; lia.
    + destruct name;
        [apply (case_long_span STYPE_NameLen _ _ (fun p => VT_Name (Some p)))
        |apply (case_long_span STYPE_StrLen _ _ (fun p => VT_String (Some p)))]; auto; lia.
    + intros b rest Hr. apply (view_long_string b k len) in Hr; [|done..]. by destruct name; cbn [view norm]; rewrite Hr.
Qed.

(** Byte arrays and maps. *)
Lemma decodes_span (map : bool) s len :
  wf_bytes s len -> decodes (if map then VT_Map s len else VT_ByteArray s len).
Proof.
  intros (Hlen & Hl & Hs). unfold max_bytes in Hl.
  pose proof (byte_count_le 4 len) as Hk. set (k := byte_count 4 len) in *.
  exists ((if map then S_Map else S_ByteArray) + Z.of_nat k), (be_bytes k len ++ s),
    (fun b => if map then VT_Map (cpos b + Z.of_nat k) len else VT_ByteArray (cpos b + Z.of_nat k) len).
  split; [|split].
  - destruct map; cbn [enc_field]; rewrite enc_counted_eq; fold k;
      rewrite (wrapu_small 8) by (unfold S_Map, S_ByteArray; lia); done.
  - destruct map; [apply (case_long_span STYPE_Map _ _ (fun p => VT_Map p len))
      |apply (case_long_span STYPE_BArray _ _ (fun p => VT_ByteArray p len))]; auto; lia.
  - intros b rest [Hp [post E]].
    assert (V : view_bytes (contents b) (cpos b + Z.of_nat k) len = s).
    { unfold view_bytes. rewrite Z2Nat.inj_add, !Nat2Z.id, <-drop_drop, E, <-!app_assoc by lia.
      rewrite <-(length_be_bytes k len) at 1. rewrite drop_app_length, Hlen, Nat2Z.id.
      by rewrite take_app_length. }
    by destruct map; cbn [view norm]; rewrite V.
Qed.

Lemma decodes_xid s len : wf_bytes s len -> len <= 127 -> decodes (VT_Xid s len).
Proof.
  intros (Hlen & Hl & Hs) Hm. exists S_Xid, (u8 len :: s), (fun b => VT_Xid (cpos b + 1) len).
  split; [done|]. split; [by apply case_xid|]. intros b rest [Hp [post E]]. cbn [view norm]. f_equal.
  unfold view_bytes. rewrite Z2Nat.inj_add, <-drop_drop, E, Hlen, Nat2Z.id by lia.
  change (Z.to_nat 1) with 1%nat. cbn [app drop].
  by rewrite drop_0, <-app_assoc, take_app_length.
Qed.

Lemma readable_decodes f : readable f -> decodes f.
Proof.
  intros [Hf Hrd].
  assert (R16 : forall i, 0 <= u16 i /\ u16 i < 2 ^ 16) by (intros; apply wrapu_range; lia).
  destruct f as [|[s|]|s len|i|i|i|i|i|i|i|l|l|bits|bits|[s|]|i|i|s len| |s len]; simpl in Hf, Hrd; try done.
  - exists S_NullString, [], (fun _ => VT_Null). split; [done|]. split; [by apply case_nothing|done].
  - by apply (decodes_string false).
  - exists S_NullString, [], (fun _ => VT_Null). split; [done|]. split; [by apply case_nothing|done].
  - by apply (decodes_span false).
  - eexists _, [], (fun _ => VT_Boolean (if i =? 0 then 0 else 1)). split; [done|].
    split; [|done]. apply case_nothing. by destruct (i =? 0).
  - by apply decodes_byte.
  - exists S_UByteLen, [u8 i], (fun _ => VT_UByte (u8 (u8 i))). split; [done|].
    split; [apply case_ubyte|]. intros. simpl. by rewrite (wrapu_idemp 8) by lia.
  - apply (decodes_counted_short STYPE_Short S_Short (u16 i) _ (VT_Short (u16 i))); try done;
      [right; split; [done|apply R16]|specialize (R16 i); lia|by simpl; rewrite u16_land].
  - apply (decodes_counted_short STYPE_UShort S_UShort (u16 i) _ (VT_UShort (u16 (u16 i)))); try done;
      [right; split; [done|apply R16]|specialize (R16 i); lia|by simpl; rewrite u16_land|]. intros; simpl. by rewrite (wrapu_idemp 16) by lia.
  - by apply (decodes_counted_int STYPE_Int S_Int i _ (VT_Integer i)).
  - by apply (decodes_counted_int STYPE_UInt S_UInt i _ (VT_UInt i)).
  - by apply (decodes_counted_long l).
  - by apply (decodes_counted_long l).
  - by apply decodes_float.
  - by apply decodes_double.
  - by apply (decodes_string true).
  - apply (decodes_counted_short STYPE_ID S_ID (u16 i) _ (VT_NameIndex (u16 i))); try done;
      [right; split; [done|apply R16]|specialize (R16 i); lia|by simpl; rewrite u16_land].
  - assert (0 <= Z.land i 0x1ffff < 2 ^ 17).
    { change 0x1ffff with (Z.ones 17). rewrite Z.land_ones by lia. by apply Z.mod_pos_bound. }
    apply (decodes_counted_short STYPE_Char S_Char (Z.land i 0x1ffff) _ (VT_Char (Z.land i 0x1ffff)));
      try done; [by left|lia].
  - by apply (decodes_span true).
  - by apply decodes_xid.
Qed.

(** ** Sequences of values *)

(** Putting values one after the other, and getting as many. *)
Fixpoint put_fields (mem : allocator) (fs : list in_field) (b : concat_alloc_t) : outcome concat_alloc_t :=
  match fs with
  | [] => Ret b
  | f :: fs => b ← ism_protocol_putObjectValue mem f b; put_fields mem fs b
  end.

Fixpoint get_fields (n : nat) (b : concat_alloc_t) : outcome (list (Z * out_field) * concat_alloc_t) :=
  match n with
  | O => Ret ([], b)
  | S n => '(rc, f, b) ← ism_protocol_getObjectValue 1 b;
           '(fs, b) ← get_fields n b; Ret ((rc, f) :: fs, b)
  end.

Definition enc_fields (fs : list in_field) : list Z := concat (map enc_field fs).

Lemma put_fields_emits mem fs :
  alloc_total mem -> Forall wf_field fs -> emits_grow mem (put_fields mem fs) (enc_fields fs).
Proof.
  intros Hm. unfold enc_fields.
  induction 1 as [|f fs Hf Hfs IH]; [apply emits_grow_nil|].
  apply (emits_grow_bind mem _ _ (enc_field f)); [by apply putObjectValue_emits|exact IH].
Qed.

Lemma decodes_get f b rest fuel :
  readable f -> rd_ok b -> reads_at b (enc_field f ++ rest) ->
  let b' := set_pos b (cpos b + Z.of_nat (length (enc_field f))) in
  exists g, ism_protocol_getObjectValue (S fuel) b = Ret (0, g, b')
    /\ view (contents b) g = norm f /\ rd_ok b' /\ reads_at b' rest.
Proof.
  intros Hf Hb Hr b'. destruct (rd_ok_advance _ _ _ Hb Hr) as (Hb' & Hr' & _).
  destruct (readable_decodes f Hf) as (t & bs & g & Ef & C & V). rewrite Ef in Hr.
  destruct (rd_type_byte _ _ _ Hb Hr) as (_ & _ & Hb1 & Hr1 & Hc1).
  exists (g (set_pos b (cpos b + 1))). split; [|split; [|done]].
  - rewrite (getObjectValue_step b t _ fuel Hb Hr), (C _ _ _ Hb1 Hr1).
    rewrite set_pos_set_pos. subst b'. rewrite Ef. simpl. do 3 f_equal. lia.
  - rewrite <-Hc1. by apply (V _ _ Hr1).
Qed.

Lemma get_fields_reads fs b rest :
  Forall readable fs -> rd_ok b -> reads_at b (enc_fields fs ++ rest) ->
  exists gs, get_fields (length fs) b = Ret (gs, set_pos b (cpos b + Z.of_nat (length (enc_fields fs))))
    /\ Forall2 (fun r f => r.1 = 0 /\ view (contents b) r.2 = norm f) gs fs.
Proof.
  unfold enc_fields. intros Hfs. revert b. induction Hfs as [|f fs Hf Hfs IH]; intros b Hb Hr.
  - exists []. simpl. rewrite Z.add_0_r. split; [by destruct b|constructor].
  - cbn [map concat length get_fields] in *. rewrite <-app_assoc in Hr.
    destruct (decodes_get f b _ 0 Hf Hb Hr) as (g & E & V & Hb1 & Hr1).
    destruct (IH _ Hb1 Hr1) as (gs & Eg & Vs). exists ((0, g) :: gs). split.
    + rewrite E, bind_ret, Eg, bind_ret, set_pos_set_pos. simpl cpos.
      rewrite length_app, Nat2Z.inj_add. do 3 f_equal. lia.
    + by constructor.
Qed.

(** ** Searching a property list by name *)

(** Values that the search steps over correctly. *)
Definition skippable (f : in_field) : Prop :=
  readable f /\
  match f with VT_UInt _ | VT_Char _ | VT_Name _ | VT_NameIndex _ => False | _ => True end.

(** A type byte whose payload of [n] bytes the search skips, and that does not
    end it. *)
Definition skips (t : Z) (n : nat) : bool :=
  match field_type t with
  | STYPE_StrLen | STYPE_BArray | STYPE_Map | STYPE_Xid => true
  | STYPE_Null | STYPE_Boolean | STYPE_Byte | STYPE_UByte | STYPE_Short | STYPE_UShort
  | STYPE_Int | STYPE_Long | STYPE_Float | STYPE_Double | STYPE_String => field_len t =? Z.of_nat n + 1
  | _ => false
  end.

Lemma get_done_inv f b r : get_done f b = Ret r -> r.2 = b /\ r.1.2 = f.
Proof. unfold get_done. by intros [= <-]. Qed.

Lemma skip_item_reads t bs g b rest :
  case_reads t bs g -> skips t (length bs) = true -> rd_ok b -> reads_at b (bs ++ rest) ->
  skip_item t b = Ret (set_pos b (cpos b + Z.of_nat (length bs))).
Proof.
  intros C Hs Hb Hr. specialize (C (fun b => Hang) b rest Hb Hr). unfold skips in Hs.
  unfold skip_item. unfold get_case in C.
  destruct (field_type t); try done;
    try (apply Z.eqb_eq in Hs; rewrite Hs; do 3 f_equal; lia);
    apply bind_ret_inv in C as (x & -> & C);
    repeat match goal with p : prod _ _ |- _ => destruct p end; rewrite bind_ret;
    apply get_done_inv in C as [C _]; simpl in C; by rewrite C.
Qed.

Lemma counted_skips otype n v :
  forallb (fun k => skips (otype + Z.of_nat k) k && (otype + Z.of_nat k <? 256)) (seq 0 (S (byte_count n v))) = true ->
  0 <= otype -> enc_counted n v otype = (otype + Z.of_nat (byte_count n v)) :: be_bytes (byte_count n v) v
  /\ skips (otype + Z.of_nat (byte_count n v)) (byte_count n v) = true.
Proof.
  intros H Ho. rewrite forallb_forall in H. specialize (H (byte_count n v)).
  rewrite andb_true_iff, Z.ltb_lt in H. destruct H as [H1 H2]; [apply in_seq; lia|].
  rewrite enc_counted_eq, (wrapu_small 8) by lia. done.
Qed.

Lemma forallb_seq_le (p : nat -> bool) m n :
  (m <= n)%nat -> forallb p (seq 0 (S n)) = true -> forallb p (seq 0 (S m)) = true.
Proof.
  intros Hm. rewrite !forallb_forall. intros H x Hx. apply H. apply in_seq. apply in_seq in Hx. lia.
Qed.

Lemma enc_counted_skips n v otype max t bs :
  (byte_count n v <= max)%nat ->
  forallb (fun k => skips (otype + Z.of_nat k) k && (otype + Z.of_nat k <? 256)) (seq 0 (S max)) = true ->
  0 <= otype -> enc_counted n v otype = t :: bs -> skips t (length bs) = true.
Proof.
  intros Hm H Ho E.
  destruct (counted_skips otype n v (forallb_seq_le _ _ _ Hm H) Ho) as (E2 & S2).
  rewrite E2 in E. apply cons_eq_inv in E as [<- <-]. by rewrite length_be_bytes.
Qed.

Lemma enc_counted_bytes_skips v otype s t bs :
  forallb (fun k => (otype + Z.of_nat k <? 256) && match field_type (otype + Z.of_nat k) with
     STYPE_StrLen | STYPE_BArray | STYPE_Map | STYPE_Xid => true | _ => false end) (seq 0 5) = true ->
  0 <= otype -> enc_counted 4 v otype ++ s = t :: bs -> skips t (length bs) = true.
Proof.
  intros H Ho E. rewrite forallb_forall in H. pose proof (byte_count_le 4 v).
  specialize (H (byte_count 4 v) ltac:(apply in_seq; lia)). apply andb_true_iff in H as [H1 H2].
  apply Z.ltb_lt in H1. rewrite enc_counted_eq, (wrapu_small 8) in E by lia.
  apply cons_eq_inv in E as [<- _].
  unfold skips. by destruct (field_type _).
Qed.

Lemma skippable_skips f t bs : skippable f -> enc_field f = t :: bs -> skips t (length bs) = true.
Proof.
  intros [[Hf Hrd] Hsk] E.
  destruct f as [|[s|]|s len|i|i|i|i|i|i|i|l|l|bits|bits|[s|]|i|i|s len| |s len];
    cbn [wf_field] in Hf, Hrd; try done; cbn [enc_field] in E.
  - by apply cons_eq_inv in E as [<- <-].
  - unfold enc_string, enc_span in E.
    destruct (Z.leb_spec (Z.of_nat (length (s ++ [0]))) S_StringMax) as [Hl|Hl].
    + apply cons_eq_inv in E as [<- <-]. revert Hl. generalize (length (s ++ [0])) as n. intros n Hn.
      unfold S_StringMax in Hn.
      assert (H : forallb (fun k => skips (u8 (S_String + Z.of_nat k)) k) (seq 0 61) = true) by (vm_compute; done).
      rewrite forallb_forall in H. apply H, in_seq. lia.
    + by eapply enc_counted_bytes_skips in E.
  - by apply cons_eq_inv in E as [<- <-].
  - by eapply enc_counted_bytes_skips in E.
  - apply cons_eq_inv in E as [<- <-]. by destruct (i =? 0).
  - destruct ((i >=? 0) && (i <=? S_ByteMax)) eqn:Eb; apply cons_eq_inv in E as [<- <-]; [|done].
    apply andb_true_iff in Eb as [E1 E2]. rewrite Z.geb_le in E1. rewrite Z.leb_le in E2. unfold S_ByteMax in E2.
    assert (H : forallb (fun k => skips (S_Byte + Z.of_nat k) 0) (seq 0 21) = true) by done.
    rewrite forallb_forall in H. rewrite <-(Z2Nat.id i) by lia. apply H, in_seq. lia.
  - by apply cons_eq_inv in E as [<- <-].
  - eapply (enc_counted_skips _ _ _ 2) in E; [done| |done..]. apply byte_count_bound; [lia|].
    rewrite u16_land. apply (wrapu_range 16); lia.
  - eapply (enc_counted_skips _ _ _ 2) in E; [done| |done..]. apply byte_count_bound; [lia|].
    rewrite u16_land. apply (wrapu_range 16); lia.
  - eapply (enc_counted_skips _ _ _ 4) in E; [done|apply byte_count_le|done..].
  - eapply (enc_counted_skips _ _ _ 8) in E; [done|apply byte_count_le|done..].
  - eapply (enc_counted_skips _ _ _ 8) in E; [done|apply byte_count_le|done..].
  - cbn in Hrd. rewrite Hrd in E. by apply cons_eq_inv in E as [<- <-].
  - cbn in Hrd. rewrite Hrd in E. by apply cons_eq_inv in E as [<- <-].
  - by eapply enc_counted_bytes_skips in E.
  - by apply cons_eq_inv in E as [<- <-].
Qed.

(** Names as the search reads them. *)
Lemma strcmp_at_spec b off n name rest :
  0 <= off -> buf_wf b -> drop (Z.to_nat off) (contents b) = n ++ 0 :: rest -> is_cstr n -> is_cstr name ->
  strcmp_at b off name = Ret (bool_decide (name = n)).
Proof.
  intros Ho Hb E Hn Hnm. revert off n Ho E Hn. induction Hnm as [|x name Hx Hnm IH]; intros off n Ho E Hn;
    destruct n as [|y n]; cbn [strcmp_at app] in *;
    (assert (R : rd b off = Ret (hd 0 (drop (Z.to_nat off) (contents b)))) by
      (rewrite <-(Z2Nat.id off) at 1 by lia; apply rd_contents; [done|];
       rewrite <-(Nat.add_0_r (Z.to_nat off)) at 1; rewrite <-lookup_drop, E; done));
    rewrite R, E; cbn [hd mbind outcome_bind].
  - done.
  - apply Forall_cons_1 in Hn as [Hy _]. destruct (Z.eqb_spec y 0); [unfold is_char in Hy; lia|done].
  - unfold is_char in Hx. destruct (Z.eqb_spec 0 x); [lia|done].
  - apply Forall_cons_1 in Hn as [Hy Hn]. destruct (Z.eqb_spec y x) as [->|Hne].
    + rewrite (IH (off + 1) n); [|lia| |done].
      * f_equal. apply bool_decide_ext. split; congruence.
      * rewrite Z2Nat.inj_add by lia. rewrite <-drop_drop, E. done.
    + rewrite bool_decide_false; [done|]. congruence.
Qed.

Lemma name_reads b n rest :
  wf_string n -> rd_ok b -> reads_at b (enc_name n ++ rest) ->
  exists t p, rd b (cpos b) = Ret t /\ (field_type t = STYPE_Name \/ field_type t = STYPE_NameLen)
    /\ ism_protocol_getNameValue (set_pos b (cpos b + 1)) t
       = Ret (Some p, set_pos b (cpos b + Z.of_nat (length (enc_name n))))
    /\ 0 <= p /\ exists post, drop (Z.to_nat p) (contents b) = n ++ 0 :: post.
Proof.
  intros [Hc Hl] Hb Hr. unfold max_bytes in Hl. unfold enc_name in *.
  set (len := Z.of_nat (length (n ++ [0]))).
  assert (Hlen : 0 < len <= 2 ^ 29) by (subst len; rewrite length_app; simpl; lia).
  destruct (decide (len <= S_NameMax)) as [Hs|Hs].
  - destruct (short_span_type true len ltac:(lia) Hs) as [Hft Hmask].
    rewrite enc_span_short in Hr |- * by (fold len; unfold S_NameMax, S_Name in *; lia). fold len in Hr |- *.
    destruct (rd_type_byte _ _ _ Hb Hr) as (E & _ & Hb1 & Hr1 & Hc1).
    exists (S_Name + len), (cpos b + 1). destruct Hb1 as [Hw1 Hp1 Hf1]. simpl in Hp1.
    split; [done|]. split; [by left|]. split; [|split; [lia|]].
    + unfold ism_protocol_getNameValue. rewrite Hft, Hmask. subst len.
      rewrite (get_span_reads _ (n ++ [0]) rest) by (try done; by split).
      rewrite set_pos_set_pos. cbn [cpos set_pos length]. do 3 f_equal. lia.
    + destruct Hr1 as [_ [post Ep]]. simpl in Ep. exists (rest ++ post).
      change (contents (set_pos b (cpos b + 1))) with (contents b) in Ep. by rewrite Ep, <-!app_assoc.
  - rewrite enc_span_long in Hr |- * by (fold len; unfold S_NameLen in *; lia). fold len in Hr |- *.
    pose proof (byte_count_le 4 len) as Hk. set (k := byte_count 4 len) in *.
    destruct (rd_type_byte _ _ _ Hb Hr) as (E & _ & Hb1 & Hr1 & Hc1).
    destruct (mask_StrLen k Hk) as (_ & M2 & _ & _).
    destruct (get_length _ (S_NameLen + Z.of_nat k - S_StrLen) len _ _ Hb1 Hr1 ltac:(lia) M2) as (G & Hb2 & Hr2).
    fold k in G, Hb2, Hr2. cbn [cpos set_pos] in G, Hb2, Hr2. rewrite set_pos_set_pos in G, Hb2, Hr2.
    exists (S_NameLen + Z.of_nat k), (cpos b + 1 + Z.of_nat k). destruct (Hb2) as [Hw2 Hp2 Hf2]. simpl in Hp2.
    assert (Hft : field_type (S_NameLen + Z.of_nat k) = STYPE_NameLen).
    { clear -Hk. do 5 (destruct k as [|k]; [done|]). lia. }
    split; [done|]. split; [by right|]. split; [|split; [lia|]].
    + unfold ism_protocol_getNameValue. rewrite Hft, G, bind_ret. subst len.
      rewrite (get_span_reads _ (n ++ [0]) rest) by done. rewrite set_pos_set_pos.
      cbn [cpos set_pos length]. rewrite (length_app (be_bytes _ _)), length_be_bytes. do 3 f_equal. lia.
    + destruct Hr2 as [_ [post Ep]]. simpl in Ep. exists (rest ++ post). unfold contents in *. simpl in Ep.
      by rewrite Ep, <-!app_assoc.
Qed.

(** A property list: name, value, name, value, ... *)
Definition enc_props (ps : list (list Z * in_field)) : list Z :=
  concat (map (fun p => enc_name p.1 ++ enc_field p.2) ps).

Definition wf_prop (p : list Z * in_field) : Prop := wf_string p.1 /\ skippable p.2.

(** The first value with this name. *)
Fixpoint assoc_name (name : list Z) (ps : list (list Z * in_field)) : option in_field :=
  match ps with
  | [] => None
  | (n, f) :: ps => if bool_decide (name = n) then Some f else assoc_name name ps
  end.

Lemma find_value_step b f rest fuel name :
  skippable f -> rd_ok b -> reads_at b (enc_field f ++ rest) ->
  let b' := set_pos b (cpos b + Z.of_nat (length (enc_field f))) in
  find_name_loop (S fuel) name b = find_name_loop fuel name b' /\ rd_ok b' /\ reads_at b' rest.
Proof.
  intros Hf Hb Hr b'. destruct (rd_ok_advance _ _ _ Hb Hr) as (Hb' & Hr' & _). split; [|done].
  destruct (readable_decodes f (proj1 Hf)) as (t & bs & g & Ef & C & _).
  pose proof (skippable_skips f t bs Hf Ef) as Hs. rewrite Ef in Hr.
  destruct (rd_type_byte _ _ _ Hb Hr) as (E & Hend & Hb1 & Hr1 & _).
  pose proof (skip_item_reads t bs g _ _ C Hs Hb1 Hr1) as Sk.
  cbn [find_name_loop]. rewrite Z.geb_leb in Hend. rewrite Z.ltb_antisym, Hend, E, bind_ret. cbn [negb].
  unfold skips in Hs. rewrite Sk, bind_ret, set_pos_set_pos. subst b'. rewrite Ef. cbn [cpos set_pos length].
  replace (cpos b + 1 + Z.of_nat (length bs)) with (cpos b + Z.of_nat (S (length bs))) by lia.
  by destruct (field_type t).
Qed.

Lemma find_name_step b n rest fuel name :
  wf_string n -> is_cstr name -> rd_ok b -> reads_at b (enc_name n ++ rest) ->
  let b' := set_pos b (cpos b + Z.of_nat (length (enc_name n))) in
  find_name_loop (S fuel) name b =
    (if bool_decide (name = n)
     then '(_, f, _) ← ism_protocol_getObjectValue (S fuel) b'; Ret (0, f)
     else find_name_loop fuel name b')
  /\ rd_ok b' /\ reads_at b' rest.
Proof.
  intros Hn Hname Hb Hr b'. destruct (rd_ok_advance _ _ _ Hb Hr) as (Hb' & Hr' & Hlt). split; [|done].
  destruct (name_reads b n _ Hn Hb Hr) as (t & p & E & Hft & G & Hp & post & Ep).
  pose proof (length_enc_span S_NameMax S_Name S_NameLen (n ++ [0])) as Hpos. fold (enc_name n) in Hpos.
  pose proof (strcmp_at_spec b' p n name post Hp (rd_wf _ Hb') Ep (proj1 Hn) Hname) as Sc.
  cbn [find_name_loop]. rewrite (proj2 (Z.ltb_lt _ _)) by lia. rewrite E, bind_ret.
  destruct Hft as [-> | ->]; rewrite G, bind_ret; fold b'; by rewrite Sc, bind_ret.
Qed.

Lemma find_name_loop_props ps b fuel name :
  Forall wf_prop ps -> is_cstr name -> rd_ok b -> reads_at b (enc_props ps) ->
  cused b = cpos b + Z.of_nat (length (enc_props ps)) -> (2 * length ps < fuel)%nat ->
  match assoc_name name ps with
  | Some f => exists g, find_name_loop fuel name b = Ret (0, g) /\ view (contents b) g = norm f
  | None => find_name_loop fuel name b = Ret (1, VT_Null)
  end.
Proof.
  intros Hps Hname. unfold enc_props. revert b fuel.
  induction Hps as [|[n f] ps [Hn Hf] Hps IH]; intros b fuel Hb Hr Hu Hfuel; cbn [map concat assoc_name] in *.
  - destruct fuel as [|fuel]; [simpl in Hfuel; lia|]. cbn [find_name_loop].
    rewrite (proj2 (Z.ltb_ge _ _)) by (simpl in Hu; lia). done.
  - cbn [fst snd length] in *. destruct fuel as [|[|fuel]]; [lia|lia|]. rewrite <-!app_assoc in Hr.
    destruct (find_name_step b n _ (S fuel) name Hn Hname Hb Hr) as (-> & Hb1 & Hr1).
    case_bool_decide as Heq.
    + destruct (decodes_get f _ _ (S fuel) (proj1 Hf) Hb1 Hr1) as (g & -> & V & _). by exists g.
    + destruct (find_value_step _ f _ fuel name Hf Hb1 Hr1) as (-> & Hb2 & Hr2).
      apply (IH _ fuel Hb2 Hr2); [|lia]. simpl. rewrite Hu, !length_app. lia.
Qed.

(** ** Properties of the encoding *)

#[global] Instance in_field_eq_dec : EqDecision in_field.
Proof. solve_decision. Defined.

(** C26. Exact effect of [ism_protocol_putObjectValue], when every request for memory
    is met and the sizes stay below 2^30: on any well-formed buffer, and for a value
    of any type (the unset one included, which writes nothing), the function returns,
    so that it neither writes outside the buffer nor loops in [ensureBuffer], leaves
    a well-formed buffer, and has appended exactly the encoding of the value.  The
    exception is a null name, on which it crashes. *)
Theorem put_object_exact mem b f :
  alloc_total mem -> buf_wf b -> (f <> VT_Name None -> wf_field f) ->
  cused b + Z.of_nat (length (enc_field f)) + 16 <= 2 ^ 30 ->
  if decide (f = VT_Name None) then ism_protocol_putObjectValue mem f b = Crash
  else exists b', ism_protocol_putObjectValue mem f b = Ret b' /\ buf_wf b'
    /\ contents b' = contents b ++ enc_field f /\ cpos b' = cpos b.
Proof.
  intros Hm Hb Hf Hs. case_decide as E.
  - subst f. unfold ism_protocol_putObjectValue. simpl in Hs.
    by destruct (ensureBuffer_ok mem b 8 Hm Hb) as (b1 & -> & _); [lia..|].
  - destruct (putObjectValue_emits mem Hm f (Hf E) b Hb Hs) as (b' & -> & Hb' & Hc & Hp & _). eauto.
Qed.

(** Without memory: [ensureBuffer] keeps the null pointer and the new size, and the
    next put writes through it. *)
Theorem put_without_memory_crashes mem b :
  (forall n, alloc_ok mem n = false) -> clen b < cused b + 15 <= 2 ^ 30 ->
  ism_protocol_putObjectValue mem VT_Null b = Crash.
Proof.
  intros Hm [Hl Hs]. unfold ism_protocol_putObjectValue, ensureBuffer. rewrite Z.gtb_ltb.
  rewrite (proj2 (Z.ltb_lt _ _)) by lia.
  destruct (grow_size_ok grow_fuel 15 (cused b + 8 + 7)) as (sz & E & _); [unfold grow_fuel; lia..|].
  change (2 ^ Z.of_nat 15) with (32 * 1024) in E. rewrite E, bind_ret, Hm.
  cbn [mbind outcome_bind]. unfold ism_protocol_putNullValue, putc, wr. cbn [cbuf cused length].
  by rewrite decide_False by lia.
Qed.

(** C25. Round trip, when every request for memory is met and the sizes stay below
    2^30: values put one after the other are got back in order, each with return code
    0, and the reader ends exactly where the writer did.  This is for all values
    except the zeros of the floating-point types, XIDs of more than 127 bytes, null
    names and the unset value, for which it fails.  What comes back ([norm]) is the
    value itself, with these changes: a truth value is 0 or 1, a byte keeps its low 8
    bits, shorts and name indices the unsigned value of their low 16 bits (a negative
    short does not come back), characters 17 bits, an unsigned long becomes a long,
    and a null string becomes the null value. *)
Theorem content_roundtrip mem b fs :
  alloc_total mem -> buf_wf b -> Forall readable fs ->
  cused b + Z.of_nat (length (enc_fields fs)) + 16 <= 2 ^ 30 ->
  exists b' gs, put_fields mem fs b = Ret b'
    /\ get_fields (length fs) (set_pos b' (cused b)) = Ret (gs, set_pos b' (cused b'))
    /\ Forall2 (fun r f => r.1 = 0 /\ view (contents b') r.2 = norm f) gs fs.
Proof.
  intros Hm Hb Hfs Hs.
  assert (Hwf : Forall wf_field fs) by (eapply Forall_impl; [exact Hfs|]; intros ? Hx; apply Hx).
  destruct (put_fields_emits mem fs Hm Hwf b Hb Hs) as (b' & E & Hb' & Hc & Hp & Hu).
  pose proof (length_contents b Hb) as Hl. pose proof (wf_used b Hb).
  destruct (get_fields_reads fs (set_pos b' (cused b)) []) as (gs & Eg & Vs).
  - done.
  - split; simpl; auto with amlen; lia.
  - apply (reads_at_intro _ (contents b) _ []); [|by simpl].
    change (contents (set_pos b' (cused b))) with (contents b'). by rewrite Hc, !app_nil_r.
  - exists b', gs. rewrite Eg, Hu. done.
Qed.

(** C27. A property list written as names and values is searched by
    [ism_findPropertyName] for a name: it gives the value of the first property with
    that name, or return code 1 when there is none; twice the number of properties
    bounds the rounds of its loop.  The list is shorter than 2^31 bytes, and none of
    its values is an unsigned integer, a character, a name, a name index, a
    floating-point zero, an XID of more than 127 bytes or unset: the search does not
    step over these correctly, and at a character it does not end. *)
Theorem find_property_by_name b ps name :
  buf_wf b -> contents b = enc_props ps -> cused b < 2 ^ 31 ->
  Forall wf_prop ps -> is_cstr name ->
  match assoc_name name ps with
  | Some f => exists g, ism_findPropertyName (2 * length ps + 1) (Some b) (PN_String name) = Ret (0, Some g)
                /\ view (contents b) g = norm f
  | None => ism_findPropertyName (2 * length ps + 1) (Some b) (PN_String name) = Ret (1, Some VT_Null)
  end.
Proof.
  intros Hb Hc Hf Hps Hn. pose proof (length_contents b Hb) as Hl. pose proof (wf_used b Hb).
  pose proof (find_name_loop_props ps (set_pos b 0) (2 * length ps + 1) name Hps Hn) as L.
  cbn [ism_findPropertyName]. destruct (assoc_name name ps) as [f|].
  - destruct L as (g & -> & V); [split; simpl; auto with amlen; lia| | |lia|by exists g].
    + apply (reads_at_intro _ [] _ []); [|done].
      change (contents (set_pos b 0)) with (contents b). by rewrite Hc, app_nil_r.
    + simpl. rewrite <-Hl, Hc. lia.
  - rewrite L; [done|split; simpl; auto with amlen; lia| | |lia].
    + apply (reads_at_intro _ [] _ []); [|done].
      change (contents (set_pos b 0)) with (contents b). by rewrite Hc, app_nil_r.
    + simpl. rewrite <-Hl, Hc. lia.
Qed.

(** A floating-point zero is not read back: the put function writes the
    one-byte type of the zero and still appends the four bytes of the value, so
    the reader stops four bytes before the end of the item. *)
Theorem float_zero_desynchronizes mem b bits :
  alloc_total mem -> buf_wf b -> is_i32 bits -> float_is_zero bits = true -> cused b + 21 <= 2 ^ 30 ->
  exists b', ism_protocol_putObjectValue mem (VT_Float bits) b = Ret b'
    /\ cused b' = cused b + 5
    /\ forall fuel, ism_protocol_getObjectValue (S fuel) (set_pos b' (cused b))
         = Ret (0, VT_Float 0, set_pos b' (cused b' - 4)).
Proof.
  intros Hm Hb Hi Hz Hs.
  destruct (putObjectValue_emits mem Hm (VT_Float bits) Hi b Hb) as (b' & E & Hb' & Hc & Hp & Hu).
  { cbn [enc_field length]. rewrite length_be_bytes. lia. }
  cbn [enc_field length] in Hc, Hu. rewrite length_be_bytes in Hu. rewrite Hz in Hc.
  pose proof (length_contents b Hb). pose proof (wf_used b Hb).
  exists b'. split; [done|]. split; [lia|]. intros fuel.
  assert (Hr : reads_at (set_pos b' (cused b)) (S_Float :: be_bytes 4 bits)).
  { apply (reads_at_intro _ (contents b) _ []); [|by simpl].
    change (contents (set_pos b' (cused b))) with (contents b'). by rewrite Hc, app_nil_r. }
  assert (Hb2 : rd_ok (set_pos b' (cused b))) by (split; simpl; auto with amlen; lia).
  rewrite (getObjectValue_step _ _ _ fuel Hb2 Hr).
  unfold get_case. change (field_type S_Float) with STYPE_Float. cbn [ism_protocol_getFloatValue].
  unfold ism_protocol_getFloatValue. change (Z.land S_Float S_FloatValue =? 0) with true. cbv iota.
  rewrite bind_ret, get_done_ok by (split; simpl; auto with amlen; lia).
  rewrite set_pos_set_pos. simpl. do 3 f_equal. lia.
Qed.

(** A negative short comes back as a positive number. *)
Theorem short_sign_lost mem b i :
  alloc_total mem -> buf_wf b -> - 2 ^ 15 <= i < 0 -> cused b + 21 <= 2 ^ 30 ->
  exists b', ism_protocol_putObjectValue mem (VT_Short i) b = Ret b'
    /\ ism_protocol_getObjectValue 1 (set_pos b' (cused b)) = Ret (0, VT_Short (65536 + i), set_pos b' (cused b')).
Proof.
  intros Hm Hb Hi Hs. assert (Hwf : wf_field (VT_Short i)) by (simpl; unfold is_i32; lia).
  pose proof (byte_count_le 4 (Z.land i 0xffff)) as Hle.
  destruct (putObjectValue_emits mem Hm (VT_Short i) Hwf b Hb) as (b' & E & Hb' & Hc & Hp & Hu).
  { cbn [enc_field]. rewrite length_enc_counted. lia. }
  cbn [enc_field] in Hu. rewrite length_enc_counted in Hu.
  pose proof (length_contents b Hb). pose proof (wf_used b Hb).
  exists b'. split; [done|].
  destruct (decodes_get (VT_Short i) (set_pos b' (cused b)) [] 0) as (g & Eg & V & _).
  - done.
  - split; simpl; auto with amlen; lia.
  - apply (reads_at_intro _ (contents b) _ []); [|by simpl].
    change (contents (set_pos b' (cused b))) with (contents b'). by rewrite Hc, !app_nil_r.
  - rewrite Eg, set_pos_set_pos. cbn [cpos set_pos enc_field norm] in *. rewrite length_enc_counted.
    assert (g = VT_Short (65536 + i)) as ->; [|do 3 f_equal; lia].
    destruct g; try discriminate V. injection V as ->. f_equal. unfold wrapu. symmetry.
    apply (Z.mod_unique _ _ (-1)); lia.
Qed.

Lemma find_stuck b t bs name :
  rd_ok b -> reads_at b (t :: bs) ->
  match field_type t with STYPE_UInt | STYPE_Char | STYPE_ID => field_len t = 0 | _ => False end ->
  forall fuel, find_name_loop fuel name b = Hang.
Proof.
  intros Hb Hr Ht fuel. destruct (rd_type_byte _ _ _ Hb Hr) as (E & Hend & _).
  induction fuel as [|fuel IH]; [done|]. cbn [find_name_loop].
  rewrite Z.geb_leb in Hend. rewrite Z.ltb_antisym, Hend, E, bind_ret. cbn [negb].
  assert (Sk : skip_item t (set_pos b (cpos b + 1)) = Ret b).
  { unfold skip_item. destruct (field_type t); try done; rewrite Ht; simpl;
      rewrite set_pos_set_pos; f_equal; destruct b; unfold set_pos; simpl; f_equal; lia. }
  rewrite Sk, bind_ret. by destruct (field_type t).
Qed.

(** The search by name does not end when it has to step over a character
    value (or an unsigned integer 0): the skip table has length 0 for these type
    bytes, so the position moves back to the type byte just read.  No amount of
    fuel suffices. *)
Theorem find_property_hangs_on_char b n i rest name :
  buf_wf b -> cused b < 2 ^ 31 -> wf_string n -> is_i32 i -> is_cstr name -> name <> n ->
  contents b = enc_name n ++ enc_field (VT_Char i) ++ rest ->
  forall fuel, ism_findPropertyName fuel (Some b) (PN_String name) = Hang.
Proof.
  intros Hb Hu Hn Hi Hname Hne Hc fuel. cbn [ism_findPropertyName].
  destruct fuel as [|fuel]; [done|].
  assert (Hr : reads_at (set_pos b 0) (enc_name n ++ enc_field (VT_Char i) ++ rest)).
  { apply (reads_at_intro _ [] _ []); [|done]. change (contents (set_pos b 0)) with (contents b).
    by rewrite Hc, app_nil_r. }
  pose proof (wf_used b Hb).
  assert (Hb0 : rd_ok (set_pos b 0)) by (split; simpl; auto with amlen; lia).
  destruct (find_name_step (set_pos b 0) n _ fuel name Hn Hname Hb0 Hr) as (-> & Hb1 & Hr1).
  rewrite bool_decide_false by done. cbn [enc_field] in Hr1. rewrite enc_counted_eq in Hr1.
  set (k := byte_count 4 (Z.land i 0x1ffff)) in *.
  assert (Hk : (k <= 3)%nat).
  { apply byte_count_bound; [lia|]. change 0x1ffff with (Z.ones 17). rewrite Z.land_ones by lia.
    pose proof (Z.mod_pos_bound i (2 ^ 17)). simpl. lia. }
  clearbody k. rewrite (find_stuck _ _ _ name Hb1 Hr1); [done|].
  do 4 (destruct k as [|k]; [done|]). lia.
Qed.

(** The length byte of an XID is read as a signed [char], so an XID of 128
    to 255 bytes (the largest one has 134) comes back with a wrong length and a
    position that does not follow it. *)
Theorem long_xid_misread mem b s len :
  alloc_total mem -> buf_wf b -> wf_bytes s len -> 128 <= len < 256 -> cused b + len + 20 <= 2 ^ 30 ->
  exists b', ism_protocol_putObjectValue mem (VT_Xid s len) b = Ret b' /\
    forall fuel, exists rc, ism_protocol_getObjectValue (S fuel) (set_pos b' (cused b))
      = Ret (rc, VT_Xid (cused b + 2) (2 ^ 32 + len - 256), set_pos b' (cused b' - 256)).
Proof.
  intros Hm Hb Hs Hl Hr0. pose proof Hs as (Hlen & _ & Hbs).
  destruct (putObjectValue_emits mem Hm (VT_Xid s len) Hs b Hb) as (b' & E & Hb' & Hc & Hp & Hu).
  { simpl. lia. }
  pose proof (length_contents b Hb). pose proof (wf_used b Hb). simpl in Hu.
  exists b'. split; [done|]. intros fuel.
  assert (Hr : reads_at (set_pos b' (cused b)) (S_Xid :: u8 len :: s)).
  { apply (reads_at_intro _ (contents b) _ []); [|by simpl].
    change (contents (set_pos b' (cused b))) with (contents b'). by rewrite Hc, app_nil_r. }
  assert (Hb2 : rd_ok (set_pos b' (cused b))) by (split; simpl; auto with amlen; lia).
  rewrite (getObjectValue_step _ _ _ fuel Hb2 Hr).
  destruct (rd_type_byte _ _ _ Hb2 Hr) as (_ & _ & Hb3 & Hr3 & _).
  destruct (rd_type_byte _ _ _ Hb3 Hr3) as (E4 & _).
  unfold get_case. change (field_type S_Xid) with STYPE_Xid. unfold ism_protocol_getXidValue.
  rewrite E4, bind_ret. rewrite (wraps_wrapu 8) by lia.
  assert (I8 : i8 len = len - 256).
  { unfold wraps. change (2 ^ (8 - 1)) with 128. change (2 ^ 8) with 256.
    rewrite <-(Z.mod_unique (len + 128) 256 1 (len - 128)); lia. }
  assert (U32 : u32 (len - 256) = 2 ^ 32 + len - 256).
  { unfold wrapu. symmetry. apply (Z.mod_unique _ _ (-1)); lia. }
  rewrite I8, U32. cbn [cpos set_pos]. rewrite !set_pos_set_pos.
  rewrite (wraps_small 32) by (simpl; lia).
  replace (cused b + 1 + 1 + (len - 256)) with (cused b' - 256) by lia.
  replace (cused b + 1 + 1) with (cused b + 2) by lia. by eexists.
Qed.

(** ** Witnesses *)

Definition sample_fields : list in_field :=
  [VT_Integer (-5); VT_Long (2 ^ 40); VT_String (Some [65; 66]); VT_ByteArray [1; 2; 3] 3;
   VT_Boolean 7; VT_Short (-1); VT_Double 1; VT_Xid [9; 9] 2].

Lemma sample_readable : Forall readable sample_fields.
Proof.
  repeat constructor; try done; vm_compute; congruence.
Qed.

Lemma put_object_exact_witness :
  exists b', ism_protocol_putObjectValue mem0 (VT_Integer 300) buf0 = Ret b' /\ buf_wf b'
    /\ contents b' = contents buf0 ++ enc_field (VT_Integer 300) /\ cpos b' = cpos buf0.
Proof.
  apply (put_object_exact mem0 buf0 (VT_Integer 300));
    [apply mem0_total|apply buf0_wf|intros _; vm_compute; split; congruence|vm_compute; congruence].
Defined.

Lemma content_roundtrip_witness :
  exists b' gs, put_fields mem0 sample_fields buf0 = Ret b'
    /\ get_fields (length sample_fields) (set_pos b' (cused buf0)) = Ret (gs, set_pos b' (cused b'))
    /\ Forall2 (fun r f => r.1 = 0 /\ view (contents b') r.2 = norm f) gs sample_fields.
Proof.
  apply content_roundtrip;
    [apply mem0_total|apply buf0_wf|apply sample_readable|vm_compute; congruence].
Defined.

Definition sample_props : list (list Z * in_field) :=
  [([120], VT_Long 300); ([121], VT_String (Some [104; 105])); ([122], VT_Integer 7)].

Definition props_buf (bs : list Z) : concat_alloc_t :=
  mk_concat bs (Z.of_nat (length bs)) (Z.of_nat (length bs)) 0 false.

Lemma props_buf_wf bs : Forall is_byte bs -> buf_wf (props_buf bs).
Proof. intros H. split; simpl; auto; lia. Qed.

Lemma contents_props_buf bs : contents (props_buf bs) = bs.
Proof. unfold contents. simpl. rewrite Nat2Z.id. by apply take_ge. Qed.

Lemma find_property_by_name_witness :
  exists g, ism_findPropertyName 7 (Some (props_buf (enc_props sample_props))) (PN_String [122]) = Ret (0, Some g)
    /\ view (contents (props_buf (enc_props sample_props))) g = VT_Integer 7.
Proof.
  apply (find_property_by_name (props_buf (enc_props sample_props)) sample_props [122]).
  - apply props_buf_wf, (bool_decide_unpack _). vm_compute. exact I.
  - apply contents_props_buf.
  - vm_compute. reflexivity.
  - repeat constructor; try done; vm_compute; congruence.
  - apply (bool_decide_unpack _). vm_compute. exact I.
Defined.

Lemma float_zero_desynchronizes_witness :
  exists b', ism_protocol_putObjectValue mem0 (VT_Float 0) buf0 = Ret b'
    /\ cused b' = cused buf0 + 5
    /\ forall fuel, ism_protocol_getObjectValue (S fuel) (set_pos b' (cused buf0))
         = Ret (0, VT_Float 0, set_pos b' (cused b' - 4)).
Proof.
  apply float_zero_desynchronizes;
    [apply mem0_total|apply buf0_wf|vm_compute; split; congruence|reflexivity|vm_compute; congruence].
Defined.

Lemma find_property_hangs_on_char_witness :
  [121] <> [120] /\ forall fuel, ism_findPropertyName fuel
    (Some (props_buf (enc_name [120] ++ enc_field (VT_Char 300) ++ []))) (PN_String [121]) = Hang.
Proof.
  split; [congruence|]. apply (find_property_hangs_on_char _ [120] 300 [] [121]).
  - apply props_buf_wf, (bool_decide_unpack _). vm_compute. exact I.
  - vm_compute. reflexivity.
  - split; [apply (bool_decide_unpack _); vm_compute; exact I|vm_compute; reflexivity].
  - vm_compute. split; congruence.
  - apply (bool_decide_unpack _). vm_compute. exact I.
  - congruence.
  - apply contents_props_buf.
Defined.

Lemma long_xid_misread_witness :
  exists b', ism_protocol_putObjectValue mem0 (VT_Xid (replicate 134 7) 134) buf0 = Ret b' /\
    forall fuel, exists rc, ism_protocol_getObjectValue (S fuel) (set_pos b' (cused buf0))
      = Ret (rc, VT_Xid (cused buf0 + 2) (2 ^ 32 + 134 - 256), set_pos b' (cused b' - 256)).
Proof.
  apply long_xid_misread; [apply mem0_total|apply buf0_wf| |lia|vm_compute; congruence].
  split; [reflexivity|]. split; [vm_compute; congruence|].
  apply (bool_decide_unpack _). vm_compute. exact I.
Defined.
