(* ===== verification/HashTable.v ===== *)
(** * Engine hash tables

    server_engine/src/engineHashTable.c: the chained hash table of the engine
    (topic trees, client states, subscriptions).  A chain is an array of entries
    in ascending order of their full hash; look-ups stop at the first larger
    hash.  HashTableMap.v proves that the operations refine those of finite maps. *)

From S2P Require Import Prelude.
From stdpp Require Import gmap.
#[local] Open Scope Z_scope.

(** A key is a string, or a number kept in the key pointer. *)
Inductive hkey :=
  | KStr (s : list Z)
  | KNum (n : Z).

#[global] Instance hkey_eq_dec : EqDecision hkey.
Proof. solve_decision. Defined.
#[global] Instance hkey_countable : Countable hkey.
Proof.
  apply (inj_countable' (fun k => match k with KStr s => inl s | KNum n => inr n end)
           (fun x => match x with inl s => KStr s | inr n => KNum n end)).
  by intros [].
Defined.

Definition ieutFLAG_DUPLICATE_KEY_STRING : Z := 0x1.
Definition ieutFLAG_DUPLICATE_VALUE : Z := 0x2.
Definition ieutFLAG_DUPLICATE_RESIZE : Z := 0x4.
Definition ieutFLAG_REPLACE_EXISTING : Z := 0x8.
Definition ieutFLAG_NUMERIC_KEY : Z := 0x10.

Definition flag_set (flags mask : Z) : bool := negb (Z.land flags mask =? 0).

(** ** Model *)

Section Model.
(** What the value pointers refer to; a null pointer is [None]. *)
Context {V : Type}.

Record ieutHashEntry_t := mk_entry {
  e_key : hkey;
  e_value : option V;
  e_keyHash : Z;
  e_flags : Z
}.

(** [ch_entries] are the [count] entries in use of the array of [ch_size];
    [ch_live] is false once that array has been freed. *)
Record ieutHashChain_t := mk_chain {
  ch_size : Z;
  ch_entries : list ieutHashEntry_t;
  ch_live : bool
}.

Record ieutHashTable_t := mk_table {
  totalCount : Z;
  chains : list ieutHashChain_t
}.

Definition capacity (t : ieutHashTable_t) : Z := Z.of_nat (length (chains t)).

Definition empty_chain : ieutHashChain_t := mk_chain 0 [] true.

Definition ch_count (c : ieutHashChain_t) : Z := Z.of_nat (length (ch_entries c)).

(** Reading the entries of a chain: through a dangling pointer if they were freed. *)
Definition read_entries (c : ieutHashChain_t) : outcome (list ieutHashEntry_t) :=
  if ch_live c || (ch_count c =? 0) then Ret (ch_entries c) else Crash.

(** [&table->chains[keyHash%table->capacity]]. *)
Definition chain_index (t : ieutHashTable_t) (keyHash : Z) : nat := Z.to_nat (keyHash mod capacity t).

Definition get_chain (t : ieutHashTable_t) (keyHash : Z) : outcome ieutHashChain_t :=
  if capacity t =? 0 then Crash else
  match chains t !! chain_index t keyHash with Some c => Ret c | None => Crash end.

Definition set_chain (t : ieutHashTable_t) (keyHash : Z) (c : ieutHashChain_t) : ieutHashTable_t :=
  mk_table (totalCount t) (<[chain_index t keyHash := c]> (chains t)).

Definition add_total (t : ieutHashTable_t) (d : Z) : ieutHashTable_t :=
  mk_table (totalCount t + d) (chains t).

(** Pointer comparison for numeric keys, [strcmp] for strings. *)
Definition key_eq (numeric : bool) (a k : hkey) : bool :=
  if numeric then match a, k with KNum x, KNum y => x =? y | _, _ => false end
  else match a, k with KStr x, KStr y => bool_decide (x = y) | _, _ => false end.

(** The search loop of get, put and remove: the index it stops at and whether
    the key is there. *)
Fixpoint scan (numeric : ieutHashEntry_t -> bool) (es : list ieutHashEntry_t)
    (key : hkey) (keyHash : Z) (index : nat) : nat * bool :=
  match es with
  | [] => (index, false)
  | e :: es =>
      if e_keyHash e =? keyHash then
        if key_eq (numeric e) (e_key e) key then (index, true)
        else scan numeric es key keyHash (S index)
      else if e_keyHash e >? keyHash then (index, false)
      else scan numeric es key keyHash (S index)
  end.

Definition entry_numeric (e : ieutHashEntry_t) : bool := flag_set (e_flags e) ieutFLAG_NUMERIC_KEY.

(** The [n]-th allocation succeeds when [mem n]; functions that allocate take
    and return the number of allocations made. *)
Context (mem : nat -> bool).

Definition ieut_createHashTable (n : nat) (cap : Z) : Z * option ieutHashTable_t * nat :=
  if mem n then
    if mem (S n) then (OK, Some (mk_table 0 (replicate (Z.to_nat cap) empty_chain)), S (S n))
    else (ISMRC_AllocateError, None, S (S n))
  else (ISMRC_AllocateError, None, S n).

(** Freeing the entries of a chain twice is undefined. *)
Definition ieut_clearHashTable (t : ieutHashTable_t) : outcome ieutHashTable_t :=
  if forallb ch_live (chains t) then Ret (mk_table 0 (map (fun _ => empty_chain) (chains t)))
  else Crash.

Definition is_nil_value (e : ieutHashEntry_t) : bool :=
  match e_value e with None => true | Some _ => false end.

Definition remove_empty_chain (c : ieutHashChain_t) : ieutHashChain_t :=
  if ch_count c >? 0 then
    let es := List.filter (fun e => negb (is_nil_value e)) (ch_entries c) in
    match es with [] => empty_chain | _ => mk_chain (ch_size c) es (ch_live c) end
  else c.

Definition readable_chain (c : ieutHashChain_t) : bool := ch_live c || (ch_count c =? 0).

Definition ieut_removeEmptyHashEntries (t : ieutHashTable_t) : outcome ieutHashTable_t :=
  if negb (forallb readable_chain (chains t)) then Crash else
  let cs := map remove_empty_chain (chains t) in
  let removed := foldr (fun c acc => Z.of_nat (length (List.filter is_nil_value (ch_entries c))) + acc)
                   0 (chains t) in
  Ret (mk_table (totalCount t - removed) cs).

(** The calls of the callback, in order. *)
Definition ieut_traverseHashTable (t : ieutHashTable_t) : outcome (list (hkey * Z * option V)) :=
  if totalCount t =? 0 then Ret []
  else if forallb readable_chain (chains t) then
    Ret (map (fun e => (e_key e, e_keyHash e, e_value e)) (concat (map ch_entries (chains t))))
  else Crash.

(** The callback is called on the entries in order; the traversal stops at the first entry for which the callback fails, with its return code. *)
Fixpoint traverse_rc {C} (callback : hkey -> Z -> option V -> C -> Z * C)
    (es : list ieutHashEntry_t) (ctx : C) : Z * C :=
  match es with
  | [] => (OK, ctx)
  | e :: es =>
      let '(rc, ctx) := callback (e_key e) (e_keyHash e) (e_value e) ctx in
      if rc =? OK then traverse_rc callback es ctx else (rc, ctx)
  end.

Definition ieut_traverseHashTableWithRC {C} (t : ieutHashTable_t)
    (callback : hkey -> Z -> option V -> C -> Z * C) (ctx : C) : outcome (Z * C) :=
  if totalCount t =? 0 then Ret (OK, ctx)
  else if forallb readable_chain (chains t)
  then Ret (traverse_rc callback (concat (map ch_entries (chains t))) ctx)
  else Crash.

Definition ieut_getHashEntry (t : ieutHashTable_t) (key : hkey) (keyHash : Z)
    : outcome (Z * option (option V)) :=
  c ← get_chain t keyHash;
  es ← read_entries c;
  let '(index, found) := scan entry_numeric es key keyHash 0 in
  match found, es !! index with
  | true, Some e => Ret (OK, Some (e_value e))
  | _, _ => Ret (ISMRC_NotFound, None)
  end.

(** The second half of put, once the chain [c] has room for one more entry:
    look for the key, then overwrite its entry or insert one.  The result is
    [(rc, table, allocations)]. *)
Definition put_in_chain (n : nat) (t : ieutHashTable_t) (flags : Z) (key : hkey)
    (keyHash : Z) (value : option V) (c : ieutHashChain_t) : outcome (Z * ieutHashTable_t * nat) :=
  es ← (if ch_live c then Ret (ch_entries c) else Crash);
  let '(index, replace) := scan (fun _ => flag_set flags ieutFLAG_NUMERIC_KEY) es key keyHash 0 in
  if replace then
    if flag_set flags ieutFLAG_REPLACE_EXISTING then
      match es !! index with
      | None => Crash
      | Some e =>
          (* assert: the key duplication strategy is unchanged and this is not a resize *)
          if negb (Z.land flags ieutFLAG_DUPLICATE_KEY_STRING =? Z.land (e_flags e) ieutFLAG_DUPLICATE_KEY_STRING)
             || flag_set flags ieutFLAG_DUPLICATE_RESIZE then Crash else
          let newKey := if flag_set flags ieutFLAG_DUPLICATE_KEY_STRING then e_key e else key in
          let e := mk_entry newKey value (e_keyHash e) (Z.land flags (Z.lnot ieutFLAG_DUPLICATE_RESIZE)) in
          Ret (OK, set_chain t keyHash (mk_chain (ch_size c) (<[index := e]> es) (ch_live c)), n)
      end
    else Ret (ISMRC_ExistingKey, t, n)
  else
    let dupKey := Z.land flags (Z.lor ieutFLAG_DUPLICATE_RESIZE ieutFLAG_DUPLICATE_KEY_STRING)
                  =? ieutFLAG_DUPLICATE_KEY_STRING in
    if dupKey && negb (mem n) then Ret (ISMRC_AllocateError, t, S n) else
    let n := if dupKey then S n else n in
    let e := mk_entry key value keyHash (Z.land flags (Z.lnot ieutFLAG_DUPLICATE_RESIZE)) in
    Ret (OK, add_total (set_chain t keyHash
           (mk_chain (ch_size c) (take index es ++ e :: drop index es) (ch_live c))) 1, n).

(** The chain after "Resize the chain if required". *)
Definition grow_chain (c : ieutHashChain_t) : ieutHashChain_t :=
  if ch_count c =? ch_size c
  then mk_chain (if ch_size c =? 0 then 2 else ch_size c * 2) (ch_entries c) (ch_live c)
  else c.

Definition ieut_putHashEntry (n : nat) (t : ieutHashTable_t) (flags : Z) (key : hkey)
    (keyHash : Z) (value : option V) : outcome (Z * ieutHashTable_t * nat) :=
  let dupValue := match value with
    | Some _ => Z.land flags (Z.lor ieutFLAG_DUPLICATE_RESIZE ieutFLAG_DUPLICATE_VALUE) =? ieutFLAG_DUPLICATE_VALUE
    | None => false end in
  if dupValue && negb (mem n) then Ret (ISMRC_AllocateError, t, S n) else
  let n := if dupValue then S n else n in
  c ← get_chain t keyHash;
  let full := ch_count c =? ch_size c in
  if full && negb (mem n) then Ret (ISMRC_AllocateError, t, S n) else
  let n := if full then S n else n in
  put_in_chain n (set_chain t keyHash (grow_chain c)) flags key keyHash value (grow_chain c).

Definition ieut_removeHashEntry (t : ieutHashTable_t) (key : hkey) (keyHash : Z) : outcome ieutHashTable_t :=
  c ← get_chain t keyHash;
  es ← read_entries c;
  let '(index, found) := scan entry_numeric es key keyHash 0 in
  if found then
    Ret (add_total (set_chain t keyHash
           (mk_chain (ch_size c) (take index es ++ drop (S index) es) (ch_live c))) (-1))
  else Ret t.

(** Copying the entries of one chain into the new table. *)
Fixpoint copy_entries (n : nat) (new : ieutHashTable_t) (es : list ieutHashEntry_t)
    : outcome (Z * ieutHashTable_t * nat) :=
  match es with
  | [] => Ret (OK, new, n)
  | e :: es =>
      '(rc, new, n) ← ieut_putHashEntry n new (Z.lor (e_flags e) ieutFLAG_DUPLICATE_RESIZE)
                        (e_key e) (e_keyHash e) (e_value e);
      if rc =? OK then copy_entries n new es else Ret (rc, new, n)
  end.

(** [free(table->chains[chainIndex].entries)]. *)
Definition free_entries (c : ieutHashChain_t) : ieutHashChain_t :=
  if ch_size c =? 0 then c else mk_chain (ch_size c) (ch_entries c) false.

(** The loop over the chains: the new table, and the old chains as the loop
    leaves them (it frees the entries of each chain it has copied). *)
Fixpoint copy_chains (n : nat) (new : ieutHashTable_t) (done todo : list ieutHashChain_t)
    : outcome (Z * ieutHashTable_t * list ieutHashChain_t * nat) :=
  match todo with
  | [] => Ret (OK, new, done, n)
  | c :: todo =>
      es ← read_entries c;
      '(rc, new, n) ← copy_entries n new es;
      if rc =? OK then copy_chains n new (done ++ [free_entries c]) todo
      else Ret (rc, new, done ++ c :: todo, n)
  end.

Definition ieut_resizeHashTable (n : nat) (t : ieutHashTable_t) (newCapacity : Z)
    : outcome (Z * ieutHashTable_t * nat) :=
  if mem n then
    let new := mk_table 0 (replicate (Z.to_nat newCapacity) empty_chain) in
    if totalCount t =? 0 then Ret (OK, new, S n) else
    '(rc, new, old, n) ← copy_chains (S n) new [] (chains t);
    if rc =? OK then Ret (OK, new, n)
    else Ret (rc, mk_table (totalCount t) old, n)
  else Ret (ISMRC_AllocateError, t, S n).
End Model.
Arguments ieutHashEntry_t : clear implicits.
Arguments ieutHashChain_t : clear implicits.
Arguments ieutHashTable_t : clear implicits.

(** [CAPACITY_PRIMES] and [ieut_suggestCapacity]. *)
Definition CAPACITY_PRIMES : list Z :=
  [53; 97; 193; 389; 769; 1543; 3079; 6151; 12289; 24593; 49157; 98317;
   196613; 393241; 786433; 1572869; 3145739].

(** [while (--entry >= 0)] over the primes from the last one down; falls out with
    the first prime when none fits. *)
Fixpoint suggest_loop (primes_down : list Z) (useCapacity expectedCount limit : Z) : Z :=
  match primes_down with
  | [] => useCapacity
  | p :: ps => if (limit >=? p) && (expectedCount >=? p) then p
               else suggest_loop ps p expectedCount limit
  end.

Definition ieut_suggestCapacity (expectedCount limit : Z) : Z :=
  let limit := if limit =? 0 then 3145739 else limit in
  u32 (suggest_loop (rev CAPACITY_PRIMES) 0 expectedCount limit).
