(* ===== verification/HashTableMap.v ===== *)
(** * Engine hash tables refine finite maps

    The operations of engineHashTable.c (HashTable.v) against finite maps:
    [table_rep t m] says that table [t] is well formed and holds exactly the
    bindings of [m].  The keys of a table are all strings or all numbers, and
    each is always presented with the same hash [hash]. *)

From S2P Require Import Prelude HashTable.
From stdpp Require Import gmap.
#[local] Open Scope Z_scope.

Section MapLaws.
Context {V : Type} (hash : hkey -> Z) (hash_nonneg : forall k, 0 <= hash k) (numeric dup : bool).

Implicit Types (t : ieutHashTable_t V) (c : ieutHashChain_t V) (es : list (ieutHashEntry_t V)).

Definition key_kind (k : hkey) : bool := match k with KStr _ => false | KNum _ => true end.

(** ** Invariant *)

Definition entry_ok (e : ieutHashEntry_t V) : Prop :=
  e_keyHash e = hash (e_key e) /\ key_kind (e_key e) = numeric /\ entry_numeric e = numeric
  /\ flag_set (e_flags e) ieutFLAG_DUPLICATE_KEY_STRING = dup.

Fixpoint hash_sorted (es : list (ieutHashEntry_t V)) : Prop :=
  match es with
  | [] => True
  | e :: es => Forall (fun x => e_keyHash e <= e_keyHash x) es /\ hash_sorted es
  end.

Record chain_ok (cap : Z) (i : nat) (c : ieutHashChain_t V) : Prop := {
  co_live : ch_live c = true;
  co_entries : Forall entry_ok (ch_entries c);
  co_index : Forall (fun e => Z.to_nat (e_keyHash e mod cap) = i) (ch_entries c);
  co_sorted : hash_sorted (ch_entries c);
  co_nodup : NoDup (map e_key (ch_entries c));
  co_size : ch_count c <= ch_size c
}.

Definition sum_counts (cs : list (ieutHashChain_t V)) : Z := foldr (fun c acc => ch_count c + acc) 0 cs.

Record table_ok (t : ieutHashTable_t V) : Prop := {
  to_cap : 0 < capacity t;
  to_chains : forall i c, chains t !! i = Some c -> chain_ok (capacity t) i c;
  to_total : totalCount t = sum_counts (chains t)
}.

(** ** Abstraction *)

Fixpoint es_lookup (es : list (ieutHashEntry_t V)) (k : hkey) : option (option V) :=
  match es with
  | [] => None
  | e :: es => if bool_decide (e_key e = k) then Some (e_value e) else es_lookup es k
  end.

Definition table_lookup (t : ieutHashTable_t V) (k : hkey) : option (option V) :=
  c ← chains t !! chain_index t (hash k); es_lookup (ch_entries c) k.

Definition table_rep (t : ieutHashTable_t V) (m : gmap hkey (option V)) : Prop :=
  table_ok t /\ (forall k, table_lookup t k = m !! k).

(** ** Sequences of entries *)

Lemma hash_sorted_app l k :
  hash_sorted (l ++ k) <->
  hash_sorted l /\ hash_sorted k /\ Forall (fun x => Forall (fun y => e_keyHash x <= e_keyHash y) k) l.
Proof.
  induction l as [|e l IH]; simpl; [split; [by split|tauto]|].
  rewrite Forall_app, IH, Forall_cons. tauto.
Qed.

Lemma es_lookup_app l k key :
  es_lookup (l ++ k) key = match es_lookup l key with Some v => Some v | None => es_lookup k key end.
Proof. induction l as [|e l IH]; simpl; [done|]. by case_bool_decide. Qed.

Lemma es_lookup_None es k : es_lookup es k = None <-> k ∉ map e_key es.
Proof.
  induction es as [|e es IH]; simpl; [split; [intros _; apply not_elem_of_nil|done]|].
  rewrite not_elem_of_cons. case_bool_decide as E; [|by rewrite IH; split; [|tauto]; split; [congruence|]].
  split; [done|]. intros [Hk _]. congruence.
Qed.

Lemma es_lookup_at es j e :
  NoDup (map e_key es) -> es !! j = Some e -> es_lookup es (e_key e) = Some (e_value e).
Proof.
  revert j. induction es as [|x es IH]; intros j Hnd Hj; [done|]. simpl in *.
  apply NoDup_cons in Hnd as [Hx Hnd]. destruct j as [|j]; simplify_eq/=.
  - by rewrite bool_decide_true.
  - rewrite bool_decide_false by (intros E; apply Hx; rewrite E; apply (list_elem_of_fmap_2 e_key);
      by apply list_elem_of_lookup_2 in Hj). eauto.
Qed.

Lemma key_eq_spec a k :
  key_kind a = numeric -> key_kind k = numeric -> key_eq numeric a k = bool_decide (a = k).
Proof.
  intros Ha Hk. unfold key_eq. destruct numeric, a, k; try done.
  - case_bool_decide as E; [injection E as ->; apply Z.eqb_refl|]. apply Z.eqb_neq. congruence.
  - apply bool_decide_ext. split; congruence.
Qed.

(** The search loop. *)
Lemma scan_spec num es k i :
  Forall entry_ok es -> hash_sorted es -> key_kind k = numeric ->
  (forall e, In e es -> num e = numeric) ->
  exists j found, scan num es k (hash k) i = ((i + j)%nat, found) /\ (j <= length es)%nat /\
    (if (found : bool) then exists e, es !! j = Some e /\ e_key e = k
    else (k ∉ map e_key es) /\ Forall (fun e => e_keyHash e <= hash k) (take j es)
         /\ Forall (fun e => hash k < e_keyHash e) (drop j es)).
Proof.
  intros Hes. revert i. induction Hes as [|e es (Hh & Hkd & Hnm & Hdp) Hes IH]; intros i Hs Hk Hn; simpl.
  - exists 0%nat, false. rewrite Nat.add_0_r. repeat split; auto using not_elem_of_nil.
  - destruct Hs as [Hle Hs].
    destruct (IH (S i) Hs Hk) as (j & found & E & Hj & Hf); [intros; apply Hn; by right|].
    rewrite E, Hn, key_eq_spec by (auto; by left).
    destruct (Z.eqb_spec (e_keyHash e) (hash k)) as [Eq|Ne].
    + case_bool_decide as Ek.
      * exists 0%nat, true. rewrite Nat.add_0_r. split; [done|]. split; [lia|]. by exists e.
      * exists (S j), found. replace (i + S j)%nat with (S i + j)%nat by lia. split; [done|]. split; [lia|].
        destruct found; [done|]. destruct Hf as (H1 & H2 & H3). split; [by apply not_elem_of_cons|].
        simpl. split; [constructor; [lia|done]|done].
    + assert (Hek : e_key e <> k) by congruence.
      rewrite Z.gtb_ltb. destruct (Z.ltb_spec (hash k) (e_keyHash e)) as [Gt|Le].
      * exists 0%nat, false. rewrite Nat.add_0_r. split; [done|]. split; [lia|].
        assert (Hgt : Forall (fun x => hash k < e_keyHash x) (e :: es)).
        { constructor; [lia|]. eapply Forall_impl; [exact Hle|]. simpl. lia. }
        split; [|by split]. intros (x & -> & Hx)%(list_elem_of_fmap e_key (e :: es)).
        rewrite Forall_forall in Hgt. pose proof (Hgt x Hx).
        assert (entry_ok x) as (? & _) by (apply list_elem_of_In in Hx as [<-|Hx];
          [by repeat split|by apply (proj1 (List.Forall_forall _ _) Hes)]). lia.
      * exists (S j), found. replace (i + S j)%nat with (S i + j)%nat by lia. split; [done|]. split; [lia|].
        destruct found; [done|]. destruct Hf as (H1 & H2 & H3). split; [by apply not_elem_of_cons|].
        simpl. split; [constructor; [lia|done]|done].
Qed.

(** ** Chains of entries

    A chain with an entry added where the search stopped, one whose entry is
    overwritten by one with the same key, and one with an entry taken out. *)

Definition seq_ok (cap : Z) (i : nat) es : Prop :=
  Forall entry_ok es /\ Forall (fun e => Z.to_nat (e_keyHash e mod cap) = i) es
  /\ hash_sorted es /\ NoDup (map e_key es).

Lemma seq_ok_insert cap i l1 l2 e :
  seq_ok cap i (l1 ++ l2) -> entry_ok e -> Z.to_nat (e_keyHash e mod cap) = i ->
  e_key e ∉ map e_key (l1 ++ l2) ->
  Forall (fun x => e_keyHash x <= e_keyHash e) l1 -> Forall (fun x => e_keyHash e < e_keyHash x) l2 ->
  seq_ok cap i (l1 ++ e :: l2).
Proof.
  unfold seq_ok. intros (Ho & Hi & Hs & Hn) He Hei Hnew Hle Hgt.
  rewrite !Forall_app in *. rewrite !map_app in *. apply hash_sorted_app in Hs as (Hs1 & Hs2 & Hs12).
  split; [|split; [|split]].
  - naive_solver.
  - naive_solver.
  - apply hash_sorted_app. simpl. split_and!; auto.
    + eapply Forall_impl; [exact Hgt|]. simpl. lia.
    + rewrite Forall_forall in *. intros x Hx. constructor; auto.
  - simpl. rewrite NoDup_app, NoDup_cons. apply NoDup_app in Hn as (Hn1 & Hn12 & Hn2).
    apply not_elem_of_app in Hnew as [Hnew1 Hnew2]. split_and!; auto.
    intros x Hx. rewrite not_elem_of_cons. split; [|auto]. intros ->. auto.
Qed.

Lemma seq_ok_delete cap i l1 l2 e : seq_ok cap i (l1 ++ e :: l2) -> seq_ok cap i (l1 ++ l2).
Proof.
  unfold seq_ok. rewrite !Forall_app, !map_app, !Forall_cons, !hash_sorted_app. simpl.
  rewrite !NoDup_app, NoDup_cons. intros (Ho & Hi & (Hs1 & [_ Hs2] & Hs12) & Hn1 & Hn12 & [_ Hn2]).
  split_and!; try naive_solver.
  - eapply Forall_impl; [exact Hs12|]. by intros x [_ Hx]%Forall_cons.
  - intros x Hx%Hn12. by apply not_elem_of_cons in Hx as [_ Hx].
Qed.

Lemma seq_ok_replace cap i l1 l2 e e' :
  seq_ok cap i (l1 ++ e :: l2) -> entry_ok e' -> e_key e' = e_key e -> seq_ok cap i (l1 ++ e' :: l2).
Proof.
  unfold seq_ok. rewrite !Forall_app, !map_app, !Forall_cons, !hash_sorted_app. simpl.
  intros (Ho & Hi & (Hs1 & [Hs0 Hs2] & Hs12) & Hn) He' Hk. rewrite Hk.
  assert (Hh : e_keyHash e' = e_keyHash e) by (destruct Ho as (_ & (-> & _) & _), He' as (-> & _); by rewrite Hk).
  rewrite Hh. split_and!; try naive_solver.
  eapply Forall_impl; [exact Hs12|]. intros x [Hx Hx']%Forall_cons. constructor; [by rewrite Hh|done].
Qed.

Lemma es_lookup_insert l1 l2 e k :
  e_key e ∉ map e_key l1 ->
  es_lookup (l1 ++ e :: l2) k = if bool_decide (e_key e = k) then Some (e_value e) else es_lookup (l1 ++ l2) k.
Proof.
  intros Hn. rewrite !es_lookup_app. simpl. case_bool_decide as E; [|done].
  subst k. apply es_lookup_None in Hn. by rewrite Hn.
Qed.

(** ** Chains of a table *)

Lemma chain_index_lt t k : table_ok t -> (chain_index t (hash k) < length (chains t))%nat.
Proof.
  intros [Hc _ _]. unfold chain_index. pose proof (Z.mod_pos_bound (hash k) (capacity t) Hc).
  unfold capacity in *. lia.
Qed.

Lemma get_chain_ok t k :
  table_ok t ->
  exists c, get_chain t (hash k) = Ret c /\ chains t !! chain_index t (hash k) = Some c
    /\ chain_ok (capacity t) (chain_index t (hash k)) c.
Proof.
  intros Ht. destruct (lookup_lt_is_Some_2 _ _ (chain_index_lt t k Ht)) as [c Hc].
  exists c. unfold get_chain. rewrite Hc. destruct Ht as [Hcap Hch _].
  destruct (Z.eqb_spec (capacity t) 0); [lia|]. eauto.
Qed.

Lemma sum_counts_app l k : sum_counts (l ++ k) = sum_counts l + sum_counts k.
Proof. induction l as [|c l IH]; simpl; [done|]. rewrite IH. lia. Qed.

Lemma sum_counts_insert cs i c c' :
  cs !! i = Some c -> sum_counts (<[i := c']> cs) = sum_counts cs + (ch_count c' - ch_count c).
Proof.
  intros Hi. rewrite insert_take_drop by eauto using lookup_lt_Some.
  rewrite <- (take_drop_middle cs i c Hi) at 3. rewrite !sum_counts_app. simpl. lia.
Qed.

Lemma capacity_set t h c : capacity (set_chain t h c) = capacity t.
Proof. unfold capacity, set_chain. simpl. by rewrite length_insert. Qed.

Lemma set_chain_ok t k c c' d :
  table_ok t -> chains t !! chain_index t (hash k) = Some c ->
  chain_ok (capacity t) (chain_index t (hash k)) c' -> d = ch_count c' - ch_count c ->
  table_ok (add_total (set_chain t (hash k) c') d).
Proof.
  intros Ht Hc Hc' ->. destruct Ht as [Hcap Hch Htot].
  split; [by change (0 < capacity (set_chain t (hash k) c')); rewrite capacity_set| |].
  - intros i c0. change (capacity (add_total _ _)) with (capacity (set_chain t (hash k) c')).
    rewrite capacity_set. simpl. intros [(<- & <- & _)|(Hne & Hi)]%list_lookup_insert_Some; eauto.
  - simpl. rewrite (sum_counts_insert _ _ c), Htot by done. done.
Qed.

Lemma set_chain_lookup t k c' d k' :
  table_ok t ->
  table_lookup (add_total (set_chain t (hash k) c') d) k' =
  if bool_decide (chain_index t (hash k') = chain_index t (hash k)) then es_lookup (ch_entries c') k'
  else table_lookup t k'.
Proof.
  intros Ht. unfold table_lookup. change (chain_index (add_total _ _) ?h) with (chain_index (set_chain t (hash k) c') h).
  replace (chain_index (set_chain t (hash k) c') (hash k')) with (chain_index t (hash k'))
    by (unfold chain_index; by rewrite capacity_set).
  simpl. case_bool_decide as E.
  - rewrite E, list_lookup_insert_eq by eauto using chain_index_lt. done.
  - by rewrite list_lookup_insert_ne.
Qed.

Lemma add_total_0 t : add_total t 0 = t.
Proof. destruct t. unfold add_total. simpl. by rewrite Z.add_0_r. Qed.

Lemma chain_ok_seq cap i c :
  chain_ok cap i c <-> ch_live c = true /\ seq_ok cap i (ch_entries c) /\ ch_count c <= ch_size c.
Proof. unfold seq_ok. split; [intros []|intros (? & (? & ? & ? & ?) & ?)]; by repeat split. Qed.

(** Storing a chain whose entries differ at one key only. *)
Lemma rep_set_chain t m k c c' d v :
  table_rep t m -> chains t !! chain_index t (hash k) = Some c ->
  chain_ok (capacity t) (chain_index t (hash k)) c' -> d = ch_count c' - ch_count c ->
  (forall k', es_lookup (ch_entries c') k' = if bool_decide (k = k') then v else es_lookup (ch_entries c) k') ->
  table_rep (add_total (set_chain t (hash k) c') d) (partial_alter (fun _ => v) k m).
Proof.
  intros [Ht Hm] Hc Hc' Hd Hl. split; [by eapply set_chain_ok|]. intros k'.
  rewrite set_chain_lookup by done. destruct (decide (k = k')) as [<-|Hne].
  - by rewrite bool_decide_true, Hl, bool_decide_true, lookup_partial_alter_eq.
  - rewrite lookup_partial_alter_ne, <- Hm by done. case_bool_decide as E; [|done].
    rewrite Hl, bool_decide_false by done. unfold table_lookup. by rewrite E, Hc.
Qed.

Lemma flag_set_land f m : Z.land (Z.lnot ieutFLAG_DUPLICATE_RESIZE) m = m ->
  flag_set (Z.land f (Z.lnot ieutFLAG_DUPLICATE_RESIZE)) m = flag_set f m.
Proof. intros E. unfold flag_set. by rewrite <- Z.land_assoc, E. Qed.

Lemma flag_set_lor f m : Z.land ieutFLAG_DUPLICATE_RESIZE m = 0 ->
  flag_set (Z.lor f ieutFLAG_DUPLICATE_RESIZE) m = flag_set f m.
Proof. intros E. unfold flag_set. by rewrite Z.land_lor_distr_l, E, Z.lor_0_r. Qed.

Lemma dup_key_same f g :
  flag_set f ieutFLAG_DUPLICATE_KEY_STRING = flag_set g ieutFLAG_DUPLICATE_KEY_STRING ->
  Z.land f ieutFLAG_DUPLICATE_KEY_STRING = Z.land g ieutFLAG_DUPLICATE_KEY_STRING.
Proof.
  unfold flag_set, ieutFLAG_DUPLICATE_KEY_STRING. change 1 with (Z.ones 1). rewrite !Z.land_ones by lia.
  change (2 ^ 1) with 2. pose proof (Z.mod_pos_bound f 2). pose proof (Z.mod_pos_bound g 2).
  destruct (Z.eqb_spec (f mod 2) 0), (Z.eqb_spec (g mod 2) 0); simpl; intros; try done; lia.
Qed.

(** ** Look-up and removal *)

Lemma scan_chain t m k c num :
  table_rep t m -> chains t !! chain_index t (hash k) = Some c ->
  chain_ok (capacity t) (chain_index t (hash k)) c -> key_kind k = numeric ->
  (forall e, In e (ch_entries c) -> num e = numeric) ->
  exists j found, scan num (ch_entries c) k (hash k) 0 = (j, found) /\
    (if (found : bool) then exists l1 e l2, ch_entries c = l1 ++ e :: l2 /\ j = length l1 /\ e_key e = k
                          /\ m !! k = Some (e_value e)
     else exists l1 l2, ch_entries c = l1 ++ l2 /\ j = length l1 /\ k ∉ map e_key (ch_entries c) /\ m !! k = None
          /\ Forall (fun e => e_keyHash e <= hash k) l1 /\ Forall (fun e => hash k < e_keyHash e) l2).
Proof.
  intros [Ht Hm] Hc [Hl He Hi Hs Hn Hsz] Hk Hnum.
  destruct (scan_spec num (ch_entries c) k 0 He Hs Hk Hnum) as (j & found & E & Hj & Hf).
  exists j, found. split; [done|]. specialize (Hm k). unfold table_lookup in Hm. rewrite Hc in Hm. simpl in Hm.
  destruct found.
  - destruct Hf as (e & Hje & <-). exists (take j (ch_entries c)), e, (drop (S j) (ch_entries c)).
    rewrite take_drop_middle by done. rewrite length_take_le by lia. split_and!; try done.
    rewrite <- Hm. eapply es_lookup_at; eauto.
  - destruct Hf as (Hnot & H1 & H2). exists (take j (ch_entries c)), (drop j (ch_entries c)).
    rewrite take_drop, length_take_le by lia. split_and!; try done.
    rewrite <- Hm. by apply es_lookup_None.
Qed.

Lemma get_lookup t m k :
  table_rep t m -> key_kind k = numeric ->
  ieut_getHashEntry t k (hash k)
  = Ret (match m !! k with Some v => (OK, Some v) | None => (ISMRC_NotFound, None) end).
Proof.
  intros Hr Hk. pose proof Hr as [Ht _]. destruct (get_chain_ok t k Ht) as (c & Hg & Hc & Hok).
  unfold ieut_getHashEntry. rewrite Hg. cbn [mbind outcome_bind].
  unfold read_entries. rewrite (co_live _ _ _ Hok). cbn [orb mbind outcome_bind].
  destruct (scan_chain t m k c entry_numeric Hr Hc Hok Hk) as (j & found & E & Hf).
  { intros e He. apply (proj1 (List.Forall_forall _ _) (co_entries _ _ _ Hok)) in He. by destruct He as (_ & _ & ? & _). }
  rewrite E. destruct found.
  - destruct Hf as (l1 & e & l2 & -> & -> & _ & ->). by rewrite list_lookup_middle.
  - by destruct Hf as (l1 & l2 & _ & _ & _ & -> & _).
Qed.

Lemma remove_delete t m k :
  table_rep t m -> key_kind k = numeric ->
  exists t', ieut_removeHashEntry t k (hash k) = Ret t' /\ table_rep t' (delete k m) /\ capacity t' = capacity t.
Proof.
  intros Hr Hk. pose proof Hr as [Ht _]. destruct (get_chain_ok t k Ht) as (c & Hg & Hc & Hok).
  unfold ieut_removeHashEntry. rewrite Hg. cbn [mbind outcome_bind].
  unfold read_entries. rewrite (co_live _ _ _ Hok). cbn [orb mbind outcome_bind].
  destruct (scan_chain t m k c entry_numeric Hr Hc Hok Hk) as (j & found & E & Hf).
  { intros e He. apply (proj1 (List.Forall_forall _ _) (co_entries _ _ _ Hok)) in He. by destruct He as (_ & _ & ? & _). }
  rewrite E. apply chain_ok_seq in Hok as (Hl & Hseq & Hsz). destruct found.
  - destruct Hf as (l1 & e & l2 & Ees & -> & <- & _). eexists. split; [done|].
    split; [|apply (capacity_set t)]. unfold ch_count in *. rewrite Ees in *.
    rewrite take_app_length, (cons_middle e), app_assoc, drop_app_length' by (rewrite length_app; simpl; lia).
    eapply rep_set_chain; [done..| | |].
    + apply chain_ok_seq. simpl. split; [done|]. split; [by eapply seq_ok_delete|].
      unfold ch_count. simpl. rewrite !length_app in *. simpl in *. lia.
    + unfold ch_count. rewrite Ees. simpl. rewrite !length_app. simpl. lia.
    + intros k'. simpl. rewrite Ees. assert (Hd : e_key e ∉ map e_key (l1 ++ l2)).
      { destruct Hseq as (_ & _ & _ & Hnd). rewrite map_app in *. simpl in Hnd.
        apply NoDup_app in Hnd as (? & Hx & (? & ?)%NoDup_cons).
        rewrite not_elem_of_app. split; [|done]. intros Hin%Hx. by apply not_elem_of_cons in Hin as []. }
      rewrite es_lookup_insert by (rewrite map_app in Hd; by apply not_elem_of_app in Hd as []).
      case_bool_decide; [subst; by apply es_lookup_None|done].
  - exists t. destruct Hf as (_ & _ & _ & _ & _ & Hnone & _). split; [done|].
    rewrite delete_id by done. done.
Qed.

(** ** Insertion *)

Lemma list_lookup_middle_eq {A} (l l1 l2 : list A) x : l = l1 ++ x :: l2 -> l !! length l1 = Some x.
Proof. intros ->. by apply list_lookup_middle. Qed.

Lemma insert_middle {A} (l1 l2 : list A) x y : <[length l1 := y]> (l1 ++ x :: l2) = l1 ++ y :: l2.
Proof. rewrite <- (Nat.add_0_r (length l1)). by rewrite insert_app_r. Qed.

(** What put promises on a map. *)
Definition map_put (flags : Z) (m : gmap hkey (option V)) (k : hkey) (v : option V)
    : Z * gmap hkey (option V) :=
  if bool_decide (is_Some (m !! k)) && negb (flag_set flags ieutFLAG_REPLACE_EXISTING)
  then (ISMRC_ExistingKey, m) else (OK, <[k := v]> m).

Lemma grow_chain_ok cap i c :
  chain_ok cap i c -> chain_ok cap i (grow_chain c) /\ ch_entries (grow_chain c) = ch_entries c
    /\ ch_count c < ch_size (grow_chain c).
Proof.
  rewrite !chain_ok_seq. unfold grow_chain. intros (Hl & Hs & Hsz).
  assert (0 <= ch_count c) by (unfold ch_count; lia).
  destruct (Z.eqb_spec (ch_count c) (ch_size c)) as [E|E]; [|split; [|split]; [done|done|lia]].
  destruct (Z.eqb_spec (ch_size c) 0); split_and!; simpl; unfold ch_count in *; simpl; try done; lia.
Qed.

Lemma grow_table t m k c :
  table_rep t m -> chains t !! chain_index t (hash k) = Some c ->
  chain_ok (capacity t) (chain_index t (hash k)) c ->
  table_rep (set_chain t (hash k) (grow_chain c)) m.
Proof.
  intros Hr Hc Hok. destruct (grow_chain_ok _ _ _ Hok) as (Hok' & He & _).
  rewrite <- (add_total_0 (set_chain _ _ _)), <- (partial_alter_self m k).
  eapply rep_set_chain; [done..| |].
  - unfold ch_count. by rewrite He, Z.sub_diag.
  - intros k'. rewrite He. case_bool_decide; [subst k'|done]. destruct Hr as [_ Hm].
    rewrite <- Hm. unfold table_lookup. by rewrite Hc.
Qed.

Context (mem : nat -> bool).

Definition put_outcome (flags : Z) t (m : gmap hkey (option V)) k v
    (o : outcome (Z * ieutHashTable_t V * nat)) : Prop :=
  exists rc t' n', o = Ret (rc, t', n') /\ capacity t' = capacity t /\
    ((rc, m) = (ISMRC_AllocateError, m) /\ (exists i, mem i = false) /\ table_rep t' m
     \/ exists m', map_put flags m k v = (rc, m') /\ table_rep t' m').

(** Overwriting and inserting, in a table whose chain has room. *)
Lemma put_replace t m k c l1 e l2 e' :
  table_rep t m -> chains t !! chain_index t (hash k) = Some c ->
  chain_ok (capacity t) (chain_index t (hash k)) c ->
  ch_entries c = l1 ++ e :: l2 -> e_key e = k -> e_key e' = k -> entry_ok e' ->
  table_rep (set_chain t (hash k) (mk_chain (ch_size c) (<[length l1 := e']> (ch_entries c)) true))
    (<[k := e_value e']> m).
Proof.
  intros Hr Hc Hok Ees Hk Hk' He'. apply chain_ok_seq in Hok as (Hl & Hseq & Hsz).
  rewrite <- (add_total_0 (set_chain _ _ _)), Ees, insert_middle. rewrite Ees in Hseq.
  assert (Hnk : k ∉ map e_key l1).
  { destruct Hseq as (_ & _ & _ & Hnd). rewrite map_app in Hnd. simpl in Hnd. rewrite Hk in Hnd.
    apply NoDup_app in Hnd as (_ & Hx & _). intros Hin%Hx. by apply not_elem_of_cons in Hin as []. }
  eapply rep_set_chain; [done..| | |].
  - apply chain_ok_seq. unfold ch_count in *. rewrite Ees in Hsz. simpl. split; [done|].
    split; [eapply seq_ok_replace; eauto; congruence|]. rewrite length_app in *. simpl in *. lia.
  - unfold ch_count. simpl. rewrite Ees, !length_app. simpl. lia.
  - intros k'. simpl. rewrite Ees, !es_lookup_insert, Hk, Hk' by congruence. by case_bool_decide.
Qed.

Lemma put_insert t m k c l1 l2 e' :
  table_rep t m -> chains t !! chain_index t (hash k) = Some c ->
  chain_ok (capacity t) (chain_index t (hash k)) c -> ch_count c < ch_size c ->
  ch_entries c = l1 ++ l2 -> (k ∉ map e_key (ch_entries c)) ->
  Forall (fun e => e_keyHash e <= hash k) l1 -> Forall (fun e => hash k < e_keyHash e) l2 ->
  e_key e' = k -> entry_ok e' ->
  table_rep (add_total (set_chain t (hash k) (mk_chain (ch_size c)
      (take (length l1) (ch_entries c) ++ e' :: drop (length l1) (ch_entries c)) true)) 1)
    (<[k := e_value e']> m).
Proof.
  intros Hr Hc Hok Hroom Ees Hnot H1 H2 Hk He'. apply chain_ok_seq in Hok as (Hl & Hseq & Hsz).
  rewrite Ees, take_app_length, drop_app_length. rewrite Ees in Hseq, Hnot.
  assert (Hh : e_keyHash e' = hash k) by (destruct He' as (-> & _); by rewrite Hk).
  eapply rep_set_chain; [done..| | |].
  - apply chain_ok_seq. unfold ch_count in *. rewrite Ees in Hroom. simpl. split; [done|]. split.
    + apply seq_ok_insert; rewrite ?Hh, ?Hk; done.
    + rewrite length_app in *. simpl in *. lia.
  - unfold ch_count. simpl. rewrite Ees, !length_app. simpl. lia.
  - intros k'. simpl. rewrite Ees, es_lookup_insert, Hk; [done|]. rewrite Hk.
    rewrite map_app in Hnot. by apply not_elem_of_app in Hnot as [].
Qed.

Lemma new_entry_ok flags k v :
  key_kind k = numeric -> flag_set flags ieutFLAG_NUMERIC_KEY = numeric ->
  flag_set flags ieutFLAG_DUPLICATE_KEY_STRING = dup ->
  entry_ok (mk_entry k v (hash k) (Z.land flags (Z.lnot ieutFLAG_DUPLICATE_RESIZE))).
Proof. intros Hk Hn Hd. unfold entry_ok, entry_numeric. simpl. by rewrite !flag_set_land. Qed.

(** The part of put after the chain has room. *)
Lemma put_stored flags n t m k v c :
  table_rep t m -> chains t !! chain_index t (hash k) = Some c ->
  chain_ok (capacity t) (chain_index t (hash k)) c -> ch_count c < ch_size c ->
  key_kind k = numeric -> flag_set flags ieutFLAG_NUMERIC_KEY = numeric ->
  flag_set flags ieutFLAG_DUPLICATE_KEY_STRING = dup ->
  flag_set flags ieutFLAG_DUPLICATE_RESIZE = false \/ m !! k = None ->
  put_outcome flags t m k v (put_in_chain mem n t flags k (hash k) v c).
Proof.
  intros Hr Hc Hok Hroom Hk Hn Hd Hrs. unfold put_in_chain. rewrite (co_live _ _ _ Hok). cbn [mbind outcome_bind].
  destruct (scan_chain t m k c (fun _ => flag_set flags ieutFLAG_NUMERIC_KEY) Hr Hc Hok Hk)
    as (j & found & E & Hf); [done|].
  unfold put_outcome, map_put. rewrite E. destruct found; cbv beta iota zeta.
  - destruct Hf as (l1 & e & l2 & Ees & -> & He & Hm). rewrite Hm in *. destruct Hrs as [Hrs|]; [|done].
    rewrite bool_decide_true by eauto. rewrite Hrs. cbn [andb].
    destruct (flag_set flags ieutFLAG_REPLACE_EXISTING); cbn [negb].
    + assert (Hin : (length l1 < length (ch_entries c))%nat) by (rewrite Ees, length_app; simpl; lia).
      assert (Hoe : entry_ok e) by (pose proof (co_entries _ _ _ Hok) as Ho; rewrite Ees in Ho;
        by apply Forall_app in Ho as [_ Ho%Forall_cons]; destruct Ho).
      pose proof Hoe as (Hh & _ & _ & Hde). rewrite (list_lookup_middle_eq _ _ _ _ Ees).
      rewrite (dup_key_same flags (e_flags e)), Z.eqb_refl by congruence. cbn [negb orb].
      do 3 eexists. split; [done|]. split; [apply capacity_set|]. right. eexists. split; [done|].
      rewrite Hh, He, (Tauto.if_same (flag_set _ _)). eapply (put_replace _ _ _ _ _ _ _ (mk_entry k v (hash k) _)); eauto using new_entry_ok.
    + do 3 eexists. split; [done|]. split; [done|]. right. eauto.
  - destruct Hf as (l1 & l2 & Ees & -> & Hnot & Hm & H1 & H2). cbv zeta.
    rewrite Hm, bool_decide_false by (intros []; done). cbn [andb].
    destruct (_ && negb (mem n)) eqn:Ea.
    + apply andb_true_iff in Ea as [_ Ea%negb_true_iff]. do 3 eexists. split; [done|]. split; [done|]. left. eauto.
    + do 3 eexists. split; [done|]. split; [apply (capacity_set t)|]. right. eexists. split; [done|].
      eapply (put_insert _ _ _ _ _ _ (mk_entry k v (hash k) _)); eauto using new_entry_ok.
Qed.

Lemma put_spec flags n t m k v :
  table_rep t m -> key_kind k = numeric -> flag_set flags ieutFLAG_NUMERIC_KEY = numeric ->
  flag_set flags ieutFLAG_DUPLICATE_KEY_STRING = dup ->
  flag_set flags ieutFLAG_DUPLICATE_RESIZE = false \/ m !! k = None ->
  put_outcome flags t m k v (ieut_putHashEntry mem n t flags k (hash k) v).
Proof.
  intros Hr Hk Hn Hd Hrs. pose proof Hr as [Ht _]. destruct (get_chain_ok t k Ht) as (c & Hg & Hc & Hok).
  unfold ieut_putHashEntry. cbv zeta. rewrite Hg. cbn [mbind outcome_bind].
  assert (Hfail : forall n', (exists i, mem i = false) -> put_outcome flags t m k v (Ret (ISMRC_AllocateError, t, n'))).
  { intros n' Hi. do 3 eexists. split; [done|]. split; [done|]. left. auto. }
  do 2 match goal with |- context [if ?b && negb (mem ?n) then _ else _] =>
    let E := fresh "E" in destruct (b && negb (mem n)) eqn:E;
      [apply andb_true_iff in E as [_ E%negb_true_iff]; eauto|clear E]
  end.
  set (t1 := set_chain t (hash k) (grow_chain c)).
  destruct (grow_chain_ok _ _ _ Hok) as (Hok1 & Ee & Hroom).
  assert (Ei : chain_index t1 (hash k) = chain_index t (hash k)) by (unfold chain_index, t1; by rewrite capacity_set).
  assert (Ec : capacity t1 = capacity t) by apply capacity_set.
  match goal with |- context [put_in_chain mem ?x] => set (n1 := x) end.
  destruct (put_stored flags n1 t1 m k v (grow_chain c)) as (rc & t' & n' & Eo & Hcap & Ho); rewrite ?Ei, ?Ec; auto.
  - apply grow_table; done.
  - unfold t1. simpl. apply list_lookup_insert_eq. by apply chain_index_lt.
  - unfold ch_count in *. by rewrite Ee.
  - exists rc, t', n'. rewrite <- Ec. eauto.
Qed.

(** ** All the entries of a table *)

Definition all_entries (cs : list (ieutHashChain_t V)) : list (ieutHashEntry_t V) :=
  concat (map ch_entries cs).

Definition chains_ok (cap : Z) (off : nat) (cs : list (ieutHashChain_t V)) : Prop :=
  forall i c, cs !! i = Some c -> chain_ok cap (off + i) c.

Lemma chains_ok_cons cap off c cs :
  chains_ok cap off (c :: cs) <-> chain_ok cap off c /\ chains_ok cap (S off) cs.
Proof.
  unfold chains_ok. split.
  - intros Hc. split; [rewrite <- (Nat.add_0_r off); by apply (Hc 0%nat)|].
    intros i c' Hi. rewrite Nat.add_succ_comm. by apply (Hc (S i)).
  - intros [H0 Hs] [|i] c' Hi; [rewrite Nat.add_0_r; by simplify_eq/=|].
    rewrite <- Nat.add_succ_comm. by apply Hs.
Qed.

Lemma table_chains_ok t : table_ok t -> chains_ok (capacity t) 0 (chains t).
Proof. intros [_ Hc _] i c Hi. by apply Hc. Qed.

Lemma all_entries_ok cap off cs :
  chains_ok cap off cs ->
  Forall entry_ok (all_entries cs)
  /\ Forall (fun e => (off <= Z.to_nat (e_keyHash e mod cap))%nat) (all_entries cs).
Proof.
  revert off. induction cs as [|c cs IH]; intros off; [by split; constructor|].
  rewrite chains_ok_cons. intros [[_ He Hi _ _ _] Hcs]. destruct (IH _ Hcs) as [IH1 IH2].
  unfold all_entries in *. simpl. rewrite !Forall_app. split_and!; auto.
  - eapply Forall_impl; [exact Hi|]. simpl. lia.
  - eapply Forall_impl; [exact IH2|]. simpl. lia.
Qed.

Lemma all_entries_nodup cap off cs : chains_ok cap off cs -> NoDup (map e_key (all_entries cs)).
Proof.
  revert off. induction cs as [|c cs IH]; intros off; [constructor|].
  rewrite chains_ok_cons. intros [[_ He Hi _ Hn _] Hcs]. unfold all_entries in *. simpl.
  rewrite map_app. apply NoDup_app. split; [done|]. split; [|eauto].
  intros k (x & -> & Hx)%(list_elem_of_fmap e_key) (y & E & Hy)%(list_elem_of_fmap e_key).
  destruct (all_entries_ok _ _ _ Hcs) as [Ho Hoff]. rewrite Forall_forall in He, Hi, Ho, Hoff.
  destruct (He _ Hx) as (Ex & _). destruct (Ho _ Hy) as (Ey & _).
  pose proof (Hi _ Hx). pose proof (Hoff _ Hy). rewrite Ex, Ey, E in *. lia.
Qed.

Lemma all_entries_lookup cap off cs k :
  chains_ok cap off cs -> (off <= Z.to_nat (hash k mod cap))%nat ->
  es_lookup (all_entries cs) k = c ← cs !! (Z.to_nat (hash k mod cap) - off)%nat; es_lookup (ch_entries c) k.
Proof.
  revert off. induction cs as [|c cs IH]; intros off; [by rewrite lookup_nil|].
  rewrite chains_ok_cons. intros [[_ He Hi _ _ _] Hcs] Hle. unfold all_entries in *. simpl.
  rewrite es_lookup_app. destruct (Nat.eq_dec off (Z.to_nat (hash k mod cap))) as [Eq|Ne].
  - rewrite <- Eq, Nat.sub_diag. simpl. destruct (es_lookup (ch_entries c) k); [done|].
    apply es_lookup_None. intros (y & E & Hy)%(list_elem_of_fmap e_key).
    destruct (all_entries_ok _ _ _ Hcs) as [Ho Hoff]. rewrite Forall_forall in Ho, Hoff.
    pose proof (Hoff _ Hy). destruct (Ho _ Hy) as (Ey & _). rewrite Ey, <- E in *. lia.
  - replace (Z.to_nat (hash k mod cap) - off)%nat with (S (Z.to_nat (hash k mod cap) - S off)) by lia.
    simpl. rewrite <- IH by (done || lia).
    enough (Hn : es_lookup (ch_entries c) k = None) by by rewrite Hn.
    apply es_lookup_None. intros (y & E & Hy)%(list_elem_of_fmap e_key).
    rewrite Forall_forall in He, Hi. destruct (He _ Hy) as (Ey & _). pose proof (Hi _ Hy) as Hiy.
    rewrite Ey, <- E in Hiy. lia.
Qed.

Lemma table_all_lookup t m k : table_rep t m -> es_lookup (all_entries (chains t)) k = m !! k.
Proof.
  intros [Ht Hm]. rewrite <- Hm, (all_entries_lookup (capacity t) 0); [|by apply table_chains_ok|lia].
  unfold table_lookup, chain_index. by rewrite Nat.sub_0_r.
Qed.

Lemma sum_counts_all cs : sum_counts cs = Z.of_nat (length (all_entries cs)).
Proof. unfold all_entries. induction cs as [|c cs IH]; simpl; [done|]. rewrite length_app, IH. unfold ch_count. lia. Qed.

Lemma table_total_0 t m : table_rep t m -> totalCount t = 0 -> m = ∅.
Proof.
  intros Hr E. apply map_eq. intros k. rewrite <- (table_all_lookup t m k Hr), lookup_empty.
  destruct Hr as [[_ _ Ht] _]. rewrite sum_counts_all in Ht.
  destruct (all_entries (chains t)); [done|]. simpl in Ht. lia.
Qed.

Lemma fresh_table_rep cap : 0 < cap -> table_rep (mk_table 0 (replicate (Z.to_nat cap) empty_chain)) ∅
  /\ capacity (V := V) (mk_table 0 (replicate (Z.to_nat cap) empty_chain)) = cap.
Proof.
  intros Hcap. assert (Ec : capacity (V := V) (mk_table 0 (replicate (Z.to_nat cap) empty_chain)) = cap)
    by (unfold capacity; simpl; rewrite length_replicate; lia).
  split; [|done]. split; [split|].
  - by rewrite Ec.
  - intros i c [-> _]%lookup_replicate. apply chain_ok_seq. simpl. split; [done|]. split; [by repeat constructor|done].
  - simpl. rewrite sum_counts_all. unfold all_entries. generalize (Z.to_nat cap). by induction n.
  - intros k. unfold table_lookup. simpl. rewrite lookup_empty.
    destruct (_ !! _) as [c|] eqn:E; [|done]. by apply lookup_replicate in E as [-> _].
Qed.

(** ** Resizing *)

Definition es_map es : gmap hkey (option V) :=
  list_to_map (map (fun e => (e_key e, e_value e)) es).

Lemma es_map_nil : es_map [] = ∅.
Proof. done. Qed.

Lemma es_map_lookup es k : es_map es !! k = es_lookup es k.
Proof.
  unfold es_map. induction es as [|e es IH]; simpl; [apply lookup_empty|].
  case_bool_decide as E; [subst; by rewrite lookup_insert_eq|by rewrite lookup_insert_ne].
Qed.

Definition copy_outcome (new : ieutHashTable_t V) es m rc (new' : ieutHashTable_t V) : Prop :=
  capacity new' = capacity new /\
  (rc = OK /\ table_rep new' (es_map es ∪ m) \/ rc = ISMRC_AllocateError /\ exists i, mem i = false).

Definition fresh_entries es (m : gmap hkey (option V)) : Prop :=
  Forall entry_ok es /\ NoDup (map e_key es) /\ Forall (fun e => m !! e_key e = None) es.

Lemma es_map_cons_union e es m :
  e_key e ∉ map e_key es -> es_map (e :: es) ∪ m = es_map es ∪ <[e_key e := e_value e]> m.
Proof.
  intros Hn. unfold es_map. simpl. rewrite <- insert_union_l, insert_union_r; [done|].
  apply not_elem_of_list_to_map_1. intros (p & E & Hp)%list_elem_of_fmap. apply Hn.
  apply list_elem_of_fmap in Hp as (x & -> & Hx). rewrite E. by apply (list_elem_of_fmap_2 e_key).
Qed.

Lemma fresh_entries_cons e es m :
  fresh_entries (e :: es) m -> fresh_entries es (<[e_key e := e_value e]> m).
Proof.
  unfold fresh_entries. simpl. rewrite !Forall_cons, NoDup_cons. intros ([_ Ho] & [Hne Hnd] & [_ Hf]).
  split; [done|]. split; [done|]. rewrite Forall_forall in *. intros x Hx.
  rewrite lookup_insert_ne; [by apply Hf|]. intros E. apply Hne. rewrite E. by apply (list_elem_of_fmap_2 e_key).
Qed.

Lemma copy_entries_spec es : forall n new m,
  table_rep new m -> fresh_entries es m ->
  exists rc new' n', copy_entries mem n new es = Ret (rc, new', n') /\ copy_outcome new es m rc new'.
Proof.
  induction es as [|e es IH]; intros n new m Hr Hf.
  - simpl. do 3 eexists. split; [done|]. split; [done|]. left. by rewrite es_map_nil, (left_id_L ∅ (∪)).
  - pose proof (fresh_entries_cons _ _ _ Hf) as Hf'.
    destruct Hf as ([(Hh & Hkd & Hnm & Hdp) _]%Forall_cons & [Hne _]%NoDup_cons & [Hnone _]%Forall_cons).
    cbn [copy_entries]. rewrite Hh.
    destruct (put_spec (Z.lor (e_flags e) ieutFLAG_DUPLICATE_RESIZE) n new m (e_key e) (e_value e))
      as (rc & new1 & n1 & E & Hcap & Ho); rewrite ?flag_set_lor by done; auto.
    rewrite E. cbn [mbind outcome_bind]. destruct Ho as [(Erc & Hi & _)|(m' & Em & Hr1)].
    + injection Erc as ->. do 3 eexists. split; [done|]. split; [done|]. auto.
    + unfold map_put in Em. rewrite Hnone, bool_decide_false in Em by (intros []; done). injection Em as <- <-.
      destruct (IH n1 new1 _ Hr1 Hf') as (rc & new2 & n2 & E2 & Hcap2 & Ho2). cbn [andb Z.eqb].
      exists rc, new2, n2. split; [done|]. split; [congruence|]. rewrite es_map_cons_union; done.
Qed.

Lemma fresh_entries_app l1 l2 m :
  fresh_entries (l1 ++ l2) m -> fresh_entries l1 m /\ fresh_entries l2 (es_map l1 ∪ m).
Proof.
  unfold fresh_entries. rewrite !Forall_app, map_app, NoDup_app.
  intros ([Ho1 Ho2] & (Hn1 & Hn12 & Hn2) & Hf1 & Hf2). split; [done|]. split; [done|]. split; [done|].
  rewrite Forall_forall in *. intros x Hx. apply lookup_union_None. split; [|by apply Hf2].
  rewrite es_map_lookup. apply es_lookup_None. intros Hin%Hn12. apply Hin.
  by apply (list_elem_of_fmap_2 e_key).
Qed.

Lemma es_map_app l1 l2 : NoDup (map e_key (l1 ++ l2)) -> es_map (l1 ++ l2) = es_map l2 ∪ es_map l1.
Proof.
  rewrite map_app, NoDup_app. intros (_ & Hd & _). apply map_eq. intros k.
  rewrite lookup_union, !es_map_lookup, es_lookup_app.
  destruct (es_lookup l1 k) eqn:E1, (es_lookup l2 k) eqn:E2; try done. exfalso.
  apply (Hd k); apply dec_stable; intros Hn%es_lookup_None; congruence.
Qed.

Lemma copy_chains_spec todo : forall n new done_ m,
  Forall (fun c => ch_live c = true) todo -> table_rep new m -> fresh_entries (all_entries todo) m ->
  exists rc new' old n', copy_chains mem n new done_ todo = Ret (rc, new', old, n') /\
    copy_outcome new (all_entries todo) m rc new'.
Proof.
  induction todo as [|c todo IH]; intros n new done_ m Hl Hr Hf.
  - simpl. do 4 eexists. split; [done|]. split; [done|]. left. change (all_entries []) with (@nil (ieutHashEntry_t V)). by rewrite es_map_nil, (left_id_L ∅ (∪)).
  - pose proof Hf as (_ & Hnd & _). unfold all_entries in Hf, Hnd. simpl in Hf, Hnd.
    apply Forall_cons in Hl as [Hlc Hl]. apply fresh_entries_app in Hf as [Hf1 Hf2]. cbn [copy_chains].
    unfold read_entries. rewrite Hlc. cbn [orb mbind outcome_bind].
    destruct (copy_entries_spec (ch_entries c) n new m Hr Hf1) as (rc & new1 & n1 & E & Hcap & Ho).
    rewrite E. cbn [mbind outcome_bind]. destruct Ho as [(-> & Hr1)|(-> & Hi)].
    + destruct (IH n1 new1 (done_ ++ [free_entries c]) _ Hl Hr1 Hf2) as (rc & new2 & old & n2 & E2 & Hcap2 & Ho2).
      cbn [Z.eqb]. exists rc, new2, old, n2. split; [done|]. split; [congruence|].
      unfold all_entries at 1. simpl. rewrite es_map_app, <- (assoc_L (∪)) by done. done.
    + do 4 eexists. split; [done|]. split; [done|]. auto.
Qed.

Lemma resize_spec n t m cap :
  table_rep t m -> 0 < cap ->
  exists rc t' n', ieut_resizeHashTable mem n t cap = Ret (rc, t', n') /\
    (rc = OK /\ table_rep t' m /\ capacity t' = cap \/ rc = ISMRC_AllocateError /\ exists i, mem i = false).
Proof.
  intros Hr Hcap. unfold ieut_resizeHashTable. destruct (mem n) eqn:En; [|eauto 10].
  destruct (fresh_table_rep cap Hcap) as [Hr0 Hc0].
  destruct (Z.eqb_spec (totalCount t) 0) as [E0|_].
  - rewrite (table_total_0 _ _ Hr E0). eauto 10.
  - pose proof Hr as [Ht _]. pose proof (table_chains_ok _ Ht) as Hok.
    assert (Hlive : Forall (fun c => ch_live c = true) (chains t))
      by (apply Forall_lookup; intros i c Hi; by destruct (Hok i c Hi)).
    destruct (copy_chains_spec (chains t) (S n) _ [] _ Hlive Hr0) as (rc & new & old & n' & E & Hcn & Ho).
    + split; [by destruct (all_entries_ok _ _ _ Hok)|]. split; [by eapply all_entries_nodup|].
      apply Forall_forall. intros. apply lookup_empty.
    + rewrite E. cbn [mbind outcome_bind]. destruct Ho as [(-> & Hrn)|(-> & Hi)]; [|eauto 10].
      cbn [Z.eqb]. do 3 eexists. split; [done|]. left. split; [done|]. split; [|congruence].
      replace m with (es_map (all_entries (chains t)) ∪ ∅); [done|].
      rewrite (right_id_L ∅ (∪)). apply map_eq. intros k. by rewrite es_map_lookup, (table_all_lookup t m).
Qed.

(** ** Clearing and dropping entries with a null value *)

Lemma chain_ok_filter cap i c f :
  chain_ok cap i c -> seq_ok cap i (List.filter f (ch_entries c)).
Proof.
  rewrite chain_ok_seq. intros (_ & Hs & _). change (ch_entries c) with ([] ++ ch_entries c) in Hs.
  enough (G : forall es l, seq_ok cap i (l ++ es) -> seq_ok cap i (l ++ List.filter f es)) by by apply (G _ []).
  clear. induction es as [|e es IH]; intros l Hs; [done|]. simpl. destruct (f e).
  - rewrite (cons_middle e), app_assoc in *. by apply IH.
  - apply IH. by eapply seq_ok_delete.
Qed.

Lemma es_lookup_filter f es k :
  NoDup (map e_key es) ->
  es_lookup (List.filter f es) k
  = match List.find (fun e => bool_decide (e_key e = k)) es with
    | Some e => if f e then Some (e_value e) else None
    | None => None end.
Proof.
  induction es as [|e es IH]; [done|]. simpl. rewrite NoDup_cons. intros [Hn Hnd]. specialize (IH Hnd).
  case_bool_decide as E.
  - destruct (f e); simpl; [by rewrite bool_decide_true|]. subst k.
    apply es_lookup_None. intros (x & Ex & Hx)%(list_elem_of_fmap e_key). apply Hn. rewrite Ex.
    apply (list_elem_of_fmap_2 e_key). apply list_elem_of_In, List.filter_In in Hx as [Hx _]. by apply list_elem_of_In.
  - destruct (f e); simpl; [by rewrite bool_decide_false|done].
Qed.

Lemma es_lookup_find es k :
  es_lookup es k = e ← List.find (fun e => bool_decide (e_key e = k)) es; Some (e_value e).
Proof. induction es as [|e es IH]; [done|]. simpl. by case_bool_decide. Qed.

Definition nonempty_value (ov : option V) : bool := match ov with Some _ => true | None => false end.

Lemma remove_empty_chain_ok cap i c :
  chain_ok cap i c ->
  chain_ok cap i (remove_empty_chain c)
  /\ ch_entries (remove_empty_chain c) = List.filter (fun e => negb (is_nil_value e)) (ch_entries c).
Proof.
  intros Hok. pose proof (chain_ok_filter _ _ _ (fun e => negb (is_nil_value e)) Hok) as Hf.
  pose proof Hok as (Hl & Hs & Hsz)%chain_ok_seq.
  unfold remove_empty_chain. destruct (Z.gtb_spec (ch_count c) 0) as [Hp|Hz].
  - pose proof (List.filter_length_le (fun e => negb (is_nil_value e)) (ch_entries c)) as Hlen.
    destruct (List.filter _ _) as [|e es] eqn:E; split; try done; apply chain_ok_seq; [done|].
    simpl. split; [done|]. split; [done|]. unfold ch_count in *. simpl in *. lia.
  - unfold ch_count in Hz. split; [done|]. destruct (ch_entries c); [done|]. simpl in Hz. lia.
Qed.

Lemma filter_split_length (f : ieutHashEntry_t V -> bool) es :
  length es = (length (List.filter f es) + length (List.filter (fun e => negb (f e)) es))%nat.
Proof. induction es as [|e es IH]; simpl; [done|]. destruct (f e); simpl; lia. Qed.

Lemma remove_empty_rep t m :
  table_rep t m ->
  exists t', ieut_removeEmptyHashEntries t = Ret t' /\ capacity t' = capacity t
    /\ table_rep t' (filter (fun p => nonempty_value p.2 = true) m).
Proof.
  intros [Ht Hm]. unfold ieut_removeEmptyHashEntries.
  assert (Hr : forallb readable_chain (chains t) = true).
  { apply List.forallb_forall. intros c Hc. apply list_elem_of_In, list_elem_of_lookup in Hc as [i Hi].
    unfold readable_chain. by rewrite (co_live _ _ _ (to_chains _ Ht i c Hi)). }
  rewrite Hr. cbn [negb]. eexists. split; [done|].
  assert (Ec : forall tc, capacity (mk_table tc (map remove_empty_chain (chains t))) = capacity t)
    by (intros; unfold capacity; simpl; by rewrite length_map).
  split; [apply Ec|]. split; [split|].
  - rewrite Ec. apply Ht.
  - intros i c. rewrite Ec. simpl. rewrite list_lookup_fmap. intros (c0 & E & ->)%fmap_Some.
    by apply remove_empty_chain_ok, Ht.
  - simpl. rewrite (to_total _ Ht). pose proof (table_chains_ok _ Ht) as Hok. clear Hr Ec. revert Hok.
    generalize 0%nat. induction (chains t) as [|c cs IH]; intros off Hok; [done|].
    apply chains_ok_cons in Hok as [Hc Hcs]. simpl. apply remove_empty_chain_ok in Hc as [_ He].
    specialize (IH _ Hcs). unfold ch_count in *. rewrite He. rewrite (filter_split_length is_nil_value). lia.
  - intros k. unfold table_lookup. replace (chain_index (mk_table _ _) (hash k)) with (chain_index t (hash k))
      by (unfold chain_index; by rewrite Ec).
    simpl. rewrite list_lookup_fmap. specialize (Hm k). unfold table_lookup in Hm.
    destruct (get_chain_ok t k Ht) as (c & _ & Hc & Hok). rewrite Hc in *. simpl in *.
    apply remove_empty_chain_ok in Hok as Hre. destruct Hre as [_ ->]. rewrite es_lookup_filter by apply Hok.
    rewrite es_lookup_find in Hm. rewrite map_lookup_filter, <- Hm.
    destruct (List.find _ _) as [e|]; [|done]. simpl. unfold is_nil_value.
    by destruct (e_value e).
Qed.

(** ** Traversal *)

Lemma table_entries_perm t m :
  table_rep t m -> map (fun e => (e_key e, e_value e)) (all_entries (chains t)) ≡ₚ map_to_list m.
Proof.
  intros Hr. pose proof Hr as [Ht Hm]. pose proof (all_entries_nodup _ _ _ (table_chains_ok _ Ht)) as Hnd.
  replace m with (es_map (all_entries (chains t)))
    by (apply map_eq; intros k; by rewrite es_map_lookup, (table_all_lookup t m)).
  unfold es_map. symmetry. apply map_to_list_to_map. by rewrite <- list_fmap_compose.
Qed.

(** The count kept in the table is the number of bindings. *)
Lemma table_total t m : table_rep t m -> totalCount t = Z.of_nat (size m).
Proof.
  intros Hr. rewrite (to_total _ (proj1 Hr)), sum_counts_all, <- length_map_to_list, <- (table_entries_perm t m Hr).
  by rewrite length_map.
Qed.

Lemma table_keys t m k v : table_rep t m -> m !! k = Some v -> key_kind k = numeric.
Proof.
  intros Hr Hk. apply elem_of_map_to_list in Hk. rewrite <- (table_entries_perm t m Hr) in Hk.
  apply list_elem_of_fmap in Hk as (e & [= -> _] & He).
  pose proof (proj1 (all_entries_ok _ _ _ (table_chains_ok _ (proj1 Hr)))) as Hok.
  rewrite Forall_forall in Hok. by destruct (Hok e He) as (_ & ? & _).
Qed.

Lemma traverse_rep t m :
  table_rep t m ->
  exists calls, ieut_traverseHashTable t = Ret calls
    /\ map (fun call => (call.1.1, call.2)) calls ≡ₚ map_to_list m
    /\ Forall (fun call => call.1.2 = hash call.1.1) calls.
Proof.
  intros Hr. pose proof Hr as [Ht Hm]. unfold ieut_traverseHashTable.
  destruct (Z.eqb_spec (totalCount t) 0) as [E0|_].
  - exists []. rewrite (table_total_0 _ _ Hr E0), map_to_list_empty. repeat split; constructor.
  - assert (Hrd : forallb readable_chain (chains t) = true).
    { apply List.forallb_forall. intros c Hc. apply list_elem_of_In, list_elem_of_lookup in Hc as [i Hi].
      unfold readable_chain. by rewrite (co_live _ _ _ (to_chains _ Ht i c Hi)). }
    rewrite Hrd. eexists. split; [done|]. pose proof (table_chains_ok _ Ht) as Hok.
    fold (all_entries (chains t)). rewrite List.map_map. simpl. split.
    + exact (table_entries_perm t m Hr).
    + apply Forall_map. eapply Forall_impl; [apply (proj1 (all_entries_ok _ _ _ Hok))|]. by intros e [He _].
Qed.
End MapLaws.

(** ** The operations refine those of finite maps *)

(** C12. Look-up: in every table that represents the map [m], ieut_getHashEntry
    returns OK with the value that [m] binds to the key, and ISMRC_NotFound when
    it binds none; it never reads outside the table. *)
Theorem get_refines {V} (hash : hkey -> Z) (numeric dup : bool)
    (t : ieutHashTable_t V) (m : gmap hkey (option V)) (k : hkey) :
  table_rep hash numeric dup t m -> key_kind k = numeric ->
  ieut_getHashEntry t k (hash k)
  = Ret (match m !! k with Some v => (OK, Some v) | None => (ISMRC_NotFound, None) end).
Proof. apply get_lookup. Qed.

(** C11. Insertion: whatever allocations fail, ieut_putHashEntry returns, keeps the
    capacity, and the new table represents the map with the key bound to the
    value, or the same map with ISMRC_ExistingKey when the key is there and
    ieutFLAG_REPLACE_EXISTING is not given, or the same map with
    ISMRC_AllocateError, which happens only if some allocation fails. *)
Theorem put_refines {V} (hash : hkey -> Z) (numeric dup : bool) (mem : nat -> bool)
    (flags : Z) (n : nat) (t : ieutHashTable_t V) (m : gmap hkey (option V)) (k : hkey) (v : option V) :
  table_rep hash numeric dup t m -> key_kind k = numeric ->
  flag_set flags ieutFLAG_NUMERIC_KEY = numeric ->
  flag_set flags ieutFLAG_DUPLICATE_KEY_STRING = dup ->
  flag_set flags ieutFLAG_DUPLICATE_RESIZE = false ->
  exists rc t' n', ieut_putHashEntry mem n t flags k (hash k) v = Ret (rc, t', n') /\ capacity t' = capacity t /\
    (rc = ISMRC_AllocateError /\ (exists i, mem i = false) /\ table_rep hash numeric dup t' m
     \/ exists m', map_put flags m k v = (rc, m') /\ table_rep hash numeric dup t' m').
Proof.
  intros Hr Hk Hn Hd Hs.
  destruct (put_spec hash numeric dup mem flags n t m k v Hr Hk Hn Hd (or_introl Hs))
    as (rc & t' & n' & E & Hc & [(Erc & Hi & Hr')|Ho]); exists rc, t', n'; split; [done| |done|auto].
  split; [done|]. left. by injection Erc as ->.
Qed.

(** C13. Removal: ieut_removeHashEntry deletes the key's binding and no other, and
    does nothing when there is none. *)
Theorem remove_refines {V} (hash : hkey -> Z) (numeric dup : bool)
    (t : ieutHashTable_t V) (m : gmap hkey (option V)) (k : hkey) :
  table_rep hash numeric dup t m -> key_kind k = numeric ->
  exists t', ieut_removeHashEntry t k (hash k) = Ret t' /\ table_rep hash numeric dup t' (delete k m)
    /\ capacity t' = capacity t.
Proof. apply remove_delete. Qed.

(** C14. Resizing: ieut_resizeHashTable with a positive capacity returns; with OK
    the table has that capacity and represents the same map, so every entry has
    been moved to its new chain; it fails only if an allocation does. *)
Theorem resize_refines {V} (hash : hkey -> Z) (numeric dup : bool) (mem : nat -> bool)
    (n : nat) (t : ieutHashTable_t V) (m : gmap hkey (option V)) (newCapacity : Z) :
  table_rep hash numeric dup t m -> 0 < newCapacity ->
  exists rc t' n', ieut_resizeHashTable mem n t newCapacity = Ret (rc, t', n') /\
    (rc = OK /\ table_rep hash numeric dup t' m /\ capacity t' = newCapacity
     \/ rc = ISMRC_AllocateError /\ exists i, mem i = false).
Proof. apply resize_spec. Qed.

(** Traversal: ieut_traverseHashTable calls the callback exactly once for
    each binding of the table. *)
Theorem traverse_visits_all {V} (hash : hkey -> Z) (numeric dup : bool)
    (t : ieutHashTable_t V) (m : gmap hkey (option V)) :
  table_rep hash numeric dup t m ->
  exists calls, ieut_traverseHashTable t = Ret calls
    /\ map (fun call => (call.1.1, call.2)) calls ≡ₚ map_to_list m
    /\ Forall (fun call => call.1.2 = hash call.1.1) calls.
Proof. apply traverse_rep. Qed.

(** ieut_removeEmptyHashEntries deletes exactly the bindings to a null value. *)
Theorem remove_empty_refines {V} (hash : hkey -> Z) (numeric dup : bool)
    (t : ieutHashTable_t V) (m : gmap hkey (option V)) :
  table_rep hash numeric dup t m ->
  exists t', ieut_removeEmptyHashEntries t = Ret t' /\ capacity t' = capacity t
    /\ table_rep hash numeric dup t' (filter (fun p => nonempty_value p.2 = true) m).
Proof. apply remove_empty_rep. Qed.

(** ** A concrete table *)

Definition demo_hash (k : hkey) : Z := match k with KStr s => foldr Z.add 0 s mod 2 ^ 32 | KNum n => n mod 2 ^ 32 end.

Definition all_mem (_ : nat) : bool := true.

(** Keys "b" and "d" share chain 0; "c" is in chain 1; "d" has a null value. *)
Definition demo_table : ieutHashTable_t Z :=
  mk_table 3 [mk_chain 2 [mk_entry (KStr [98]) (Some 7) 98 0; mk_entry (KStr [100]) None 100 0] true;
              mk_chain 2 [mk_entry (KStr [99]) (Some 8) 99 0] true].

Definition demo_map : gmap hkey (option Z) :=
  <[KStr [100] := None]> (<[KStr [99] := Some 8]> (<[KStr [98] := Some 7]> ∅)).

Lemma demo_put n (t : ieutHashTable_t Z) m k v t' n' :
  table_rep demo_hash false false t m -> key_kind k = false ->
  ieut_putHashEntry all_mem n t 0 k (demo_hash k) v = Ret (OK, t', n') ->
  table_rep demo_hash false false t' (<[k := v]> m).
Proof.
  intros Hr Hk E.
  destruct (put_spec demo_hash false false all_mem 0 n t m k v Hr Hk eq_refl eq_refl (or_introl eq_refl))
    as (rc & t1 & n1 & E1 & _ & [(_ & [i Hi] & _)|(m' & Em & Hr')]); [done|].
  rewrite E in E1. injection E1 as <- <- <-. unfold map_put in Em.
  destruct (_ && _); by simplify_eq.
Qed.

Lemma demo_rep : table_rep demo_hash false false demo_table demo_map.
Proof.
  unfold demo_map. destruct (fresh_table_rep (V := Z) demo_hash false false 2 ltac:(lia)) as [Hr _].
  eapply (demo_put 0 _ _ (KStr [98]) (Some 7)) in Hr; [|reflexivity|vm_compute; reflexivity].
  eapply (demo_put 0 _ _ (KStr [99]) (Some 8)) in Hr; [|reflexivity|vm_compute; reflexivity].
  eapply (demo_put 0 _ _ (KStr [100]) None) in Hr; [|reflexivity|vm_compute; reflexivity].
  exact Hr.
Qed.

Lemma get_refines_witness :
  ieut_getHashEntry demo_table (KStr [99]) (demo_hash (KStr [99])) = Ret (OK, Some (Some 8)).
Proof. exact (get_refines demo_hash false false demo_table demo_map (KStr [99]) demo_rep eq_refl). Defined.

Lemma put_refines_witness :
  exists rc t' n', ieut_putHashEntry all_mem 0 demo_table 0 (KStr [97]) 97 (Some 5) = Ret (rc, t', n')
    /\ capacity t' = 2 /\
    (rc = ISMRC_AllocateError /\ (exists i, all_mem i = false) /\ table_rep demo_hash false false t' demo_map
     \/ exists m', map_put 0 demo_map (KStr [97]) (Some 5) = (rc, m') /\ table_rep demo_hash false false t' m').
Proof.
  exact (put_refines demo_hash false false all_mem 0 0 demo_table demo_map (KStr [97]) (Some 5)
           demo_rep eq_refl eq_refl eq_refl eq_refl).
Defined.

Lemma remove_refines_witness :
  exists t', ieut_removeHashEntry demo_table (KStr [98]) 98 = Ret t'
    /\ table_rep demo_hash false false t' (delete (KStr [98]) demo_map) /\ capacity t' = 2.
Proof. exact (remove_refines demo_hash false false demo_table demo_map (KStr [98]) demo_rep eq_refl). Defined.

Lemma resize_refines_witness :
  exists rc t' n', ieut_resizeHashTable all_mem 0 demo_table 7 = Ret (rc, t', n') /\
    (rc = OK /\ table_rep demo_hash false false t' demo_map /\ capacity t' = 7
     \/ rc = ISMRC_AllocateError /\ exists i, all_mem i = false).
Proof. exact (resize_refines demo_hash false false all_mem 0 demo_table demo_map 7 demo_rep eq_refl). Defined.

Lemma traverse_visits_all_witness :
  exists calls, ieut_traverseHashTable demo_table = Ret calls
    /\ map (fun call => (call.1.1, call.2)) calls ≡ₚ map_to_list demo_map
    /\ Forall (fun call => call.1.2 = demo_hash call.1.1) calls.
Proof. exact (traverse_visits_all demo_hash false false demo_table demo_map demo_rep). Defined.

Lemma remove_empty_refines_witness :
  exists t', ieut_removeEmptyHashEntries demo_table = Ret t' /\ capacity t' = 2
    /\ table_rep demo_hash false false t' (filter (fun p => nonempty_value p.2 = true) demo_map).
Proof. exact (remove_empty_refines demo_hash false false demo_table demo_map demo_rep). Defined.

(** A failed resize breaks the table: when an allocation fails after the
    first chain has been copied, ieut_resizeHashTable returns
    ISMRC_AllocateError, but the entries of the chains copied so far have been
    freed while the table still points to them; the next look-up of a key that
    the table held reads freed memory. *)
Theorem failed_resize_dangles :
  exists (t t' : ieutHashTable_t Z) (m : gmap hkey (option Z)) (mem : nat -> bool) (n : nat) (k : hkey),
    table_rep demo_hash false false t m /\ is_Some (m !! k) /\
    ieut_resizeHashTable mem 0 t 3 = Ret (ISMRC_AllocateError, t', n) /\
    ieut_getHashEntry t' k (demo_hash k) = Crash.
Proof.
  set (mem := fun i => bool_decide (i < 3)%nat).
  eexists demo_table, _, demo_map, mem, _, (KStr [98]).
  split; [exact demo_rep|]. split; [by eexists|]. split; vm_compute; reflexivity.
Qed.
