(* ===== verification/TopicString.v ===== *)
(** * Topic strings

    server_engine/src/topicTreeUtils.c: splitting a topic string into levels
    (substrings), finding its wildcards, the hashes of levels and of whole
    strings, and the validation of topic strings. *)

From S2P Require Import Prelude.

Definition SLASH : Z := 47.
Definition PLUS : Z := 43.
Definition HASH : Z := 35.
Definition DOLLAR : Z := 36.

Definition iettMAX_TOPIC_DEPTH : Z := 32.
Definition iettDEFAULT_SUBSTRING_ARRAY_SIZE : Z := iettMAX_TOPIC_DEPTH + 2.

(** ** Hashes *)

(** [iettINCREMENT_SUBSTRING_HASH]: 32-bit unsigned arithmetic; the [char] is
    signed. *)
Definition iettINCREMENT_SUBSTRING_HASH (hash c : Z) : Z :=
  u32 (i8 c + Z.shiftl hash 6 + Z.shiftl hash 16 - hash).

Fixpoint substring_hash_from (hash : Z) (key : list Z) : Z :=
  match key with
  | [] => hash
  | c :: key => if c =? 0 then hash else if c =? SLASH then hash
                else substring_hash_from (iettINCREMENT_SUBSTRING_HASH hash c) key
  end.

Definition iett_generateSubstringHash (key : list Z) : Z := substring_hash_from 0 key.

(** djb2, xor variant: [keyHash = (keyHash * 33) ^ curChar]. *)
Fixpoint topic_hash_from (keyHash : Z) (key : list Z) : Z :=
  match key with
  | [] => keyHash
  | c :: key => if c =? 0 then keyHash
                else topic_hash_from (Z.lxor (u32 (keyHash * 33)) (u32 (i8 c))) key
  end.

Definition iett_generateTopicStringHash (key : list Z) : Z := topic_hash_from 5381 key.
Definition iett_generateSubNameHash (subName : list Z) : Z := iett_generateTopicStringHash subName.
Definition iett_generateClientIdHash (clientId : list Z) : Z := iett_generateTopicStringHash clientId.
Definition iett_generateOriginServerHash (serverUID : list Z) : Z := iett_generateTopicStringHash serverUID.

(** ** Arrays

    An array is its slots; [None] is a slot not yet written. *)

Abbreviation array A := (list (option A)).

Definition array_write {A} (a : array A) (i : Z) (x : A) : outcome (array A) :=
  if (0 <=? i) && (i <? Z.of_nat (length a)) then Ret (<[Z.to_nat i := Some x]> a) else Crash.

Definition array_read {A} (a : array A) (i : Z) : outcome A :=
  if 0 <=? i then match a !! Z.to_nat i with Some (Some x) => Ret x | _ => Crash end else Crash.

(** Read and write of a character of a string buffer. *)
Definition char_at (s : list Z) (i : Z) : outcome Z :=
  if 0 <=? i then match s !! Z.to_nat i with Some c => Ret c | None => Crash end else Crash.

Definition set_char (s : list Z) (i : Z) (c : Z) : outcome (list Z) :=
  if (0 <=? i) && (i <? Z.of_nat (length s)) then Ret (<[Z.to_nat i := c]> s) else Crash.

(** ** Analysis *)

Inductive ismDestinationType_t := ismDESTINATION_TOPIC | ismDESTINATION_REGEX_TOPIC | ismDESTINATION_OTHER.

(** [iettTopic_t].  Pointers into [topicStringCopy] are offsets, [None] is NULL. *)
Record iettTopic_t := mk_topic {
  destinationType : ismDestinationType_t;
  topicString : list Z;
  topicStringCopy : option (list Z);
  substrings : array (option Z);
  substringHashes : array Z;
  wildcards : option (array (option Z));
  multicards : option (array (option Z));
  topicStringLength : Z;
  substringCount : Z;
  wildcardCount : Z;
  multicardCount : Z;
  initialArraySize : Z;
  sysTopicEndIndex : Z
}.

(** The part of the topic and the local variables that the loop updates. *)
Record scan_state := mk_scan {
  sc_copy : list Z;
  sc_substrings : array (option Z);
  sc_hashes : array Z;
  sc_wildcards : option (array (option Z));
  sc_multicards : option (array (option Z));
  curSubstringCount : Z;
  curWildcardCount : Z;
  curMulticardCount : Z;
  sc_sysEnd : Z
}.

Section Analysis.
(** The [n]-th allocation succeeds when [mem n]. *)
Context (mem : nat -> bool).

(** The new array has [elementCount + initialElementCount] slots and starts with
    the [elementCount] entries of the old one. *)
Definition resize_array {A} (n : nat) (existing : array A) (elementCount initialElementCount : Z)
    : Z * array A * nat :=
  if mem n then
    (OK, take (Z.to_nat elementCount) existing ++ replicate (Z.to_nat initialElementCount) None, S n)
  else (ISMRC_AllocateError, existing, S n).

Definition iett_resizeStringArray (n : nat) (existing : array (option Z)) := resize_array n existing.
Definition iett_resizeUint32Array (n : nat) (existing : array Z) := resize_array n existing.

(** Recording a wildcard position: the array is grown when it has become full;
    without an array the wildcards are only counted. *)
Definition note_card (n : nat) (init : Z) (cards : option (array (option Z))) (count prevPos : Z)
    : outcome (Z * option (array (option Z)) * Z * nat) :=
  match cards with
  | Some a =>
      a ← array_write a count (Some prevPos);
      let count := count + 1 in
      if count mod init =? 0 then
        let '(rc, a, n) := iett_resizeStringArray n a count init in Ret (rc, Some a, count, n)
      else Ret (OK, Some a, count, n)
  | None => Ret (OK, None, count + 1, n)
  end.

(** The wildcard part of the end of a substring. *)
Definition note_wildcard (n : nat) (init : Z) (st : scan_state) (curPos prevPos : Z)
    : outcome (Z * scan_state * nat) :=
  if curPos =? prevPos + 1 then
    c ← char_at (sc_copy st) prevPos;
    if c =? PLUS then
      '(rc, a, count, n) ← note_card n init (sc_wildcards st) (curWildcardCount st) prevPos;
      Ret (rc, mk_scan (sc_copy st) (sc_substrings st) (sc_hashes st) a (sc_multicards st)
                 (curSubstringCount st) count (curMulticardCount st) (sc_sysEnd st), n)
    else if c =? HASH then
      '(rc, a, count, n) ← note_card n init (sc_multicards st) (curMulticardCount st) prevPos;
      Ret (rc, mk_scan (sc_copy st) (sc_substrings st) (sc_hashes st) (sc_wildcards st) a
                 (curSubstringCount st) (curWildcardCount st) count (sc_sysEnd st), n)
    else Ret (OK, st, n)
  else Ret (OK, st, n).

(** Recording the substring and its hash, and growing both arrays when full. *)
Definition note_substring (n : nat) (init : Z) (st : scan_state) (prevPos hash : Z)
    : outcome (Z * scan_state * nat) :=
  let count := curSubstringCount st in
  subs ← array_write (sc_substrings st) count (Some prevPos);
  hashes ← array_write (sc_hashes st) count hash;
  let count := count + 1 in
  let with_arrays subs hashes :=
    mk_scan (sc_copy st) subs hashes (sc_wildcards st) (sc_multicards st)
      count (curWildcardCount st) (curMulticardCount st) (sc_sysEnd st) in
  if count mod init =? 0 then
    let '(rc, subs, n) := iett_resizeStringArray n subs count init in
    if rc =? OK then
      let '(rc, hashes, n) := iett_resizeUint32Array n hashes count init in
      Ret (rc, with_arrays subs hashes, n)
    else Ret (rc, with_arrays subs hashes, n)
  else Ret (OK, with_arrays subs hashes, n).

(** The separator is replaced by a null; after the first substring the system
    topic prefix is looked for. *)
Definition end_substring (st : scan_state) (curPos prevPos : Z) : outcome scan_state :=
  copy ← set_char (sc_copy st) curPos 0;
  sysEnd ← (if curSubstringCount st =? 1 then
              c ← char_at copy prevPos;
              Ret (if c =? DOLLAR then curSubstringCount st else 0)
            else Ret (sc_sysEnd st));
  Ret (mk_scan copy (sc_substrings st) (sc_hashes st) (sc_wildcards st) (sc_multicards st)
         (curSubstringCount st) (curWildcardCount st) (curMulticardCount st) sysEnd).

(** The do-while loop: [(rc, state, done, allocations)], where [done] says that
    the end of the string was reached. *)
Fixpoint analyse_loop (fuel : nat) (n : nat) (init : Z) (st : scan_state)
    (curPos prevPos hash : Z) : outcome (Z * scan_state * bool * nat) :=
  match fuel with
  | O => Hang
  | S fuel =>
      curChar ← char_at (sc_copy st) curPos;
      if (curChar =? SLASH) || (curChar =? 0) then
        '(rc, st, n) ← note_wildcard n init st curPos prevPos;
        if negb (rc =? OK) then Ret (rc, st, false, n) else
        '(rc, st, n) ← note_substring n init st prevPos hash;
        if negb (rc =? OK) then Ret (rc, st, false, n) else
        st ← end_substring st curPos prevPos;
        if curChar =? 0 then Ret (OK, st, true, n)
        else analyse_loop fuel n init st (curPos + 1) (curPos + 1) 0
      else analyse_loop fuel n init st (curPos + 1) prevPos (iettINCREMENT_SUBSTRING_HASH hash curChar)
  end.

Definition write_sentinel (cards : option (array (option Z))) (count : Z) : outcome (option (array (option Z))) :=
  match cards with Some a => a ← array_write a count None; Ret (Some a) | None => Ret None end.

(** [ism_regex_compile]: the POSIX regular expression compiler behind it is a
    parameter that gives its return code. *)
Context (regex_compile : list Z -> Z).

Definition iett_analyseTopicString (n : nat) (topic : iettTopic_t) : outcome (Z * iettTopic_t * nat) :=
  match topicStringCopy topic with
  | Some _ => Ret (OK, topic, n)
  | None =>
    match destinationType topic with
    | ismDESTINATION_OTHER => Crash
    | dest =>
      let len := Z.of_nat (length (topicString topic)) in
      let with_state (copy : option (list Z)) st subCount wildCount multiCount :=
        mk_topic dest (topicString topic) copy (sc_substrings st) (sc_hashes st) (sc_wildcards st)
          (sc_multicards st) len subCount wildCount multiCount (initialArraySize topic) (sc_sysEnd st) in
      let st := mk_scan (topicString topic ++ [0]) (substrings topic) (substringHashes topic)
                  (wildcards topic) (multicards topic) 0 0 0 (sysTopicEndIndex topic) in
      let unchanged copy := with_state copy st (substringCount topic) (wildcardCount topic) (multicardCount topic) in
      if negb (mem n) then Ret (ISMRC_AllocateError, unchanged None, S n) else
      match dest with
      | ismDESTINATION_REGEX_TOPIC =>
          Ret (if regex_compile (topicString topic) =? OK then OK else ISMRC_InvalidParameter,
               unchanged (Some (topicString topic ++ [0])), S n)
      | _ =>
          '(rc, st, done, n) ← analyse_loop (S (length (topicString topic))) (S n) (initialArraySize topic) st 0 0 0;
          if negb done then
            Ret (rc, with_state (Some (sc_copy st)) st (substringCount topic) (wildcardCount topic) (multicardCount topic), n)
          else
          subs ← array_write (sc_substrings st) (curSubstringCount st) None;
          wilds ← write_sentinel (sc_wildcards st) (curWildcardCount st);
          multis ← write_sentinel (sc_multicards st) (curMulticardCount st);
          let st := mk_scan (sc_copy st) subs (sc_hashes st) wilds multis (curSubstringCount st)
                      (curWildcardCount st) (curMulticardCount st) (sc_sysEnd st) in
          Ret (if curSubstringCount st >? iettMAX_TOPIC_DEPTH then ISMRC_DestNotValid else OK,
               with_state (Some (sc_copy st)) st (curSubstringCount st) (curWildcardCount st) (curMulticardCount st), n)
      end
    end
  end.
End Analysis.

(** ** Validation *)

Inductive iettValidationType_t :=
  | iettVALIDATE_FOR_PUBLISH | iettVALIDATE_FOR_SUBSCRIBE | iettVALIDATE_FOR_TOPICMONITOR.

#[global] Instance iettValidationType_t_eq_dec : EqDecision iettValidationType_t.
Proof. solve_decision. Defined.

(** The loop reads the characters of [s] from [curPos]; [s] ends with its null. *)
Fixpoint validate_loop (fuel : nat) (s : list Z) (validationType : iettValidationType_t)
    (curPos prevPos count : Z) : outcome bool :=
  match fuel with
  | O => Hang
  | S fuel =>
      curChar ← char_at s curPos;
      if (curChar =? SLASH) || (curChar =? 0) then
        p ← (if (curPos =? prevPos + 1) && negb (bool_decide (validationType = iettVALIDATE_FOR_SUBSCRIBE))
             then char_at s prevPos else Ret 0);
        if p =? PLUS then Ret false
        else if (p =? HASH) && (bool_decide (validationType = iettVALIDATE_FOR_PUBLISH) || negb (curChar =? 0))
        then Ret false
        else
          let count := count + 1 in
          if curChar =? 0 then
            if count >? iettMAX_TOPIC_DEPTH then Ret false
            else if bool_decide (validationType = iettVALIDATE_FOR_TOPICMONITOR) then
              if negb (curPos =? prevPos + 1) then Ret false
              else p ← char_at s prevPos; Ret (p =? HASH)
            else Ret true
          else validate_loop fuel s validationType (curPos + 1) (curPos + 1) count
      else validate_loop fuel s validationType (curPos + 1) prevPos count
  end.

Definition iett_validateTopicString (topicString : list Z) (validationType : iettValidationType_t) : outcome bool :=
  validate_loop (S (length topicString)) (topicString ++ [0]) validationType 0 0 0.
