(* ===== verification/TopicLevels.v ===== *)
(** * Topic strings are split into their levels

    The analysis and the validation of TopicString.v against [levels], the split
    of a string at its slashes. *)

From S2P Require Import Prelude TopicString.

(** ** Levels *)

Fixpoint levels (s : list Z) : list (list Z) :=
  match s with
  | [] => [[]]
  | c :: s => if c =? SLASH then [] :: levels s
              else match levels s with l :: ls => (c :: l) :: ls | [] => [[c]] end
  end.

(** The levels of [cur ++ rest] when [cur] has no slash. *)
Definition levels_from (cur rest : list Z) : list (list Z) :=
  match levels rest with l :: ls => (cur ++ l) :: ls | [] => [cur] end.

Definition is_level (l : list Z) : Prop := Forall (fun c => is_char c /\ c <> SLASH) l.

Fixpoint join (ls : list (list Z)) : list Z :=
  match ls with
  | [] => []
  | [l] => l
  | l :: ls => l ++ SLASH :: join ls
  end.

Lemma levels_cons s : exists l ls, levels s = l :: ls.
Proof.
  destruct s as [|c s]; simpl; [eauto|]. destruct (c =? SLASH); [eauto|].
  destruct (levels s); eauto.
Qed.

Lemma levels_from_nil rest : levels_from [] rest = levels rest.
Proof. unfold levels_from. by destruct (levels_cons rest) as (l & ls & ->). Qed.

Lemma levels_from_slash cur rest : levels_from cur (SLASH :: rest) = cur :: levels rest.
Proof. unfold levels_from. simpl. by rewrite app_nil_r. Qed.

Lemma levels_from_char cur c rest :
  c <> SLASH -> levels_from cur (c :: rest) = levels_from (cur ++ [c]) rest.
Proof.
  intros Hc. unfold levels_from. simpl. rewrite (proj2 (Z.eqb_neq c SLASH)) by done.
  destruct (levels_cons rest) as (l & ls & ->). by rewrite <- app_assoc.
Qed.

Lemma join_levels s : join (levels s) = s.
Proof.
  induction s as [|c s IH]; [done|]. simpl. destruct (levels_cons s) as (l & ls & E). rewrite E in *.
  destruct (Z.eqb_spec c SLASH) as [->|].
  - simpl in *. by rewrite IH.
  - destruct ls; simpl in *; by rewrite IH.
Qed.

Lemma levels_level s : is_cstr s -> Forall is_level (levels s).
Proof.
  unfold is_level. induction 1 as [|c s Hc Hs IH]; simpl; [constructor; constructor|].
  destruct (Z.eqb_spec c SLASH); [constructor; [constructor|done]|].
  destruct (levels s) as [|l ls]; [constructor; [constructor; [done|constructor]|constructor]|].
  apply Forall_cons in IH as [Hl Hls]. constructor; [by constructor|done].
Qed.

(** ** Layout of the analysed copy *)

(** Each level followed by a null. *)
Definition joined0 (ls : list (list Z)) : list Z := concat (map (fun l => l ++ [0]) ls).

(** Where the levels start, and where those that consist of [c] alone do. *)
Fixpoint starts (k : Z) (ls : list (list Z)) : list Z :=
  match ls with [] => [] | l :: ls => k :: starts (k + Z.of_nat (length l) + 1) ls end.

Fixpoint card_starts (c k : Z) (ls : list (list Z)) : list Z :=
  match ls with
  | [] => []
  | l :: ls => (if bool_decide (l = [c]) then [k] else []) ++ card_starts c (k + Z.of_nat (length l) + 1) ls
  end.

Definition size0 (ls : list (list Z)) : Z := Z.of_nat (length (joined0 ls)).

Lemma joined0_snoc ls l : joined0 (ls ++ [l]) = joined0 ls ++ l ++ [0].
Proof. unfold joined0. rewrite map_app, concat_app. simpl. by rewrite app_nil_r. Qed.

Lemma size0_cons l ls : size0 (l :: ls) = Z.of_nat (length l) + 1 + size0 ls.
Proof. unfold size0, joined0. simpl. rewrite !length_app. simpl. lia. Qed.

Lemma starts_snoc k ls l : starts k (ls ++ [l]) = starts k ls ++ [k + size0 ls].
Proof.
  revert k. induction ls as [|x ls IH]; intros k; simpl; [by rewrite Z.add_0_r|].
  rewrite IH, size0_cons. do 3 f_equal. lia.
Qed.

Lemma card_starts_snoc c k ls l :
  card_starts c k (ls ++ [l]) = card_starts c k ls ++ if bool_decide (l = [c]) then [k + size0 ls] else [].
Proof.
  revert k. induction ls as [|x ls IH]; intros k; simpl.
  - rewrite app_nil_r. unfold size0. simpl. by rewrite Z.add_0_r.
  - rewrite IH, size0_cons, <- app_assoc. do 3 f_equal. case_bool_decide; [|done]. f_equal. lia.
Qed.

Lemma length_starts k ls : length (starts k ls) = length ls.
Proof. revert k. induction ls; intros; simpl; auto. Qed.

(** The C string at the start of a level is that level. *)
Lemma level_at ls i l k pre :
  Forall is_level ls -> ls !! i = Some l -> k = Z.of_nat (length pre) ->
  exists off, starts k ls !! i = Some off /\ until_nul (drop (Z.to_nat off) (pre ++ joined0 ls)) = l.
Proof.
  intros Hls. revert i k pre. induction Hls as [|x ls Hx Hls IH]; intros i k pre Hi ->; [done|].
  assert (Ej : joined0 (x :: ls) = (x ++ [0]) ++ joined0 ls) by done. rewrite Ej.
  destruct i as [|i]; simplify_eq/=.
  - eexists. split; [done|]. rewrite Nat2Z.id, drop_app_length, <- app_assoc. simpl.
    apply until_nul_app. eapply Forall_impl; [exact Hx|]. by intros c [].
  - destruct (IH i (Z.of_nat (length (pre ++ x ++ [0]))) (pre ++ x ++ [0]) Hi eq_refl) as (off & Ho & Hu).
    exists off. rewrite (app_assoc pre). split; [|done]. rewrite <- Ho. do 2 f_equal. rewrite !length_app. simpl. lia.
Qed.

(** ** Growing arrays *)

Section Growing.
Context (init : Z) (Hinit : 0 < init).

(** The array holds [l] and has room for one more entry: its size is the next
    multiple of [init]. *)
Definition fits {A} (l : list A) (a : array A) : Prop :=
  exists junk, a = map Some l ++ junk /\ Z.of_nat (length a) = (Z.of_nat (length l) / init + 1) * init.

Lemma fits_room {A} (l : list A) a : fits l a -> Z.of_nat (length l) < Z.of_nat (length a).
Proof.
  intros (junk & _ & ->). pose proof (Z.div_mod (Z.of_nat (length l)) init).
  pose proof (Z.mod_pos_bound (Z.of_nat (length l)) init). lia.
Qed.

Lemma fits_initial {A} : fits (A := A) [] (replicate (Z.to_nat init) None).
Proof.
  exists (replicate (Z.to_nat init) None). split; [done|]. rewrite length_replicate.
  change (Z.of_nat (length (@nil A))) with 0. rewrite Z.div_0_l by lia. lia.
Qed.

Lemma fits_write {A} (l : list A) a x :
  fits l a ->
  exists junk, array_write a (Z.of_nat (length l)) x = Ret (map Some (l ++ [x]) ++ junk)
    /\ length (map Some (l ++ [x]) ++ junk) = length a.
Proof.
  intros Hf. pose proof (fits_room _ _ Hf) as Hroom. destruct Hf as (junk & -> & Hlen).
  unfold array_write. destruct (Z.leb_spec 0 (Z.of_nat (length l))); [|lia].
  destruct (Z.ltb_spec (Z.of_nat (length l)) (Z.of_nat (length (map Some l ++ junk)))); [|lia]. simpl.
  rewrite Nat2Z.id. destruct junk as [|y junk]; [rewrite length_app, length_map in *; simpl in *; lia|].
  exists junk. assert (E : <[length l := Some x]> (map Some l ++ y :: junk) = map Some (l ++ [x]) ++ junk).
  { rewrite map_app, <- app_assoc. simpl. rewrite <- (Nat.add_0_r (length l)).
    rewrite <- (length_map Some l) at 1. by rewrite insert_app_r. }
  rewrite E. split; [done|]. rewrite !length_app, !length_map, length_app. simpl. lia.
Qed.

Lemma fits_keep {A} (l : list A) x (a : array A) (junk : list (option A)) :
  Z.of_nat (length a) = (Z.of_nat (length l) / init + 1) * init ->
  length (map Some (l ++ [x]) ++ junk) = length a ->
  (Z.of_nat (length l) + 1) mod init <> 0 -> fits (l ++ [x]) (map Some (l ++ [x]) ++ junk).
Proof.
  intros Ha Hl Hm. exists junk. split; [done|]. rewrite Hl, Ha, length_app. simpl. f_equal. f_equal.
  set (n := Z.of_nat (length l)) in *. replace (Z.of_nat (length l + 1)) with (n + 1) by lia.
  pose proof (Z.div_mod n init). pose proof (Z.mod_pos_bound n init).
  apply (Z.div_unique_pos _ _ _ (n mod init + 1)); [|lia].
  split; [lia|]. destruct (Z.eq_dec (n mod init + 1) init) as [E|]; [|lia]. exfalso. apply Hm.
  replace (n + 1) with ((n / init + 1) * init) by lia. apply Z.mod_mul. lia.
Qed.

Lemma fits_resized {A} (l : list A) (junk : list (option A)) :
  Z.of_nat (length l) mod init = 0 ->
  fits l (take (length l) (map Some l ++ junk) ++ replicate (Z.to_nat init) None).
Proof.
  intros Hm. rewrite take_app_length' by (by rewrite length_map).
  exists (replicate (Z.to_nat init) None). split; [done|].
  rewrite length_app, length_map, length_replicate.
  pose proof (Z.div_mod (Z.of_nat (length l)) init). lia.
Qed.
End Growing.

(** ** The analysis loop *)

Section AnalyseCorrect.
Context (mem : nat -> bool) (init : Z) (Hinit : 0 < init) (sys0 : Z).

(** Success with [P], or an allocation that failed. *)
Definition succeeds_or_alloc {S} (P : S -> Prop) (o : outcome (Z * S * nat)) : Prop :=
  exists rc s n, o = Ret (rc, s, n) /\
    (rc = OK /\ P s \/ rc = ISMRC_AllocateError /\ exists i, mem i = false).

Lemma push_grow {A} (l : list A) (a : array A) x n :
  fits init l a ->
  exists a', array_write a (Z.of_nat (length l)) x = Ret a' /\
    (((Z.of_nat (length l) + 1) mod init =? 0) = false /\ fits init (l ++ [x]) a' \/
     ((Z.of_nat (length l) + 1) mod init =? 0) = true /\
     exists rc a'' n', resize_array mem n a' (Z.of_nat (length l) + 1) init = (rc, a'', n') /\
       (rc = OK /\ fits init (l ++ [x]) a'' \/ rc = ISMRC_AllocateError /\ exists i, mem i = false)).
Proof.
  intros Hf. destruct (fits_write init Hinit l a x Hf) as (junk & E & Hl). eexists. split; [exact E|].
  destruct Hf as (_ & _ & Ha). destruct (Z.eqb_spec ((Z.of_nat (length l) + 1) mod init) 0) as [Hm|Hm].
  - right. split; [done|]. unfold resize_array. destruct (mem n) eqn:En; [|eauto 10].
    do 3 eexists. split; [done|]. left. split; [done|].
    replace (Z.to_nat (Z.of_nat (length l) + 1)) with (length (l ++ [x])) by (rewrite length_app; simpl; lia).
    apply fits_resized; [done|]. rewrite length_app. simpl. rewrite Nat2Z.inj_add. done.
  - left. split; [done|]. by eapply fits_keep.
Qed.

Definition cards_ok (l : list Z) (cards : option (array (option Z))) : Prop :=
  match cards with Some a => fits init (map Some l) a | None => True end.

Lemma note_card_ok l cards prevPos n :
  cards_ok l cards ->
  succeeds_or_alloc (fun p => cards_ok (l ++ [prevPos]) p.1 /\ p.2 = Z.of_nat (length l) + 1
                              /\ (p.1 = None <-> cards = None))
    ('(rc, a, count, n) ← note_card mem n init cards (Z.of_nat (length l)) prevPos; Ret (rc, (a, count), n)).
Proof.
  intros Hc. unfold note_card. destruct cards as [a|].
  - simpl in Hc. destruct (push_grow _ _ (Some prevPos) n Hc) as (a' & E & Ho). rewrite length_map in *. rewrite E.
    cbn [mbind outcome_bind]. destruct Ho as [[-> Hf]|[-> (rc & a'' & n' & Er & Ho)]].
    + do 3 eexists. split; [done|]. left. split; [done|]. simpl. by rewrite map_app.
    + unfold iett_resizeStringArray. rewrite Er. simpl. do 3 eexists. split; [done|].
      destruct Ho as [[-> Hf]|Ho]; [left|by right]. split; [done|]. simpl. by rewrite map_app.
  - do 3 eexists. split; [done|]. left. done.
Qed.

(** The state when the levels [lj] have been ended (nulls written), [ls] have been
    recorded as substrings and [lc] searched for wildcards; [tail] follows them. *)
Record recorded (has_w has_m : bool) (lj ls lc : list (list Z)) (tail : list Z) (st : scan_state) : Prop := {
  rd_copy : sc_copy st = joined0 lj ++ tail;
  rd_subs : fits init (map Some (starts 0 ls)) (sc_substrings st);
  rd_hashes : fits init (map iett_generateSubstringHash ls) (sc_hashes st);
  rd_wild : cards_ok (card_starts PLUS 0 lc) (sc_wildcards st);
  rd_multi : cards_ok (card_starts HASH 0 lc) (sc_multicards st);
  rd_has_w : (sc_wildcards st = None <-> has_w = false);
  rd_has_m : (sc_multicards st = None <-> has_m = false);
  rd_count : curSubstringCount st = Z.of_nat (length ls);
  rd_wcount : curWildcardCount st = Z.of_nat (length (card_starts PLUS 0 lc));
  rd_mcount : curMulticardCount st = Z.of_nat (length (card_starts HASH 0 lc));
  rd_sys : sc_sysEnd st = match lj with [] => sys0 | l :: _ => if bool_decide (head l = Some DOLLAR) then 1 else 0 end
}.

Lemma char_at_app pre c suf i : i = Z.of_nat (length pre) -> char_at (pre ++ c :: suf) i = Ret c.
Proof.
  intros ->. unfold char_at. destruct (Z.leb_spec 0 (Z.of_nat (length pre))); [|lia].
  by rewrite Nat2Z.id, list_lookup_middle.
Qed.

Lemma set_char_app pre c c' suf i :
  i = Z.of_nat (length pre) -> set_char (pre ++ c :: suf) i c' = Ret (pre ++ c' :: suf).
Proof.
  intros ->. unfold set_char. destruct (Z.leb_spec 0 (Z.of_nat (length pre))); [|lia].
  rewrite length_app. simpl. destruct (Z.ltb_spec (Z.of_nat (length pre)) (Z.of_nat (length pre + S (length suf)))); [|lia].
  simpl. rewrite Nat2Z.id. f_equal. rewrite <- (Nat.add_0_r (length pre)). by rewrite insert_app_r.
Qed.

Lemma substring_hash_snoc h l c :
  is_level l -> is_char c -> c <> SLASH ->
  substring_hash_from h (l ++ [c]) = iettINCREMENT_SUBSTRING_HASH (substring_hash_from h l) c.
Proof.
  intros Hl Hc Hs. revert h. unfold is_char in Hc. induction Hl as [|x l [Hx Hxs] Hl IH]; intros h; simpl.
  - destruct (Z.eqb_spec c 0); [lia|]. by rewrite (proj2 (Z.eqb_neq c SLASH)).
  - unfold is_char in Hx. destruct (Z.eqb_spec x 0); [lia|]. rewrite (proj2 (Z.eqb_neq x SLASH)) by done. apply IH.
Qed.

Context (has_w has_m : bool).

Lemma card_starts_other c ls cur :
  cur <> [c] -> card_starts c 0 (ls ++ [cur]) = card_starts c 0 ls.
Proof. intros Hc. by rewrite card_starts_snoc, bool_decide_false, app_nil_r. Qed.

Lemma card_starts_this c ls : card_starts c 0 (ls ++ [[c]]) = card_starts c 0 ls ++ [size0 ls].
Proof. by rewrite card_starts_snoc, bool_decide_true. Qed.

Lemma note_wildcard_ok n ls cur sep tail st :
  recorded has_w has_m ls ls ls (cur ++ sep :: tail) st ->
  succeeds_or_alloc (recorded has_w has_m ls ls (ls ++ [cur]) (cur ++ sep :: tail))
    (note_wildcard mem n init st (size0 ls + Z.of_nat (length cur)) (size0 ls)).
Proof.
  intros []. assert (Hsame : cur <> [PLUS] -> cur <> [HASH] ->
    succeeds_or_alloc (recorded has_w has_m ls ls (ls ++ [cur]) (cur ++ sep :: tail)) (Ret (OK, st, n))).
  { intros H1 H2. do 3 eexists. split; [done|]. left. split; [done|]. split; rewrite ?card_starts_other; done. }
  unfold note_wildcard. destruct cur as [|c [|c' cur]]; cycle 1.
  - simpl length. rewrite (proj2 (Z.eqb_eq (size0 ls + Z.of_nat 1) (size0 ls + 1))) by lia.
    rewrite rd_copy0. simpl. rewrite (char_at_app (joined0 ls) c) by done.
    cbn [mbind outcome_bind]. destruct (Z.eqb_spec c PLUS) as [->|Hp]; [|destruct (Z.eqb_spec c HASH) as [->|Hh]].
    + rewrite rd_wcount0. destruct (note_card_ok _ _ (size0 ls) n rd_wild0) as (rc & [a k] & n' & E & Ho).
      destruct (note_card _ _ _ _ _ _) as [[[[rc' a'] k'] n'']| |]; try done. simpl in E. injection E as -> -> -> ->.
      cbn [mbind outcome_bind]. do 3 eexists. split; [done|]. destruct Ho as [(-> & Hc & Hk & Hn)|Ho]; [left|by right].
      split; [done|]. simpl in *. split; simpl; rewrite ?card_starts_this, ?card_starts_other by done; auto.
      * by rewrite Hn.
      * rewrite Hk, length_app. simpl. lia.
    + rewrite rd_mcount0. destruct (note_card_ok _ _ (size0 ls) n rd_multi0) as (rc & [a k] & n' & E & Ho).
      destruct (note_card _ _ _ _ _ _) as [[[[rc' a'] k'] n'']| |]; try done. simpl in E. injection E as -> -> -> ->.
      cbn [mbind outcome_bind]. do 3 eexists. split; [done|]. destruct Ho as [(-> & Hc & Hk & Hn)|Ho]; [left|by right].
      split; [done|]. simpl in *. split; simpl; rewrite ?card_starts_this, ?card_starts_other by done; auto.
      * by rewrite Hn.
      * rewrite Hk, length_app. simpl. lia.
    + apply Hsame; congruence.
  - simpl length. rewrite (proj2 (Z.eqb_neq (size0 ls + Z.of_nat (S (S (length cur)))) (size0 ls + 1))) by lia.
    apply Hsame; congruence.
  - simpl length. rewrite (proj2 (Z.eqb_neq (size0 ls + Z.of_nat 0) (size0 ls + 1))) by lia. apply Hsame; congruence.
Qed.

Lemma note_substring_ok n lj ls lc cur tail st :
  recorded has_w has_m lj ls lc tail st ->
  succeeds_or_alloc (recorded has_w has_m lj (ls ++ [cur]) lc tail)
    (note_substring mem n init st (size0 ls) (iett_generateSubstringHash cur)).
Proof.
  intros []. unfold note_substring. rewrite rd_count0.
  destruct (push_grow _ _ (Some (size0 ls)) n rd_subs0) as (a & Ea & Ha).
  rewrite length_map, length_starts in *.
  assert (Hsubs : forall a, fits init (map Some (starts 0 ls) ++ [Some (size0 ls)]) a ->
                            fits init (map Some (starts 0 (ls ++ [cur]))) a)
    by (intros ?; by rewrite starts_snoc, map_app).
  assert (Hhash : forall a, fits init (map iett_generateSubstringHash ls ++ [iett_generateSubstringHash cur]) a ->
                            fits init (map iett_generateSubstringHash (ls ++ [cur])) a)
    by (intros ?; by rewrite map_app).
  assert (Hlen : Z.of_nat (length ls) + 1 = Z.of_nat (length (ls ++ [cur]))) by (rewrite length_app; simpl; lia).
  rewrite Ea. cbn [mbind outcome_bind].
  destruct Ha as [[E Hf]|[E (rc & a' & n' & Er & Ho)]].
  - destruct (push_grow _ _ (iett_generateSubstringHash cur) n rd_hashes0) as (h & Eh & Hh).
    rewrite length_map in *. rewrite Eh, E in *. cbn [mbind outcome_bind]. destruct Hh as [[_ Hh]|[? _]]; [|done].
    do 3 eexists. split; [done|]. left. split; [done|]. split; simpl; auto.
  - destruct (push_grow _ _ (iett_generateSubstringHash cur) n' rd_hashes0) as (h & Eh & Hh).
    rewrite length_map in *. rewrite Eh, E in *. cbn [mbind outcome_bind].
    destruct Hh as [[? _]|[_ (rc2 & h' & n2 & Eh2 & Hh)]]; [done|].
    unfold iett_resizeStringArray, iett_resizeUint32Array. rewrite Er.
    destruct Ho as [[-> Hf]|[-> Hi]]; [|do 3 eexists; split; [done|]; by right].
    cbn [Z.eqb OK]. rewrite Eh2. do 3 eexists. split; [done|]. destruct Hh as [[-> Hh]|Hh]; [left|by right].
    split; [done|]. split; simpl; auto.
Qed.

Lemma end_substring_ok ls lc cur sep tail st :
  recorded has_w has_m ls (ls ++ [cur]) lc (cur ++ sep :: tail) st ->
  exists st', end_substring st (size0 ls + Z.of_nat (length cur)) (size0 ls) = Ret st'
    /\ recorded has_w has_m (ls ++ [cur]) (ls ++ [cur]) lc tail st'.
Proof.
  intros []. unfold end_substring. rewrite rd_copy0, app_assoc.
  rewrite set_char_app by (rewrite length_app; unfold size0; lia). cbn [mbind outcome_bind].
  assert (Hj : (joined0 ls ++ cur) ++ 0 :: tail = joined0 (ls ++ [cur]) ++ tail)
    by (rewrite joined0_snoc, <- !app_assoc; done).
  rewrite rd_count0. destruct (Z.eqb_spec (Z.of_nat (length (ls ++ [cur]))) 1) as [E|E].
  - assert (ls = []) as -> by (destruct ls; [done|]; rewrite length_app in E; simpl in E; lia).
    assert (Hc : char_at ((joined0 [] ++ cur) ++ 0 :: tail) (size0 []) = Ret (default 0 (head cur))).
    { destruct cur as [|c cur]; simpl; [by apply (char_at_app [])|by apply (char_at_app [] c)]. }
    rewrite Hc. cbn [mbind outcome_bind]. eexists. split; [done|]. split; simpl in *; auto.
    destruct cur as [|c cur]; simpl; [done|]. case_bool_decide as Ed; [by injection Ed as ->|].
    destruct (Z.eqb_spec c DOLLAR); [congruence|done].
  - cbn [mbind outcome_bind]. eexists. split; [done|]. split; simpl in *; auto. rewrite rd_sys0.
    destruct ls; [by rewrite length_app in E|done].
Qed.

Lemma analyse_loop_ok rest : forall fuel n ls cur st,
  (length rest < fuel)%nat -> is_level cur -> is_cstr rest ->
  recorded has_w has_m ls ls ls (cur ++ rest ++ [0]) st ->
  exists rc st' fin n',
    analyse_loop mem fuel n init st (size0 ls + Z.of_nat (length cur)) (size0 ls) (iett_generateSubstringHash cur)
      = Ret (rc, st', fin, n') /\
    ((fin : bool) = true /\ rc = OK
       /\ (let all := ls ++ levels_from cur rest in recorded has_w has_m all all all [] st')
     \/ fin = false /\ rc = ISMRC_AllocateError /\ exists i, mem i = false).
Proof.
  induction rest as [|c rest IH]; intros [|fuel] n ls cur st Hf Hl Hr Hst; simpl in Hf; try lia;
    cbn [analyse_loop].
  - rewrite (rd_copy _ _ _ _ _ _ _ Hst), app_assoc. simpl.
    rewrite char_at_app by (rewrite length_app; unfold size0; lia). cbn [mbind outcome_bind]. simpl orb. cbv iota.
    destruct (note_wildcard_ok n _ _ _ _ _ Hst) as (rc & st1 & n1 & -> & [[-> H1]|[-> Hi]]); cbn [mbind outcome_bind Z.eqb OK negb].
    2: { do 4 eexists. split; [done|]. right. auto. }
    destruct (note_substring_ok n1 _ _ _ cur _ _ H1) as (rc & st2 & n2 & -> & [[-> H2]|[-> Hi]]); cbn [mbind outcome_bind Z.eqb OK negb].
    2: { do 4 eexists. split; [done|]. right. auto. }
    destruct (end_substring_ok _ _ _ _ _ _ H2) as (st3 & -> & H3). cbn [mbind outcome_bind].
    do 4 eexists. split; [done|]. left. unfold levels_from. simpl. rewrite app_nil_r. auto.
  - apply Forall_cons in Hr as [Hc Hr]. rewrite (rd_copy _ _ _ _ _ _ _ Hst), app_assoc. simpl.
    rewrite char_at_app by (rewrite length_app; unfold size0; lia). cbn [mbind outcome_bind].
    destruct (Z.eqb_spec c SLASH) as [->|Hs]; simpl orb; cbv iota.
    + destruct (note_wildcard_ok n _ _ _ _ _ Hst) as (rc & st1 & n1 & -> & [[-> H1]|[-> Hi]]); cbn [mbind outcome_bind Z.eqb OK negb].
      2: { do 4 eexists. split; [done|]. right. auto. }
      destruct (note_substring_ok n1 _ _ _ cur _ _ H1) as (rc & st2 & n2 & -> & [[-> H2]|[-> Hi]]); cbn [mbind outcome_bind Z.eqb OK negb].
      2: { do 4 eexists. split; [done|]. right. auto. }
      destruct (end_substring_ok _ _ _ _ _ _ H2) as (st3 & -> & H3). cbn [mbind outcome_bind].
      replace (size0 ls + Z.of_nat (length cur) + 1) with (size0 (ls ++ [cur]))
        by (unfold size0; rewrite joined0_snoc, !length_app; simpl; lia).
      destruct (IH fuel n2 (ls ++ [cur]) [] st3 ltac:(lia) (List.Forall_nil _) Hr H3) as (rc & st4 & fin & n4 & E & Ho).
      simpl in E. rewrite Z.add_0_r in E. change (iett_generateSubstringHash []) with 0 in E.
      change (SLASH =? 0) with false. cbv iota. rewrite E. do 4 eexists. split; [done|].
      rewrite levels_from_slash. by rewrite levels_from_nil, <- app_assoc in Ho.
    + destruct (Z.eqb_spec c 0); [unfold is_char in Hc; lia|].
      destruct (IH fuel n ls (cur ++ [c]) st) as (rc & st4 & fin & n4 & E & Ho); try done; try lia.
      * apply Forall_app. split; [done|]. by constructor.
      * by rewrite <- app_assoc.
      * unfold iett_generateSubstringHash in E. rewrite substring_hash_snoc, length_app in E by done. simpl in E.
        replace (size0 ls + Z.of_nat (length cur) + 1) with (size0 ls + Z.of_nat (length cur + 1)) by lia.
        unfold iett_generateSubstringHash. rewrite E. do 4 eexists. split; [done|]. by rewrite levels_from_char.
Qed.
End AnalyseCorrect.

(** ** Analysed topics *)

(** A topic as callers prepare it: the arrays on the stack have [init] slots; the
    wildcard arrays are there only when wildcard positions are wanted. *)
Definition fresh_topic (s : list Z) (init : Z) (has_w has_m : bool) : iettTopic_t :=
  let slots {A} : array A := replicate (Z.to_nat init) None in
  mk_topic ismDESTINATION_TOPIC s None slots slots (if has_w then Some slots else None)
    (if has_m then Some slots else None) 0 0 0 0 init 0.

(** The entries of an array of pointers up to its NULL sentinel. *)
Definition terminated (l : list Z) (a : array (option Z)) : Prop :=
  exists junk, a = map Some (map Some l ++ [None]) ++ junk.

Definition cards_terminated (has : bool) (l : list Z) (cards : option (array (option Z))) : Prop :=
  match cards with Some a => has = true /\ terminated l a | None => has = false end.

Record analysed (has_w has_m : bool) (s : list Z) (t : iettTopic_t) : Prop := {
  an_dest : destinationType t = ismDESTINATION_TOPIC;
  an_string : topicString t = s;
  an_copy : topicStringCopy t = Some (joined0 (levels s));
  an_substrings : terminated (starts 0 (levels s)) (substrings t);
  an_hashes : exists junk, substringHashes t = map Some (map iett_generateSubstringHash (levels s)) ++ junk;
  an_wildcards : cards_terminated has_w (card_starts PLUS 0 (levels s)) (wildcards t);
  an_multicards : cards_terminated has_m (card_starts HASH 0 (levels s)) (multicards t);
  an_count : substringCount t = Z.of_nat (length (levels s));
  an_wcount : wildcardCount t = Z.of_nat (length (card_starts PLUS 0 (levels s)));
  an_mcount : multicardCount t = Z.of_nat (length (card_starts HASH 0 (levels s)));
  an_sys : sysTopicEndIndex t = if bool_decide (head s = Some DOLLAR) then 1 else 0
}.

Lemma write_null init l a :
  0 < init -> fits init (map Some l) a ->
  exists a', array_write a (Z.of_nat (length l)) (@None Z) = Ret a' /\ terminated l a'.
Proof.
  intros Hi Hf. destruct (fits_write init Hi _ _ None Hf) as (junk & E & _). rewrite length_map in E.
  eexists. split; [exact E|]. by exists junk.
Qed.

Lemma sentinel_ok init has l cards :
  0 < init -> cards_ok init l cards -> (cards = None <-> has = false) ->
  exists cards', write_sentinel cards (Z.of_nat (length l)) = Ret cards' /\ cards_terminated has l cards'.
Proof.
  intros Hi Hc Hn. destruct cards as [a|]; simpl.
  - destruct (write_null init l a Hi Hc) as (a' & -> & Ht). eexists. split; [done|]. simpl. split; [|done].
    destruct has; [done|]. discriminate (proj2 Hn eq_refl).
  - eexists. split; [done|]. by apply Hn.
Qed.

Lemma head_levels s : bool_decide (head s = Some DOLLAR) = bool_decide (head (default [] (head (levels s))) = Some DOLLAR).
Proof.
  destruct s as [|c s]; [done|]. simpl. destruct (Z.eqb_spec c SLASH) as [->|]; [done|].
  by destruct (levels_cons s) as (l & ls & ->).
Qed.

Section FreshRecorded.
Context (init : Z) (Hinit : 0 < init) (s : list Z) (has_w has_m : bool).

Lemma fresh_recorded :
  recorded init 0 has_w has_m [] [] [] (s ++ [0])
    (mk_scan (s ++ [0]) (substrings (fresh_topic s init has_w has_m)) (substringHashes (fresh_topic s init has_w has_m))
       (wildcards (fresh_topic s init has_w has_m)) (multicards (fresh_topic s init has_w has_m)) 0 0 0 0).
Proof.
  split; simpl; try done; try apply (fits_initial init Hinit).
  all: destruct has_w, has_m; simpl; try done; apply (fits_initial init Hinit).
Qed.

Lemma analyse_analysed mem regex n :
  is_cstr s ->
  succeeds_or_alloc mem (fun _ => True)
    ('(rc, t, n) ← iett_analyseTopicString mem regex n (fresh_topic s init has_w has_m);
     Ret (if rc =? ISMRC_DestNotValid then OK else rc, t, n)) /\
  forall rc t n', iett_analyseTopicString mem regex n (fresh_topic s init has_w has_m) = Ret (rc, t, n') ->
    rc <> ISMRC_AllocateError ->
    rc = (if Z.of_nat (length (levels s)) >? iettMAX_TOPIC_DEPTH then ISMRC_DestNotValid else OK)
    /\ analysed has_w has_m s t.
Proof.
  intros Hs. unfold iett_analyseTopicString.
  change (topicStringCopy _) with (@None (list Z)). change (destinationType _) with ismDESTINATION_TOPIC.
  cbv iota beta zeta. change (topicString (fresh_topic _ _ _ _)) with s.
  change (initialArraySize _) with init. change (sysTopicEndIndex _) with 0.
  destruct (mem n) eqn:Em; cbn [negb].
  2: { split; [do 3 eexists; split; [done|]; right; eauto|]. intros rc t n' E. simplify_eq. done. }
  destruct (analyse_loop_ok mem init Hinit 0 has_w has_m s (S (length s)) (S n) [] [] _
              ltac:(lia) (List.Forall_nil _) Hs fresh_recorded) as (rc & st & fin & n' & E & Ho).
  change (size0 [] + Z.of_nat (length (@nil Z))) with 0 in E. change (size0 []) with 0 in E.
  change (iett_generateSubstringHash []) with 0 in E. rewrite E. cbn [mbind outcome_bind].
  destruct Ho as [(-> & -> & Hrec)|(-> & -> & Hi)]; cbn [negb].
  2: { split; [do 3 eexists; split; [done|]; right; eauto|]. intros rc t n2 E2. simplify_eq. done. }
  cbv zeta in Hrec. rewrite app_nil_l, levels_from_nil in Hrec. destruct Hrec.
  rewrite rd_count0, rd_wcount0, rd_mcount0.
  destruct (write_null init (starts 0 (levels s)) _ Hinit rd_subs0) as (subs & Es & Hsubs). rewrite length_starts in Es.
  rewrite Es. cbn [mbind outcome_bind].
  destruct (sentinel_ok init has_w _ _ Hinit rd_wild0 rd_has_w0) as (w & -> & Hw). cbn [mbind outcome_bind].
  destruct (sentinel_ok init has_m _ _ Hinit rd_multi0 rd_has_m0) as (m & -> & Hm). cbn [mbind outcome_bind].
  split.
  { do 3 eexists. split; [done|]. left. split; [|done]. cbn [curSubstringCount]. by destruct (_ >? _). }
  intros rc t n2 E2 _. injection E2 as <- <- <-. cbn [curSubstringCount curWildcardCount curMulticardCount].
  split; [done|]. split; try done; cbn.
  - by rewrite rd_copy0, app_nil_r.
  - by destruct rd_hashes0 as (junk & -> & _); exists junk.
  - rewrite rd_sys0, head_levels. by destruct (levels_cons s) as (l & ls & ->).
Qed.
End FreshRecorded.

(** ** Validation *)

Definition no_card (l : list Z) : Prop := l <> [PLUS] /\ l <> [HASH].

Definition valid_levels (vt : iettValidationType_t) (ls : list (list Z)) : Prop :=
  (length ls <= 32)%nat /\
  match vt with
  | iettVALIDATE_FOR_PUBLISH => Forall no_card ls
  | iettVALIDATE_FOR_SUBSCRIBE => True
  | iettVALIDATE_FOR_TOPICMONITOR => exists front, ls = front ++ [[HASH]] /\ Forall no_card front
  end.

(** What the loop has still to find in the levels [ls] when [count] have passed. *)
Definition rest_valid (vt : iettValidationType_t) (count : Z) (ls : list (list Z)) : Prop :=
  count + Z.of_nat (length ls) <= 32 /\
  match vt with
  | iettVALIDATE_FOR_PUBLISH => Forall no_card ls
  | iettVALIDATE_FOR_SUBSCRIBE => True
  | iettVALIDATE_FOR_TOPICMONITOR => exists front, ls = front ++ [[HASH]] /\ Forall no_card front
  end.

Lemma monitor_cons l ls :
  ls <> [] ->
  ((exists front, l :: ls = front ++ [[HASH]] /\ Forall no_card front) <->
   no_card l /\ exists front, ls = front ++ [[HASH]] /\ Forall no_card front).
Proof.
  intros Hne. split.
  - intros ([|x front] & E & Hf); simplify_eq/=. apply Forall_cons in Hf as [Hl Hf]. eauto.
  - intros (Hl & front & -> & Hf). exists (l :: front). split; [done|]. by constructor.
Qed.

Lemma rest_valid_cons vt count l ls :
  ls <> [] ->
  rest_valid vt count (l :: ls) <->
  (vt = iettVALIDATE_FOR_SUBSCRIBE \/ no_card l) /\ rest_valid vt (count + 1) ls.
Proof.
  intros Hne. unfold rest_valid. simpl length.
  replace (count + Z.of_nat (S (length ls))) with (count + 1 + Z.of_nat (length ls)) by lia.
  destruct vt; [rewrite Forall_cons| |rewrite monitor_cons by done]; intuition congruence.
Qed.

(** The first character of a level of one character, as the loop reads it. *)
Lemma prev_char pre cur c suf (b : bool) :
  (if (Z.of_nat (length (pre ++ cur)) =? Z.of_nat (length pre) + 1) && b
   then char_at ((pre ++ cur) ++ c :: suf) (Z.of_nat (length pre)) else Ret 0)
  = Ret (match cur with [x] => if b then x else 0 | _ => 0 end).
Proof.
  rewrite length_app. destruct cur as [|x [|y cur]]; simpl length.
  - by rewrite (proj2 (Z.eqb_neq (Z.of_nat (length pre + 0)) (Z.of_nat (length pre) + 1))) by lia.
  - rewrite (proj2 (Z.eqb_eq (Z.of_nat (length pre + 1)) (Z.of_nat (length pre) + 1))) by lia.
    rewrite <- app_assoc. destruct b; simpl; [by apply char_at_app|done].
  - by rewrite (proj2 (Z.eqb_neq (Z.of_nat (length pre + S (S (length cur)))) (Z.of_nat (length pre) + 1))) by lia.
Qed.

Lemma card_cases (cur : list Z) c : c <> 0 ->
  (match cur with [x] => x | _ => 0 end =? c) = bool_decide (cur = [c]).
Proof.
  intros Hc. destruct cur as [|x [|y cur]].
  - rewrite bool_decide_false by done. by apply Z.eqb_neq.
  - destruct (Z.eqb_spec x c) as [->|]; [by rewrite bool_decide_true|by rewrite bool_decide_false by congruence].
  - rewrite bool_decide_false by done. by apply Z.eqb_neq.
Qed.

(** Evaluates the comparisons of known validation types. *)
Ltac vt_compute :=
  repeat match goal with |- context [bool_decide (@eq iettValidationType_t ?a ?b)] =>
    first [change (bool_decide (a = b)) with true | change (bool_decide (a = b)) with false]
  end; cbn [negb andb orb].

(** The end of the string. *)
Lemma validate_end_ok fuel vt pre cur count :
  exists b, validate_loop (S fuel) ((pre ++ cur) ++ [] ++ [0]) vt
              (Z.of_nat (length (pre ++ cur))) (Z.of_nat (length pre)) count = Ret b
    /\ (b = true <-> rest_valid vt count (levels_from cur [])).
Proof.
  cbn [validate_loop].
  rewrite app_nil_l, (char_at_app (pre ++ cur) 0 [] (Z.of_nat (length (pre ++ cur)))) by done. cbn [mbind outcome_bind]. simpl orb. cbv iota.
  rewrite prev_char. cbn [mbind outcome_bind].
  unfold levels_from. simpl. rewrite app_nil_r. unfold rest_valid. simpl length.
  destruct vt; vt_compute; cbv iota; rewrite ?card_cases by done.
  - case_bool_decide as Hp; [subst; eexists; split; [done|]; split; [done|intros (_ & [[? _] _]%Forall_cons); done]|].
    case_bool_decide as Hh; simpl; [subst; eexists; split; [done|]; split; [done|intros (_ & [[_ ?] _]%Forall_cons); done]|].
    destruct (Z.gtb_spec (count + 1) iettMAX_TOPIC_DEPTH) as [Hd|Hd]; unfold iettMAX_TOPIC_DEPTH in Hd;
      eexists; (split; [done|]); (split; [|try lia]); try done.
    intros _. split; [lia|]. by constructor.
  - assert (Hz : forall x : Z, 0 <> x -> (match cur with [_] => 0 | _ => 0 end =? x) = false)
      by (intros; destruct cur as [|? []]; by apply Z.eqb_neq).
    rewrite !Hz by done. simpl. destruct (Z.gtb_spec (count + 1) iettMAX_TOPIC_DEPTH) as [Hd|Hd];
      unfold iettMAX_TOPIC_DEPTH in Hd; eexists; (split; [done|]); (split; [|try lia]); done.
  - case_bool_decide as Hp.
    { subst. eexists. split; [done|]. split; [done|]. by intros (_ & [|? [|? ?]] & ? & _); simplify_eq/=. }
    case_bool_decide as Hh; simpl.
    + subst cur. destruct (Z.gtb_spec (count + 1) iettMAX_TOPIC_DEPTH) as [Hd|Hd]; unfold iettMAX_TOPIC_DEPTH in Hd;
        [eexists; split; [done|]; split; [done|lia]|].
      rewrite length_app. simpl length. rewrite (proj2 (Z.eqb_eq (Z.of_nat (length pre + 1)) (Z.of_nat (length pre) + 1))) by lia.
      simpl. rewrite <- app_assoc. simpl. rewrite char_at_app by done. eexists. split; [done|]. split; [|done].
      intros _. split; [lia|]. by exists [].
    + assert (Hno : ~ exists front, [cur] = front ++ [[HASH]] /\ Forall no_card front)
        by (intros ([|? [|? ?]] & ? & _); simplify_eq/=).
      destruct (Z.gtb_spec (count + 1) iettMAX_TOPIC_DEPTH) as [Hd|Hd];
        [eexists; split; [done|]; split; [done|tauto]|].
      destruct (Z.eqb_spec (Z.of_nat (length (pre ++ cur))) (Z.of_nat (length pre) + 1)) as [El|El]; simpl;
        [|eexists; split; [done|]; split; [done|tauto]].
      destruct cur as [|x [|y cur]]; rewrite length_app in El; simpl in El; try lia.
      rewrite <- app_assoc. simpl. rewrite char_at_app by done. eexists. split; [done|]. split; [|tauto].
      intros Ex%Z.eqb_eq. congruence.
Qed.

Lemma validate_loop_ok rest : forall fuel vt pre cur count,
  (length rest < fuel)%nat -> is_cstr rest ->
  exists b, validate_loop fuel ((pre ++ cur) ++ rest ++ [0]) vt
              (Z.of_nat (length (pre ++ cur))) (Z.of_nat (length pre)) count = Ret b
    /\ (b = true <-> rest_valid vt count (levels_from cur rest)).
Proof.
  induction rest as [|c rest IH]; intros [|fuel] vt pre cur count Hf Hr; simpl in Hf; try lia; cbn [validate_loop].
  - by apply validate_end_ok.
  - apply Forall_cons in Hr as [Hc Hr]. rewrite <- app_comm_cons, (char_at_app (pre ++ cur) c _ (Z.of_nat (length (pre ++ cur)))) by done. cbn [mbind outcome_bind].
    destruct (Z.eqb_spec c SLASH) as [->|Hs]; simpl orb; cbv iota.
    + rewrite levels_from_slash. destruct (levels_cons rest) as (l0 & ls0 & El0).
      pose proof (rest_valid_cons vt count cur (levels rest) ltac:(by rewrite El0)) as Hv. rewrite prev_char. cbn [mbind outcome_bind].
      change (negb (SLASH =? 0)) with true. change (SLASH =? 0) with false. rewrite orb_true_r, andb_true_r. cbv iota.
      destruct (IH fuel vt (pre ++ cur ++ [SLASH]) [] (count + 1)) as (b & E & Hb); [lia|done|].
      rewrite app_nil_r, levels_from_nil in *.
      replace (Z.of_nat (length (pre ++ cur)) + 1) with (Z.of_nat (length (pre ++ cur ++ [SLASH])))
        by (rewrite !length_app; simpl; lia).
      replace ((pre ++ cur) ++ SLASH :: rest ++ [0]) with ((pre ++ cur ++ [SLASH]) ++ rest ++ [0])
        by (by rewrite <- !app_assoc). rewrite E.
      destruct (decide (vt = iettVALIDATE_FOR_SUBSCRIBE)) as [->|Hvt].
      * vt_compute. assert (Hz : forall x : Z, 0 <> x -> (match cur with [_] => 0 | _ => 0 end =? x) = false)
          by (intros; destruct cur as [|? []]; by apply Z.eqb_neq).
        rewrite !Hz by done. exists b. split; [done|]. rewrite Hv, Hb. tauto.
      * rewrite (bool_decide_false (vt = _)) by done. simpl. rewrite !card_cases by done.
        case_bool_decide as Hp; [eexists; split; [done|]; rewrite Hv; split; [done|]; intros ([?|[? _]] & _); done|].
        case_bool_decide as Hh; [eexists; split; [done|]; rewrite Hv; split; [done|]; intros ([?|[_ ?]] & _); done|].
        exists b. split; [done|]. rewrite Hv, Hb. unfold no_card. tauto.
    + destruct (Z.eqb_spec c 0); [unfold is_char in Hc; lia|].
      destruct (IH fuel vt pre (cur ++ [c]) count) as (b & E & Hb); [lia|done|].
      exists b. rewrite levels_from_char by done. split; [|done]. rewrite <- E. f_equal.
      * by rewrite <- !app_assoc.
      * rewrite !length_app. simpl. lia.
Qed.

(** ** Properties *)

(** C28. Analysis of a topic string, with arrays of any initial size of at least
    one slot and whatever allocations fail: iett_analyseTopicString returns
    without leaving an array; unless an allocation fails, its substrings point
    to the levels of the string (the pieces between slashes) in the copy, each
    with the hash that iett_generateSubstringHash gives for it, the wildcard and
    multicard arrays point to exactly the levels + and #, all pointer arrays end
    with NULL, the counts are right, sysTopicEndIndex is 1 exactly for strings
    that start with a dollar, and the return code is ISMRC_DestNotValid exactly
    when there are more than 32 levels. *)
Theorem analyse_splits_levels mem regex n s init has_w has_m :
  0 < init -> is_cstr s ->
  exists rc t n', iett_analyseTopicString mem regex n (fresh_topic s init has_w has_m) = Ret (rc, t, n') /\
    (rc = (if Z.of_nat (length (levels s)) >? iettMAX_TOPIC_DEPTH then ISMRC_DestNotValid else OK)
       /\ analysed has_w has_m s t
     \/ rc = ISMRC_AllocateError /\ exists i, mem i = false).
Proof.
  intros Hi Hs. destruct (analyse_analysed init Hi s has_w has_m mem regex n Hs) as [(rc & t & n' & E & Ho) Hok].
  apply bind_ret_inv in E as ([[rc1 t1] n1] & E & Er). injection Er as Erc -> ->. exists rc1, t, n'.
  split; [done|]. destruct (Z.eq_dec rc1 ISMRC_AllocateError) as [->|Hne].
  - right. split; [done|]. simpl in Erc. subst rc. destruct Ho as [[? _]|[_ ?]]; done.
  - left. eauto.
Qed.

(** C29. Validation: iett_validateTopicString ends on every string, and accepts it
    for publishing iff it has at most 32 levels and none is a wildcard, for
    subscribing iff it has at most 32 levels, and for a topic monitor iff it
    has at most 32 levels, the last one is # and no other is a wildcard.  A wildcard
    is a level that consists of + or # alone; these characters inside a longer level
    do not count.  (The remark above the function says otherwise on two points:
    [validation_remark_differs].) *)
Theorem validate_characterised s vt :
  is_cstr s -> exists b, iett_validateTopicString s vt = Ret b /\ (b = true <-> valid_levels vt (levels s)).
Proof.
  intros Hs. destruct (validate_loop_ok s (S (length s)) vt [] [] 0 ltac:(lia) Hs) as (b & E & Hb).
  exists b. split; [exact E|]. rewrite Hb, levels_from_nil. unfold rest_valid, valid_levels.
  rewrite Z.add_0_l. split; intros [H1 H2]; (split; [lia|done]).
Qed.

(** The remark says that a string is invalid for publishing if it contains a wildcard
    character, and valid for a topic monitor if it contains one and only one
    multicard, at its end.  But "a+b" is accepted for publishing, and "a/+/#" is not
    accepted for a topic monitor. *)
Theorem validation_remark_differs :
  iett_validateTopicString [97; PLUS; 98] iettVALIDATE_FOR_PUBLISH = Ret true /\
  iett_validateTopicString [97; SLASH; PLUS; SLASH; HASH] iettVALIDATE_FOR_TOPICMONITOR = Ret false.
Proof. split; reflexivity. Qed.

(** "a/+/b/#". *)
Definition demo_topic : list Z := [97; 47; 43; 47; 98; 47; 35].

Lemma demo_topic_cstr : is_cstr demo_topic.
Proof. apply (bool_decide_unpack _). vm_compute. exact I. Qed.

Lemma analyse_splits_levels_witness :
  exists rc t n', iett_analyseTopicString (fun _ => true) (fun _ => 0) 0 (fresh_topic demo_topic 2 true true) = Ret (rc, t, n') /\
    (rc = OK /\ analysed true true demo_topic t \/ rc = ISMRC_AllocateError /\ exists i : nat, true = false).
Proof. exact (analyse_splits_levels (fun _ => true) (fun _ => 0) 0 demo_topic 2 true true eq_refl demo_topic_cstr). Defined.

Lemma validate_characterised_witness :
  exists b, iett_validateTopicString demo_topic iettVALIDATE_FOR_PUBLISH = Ret b
    /\ (b = true <-> valid_levels iettVALIDATE_FOR_PUBLISH (levels demo_topic)).
Proof. exact (validate_characterised demo_topic iettVALIDATE_FOR_PUBLISH demo_topic_cstr). Defined.
