(* ===== verification/ChildTable.v ===== *)
(** * Child tables

    The interface under which the topic tree uses the engine's hash table: a
    table from level strings to nodes, presented with the hash that the topic
    analysis computes.  The laws are discharged by engineHashTable.c. *)

From S2P Require Import Prelude HashTable HashTableMap TopicString.
From stdpp Require Import gmap.
#[local] Open Scope Z_scope.

(** Operations; a node is given by its address, a [nat]. *)
Class ChildTable (T : Type) := {
  ct_create : (nat -> bool) -> nat -> Z -> Z * option T * nat;
  ct_get : T -> list Z -> Z -> outcome (Z * option nat);
  ct_put : (nat -> bool) -> nat -> T -> list Z -> Z -> nat -> outcome (Z * T * nat);
  ct_resize : (nat -> bool) -> nat -> T -> Z -> outcome (Z * T * nat);
  ct_remove : T -> list Z -> Z -> outcome T;
  ct_totalCount : T -> Z;
  ct_capacity : T -> Z
}.

(** What the topic tree relies on. *)
Class ChildTableLaws (T : Type) `{!ChildTable T} := {
  ct_rep : T -> gmap (list Z) nat -> Prop;
  ct_get_spec t m k :
    ct_rep t m -> ct_get t k (iett_generateSubstringHash k)
    = Ret (match m !! k with Some v => (OK, Some v) | None => (ISMRC_NotFound, None) end);
  ct_capacity_pos t m : ct_rep t m -> 0 < ct_capacity t;
  ct_create_spec mem n cap : 0 < cap ->
    exists rc ot n', ct_create mem n cap = (rc, ot, n') /\ (n <= n')%nat /\
      (rc = OK /\ (exists t, ot = Some t /\ ct_rep t ∅)
       \/ rc = ISMRC_AllocateError /\ exists i, mem i = false);
  ct_put_spec mem n t m k v : ct_rep t m -> m !! k = None ->
    exists rc t' n', ct_put mem n t k (iett_generateSubstringHash k) v = Ret (rc, t', n') /\ (n <= n')%nat /\
      (rc = OK /\ ct_rep t' (<[k := v]> m)
       \/ rc = ISMRC_AllocateError /\ exists i, mem i = false);
  ct_resize_spec mem n t m cap : ct_rep t m -> 0 < cap ->
    exists rc t' n', ct_resize mem n t cap = Ret (rc, t', n') /\ (n <= n')%nat /\
      (rc = OK /\ ct_rep t' m \/ rc = ISMRC_AllocateError /\ exists i, mem i = false);
  ct_remove_spec t m k : ct_rep t m ->
    exists t', ct_remove t k (iett_generateSubstringHash k) = Ret t' /\ ct_rep t' (delete k m);
  ct_total_spec t m : ct_rep t m -> ct_totalCount t = Z.of_nat (size m)
}.

(** ** The engine hash table is one *)

Definition level_hash (k : hkey) : Z :=
  match k with KStr s => iett_generateSubstringHash s | KNum _ => 0 end.

Definition ieutFLAG_DUPLICATE_NONE : Z := 0.

(** A null value is the same as none for the callers. *)
Definition hash_get (t : ieutHashTable_t nat) (k : list Z) (h : Z) : outcome (Z * option nat) :=
  '(rc, v) ← ieut_getHashEntry t (KStr k) h;
  Ret (rc : Z, match v with Some (Some x) => Some x | _ => None end).

#[global] Instance hash_child_table : ChildTable (ieutHashTable_t nat) := {
  ct_create mem n cap := ieut_createHashTable mem n cap;
  ct_get := hash_get;
  ct_put mem n t k h v := ieut_putHashEntry mem n t ieutFLAG_DUPLICATE_NONE (KStr k) h (Some v);
  ct_resize mem n t cap := ieut_resizeHashTable mem n t cap;
  ct_remove t k h := ieut_removeHashEntry t (KStr k) h;
  ct_totalCount := totalCount;
  ct_capacity := capacity
}.

(** Allocation counters only go up. *)
Lemma put_counter {V} mem n (t : ieutHashTable_t V) flags k h v rc t' n' :
  ieut_putHashEntry mem n t flags k h v = Ret (rc, t', n') -> (n <= n')%nat.
Proof.
  unfold ieut_putHashEntry, put_in_chain. intros E.
  repeat (case_match; simplify_eq/=; try lia); repeat (apply bind_ret_inv in E as (? & ? & E); simpl in E);
    repeat (case_match; simplify_eq/=; try lia).
Qed.

Lemma copy_entries_counter {V} mem es : forall n (t : ieutHashTable_t V) rc t' n',
  copy_entries mem n t es = Ret (rc, t', n') -> (n <= n')%nat.
Proof.
  induction es as [|e es IH]; intros n t rc t' n' E; simpl in E; [by simplify_eq|].
  apply bind_ret_inv in E as ([[rc1 t1] n1] & E1%put_counter & E2).
  destruct (rc1 =? OK); [apply IH in E2; lia|by simplify_eq].
Qed.

Lemma copy_chains_counter {V} mem todo : forall n (t : ieutHashTable_t V) dn rc t' old n',
  copy_chains mem n t dn todo = Ret (rc, t', old, n') -> (n <= n')%nat.
Proof.
  induction todo as [|c todo IH]; intros n t dn rc t' old n' E; simpl in E; [by simplify_eq|].
  apply bind_ret_inv in E as (es & _ & E). apply bind_ret_inv in E as ([[rc1 t1] n1] & E1%copy_entries_counter & E2).
  destruct (rc1 =? OK); [apply IH in E2; lia|by simplify_eq].
Qed.

Lemma resize_counter {V} mem n (t : ieutHashTable_t V) cap rc t' n' :
  ieut_resizeHashTable mem n t cap = Ret (rc, t', n') -> (n <= n')%nat.
Proof.
  unfold ieut_resizeHashTable. intros E. destruct (mem n); [|simplify_eq; lia].
  destruct (totalCount t =? 0); [simplify_eq; lia|].
  apply bind_ret_inv in E as ([[[rc1 t1] old] n1] & E1%copy_chains_counter & E2).
  destruct (rc1 =? OK); simplify_eq; lia.
Qed.

Definition hash_child_rep (t : ieutHashTable_t nat) (m : gmap (list Z) nat) : Prop :=
  exists m', table_rep level_hash false false t m' /\ forall k, m' !! KStr k = Some <$> (m !! k).

#[local] Instance KStr_inj : Inj eq eq KStr.
Proof. by intros ? ? [=]. Qed.

(** The map of the table is that of the children, under string keys. *)
Lemma hash_child_kmap (t : ieutHashTable_t nat) (m' : gmap hkey (option nat)) (m : gmap (list Z) nat) :
  table_rep level_hash false false t m' -> (forall k, m' !! KStr k = Some <$> (m !! k)) -> m' = kmap KStr (Some <$> m).
Proof.
  intros Hr Hm. apply map_eq. intros [k|z].
  - rewrite Hm, (lookup_kmap KStr). by rewrite lookup_fmap.
  - rewrite (proj2 (lookup_kmap_None KStr _ (KNum z))) by done. destruct (m' !! KNum z) eqn:E; [|done].
    by apply (table_keys level_hash false false t) in E.
Qed.

Lemma kmap_size {A} (m : gmap (list Z) A) : size (kmap KStr m : gmap hkey A) = size m.
Proof.
  rewrite <- !length_map_to_list. etransitivity; [apply Permutation_length, (map_to_list_kmap KStr)|apply length_fmap].
Qed.

#[global] Instance hash_child_laws : ChildTableLaws (ieutHashTable_t nat).
Proof.
  refine {| ct_rep := hash_child_rep |}.
  - intros t m k (m' & Hr & Hm). simpl. unfold hash_get.
    change (iett_generateSubstringHash k) with (level_hash (KStr k)).
    rewrite (get_lookup level_hash false false t m' (KStr k) Hr eq_refl), Hm. by destruct (m !! k).
  - intros t m (m' & [[Hc _ _] _] & _). done.
  - intros mem n cap Hcap. simpl. unfold ieut_createHashTable.
    destruct (mem n) eqn:E1; [destruct (mem (S n)) eqn:E2|]; do 3 eexists; (split; [done|]); (split; [lia|]); [|eauto..].
    left. split; [done|]. eexists. split; [done|]. exists ∅. split; [|intros; by rewrite !lookup_empty].
    by apply fresh_table_rep.
  - intros mem n t m k v (m' & Hr & Hm) Hk. simpl.
    destruct (put_spec level_hash false false mem ieutFLAG_DUPLICATE_NONE n t m' (KStr k) (Some v) Hr eq_refl eq_refl eq_refl
                (or_introl eq_refl)) as (rc & t' & n' & E & _ & Ho).
    exists rc, t', n'. split; [exact E|]. split; [by eapply put_counter|].
    destruct Ho as [(Erc & Hi & _)|(m2 & Em & Hr2)]; [right; by injection Erc as ->|left].
    unfold map_put in Em. rewrite Hm, Hk, bool_decide_false in Em by (intros []; done). simplify_eq/=.
    split; [done|]. eexists. split; [exact Hr2|]. intros k'.
    destruct (decide (k = k')) as [->|Hne]; [by rewrite !lookup_insert_eq|].
    by rewrite !lookup_insert_ne by congruence.
  - intros mem n t m cap (m' & Hr & Hm) Hcap. simpl.
    destruct (HashTableMap.resize_spec level_hash false false mem n t m' cap Hr Hcap) as (rc & t' & n' & E & Ho).
    exists rc, t', n'. split; [exact E|]. split; [by eapply resize_counter|].
    destruct Ho as [(-> & Hr' & _)|Ho]; [left|by right]. split; [done|]. by exists m'.
  - intros t m k (m' & Hr & Hm). simpl. change (iett_generateSubstringHash k) with (level_hash (KStr k)).
    destruct (remove_delete level_hash false false t m' (KStr k) Hr eq_refl) as (t' & E & Hr' & _).
    exists t'. split; [exact E|]. exists (delete (KStr k) m'). split; [done|]. intros k'.
    destruct (decide (k = k')) as [->|Hne]; [by rewrite !lookup_delete_eq|].
    by rewrite !lookup_delete_ne by congruence.
  - intros t m (m' & Hr & Hm). simpl. rewrite (table_total _ _ _ _ _ Hr), (hash_child_kmap t m' m Hr Hm).
    by rewrite kmap_size, map_size_fmap.
Qed.
