(* ===== verification/TopicTree.v ===== *)
(** * The subscription tree

    server_engine/src/topicTree.c: the tree of topic filters in which the engine
    finds the subscribers of a topic.  Nodes live in a heap and refer to each
    other by address.  Modelled here: finding and inserting the node of a filter
    (iett_insertOrFindSubsNode), and collecting the nodes with active
    subscribers whose filter matches a topic (iett_addActiveSubsNodes,
    iett_findMatchingSubsNodes). *)

From S2P Require Import Prelude TopicString ChildTable.
From stdpp Require Import gmap.
#[local] Open Scope Z_scope.

Definition iettNODE_FLAG_NORMAL : Z := 0x0.
Definition iettNODE_FLAG_WILDCARD : Z := 0x1.
Definition iettNODE_FLAG_MULTICARD : Z := 0x2.
Definition iettNODE_FLAG_TREE_ROOT : Z := 0x4.
Definition iettNODE_FLAG_TYPE_MASK : Z := 0x17.
Definition iettNODE_FLAG_BRANCH_WILD_OR_MULTI : Z := 0x10000000.
Definition iettNODE_FLAG_BRANCH_MULTIMULTI : Z := 0x20000000.
Definition iettNODE_FLAG_BRANCH_SYSTOPIC : Z := 0x40000000.
Definition iettINITIAL_SUBSCRIBER_NODE_CAPACITY : Z := 2.
Definition iettNODE_LOADINGFACTOR_HIGH_WATER : Z := 5.
Definition iettNODE_CAPACITY_INCREMENT_FACTOR : Z := 10.
Definition iettFIND_SUBSCRIBER_RESULTS_INCREMENT : Z := 20.

Inductive iett_operation := iettOP_ADD | iettOP_FIND.

Section Tree.
Context {T : Type} `{!ChildTable T}.

(** [iettSubsNode_t]; [activeCount] and [delPendCount] are [activeSubs.count] and
    [delPendSubs.count] (the lists themselves are in SubList.v), [statsActive] says
    that statistics are being collected ([stats != NULL] and its [ResetTime] is
    not 0). *)
Record iettSubsNode_t := mk_node {
  nodeFlags : Z;
  n_topicString : option (list Z);
  children : option T;
  wildcardChild : option nat;
  multicardChild : option nat;
  n_parent : option nat;
  activeCount : Z;
  delPendCount : Z;
  useCount : Z;
  activeCluster : Z;
  statsActive : bool
}.

Abbreviation heap := (gmap nat iettSubsNode_t).

Definition node_at (h : heap) (a : nat) : outcome iettSubsNode_t :=
  match h !! a with Some node => Ret node | None => Crash end.

(** ** Insertion *)

(** The string that a substring pointer refers to. *)
Definition deref_string (topic : iettTopic_t) (p : option Z) : outcome (list Z) :=
  match p, topicStringCopy topic with
  | Some off, Some copy => if (0 <=? off) && (off <? Z.of_nat (length copy))
                           then Ret (until_nul (drop (Z.to_nat off) copy)) else Crash
  | _, _ => Crash
  end.

(** [*wildcard], [*multicard]. *)
Definition deref_card (cards : option (array (option Z))) (i : Z) : outcome (option Z) :=
  match cards with Some a => array_read a i | None => Crash end.

Inductive node_kind := Kwild | Kmulti | Knormal.

Definition kind_flags (k : node_kind) : Z :=
  match k with Kwild => iettNODE_FLAG_WILDCARD | Kmulti => iettNODE_FLAG_MULTICARD | Knormal => iettNODE_FLAG_NORMAL end.

(** The search part of one round: which kind of level this is, and the child. *)
Definition find_child (node : iettSubsNode_t) (k : node_kind) (str : list Z) (hash : Z) : outcome (option nat) :=
  match k with
  | Kwild => Ret (wildcardChild node)
  | Kmulti => Ret (multicardChild node)
  | Knormal =>
      match children node with
      | None => Ret None
      | Some t => '(_, v) ← ct_get t str hash; Ret v
      end
  end.

(** Flags of a new node. *)
Definition new_flags (topic : iettTopic_t) (k : node_kind) (wildcardsSeen multicardsSeen : Z) : Z :=
  let f := kind_flags k in
  let f := if multicardsSeen >? 1 then Z.lor f iettNODE_FLAG_BRANCH_MULTIMULTI else f in
  let f := if negb (wildcardsSeen =? 0) || negb (multicardsSeen =? 0)
           then Z.lor f iettNODE_FLAG_BRANCH_WILD_OR_MULTI else f in
  if negb (sysTopicEndIndex topic =? 0) then Z.lor f iettNODE_FLAG_BRANCH_SYSTOPIC else f.

Definition new_topicString (parent : iettSubsNode_t) (str : list Z) : list Z :=
  match n_topicString parent with Some s => s ++ SLASH :: str | None => str end.

Definition set_wildcardChild (p : iettSubsNode_t) c :=
  mk_node (nodeFlags p) (n_topicString p) (children p) c (multicardChild p) (n_parent p) (activeCount p)
    (delPendCount p) (useCount p) (activeCluster p) (statsActive p).
Definition set_multicardChild (p : iettSubsNode_t) c :=
  mk_node (nodeFlags p) (n_topicString p) (children p) (wildcardChild p) c (n_parent p) (activeCount p)
    (delPendCount p) (useCount p) (activeCluster p) (statsActive p).
Definition set_children (p : iettSubsNode_t) c :=
  mk_node (nodeFlags p) (n_topicString p) c (wildcardChild p) (multicardChild p) (n_parent p) (activeCount p)
    (delPendCount p) (useCount p) (activeCluster p) (statsActive p).

Section Insert.
(** The [n]-th allocation succeeds when [mem n].  A node's address is the number
    of the allocation that made it. *)
Context (mem : nat -> bool).

(** Linking a normal node: the child table is created, or enlarged when its load
    is over the high water mark, then the node is put in it. *)
Definition link_normal (n : nat) (pnode : iettSubsNode_t) (str : list Z) (hash : Z) (a : nat)
    : outcome (Z * iettSubsNode_t * nat) :=
  '(rc, pnode, n) ←
    match children pnode with
    | None =>
        let '(rc, t, n) := ct_create mem n iettINITIAL_SUBSCRIBER_NODE_CAPACITY in
        Ret (rc, if rc =? OK then set_children pnode t else pnode, n)
    | Some t =>
        if ct_totalCount t >? ct_capacity t * (iettNODE_LOADINGFACTOR_HIGH_WATER - 1) then
          '(rc, t, n) ← ct_resize mem n t (ct_capacity t * iettNODE_CAPACITY_INCREMENT_FACTOR);
          Ret (rc, set_children pnode (Some t), n)
        else Ret (OK, pnode, n)
    end;
  if negb (rc =? OK) then Ret (rc, pnode, n) else
  match children pnode with
  | None => Crash
  | Some t =>
      '(rc, t, n) ← ct_put mem n t str hash a;
      Ret (rc, set_children pnode (Some t), n)
  end.

(** Allocating the node and linking it to its parent: [(rc, node, heap, n)].  When
    linking fails the node is freed again, the parent stays as it has become. *)
Definition add_node (n : nat) (h : heap) (parent : nat) (topic : iettTopic_t) (k : node_kind)
    (str : list Z) (hash : Z) (wildcardsSeen multicardsSeen : Z) : outcome (Z * option nat * heap * nat) :=
  if negb (mem n) then Ret (ISMRC_AllocateError, None, h, S n) else
  pnode ← node_at h parent;
  let a := n in
  let node := mk_node (new_flags topic k wildcardsSeen multicardsSeen) (Some (new_topicString pnode str))
                None None None (Some parent) 0 0 0 0 false in
  '(rc, pnode, n) ←
    match k with
    | Kwild => Ret (OK, set_wildcardChild pnode (Some a), S n)
    | Kmulti => Ret (OK, set_multicardChild pnode (Some a), S n)
    | Knormal => link_normal (S n) pnode str hash a
    end;
  if rc =? OK then Ret (OK, Some a, <[parent := pnode]> (<[a := node]> h), n)
  else Ret (rc, None, <[parent := pnode]> h, n).

(** The do-while loop over the substrings from index [i]; [wi] and [mi] count the
    wildcards and multicards passed. *)
Fixpoint insert_loop (fuel : nat) (n : nat) (h : heap) (parent : nat) (topic : iettTopic_t)
    (operation : iett_operation) (i wi mi : Z) : outcome (Z * option nat * heap * nat) :=
  match fuel with
  | O => Hang
  | S fuel =>
      sub ← array_read (substrings topic) i;
      w ← deref_card (wildcards topic) wi;
      m ← (if bool_decide (sub = w) then Ret None else deref_card (multicards topic) mi);
      let k := if bool_decide (sub = w) then Kwild else if bool_decide (sub = m) then Kmulti else Knormal in
      let wi := match k with Kwild => wi + 1 | _ => wi end in
      let mi := match k with Kmulti => mi + 1 | _ => mi end in
      hash ← array_read (substringHashes topic) i;
      str ← deref_string topic sub;
      pnode ← node_at h parent;
      found ← find_child pnode k str hash;
      '(rc, localNode, h, n) ←
        match found with
        | Some a => Ret (OK, Some a, h, n)
        | None =>
            match operation with
            | iettOP_FIND => Ret (ISMRC_NotFound, None, h, n)
            | iettOP_ADD => add_node n h parent topic k str hash wi mi
            end
        end;
      if negb (rc =? OK) then Ret (rc, None, h, n) else
      match localNode with
      | None => Crash
      | Some a =>
          next ← array_read (substrings topic) (i + 1);
          match next with
          | None => Ret (OK, Some a, h, n)
          | Some _ => insert_loop fuel n h a topic operation (i + 1) wi mi
          end
      end
  end.

(** The assertion that the destination is a topic is left out: an [iettTopic_t] here
    always is one. *)
Definition iett_insertOrFindSubsNode (n : nat) (h : heap) (parent : nat) (topic : iettTopic_t)
    (operation : iett_operation) : outcome (Z * option nat * heap * nat) :=
  match destinationType topic with
  | ismDESTINATION_TOPIC => insert_loop (length (substrings topic)) n h parent topic operation 0 0 0
  | _ => Crash
  end.
End Insert.

(** ** Matching *)

(** Entries of the result array: a node, NULL, or iettINVALID_ADDRESS. *)
Inductive slot := SNode (a : nat) | SNull | SInvalid.

(** The array of results with [*maxNodes] and [*nodeCount]. *)
Record results := mk_results {
  r_array : option (array slot);
  r_maxNodes : Z;
  r_nodeCount : Z
}.

Definition realloc_results (arr : option (array slot)) (size : Z) : array slot :=
  let old := default [] arr in
  take (Z.to_nat size) old ++ replicate (Z.to_nat size - length old) None.

Definition res_write (arr : option (array slot)) (i : Z) (s : slot) : outcome (array slot) :=
  match arr with Some a => array_write a i s | None => Crash end.

Definition is_active (node : iettSubsNode_t) : bool := negb (activeCount node =? 0) || statsActive node.

Section Match.
Context (mem : nat -> bool).

(** Appending one node. *)
Definition append_result (n : nat) (res : results) (a : nat) : outcome (Z * results * nat) :=
  if r_nodeCount res =? r_maxNodes res then
    let newMax := r_maxNodes res + iettFIND_SUBSCRIBER_RESULTS_INCREMENT in
    if mem n then
      arr ← array_write (realloc_results (r_array res) newMax) (r_nodeCount res) (SNode a);
      Ret (OK, mk_results (Some arr) newMax (r_nodeCount res + 1), S n)
    else Ret (ISMRC_AllocateError, res, S n)
  else
    arr ← res_write (r_array res) (r_nodeCount res) (SNode a);
    Ret (OK, mk_results (Some arr) (r_maxNodes res) (r_nodeCount res + 1), n).

Fixpoint add_active_loop (fuel : nat) (n : nat) (h : heap) (entryNodeType : Z) (node : option nat)
    (res : results) : outcome (Z * results * nat) :=
  match node with
  | None => Ret (OK, res, n)
  | Some a =>
      match fuel with
      | O => Hang
      | S fuel =>
          nd ← node_at h a;
          '(rc, res, n) ← (if is_active nd then append_result n res a else Ret (OK, res, n));
          if negb (rc =? OK) then Ret (rc, res, n) else
          add_active_loop fuel n h entryNodeType
            (if entryNodeType =? iettNODE_FLAG_MULTICARD then None else multicardChild nd) res
      end
  end.

Definition iett_addActiveSubsNodes (fuel : nat) (n : nat) (h : heap) (node : nat) (res : results)
    : outcome (Z * results * nat) :=
  nd ← node_at h node;
  add_active_loop fuel n h (Z.land (nodeFlags nd) iettNODE_FLAG_TYPE_MASK) (Some node) res.

(** Removal of duplicates: the inner loop marks the later occurrences of [node],
    the outer one moves the remaining nodes to the front. *)
Fixpoint mark_duplicates (fuel : nat) (arr : array slot) (node : nat) (nodeIndex : Z) : outcome (array slot) :=
  match fuel with
  | O => Hang
  | S fuel =>
      s ← array_read arr nodeIndex;
      match s with
      | SNull => Ret arr
      | SNode b =>
          arr ← (if bool_decide (b = node) then array_write arr nodeIndex SInvalid else Ret arr);
          mark_duplicates fuel arr node (nodeIndex + 1)
      | SInvalid => mark_duplicates fuel arr node (nodeIndex + 1)
      end
  end.

Fixpoint dedup_loop (fuel : nat) (arr : array slot) (nodeIndex finalCount : Z) : outcome (array slot * Z) :=
  match fuel with
  | O => Hang
  | S fuel =>
      s ← array_read arr nodeIndex;
      match s with
      | SNull => Ret (arr, finalCount)
      | SInvalid => dedup_loop fuel arr (nodeIndex + 1) finalCount
      | SNode a =>
          arr ← array_write arr nodeIndex SInvalid;
          arr ← array_write arr finalCount (SNode a);
          arr ← mark_duplicates (S (length arr)) arr a (nodeIndex + 1);
          dedup_loop fuel arr (finalCount + 1) (finalCount + 1)
      end
  end.

(** The code at [mod_exit]: it runs for every call with [curIndex] 0.
    [multiMultiSubs] is the number of subscriptions with several multicards. *)
Definition finish_results (n : nat) (multiMultiSubs : Z) (curIndex : Z) (usingCachedArray : bool)
    (rc : Z) (res : results) : outcome (Z * results * nat) :=
  match r_array res with
  | Some arr =>
      if negb (curIndex =? 0) then Ret (rc, res, n) else
      let failed rc n := Ret (rc, mk_results (if usingCachedArray then Some arr else None) (r_maxNodes res) 0, n) in
      if negb (rc =? OK) then failed rc n else
      let finalCount := r_nodeCount res in
      let realloced := r_maxNodes res =? finalCount in
      if realloced && negb (mem n) then failed ISMRC_AllocateError (S n) else
      let arr := if realloced then realloc_results (Some arr) (finalCount + 1) else arr in
      let n := if realloced then S n else n in
      arr ← array_write arr finalCount SNull;
      if multiMultiSubs >? 0 then
        let bound := length arr in
        '(arr, finalCount) ← dedup_loop (S bound * S bound) arr 0 0;
        arr ← array_write arr finalCount SNull;
        Ret (OK, mk_results (Some arr) (r_maxNodes res) finalCount, n)
      else Ret (OK, mk_results (Some arr) (r_maxNodes res) (r_nodeCount res), n)
  | None => Ret (rc, res, n)
  end.

(** [rc = ...; if (rc != OK) goto mod_exit]. *)
Definition and_then (o : outcome (Z * results * nat)) (k : results -> nat -> outcome (Z * results * nat))
    : outcome (Z * results * nat) :=
  '(rc, res, n) ← o; if rc =? OK then k res n else Ret (rc, res, n).

Context (multiMultiSubs : Z) (usingCachedArray : bool) (topic : iettTopic_t).

(** The do-while loop below a multicard node: [f index] for [index] up to the last
    substring. *)
Fixpoint multicard_loop (f : Z -> nat -> results -> outcome (Z * results * nat)) (rounds : nat)
    (index : Z) (n : nat) (res : results) : outcome (Z * results * nat) :=
  match rounds with
  | O => Hang
  | S rounds =>
      and_then (f index n res) (fun res n =>
        if index + 1 <? substringCount topic then multicard_loop f rounds (index + 1) n res
        else Ret (OK, res, n))
  end.

Fixpoint iett_findMatchingSubsNodes (fuel : nat) (h : heap) (parent : nat) (curIndex : Z)
    (n : nat) (res : results) : outcome (Z * results * nat) :=
  match fuel with
  | O => Hang
  | S fuel =>
      (* the last level collects, an inner level descends *)
      let descend a n res :=
        if curIndex + 1 =? substringCount topic then iett_addActiveSubsNodes fuel n h a res
        else iett_findMatchingSubsNodes fuel h a (curIndex + 1) n res in
      pnode ← node_at h parent;
      '(rc, res, n) ←
        and_then
          (match children pnode with
           | None => Ret (OK, res, n)
           | Some t =>
               sub ← array_read (substrings topic) curIndex;
               str ← deref_string topic sub;
               hash ← array_read (substringHashes topic) curIndex;
               '(_, v) ← ct_get t str hash;
               match v with Some a => descend a n res | None => Ret (OK, res, n) end
           end)
        (fun res n =>
          if curIndex >=? sysTopicEndIndex topic then
            and_then (match wildcardChild pnode with Some a => descend a n res | None => Ret (OK, res, n) end)
            (fun res n =>
              match multicardChild pnode with
              | None => Ret (OK, res, n)
              | Some a =>
                  and_then (iett_addActiveSubsNodes fuel n h a res) (fun res n =>
                    multicard_loop (iett_findMatchingSubsNodes fuel h a)
                      (Z.to_nat (substringCount topic)) curIndex n res)
              end)
          else Ret (OK, res, n));
      finish_results n multiMultiSubs curIndex usingCachedArray rc res
  end.
End Match.
End Tree.
Arguments iettSubsNode_t : clear implicits.
