(* ===== verification/TreeResults.v ===== *)
(** * The result array of the subscription tree search

    Appending nodes, the terminating NULL and the removal of duplicates, against
    lists of nodes. *)

From S2P Require Import Prelude TopicString TopicTree.
From stdpp Require Import list.
#[local] Open Scope Z_scope.

(** ** Array access *)

Lemma array_read_at {A} (l : list A) x junk i :
  i = Z.of_nat (length l) -> array_read (map Some l ++ Some x :: junk) i = Ret x.
Proof.
  intros ->. unfold array_read. destruct (Z.leb_spec 0 (Z.of_nat (length l))); [|lia].
  rewrite Nat2Z.id, <- (length_map Some l), list_lookup_middle by done. done.
Qed.

Lemma array_read_mid {A} (pre : list (option A)) x junk i :
  i = Z.of_nat (length pre) -> array_read (pre ++ Some x :: junk) i = Ret x.
Proof.
  intros ->. unfold array_read. destruct (Z.leb_spec 0 (Z.of_nat (length pre))); [|lia].
  by rewrite Nat2Z.id, list_lookup_middle.
Qed.

Lemma array_write_mid {A} (pre : list (option A)) y x junk i :
  i = Z.of_nat (length pre) -> array_write (pre ++ y :: junk) i x = Ret (pre ++ Some x :: junk).
Proof.
  intros ->. unfold array_write. destruct (Z.leb_spec 0 (Z.of_nat (length pre))); [|lia].
  rewrite length_app. simpl. destruct (Z.ltb_spec (Z.of_nat (length pre)) (Z.of_nat (length pre + S (length junk)))); [|lia].
  simpl. rewrite Nat2Z.id. f_equal. rewrite <- (Nat.add_0_r (length pre)). by rewrite insert_app_r.
Qed.

(** ** Removal of duplicates *)

Definition mark (a : nat) (s : slot) : slot :=
  match s with SNode b => if bool_decide (b = a) then SInvalid else SNode b | _ => s end.

Definition live (s : slot) : Prop := s <> SNull.

(** The nodes among some slots. *)
Fixpoint slot_nodes (G : list slot) : list nat :=
  match G with [] => [] | SNode a :: G => a :: slot_nodes G | _ :: G => slot_nodes G end.

Lemma mark_duplicates_ok a G : forall fuel pre junk,
  Forall live G -> (length G < fuel)%nat ->
  mark_duplicates fuel (pre ++ map Some G ++ Some SNull :: junk) a (Z.of_nat (length pre))
  = Ret (pre ++ map Some (map (mark a) G) ++ Some SNull :: junk).
Proof.
  induction G as [|s G IH]; intros [|fuel] pre junk Hl Hf; simpl in Hf; try lia; cbn [mark_duplicates].
  - simpl. by rewrite array_read_mid.
  - apply Forall_cons in Hl as [Hs Hl]. simpl. rewrite array_read_mid by done. cbn [mbind outcome_bind].
    assert (Hnext : forall s', mark_duplicates fuel (pre ++ Some s' :: map Some G ++ Some SNull :: junk) a
        (Z.of_nat (length pre) + 1) = Ret (pre ++ Some s' :: map Some (map (mark a) G) ++ Some SNull :: junk)).
    { intros s'. rewrite !(cons_middle (Some s')), !(app_assoc pre). rewrite <- (IH fuel (pre ++ [Some s']) junk) by (done || lia).
      f_equal. rewrite length_app. simpl. lia. }
    destruct s as [b| |]; simpl; [|done|apply Hnext].
    case_bool_decide; [rewrite array_write_mid by done|]; cbn [mbind outcome_bind]; apply Hnext.
Qed.

Lemma slot_nodes_mark a G x : x ∈ slot_nodes (map (mark a) G) <-> x ∈ slot_nodes G /\ x <> a.
Proof.
  induction G as [|[b| |] G IH]; simpl; rewrite ?elem_of_nil; [tauto| |done|done].
  case_bool_decide as E; simpl; rewrite ?elem_of_cons, IH; [subst|]; intuition congruence.
Qed.

Lemma slot_nodes_invalid k G : slot_nodes (replicate k SInvalid ++ G) = slot_nodes G.
Proof. induction k; simpl; auto. Qed.

Lemma live_mark a G : Forall live G -> Forall live (map (mark a) G).
Proof.
  intros Hl. apply Forall_map. eapply Forall_impl; [exact Hl|]. intros [b| |] Hs; try done.
  simpl. by case_bool_decide.
Qed.

#[local] Arguments mark_duplicates : simpl never.

Definition dedup_inv (L D : list nat) (G : list slot) : Prop :=
  NoDup D /\ Forall live G /\ (forall x, x ∈ slot_nodes G -> x ∉ D)
  /\ (forall x, x ∈ L <-> x ∈ D \/ x ∈ slot_nodes G).

(** A node moves to the front, over the invalid entries. *)
Lemma write_first_invalid D k a (G : list slot) junk :
  array_write ((map (Some ∘ SNode) D ++ map Some (replicate k SInvalid)) ++ Some SInvalid :: map Some G ++ Some SNull :: junk)
    (Z.of_nat (length D)) (SNode a)
  = Ret (map (Some ∘ SNode) (D ++ [a]) ++ map Some (replicate k SInvalid) ++ map Some G ++ Some SNull :: junk).
Proof.
  rewrite <- app_assoc.
  assert (Hk : map Some (replicate k SInvalid) ++ Some SInvalid :: map Some G ++ Some SNull :: junk
               = Some SInvalid :: map Some (replicate k SInvalid) ++ map Some G ++ Some SNull :: junk).
  { induction k as [|k IH]; simpl; [done|]. by rewrite IH. }
  rewrite Hk, array_write_mid by (by rewrite length_map). rewrite map_app, <- app_assoc. done.
Qed.

Lemma dedup_inv_keep L D k a G :
  dedup_inv L D (SNode a :: G) -> dedup_inv L (D ++ [a]) (replicate k SInvalid ++ map (mark a) G).
Proof.
  intros (HD & [_ HG]%Forall_cons & Hdis & HL).
  assert (Hs1 : slot_nodes (SNode a :: G) = a :: slot_nodes G) by done. split; [|split; [|split]].
  - apply NoDup_app. split; [done|]. split; [|apply NoDup_singleton].
    intros x Hx ->%list_elem_of_singleton. apply (Hdis a); [rewrite Hs1; left|done].
  - apply Forall_app. split; [by apply Forall_replicate|by apply live_mark].
  - intros x. rewrite slot_nodes_invalid, slot_nodes_mark, elem_of_app, list_elem_of_singleton.
    intros [Hx Hne] [Hd|?]; [|done]. apply (Hdis x); [rewrite Hs1; by right|done].
  - intros x. rewrite HL, slot_nodes_invalid, slot_nodes_mark, elem_of_app, list_elem_of_singleton, Hs1, elem_of_cons.
    destruct (decide (x = a)); tauto.
Qed.

Lemma dedup_inv_start L : dedup_inv L [] (map SNode L).
Proof.
  split; [constructor|]. split; [|split].
  - apply Forall_map, Forall_forall. by intros.
  - intros x _. apply not_elem_of_nil.
  - intros x. rewrite elem_of_nil. assert (slot_nodes (map SNode L) = L) as -> by (induction L; simpl; congruence). tauto.
Qed.

Lemma dedup_loop_ok L junk b fuel : forall D k G,
  dedup_inv L D G -> (k + length G <= b)%nat -> ((k + length G) * S b + length G < fuel)%nat ->
  exists arr D', dedup_loop fuel (map (Some ∘ SNode) D ++ map Some (replicate k SInvalid ++ G) ++ Some SNull :: junk)
      (Z.of_nat (length D + k)) (Z.of_nat (length D)) = Ret (arr, Z.of_nat (length D'))
    /\ NoDup D' /\ (forall x, x ∈ L <-> x ∈ D')
    /\ exists tail, arr = map (Some ∘ SNode) D' ++ tail /\ (0 < length tail)%nat
    /\ length arr = (length D + k + length G + 1 + length junk)%nat.
Proof.
  induction fuel as [|fuel IH]; intros D k G Hinv Hb Hf; [lia|]. cbn [dedup_loop].
  pose proof Hinv as (HD & HG & _ & HL).
  set (pre := map (Some ∘ SNode) D ++ map Some (replicate k SInvalid)).
  assert (Hpre : Z.of_nat (length pre) = Z.of_nat (length D + k))
    by (unfold pre; rewrite length_app, !length_map, length_replicate; lia).
  rewrite map_app, <- app_assoc, app_assoc. fold pre.
  destruct G as [|s G]; simpl.
  - rewrite array_read_mid by lia. cbn [mbind outcome_bind]. do 2 eexists. split; [done|]. split; [done|].
    split; [intros x; rewrite HL; simpl; rewrite elem_of_nil; tauto|].
    eexists. split; [unfold pre; rewrite <- app_assoc; done|]. rewrite !length_app, !length_map, length_replicate. simpl.
    split; [lia|]. rewrite ?length_map. lia.
  - apply Forall_cons in HG as [Hs HG]. rewrite array_read_mid by lia. cbn [mbind outcome_bind].
    destruct s as [a| |]; [|done|].
    + rewrite array_write_mid by lia. cbn [mbind outcome_bind].
      unfold pre. rewrite write_first_invalid. cbn [mbind outcome_bind].
      rewrite (app_assoc _ (map Some (replicate k SInvalid))).
      assert (Hidx : Z.of_nat (length D + k) + 1
                = Z.of_nat (length (map (Some ∘ SNode) (D ++ [a]) ++ map Some (replicate k SInvalid))))
        by (rewrite length_app, !length_map, length_app, length_replicate; simpl; lia).
      rewrite Hidx, mark_duplicates_ok by (done || (rewrite !length_app, !length_map; simpl; lia)).
      cbn [mbind outcome_bind]. rewrite <- app_assoc.
      destruct (IH (D ++ [a]) 0%nat (replicate k SInvalid ++ map (mark a) G)) as (arr & D' & E & Hnd & HL' & tail & Et & Ht & Hlen).
      * by apply dedup_inv_keep.
      * rewrite length_app, length_replicate, length_map. simpl in Hb. lia.
      * rewrite length_app, length_replicate, length_map. simpl in *. nia.
      * exists arr, D'. split; [|split; [done|]; split; [done|]; exists tail; split; [done|]; split; [done|];
          rewrite Hlen, !length_app, length_replicate, length_map; simpl; lia].
        rewrite <- E, length_app. simpl length. f_equal; [|lia..].
        simpl. by rewrite !map_app, <- !app_assoc.
    + destruct (IH D (S k) G) as (arr & D' & E & Hnd & HL' & tail & Et & Ht & Hlen).
      * destruct Hinv as (_ & _ & Hdis & _). by split_and!.
      * simpl in Hb. lia.
      * simpl in *. lia.
      * exists arr, D'. split; [|split; [done|]; split; [done|]; exists tail; split; [done|]; split; [done|]; lia].
        rewrite <- E. f_equal; [|lia]. unfold pre. rewrite <- app_assoc, map_app, <- app_assoc. f_equal.
        rewrite replicate_S_end, map_app, <- app_assoc. done.
Qed.

(** ** The result array as a list of nodes *)

Record res_rep (res : results) (L : list nat) : Prop := {
  rr_count : r_nodeCount res = Z.of_nat (length L);
  rr_array : match r_array res with
             | Some arr => exists junk, arr = map (Some ∘ SNode) L ++ junk /\ r_maxNodes res <= Z.of_nat (length arr)
             | None => L = [] /\ r_maxNodes res = 0
             end;
  rr_max : r_nodeCount res <= r_maxNodes res
}.

(** After a failure: no array, or a count of 0 once the search has ended. *)
Definition failed_ok (res : results) : Prop := r_array res = None -> r_nodeCount res = 0.

(** How a search changes the list: with no subscription with several multicards
    it appends [M]; otherwise duplicates may have been dropped on the way. *)
Definition grown (multi : Z) (L M L' : list nat) : Prop :=
  (multi <= 0 -> L' = L ++ M) /\ (forall x, x ∈ L' <-> x ∈ L \/ x ∈ M).

Lemma grown_app multi L M L' M' L'' : grown multi L M L' -> grown multi L' M' L'' -> grown multi L (M ++ M') L''.
Proof.
  intros [E1 H1] [E2 H2]. split.
  - intros Hm. by rewrite E2, E1, app_assoc.
  - intros x. rewrite H2, H1, elem_of_app. tauto.
Qed.

Lemma grown_append multi L M : grown multi L M (L ++ M).
Proof. split; [done|]. intros x. apply elem_of_app. Qed.

Lemma grown_nil multi L : grown multi L [] L.
Proof. split; [by rewrite app_nil_r|]. intros x. rewrite elem_of_nil. tauto. Qed.

Section Appending.
Context (mem : nat -> bool).

Definition res_outcome (P : results -> Prop) (o : outcome (Z * results * nat)) : Prop :=
  exists rc res n, o = Ret (rc, res, n) /\
    (rc = OK /\ P res \/ rc = ISMRC_AllocateError /\ (exists i, mem i = false) /\ failed_ok res).

Lemma res_rep_failed res L : res_rep res L -> failed_ok res.
Proof. intros [Hc Ha _] Hn. rewrite Hn in Ha. destruct Ha as [-> _]. by rewrite Hc. Qed.

Lemma append_result_ok n res L a :
  res_rep res L -> res_outcome (fun res' => res_rep res' (L ++ [a])) (append_result mem n res a).
Proof.
  intros Hr. pose proof (res_rep_failed _ _ Hr) as Hfail. destruct Hr as [Hc Ha Hm]. unfold append_result.
  destruct (Z.eqb_spec (r_nodeCount res) (r_maxNodes res)) as [E|E].
  - destruct (mem n) eqn:En; [|do 3 eexists; split; [done|]; right; eauto].
    assert (Hre : exists y junk, realloc_results (r_array res) (r_maxNodes res + iettFIND_SUBSCRIBER_RESULTS_INCREMENT)
        = map (Some ∘ SNode) L ++ y :: junk).
    { unfold realloc_results, iettFIND_SUBSCRIBER_RESULTS_INCREMENT.
      destruct (r_array res) as [arr|]; cbn [default from_option id].
      - destruct Ha as (junk & -> & Hl). rewrite take_app_ge by (rewrite length_map; lia). rewrite length_map, <- app_assoc.
        destruct (take _ junk ++ replicate _ None) as [|y rest] eqn:Ej; [|eauto].
        exfalso. apply (f_equal length) in Ej. rewrite length_app, length_take, length_replicate, length_app, length_map in Ej.
        simpl in Ej. lia.
      - destruct Ha as [-> Hz]. rewrite take_nil. simpl. rewrite Hz. by eexists _, _. }
    assert (Hlen : Z.of_nat (length (realloc_results (r_array res) (r_maxNodes res + iettFIND_SUBSCRIBER_RESULTS_INCREMENT)))
                   = r_maxNodes res + iettFIND_SUBSCRIBER_RESULTS_INCREMENT).
    { unfold realloc_results, iettFIND_SUBSCRIBER_RESULTS_INCREMENT. rewrite length_app, length_take, length_replicate. lia. }
    destruct Hre as (y & junk & Hy). rewrite Hy in *.
    rewrite array_write_mid by (by rewrite length_map). cbn [mbind outcome_bind].
    do 3 eexists. split; [done|]. left. split; [done|]. split; cbn.
    + rewrite Hc, length_app. simpl. lia.
    + exists junk. rewrite map_app, <- app_assoc. split; [done|]. rewrite length_app in *. simpl in *. lia.
    + unfold iettFIND_SUBSCRIBER_RESULTS_INCREMENT. lia.
  - destruct (r_array res) as [arr|]; cbn [res_write].
    + destruct Ha as (junk & -> & Hl). destruct junk as [|y junk]; [rewrite length_app, length_map in Hl; simpl in Hl; lia|].
      rewrite array_write_mid by (by rewrite length_map). cbn [mbind outcome_bind].
      do 3 eexists. split; [done|]. left. split; [done|]. split; cbn.
      * rewrite Hc, length_app. simpl. lia.
      * exists junk. rewrite map_app, <- app_assoc. split; [done|]. rewrite length_app in *. simpl in *. lia.
      * lia.
    + destruct Ha as [-> Hz]. simpl in Hc. lia.
Qed.

(** Terminating and removing duplicates. *)
(** There is room for the terminating null. *)
Lemma room_for_null res L junk :
  res_rep res L -> r_maxNodes res <= Z.of_nat (length (map (Some ∘ SNode) L ++ junk)) ->
  exists y junk', (if r_maxNodes res =? r_nodeCount res
      then realloc_results (Some (map (Some ∘ SNode) L ++ junk)) (r_nodeCount res + 1) else map (Some ∘ SNode) L ++ junk)
      = map (Some ∘ SNode) L ++ y :: junk' /\ r_maxNodes res <= Z.of_nat (length (map (Some ∘ SNode) L ++ y :: junk')).
Proof.
  intros [Hc _ Hm] Hl. destruct (Z.eqb_spec (r_maxNodes res) (r_nodeCount res)) as [E|E].
  - unfold realloc_results. cbn [default from_option id].
    rewrite take_app_ge by (rewrite length_map; lia). rewrite length_map, <- app_assoc.
    destruct (take _ junk ++ replicate _ None) as [|y rest] eqn:Ej.
    { exfalso. apply (f_equal length) in Ej. rewrite length_app, length_take, length_replicate, length_app, length_map in Ej.
      simpl in Ej. lia. }
    exists y, rest. split; [done|]. rewrite length_app, length_map. simpl. lia.
  - destruct junk as [|y junk]; [rewrite length_app, length_map in Hl; simpl in Hl; lia|]. eauto.
Qed.

Lemma finish_results_ok n multi curIndex cached res L :
  res_rep res L ->
  res_outcome (fun res' => exists L', res_rep res' L' /\ grown multi L [] L' /\ (curIndex = 0 -> 0 < multi -> NoDup L'))
    (finish_results mem n multi curIndex cached OK res).
Proof.
  intros Hr. pose proof (res_rep_failed _ _ Hr) as Hfail. pose proof Hr as [Hc Ha Hm]. unfold finish_results.
  destruct (r_array res) as [arr|] eqn:Earr.
  2: { do 3 eexists. split; [done|]. left. split; [done|]. exists L. destruct Ha as [-> _].
       split; [done|]. split; [apply grown_nil|]. intros; constructor. }
  destruct (Z.eqb_spec curIndex 0) as [->|Hi]; cbn [negb].
  2: { do 3 eexists. split; [done|]. left. split; [done|]. exists L. split; [done|]. split; [apply grown_nil|done]. }
  change (OK =? OK) with true. cbn [negb]. destruct Ha as (junk & -> & Hl).
  destruct ((r_maxNodes res =? r_nodeCount res) && negb (mem n)) eqn:Ef.
  { apply andb_true_iff in Ef as [_ Ef%negb_true_iff]. do 3 eexists. split; [done|]. right. split; [done|].
    split; [eauto|]. done. }
  destruct (room_for_null res L junk Hr Hl) as (y & junk' & Hroom & Hl'). cbv zeta. rewrite Hroom.
  rewrite array_write_mid by (by rewrite length_map). cbn [mbind outcome_bind].
  destruct (Z.gtb_spec multi 0) as [Hmul|Hmul].
  - set (arr := map (Some ∘ SNode) L ++ Some SNull :: junk'). set (b := length arr).
    assert (Hb : b = (length L + S (length junk'))%nat) by (unfold b, arr; rewrite length_app, length_map; done).
    destruct (dedup_loop_ok L junk' b (S b * S b) [] 0 (map SNode L)) as (arr' & D & E & Hnd & HL & tail & Et & Ht & Hlen).
    { apply dedup_inv_start. }
    { rewrite length_map. lia. }
    { rewrite length_map, Hb. nia. }
    assert (Earr2 : map (Some ∘ SNode) [] ++ map Some (replicate 0 SInvalid ++ map SNode L) ++ Some SNull :: junk' = arr)
      by (unfold arr; cbn [map app replicate]; by rewrite List.map_map).
    rewrite Earr2 in E. change (Z.of_nat (length (@nil nat) + 0)) with 0 in E.
    change (Z.of_nat (length (@nil nat))) with 0 in E. fold b. rewrite E. cbn [mbind outcome_bind].
    rewrite Et in *. destruct tail as [|z tail]; [simpl in Ht; lia|].
    rewrite array_write_mid by (by rewrite length_map). cbn [mbind outcome_bind].
    do 3 eexists. split; [done|]. left. split; [done|]. exists D. split; [|split; [|done]].
    + split; cbn; [done| |].
      * exists (Some SNull :: tail). split; [done|]. clear - Hlen Hl'. rewrite !length_app, !length_map in *. simpl in *. lia.
      * assert (Hle : (length D <= length L)%nat).
        { apply NoDup_incl_length; [by apply NoDup_ListNoDup|]. intros x Hx. apply list_elem_of_In, HL. by apply list_elem_of_In. }
        lia.
    + split; [lia|]. intros x. rewrite elem_of_nil, HL. tauto.
  - do 3 eexists. split; [done|]. left. split; [done|]. exists L. split; [|split; [apply grown_nil|lia]].
    split; cbn; [done| |done]. exists (Some SNull :: junk'). split; [done|]. rewrite length_app in *. simpl in *. lia.
Qed.

(** A failed search ends with no results. *)
Lemma finish_results_failed n multi curIndex cached rc res :
  rc <> OK -> failed_ok res ->
  exists res' n', finish_results mem n multi curIndex cached rc res = Ret (rc, res', n') /\ failed_ok res'
    /\ (curIndex = 0 -> r_nodeCount res' = 0).
Proof.
  intros Hrc Hf. unfold finish_results. destruct (r_array res) as [arr|] eqn:Ea.
  - destruct (Z.eqb_spec curIndex 0) as [->|Hi]; cbn [negb].
    + rewrite (proj2 (Z.eqb_neq rc OK)) by done. cbn [negb]. do 2 eexists. split; [done|]. split; [|done]. by intros ?.
    + do 2 eexists. split; [done|]. split; [|done]. unfold failed_ok. by rewrite Ea.
  - do 2 eexists. split; [done|]. split; [done|]. auto.
Qed.
End Appending.
