(* ===== verification/TreeMatch.v ===== *)
(** * Filters of the subscription tree

    The paths of the tree, which filters match which topics, and the
    well-formedness of the tree. *)

From S2P Require Import Prelude TopicString TopicLevels ChildTable TopicTree.
From stdpp Require Import gmap.
#[local] Open Scope Z_scope.

(** ** Filters and topics *)

Inductive level := LWord (s : list Z) | LPlus | LHash.

#[global] Instance level_eq_dec : EqDecision level.
Proof. solve_decision. Defined.

Definition classify (l : list Z) : level :=
  if bool_decide (l = [PLUS]) then LPlus else if bool_decide (l = [HASH]) then LHash else LWord l.

(** The levels of a filter string. *)
Definition filter_levels (s : list Z) : list level := map classify (levels s).

Definition level_string (l : level) : list Z :=
  match l with LWord s => s | LPlus => [PLUS] | LHash => [HASH] end.

(** [pmatch sys i p ts]: the filter levels [p] match the topic levels [ts], which
    start at index [i] of the topic.  A plus matches one level, a hash any number
    of levels, also none; neither matches the levels of a system topic before
    [sys]. *)
Fixpoint pmatch (sys i : Z) (p : list level) (ts : list (list Z)) : Prop :=
  match p with
  | [] => ts = []
  | LWord s :: p => match ts with x :: ts => s = x /\ pmatch sys (i + 1) p ts | [] => False end
  | LPlus :: p => match ts with _ :: ts => sys <= i /\ pmatch sys (i + 1) p ts | [] => False end
  | LHash :: p => sys <= i /\ exists k, (k <= length ts)%nat /\ pmatch sys (i + Z.of_nat k) p (drop k ts)
  end.

(** The type of the node of a level. *)
Definition level_type (l : level) : Z :=
  match l with
  | LWord _ => iettNODE_FLAG_NORMAL | LPlus => iettNODE_FLAG_WILDCARD | LHash => iettNODE_FLAG_MULTICARD
  end.

Definition is_hash (l : level) : bool := match l with LHash => true | _ => false end.
Lemma level_type_hash l : (level_type l =? iettNODE_FLAG_MULTICARD) = is_hash l.
Proof. by destruct l. Qed.

Definition hashes (p : list level) : nat := length (List.filter is_hash p).

Section Walk.
Context {T : Type} `{!ChildTable T}.
Implicit Types (h : gmap nat (iettSubsNode_t T)).

(** ** Paths *)

Definition child_of h (a : nat) (l : level) : option nat :=
  node ← h !! a;
  match l with
  | LPlus => wildcardChild node
  | LHash => multicardChild node
  | LWord s => t ← children node;
               match ct_get t s (iett_generateSubstringHash s) with Ret (_, v) => v | _ => None end
  end.

Fixpoint walk h (a : nat) (p : list level) : option nat :=
  match p with [] => Some a | l :: p => c ← child_of h a l; walk h c p end.

Definition active_at h (a : nat) : bool := match h !! a with Some nd => is_active nd | None => false end.

Lemma walk_app h a p q : walk h a (p ++ q) = b ← walk h a p; walk h b q.
Proof. revert a. induction p as [|l p IH]; intros a; simpl; [done|]. destruct (child_of h a l); simpl; auto. Qed.

(** ** Well-formed trees

    [n] is the number of allocations so far: the addresses are below it, and a
    child was allocated after its parent. *)
Record tree_wf `{!ChildTableLaws T} (n : nat) h : Prop := {
  tw_root : is_Some (h !! 0%nat);
  tw_top nd : h !! 0%nat = Some nd -> n_parent nd = None;
  tw_child a l c : child_of h a l = Some c -> (a < c < n)%nat /\ is_Some (h !! c);
  tw_dom a : is_Some (h !! a) -> (a < n)%nat;
  tw_tables a nd t : h !! a = Some nd -> children nd = Some t -> exists m, ct_rep t m;
  tw_inj a l a' l' c : child_of h a l = Some c -> child_of h a' l' = Some c -> a = a' /\ l = l';
  tw_type a l c nd : child_of h a l = Some c -> h !! c = Some nd ->
    Z.land (nodeFlags nd) iettNODE_FLAG_TYPE_MASK = level_type l;
  tw_level a l c : child_of h a l = Some c -> is_level (level_string l);
  tw_parent a l c nd pd : child_of h a l = Some c -> h !! c = Some nd -> h !! a = Some pd ->
    n_parent nd = Some a /\ n_topicString nd = Some (new_topicString pd (level_string l))
}.
Context `{!ChildTableLaws T}.

Lemma walk_dom n h a p c : tree_wf n h -> is_Some (h !! a) -> walk h a p = Some c -> is_Some (h !! c) /\ (a <= c)%nat.
Proof.
  intros Hw. revert a. induction p as [|l p IH]; intros a Ha E; simpl in E; [by simplify_eq|].
  destruct (child_of h a l) as [b|] eqn:Eb; [|done]. simpl in E.
  destruct (tw_child _ _ Hw _ _ _ Eb) as [? Hb]. destruct (IH _ Hb E). split; [done|lia].
Qed.

(** A node has one path. *)
Lemma walk_inj n h a p q c :
  tree_wf n h -> is_Some (h !! a) -> walk h a p = Some c -> walk h a q = Some c -> p = q.
Proof.
  intros Hw Ha. assert (Hroot : forall b q l, walk h a q = Some b -> child_of h b l <> Some a).
  { intros b q' l Hq Hl. apply (tw_child _ _ Hw) in Hl as [Hl _]. apply (walk_dom n) in Hq as [_ Hq]; [|done..]. lia. }
  revert q c. induction p as [|l p IH] using rev_ind; intros q c Hp Hq.
  - destruct q as [|l q _] using rev_ind; [done|]. rewrite walk_app in Hq. simpl in *. simplify_eq.
    destruct (walk h c q) as [b|] eqn:Eb; [|done]. simpl in Hq. destruct (child_of h b l) eqn:E; [|done].
    simplify_eq/=. by apply (Hroot b q) in E.
  - rewrite walk_app in Hp. destruct (walk h a p) as [b|] eqn:Eb; [|done]. simpl in Hp.
    destruct (child_of h b l) as [c'|] eqn:Ec; [|done]. simplify_eq/=.
    destruct q as [|l' q _] using rev_ind; [simpl in Hq; simplify_eq; by apply (Hroot b p) in Ec|].
    rewrite walk_app in Hq. destruct (walk h a q) as [b'|] eqn:Eb'; [|done]. simpl in Hq.
    destruct (child_of h b' l') as [c2|] eqn:Ec'; [|done]. simplify_eq/=.
    destruct (tw_inj _ _ Hw _ _ _ _ _ Ec Ec') as [-> ->]. f_equal. by eapply IH.
Qed.

(** ** The nodes of the matching filters, in the order of the search *)

Definition act h (a : nat) : list nat := if active_at h a then [a] else [].

(** A node and the multicards below it. *)
Fixpoint chain (fuel : nat) h (a : nat) : list nat :=
  match fuel with
  | O => []
  | S fuel => act h a ++ match child_of h a LHash with Some d => chain fuel h d | None => [] end
  end.

(** [g] on every non-empty suffix of the topic. *)
Fixpoint suffixes (g : Z -> list (list Z) -> list nat) (i : Z) (ts : list (list Z)) : list nat :=
  match ts with [] => [] | x :: rest => g i ts ++ suffixes g (i + 1) rest end.

Definition below (o : option nat) (g : nat -> list nat) : list nat := match o with Some c => g c | None => [] end.

Fixpoint found (fuel : nat) h (sys : Z) (a : nat) (i : Z) (ts : list (list Z)) : list nat :=
  match fuel, ts with
  | S fuel, x :: rest =>
      let descend c := match rest with [] => chain fuel h c | _ => found fuel h sys c (i + 1) rest end in
      below (child_of h a (LWord x)) descend ++
      if sys <=? i then
        below (child_of h a LPlus) descend ++
        below (child_of h a LHash) (fun c => act h c ++ suffixes (found fuel h sys c) i ts)
      else []
  | _, _ => []
  end.

Lemma elem_act h a x : x ∈ act h a <-> x = a /\ active_at h a = true.
Proof.
  unfold act. destruct (active_at h a); rewrite ?list_elem_of_singleton, ?elem_of_nil; naive_solver.
Qed.

Lemma elem_below o g x : x ∈ below o g <-> exists c, o = Some c /\ x ∈ g c.
Proof. destruct o; simpl; rewrite ?elem_of_nil; naive_solver. Qed.

Lemma elem_suffixes g i ts x :
  x ∈ suffixes g i ts <-> exists k, (k < length ts)%nat /\ x ∈ g (i + Z.of_nat k) (drop k ts).
Proof.
  revert i. induction ts as [|t ts IH]; intros i; simpl.
  - rewrite elem_of_nil. split; [done|]. intros (k & ? & _). lia.
  - rewrite elem_of_app, IH. split.
    + intros [Hx|(k & Hk & Hx)]; [exists 0%nat; rewrite Z.add_0_r; split; [lia|done]|].
      exists (S k). split; [lia|]. simpl. by replace (i + Z.of_nat (S k)) with (i + 1 + Z.of_nat k) by lia.
    + intros ([|k] & Hk & Hx); [left; by rewrite Z.add_0_r in Hx|right]. exists k. split; [lia|].
      simpl in Hx. by replace (i + 1 + Z.of_nat k) with (i + Z.of_nat (S k)) by lia.
Qed.

(** ** The search finds exactly the matching filters *)

Lemma pmatch_nil sys i p : pmatch sys i p [] <-> (exists k, p = replicate k LHash) /\ (p = [] \/ sys <= i).
Proof.
  revert i. induction p as [|l p IH]; intros i; simpl.
  - split; [intros _|done]. split; [by exists 0%nat|by left].
  - destruct l as [w| |].
    + split; [done|]. by intros [[[|k] ?] _].
    + split; [done|]. by intros [[[|k] ?] _].
    + split.
      * intros (Hi & k & Hk & Hp). destruct k; [|lia]. rewrite Z.add_0_r in Hp. apply IH in Hp as [[k ->] _].
        split; [by exists (S k)|by right].
      * intros [[[|k] Ek] [?|Hi]]; simplify_eq/=. split; [done|]. exists 0%nat. split; [lia|].
        rewrite Z.add_0_r. apply IH. split; [by eexists|by right].
Qed.

Lemma pmatch_hashes sys i m ts : sys <= i -> pmatch sys i (replicate (S m) LHash) ts.
Proof.
  intros Hi. simpl. split; [done|]. exists (length ts). split; [done|]. rewrite drop_all. apply pmatch_nil.
  split; [by eexists|]. right. lia.
Qed.

Lemma drop_ne_nil {A} k (l : list A) : (k < length l)%nat -> drop k l <> [].
Proof. intros Hk E. apply (f_equal length) in E. rewrite length_drop in E. simpl in E. lia. Qed.

Section Exact.
Context (n : nat) (h : gmap nat (iettSubsNode_t T)) (Hw : tree_wf n h).

Definition has_path (a : nat) (P : list level -> Prop) (x : nat) : Prop :=
  exists p, walk h a p = Some x /\ active_at h x = true /\ P p.

Lemma has_path_below (a : nat) (l : level) (g : nat -> list nat) (P : list level -> Prop) x :
  (forall c, child_of h a l = Some c -> x ∈ g c <-> has_path c P x) ->
  x ∈ below (child_of h a l) g <-> has_path a (fun p => exists q, p = l :: q /\ P q) x.
Proof.
  intros Hg. rewrite elem_below. split.
  - intros (c & Ec & Hx). apply Hg in Hx as (p & Hp & Ha & HP); [|done]. exists (l :: p). simpl. rewrite Ec. eauto.
  - intros (p & Hp & Ha & q & -> & HP). simpl in Hp. destruct (child_of h a l) as [c|] eqn:Ec; [|done].
    exists c. split; [done|]. apply Hg; [done|]. by exists q.
Qed.

Lemma chain_spec fuel : forall a x,
  (n - a < fuel)%nat -> x ∈ chain fuel h a <-> has_path a (fun p => exists k, p = replicate k LHash) x.
Proof.
  induction fuel as [|fuel IH]; intros a x Hf; [lia|]. simpl.
  rewrite elem_of_app, elem_act. fold (below (child_of h a LHash) (chain fuel h)).
  rewrite (has_path_below _ _ _ (fun p => exists k, p = replicate k LHash)).
  - unfold has_path. split.
    + intros [[-> Ha]|(p & Hp & Ha & q & -> & k & ->)]; [exists []; split; [done|]; split; [done|]; by exists 0%nat|].
      exists (LHash :: replicate k LHash). split; [done|]. split; [done|]. by exists (S k).
    + intros (p & Hp & Ha & [|k] & ->); [left; by simplify_eq/=|right]. exists (replicate (S k) LHash). eauto 10.
  - intros c Ec. apply IH. apply (tw_child _ _ Hw) in Ec. lia.
Qed.

Lemma found_spec sys fuel : forall a i ts x,
  sys <= 1 -> 0 <= i -> ts <> [] -> (n - a < fuel)%nat ->
  x ∈ found fuel h sys a i ts <-> has_path a (fun p => pmatch sys i p ts) x.
Proof.
  induction fuel as [|fuel IH]; intros a i ts x Hsys Hi Hne Hf; [lia|]. destruct ts as [|t rest]; [done|]. cbn [found].
  set (descend := fun c => match rest with [] => chain fuel h c | _ => found fuel h sys c (i + 1) rest end).
  assert (Hd : forall l c, child_of h a l = Some c -> x ∈ descend c <-> has_path c (fun p => pmatch sys (i + 1) p rest) x).
  { intros l c Ec. apply (tw_child _ _ Hw) in Ec as [Ec _]. unfold descend. destruct rest as [|t' rest].
    - rewrite chain_spec by lia. unfold has_path. setoid_rewrite pmatch_nil. split.
      + intros (p & H1 & H2 & H3). exists p. split; [done|]. split; [done|]. split; [done|]. right. lia.
      + intros (p & H1 & H2 & H3 & _). eauto.
    - apply IH; (done || lia). }
  assert (Hh : sys <= i -> forall c, child_of h a LHash = Some c ->
    x ∈ act h c ++ suffixes (found fuel h sys c) i (t :: rest) <->
    has_path c (fun p => exists k, (k <= length (t :: rest))%nat /\ pmatch sys (i + Z.of_nat k) p (drop k (t :: rest))) x).
  { intros Hs c Ec. apply (tw_child _ _ Hw) in Ec as [Ec _].
    rewrite elem_of_app, elem_act, elem_suffixes. split.
    - intros [[-> Ha]|(k & Hk & Hx)].
      + exists []. split; [done|]. split; [done|]. exists (length (t :: rest)). split; [done|]. by rewrite drop_all.
      + apply IH in Hx as (p & Hp & Ha & Hm); [|done|lia|by apply drop_ne_nil|lia].
        exists p. split; [done|]. split; [done|]. exists k. split; [lia|done].
    - intros (p & Hp & Ha & k & Hk & Hm). destruct p as [|l p]; [left; by simplify_eq/=|right].
      destruct (decide (k < length (t :: rest))%nat) as [Hlt|Hge].
      + exists k. split; [done|]. apply IH; [done|lia|by apply drop_ne_nil|lia|]. by exists (l :: p).
      + replace k with (length (t :: rest)) in Hm by lia. rewrite drop_all in Hm.
        apply pmatch_nil in Hm as [[[|m] Em] _]; [done|]. rewrite Em in *. exists 0%nat. split; [simpl; lia|].
        apply IH; [done|lia|done|lia|]. exists (replicate (S m) LHash). split; [done|]. split; [done|].
        apply pmatch_hashes. lia. }
  rewrite elem_of_app, (has_path_below _ _ _ (fun p => pmatch sys (i + 1) p rest)) by apply Hd.
  destruct (Z.leb_spec sys i) as [Hs|Hs].
  - rewrite elem_of_app, (has_path_below _ _ _ (fun p => pmatch sys (i + 1) p rest)) by apply Hd.
    rewrite has_path_below by (by apply Hh). unfold has_path. split.
    + intros [(p & H1 & H2 & q & -> & H3)|[(p & H1 & H2 & q & -> & H3)|(p & H1 & H2 & q & -> & H3)]];
        (eexists; split; [exact H1|]; split; [exact H2|]; simpl; auto).
    + intros ([|l p] & H1 & H2 & H3); [done|].
      destruct l as [w| |]; simpl in H3; destruct H3 as [H3 H4]; [subst w; left|right; left|right; right];
        (eexists; split; [exact H1|]; split; [done|]; exists p; split; [done|]; exact H4).
  - rewrite elem_of_nil. unfold has_path. split.
    + intros [(p & H1 & H2 & q & -> & H3)|[]].
      eexists. split; [exact H1|]. split; [exact H2|]. simpl. auto.
    + intros ([|[w| |] p] & H1 & H2 & H3); simpl in H3; [done|destruct H3 as [-> H3]; left; eexists; eauto 10|lia..].
Qed.

(** ** It finds them once *)

Lemma pmatch_length sys i p ts : hashes p = 0%nat -> pmatch sys i p ts -> length p = length ts.
Proof.
  revert i ts. induction p as [|[w| |] p IH]; intros i ts Hh Hm; simpl in Hm; [by subst| | |done].
  - destruct ts as [|x ts]; [done|]. destruct Hm as [_ Hm]. simpl. f_equal. by eapply IH.
  - destruct ts as [|x ts]; [done|]. destruct Hm as [_ Hm]. simpl. f_equal. by eapply IH.
Qed.

Lemma nodup_app_disjoint {A} (l k : list A) :
  NoDup l -> NoDup k -> (forall x, x ∈ l -> x ∈ k -> False) -> NoDup (l ++ k).
Proof. intros. apply NoDup_app. eauto. Qed.

Lemma act_nodup a : NoDup (act h a).
Proof. unfold act. destruct (active_at h a); [apply NoDup_singleton|constructor]. Qed.

Lemma below_nodup o g : (forall c, o = Some c -> NoDup (g c)) -> NoDup (below o g).
Proof. destruct o; simpl; [auto|constructor]. Qed.

Lemma suffixes_nodup g i ts :
  (forall k, (k < length ts)%nat -> NoDup (g (i + Z.of_nat k) (drop k ts))) ->
  (forall k1 k2 x, (k1 < k2 < length ts)%nat -> x ∈ g (i + Z.of_nat k1) (drop k1 ts) ->
     x ∈ g (i + Z.of_nat k2) (drop k2 ts) -> False) ->
  NoDup (suffixes g i ts).
Proof.
  revert i. induction ts as [|t ts IH]; intros i Hn Hd; simpl; [constructor|].
  assert (Hshift : forall k, i + Z.of_nat (S k) = i + 1 + Z.of_nat k) by lia.
  apply nodup_app_disjoint.
  - specialize (Hn 0%nat). rewrite Z.add_0_r in Hn. apply Hn. simpl. lia.
  - apply IH.
    + intros k Hk. rewrite <- Hshift. apply (Hn (S k)). simpl. lia.
    + intros k1 k2 x Hk. rewrite <- !Hshift. apply (Hd (S k1) (S k2)). simpl. lia.
  - intros x Hx (k & Hk & Hx')%elem_suffixes. apply (Hd 0%nat (S k) x); [simpl; lia| |].
    + by rewrite Z.add_0_r.
    + by rewrite Hshift.
Qed.

Definition at_most (m : nat) (a : nat) : Prop :=
  forall p x, walk h a p = Some x -> active_at h x = true -> (hashes p <= m)%nat.

(** Two results below one node have the same path. *)
Lemma below_disjoint a l l' g g' (P P' : list level -> Prop) x :
  is_Some (h !! a) -> l <> l' ->
  (forall c, child_of h a l = Some c -> x ∈ g c -> has_path c P x) ->
  (forall c, child_of h a l' = Some c -> x ∈ g' c -> has_path c P' x) ->
  x ∈ below (child_of h a l) g -> x ∈ below (child_of h a l') g' -> False.
Proof.
  intros Ha Hne Hg Hg' (c & Ec & Hx)%elem_below (c' & Ec' & Hx')%elem_below.
  destruct (Hg c Ec Hx) as (p & Hp & _). destruct (Hg' c' Ec' Hx') as (p' & Hp' & _).
  assert (l :: p = l' :: p'); [|congruence].
  eapply (walk_inj n h a); [done|done|simpl; by rewrite Ec|simpl; by rewrite Ec'].
Qed.

Lemma chain_nodup fuel : forall a, is_Some (h !! a) -> (n - a < fuel)%nat -> NoDup (chain fuel h a).
Proof.
  induction fuel as [|fuel IH]; intros a Ha Hf; [lia|]. cbn [chain].
  fold (below (child_of h a LHash) (chain fuel h)).
  assert (Hc : forall c, child_of h a LHash = Some c -> is_Some (h !! c) /\ (n - c < fuel)%nat)
    by (intros c Ec; apply (tw_child _ _ Hw) in Ec as [? ?]; split; [done|lia]).
  apply nodup_app_disjoint; [apply act_nodup|apply below_nodup; intros c Ec; by apply IH; apply Hc|].
  intros x [-> _]%elem_act (c & Ec & Hx)%elem_below. destruct (Hc c Ec).
  apply chain_spec in Hx as (p & Hp & _); [|done].
  assert ([] = LHash :: p); [|done]. eapply (walk_inj n h a); [done|done|done|simpl; by rewrite Ec].
Qed.

Lemma found_nodup sys fuel : forall m a i ts,
  sys <= 1 -> 0 <= i -> (m <= 1)%nat -> is_Some (h !! a) -> at_most m a -> (n - a < fuel)%nat ->
  NoDup (found fuel h sys a i ts).
Proof.
  induction fuel as [|fuel IH]; intros m a i ts Hsys Hi Hm Ha Hat Hf; [lia|].
  destruct ts as [|t rest]; [constructor|]. cbn [found].
  set (descend := fun c => match rest with [] => chain fuel h c | _ => found fuel h sys c (i + 1) rest end).
  assert (Hc : forall l c, child_of h a l = Some c -> is_Some (h !! c) /\ (n - c < fuel)%nat /\
      at_most (m - (if is_hash l then 1 else 0)) c /\ (active_at h c = true -> is_hash l = true -> (0 < m)%nat)).
  { intros l c Ec. pose proof Ec as [? ?]%(tw_child _ _ Hw). split; [done|]. split; [lia|]. split.
    - intros p x Hp Hx. specialize (Hat (l :: p) x). simpl in Hat. rewrite Ec in Hat. specialize (Hat Hp Hx).
      unfold hashes in *. simpl in Hat. destruct (is_hash l); simpl in Hat; lia.
    - intros Hx Hl. specialize (Hat [l] c). simpl in Hat. rewrite Ec in Hat. specialize (Hat eq_refl Hx).
      unfold hashes in Hat. simpl in Hat. rewrite Hl in Hat. simpl in Hat. lia. }
  assert (Hdp : forall l c x, child_of h a l = Some c -> x ∈ descend c -> has_path c (fun _ => True) x).
  { intros l c x Ec Hx. destruct (Hc l c Ec) as (_ & Hfc & _). unfold descend in Hx. destruct rest.
    - apply chain_spec in Hx as (p & ? & ? & _); [|done]. by exists p.
    - apply found_spec in Hx as (p & ? & ? & _); [|done|lia|done|done]. by exists p. }
  assert (Hdn : forall l c, is_hash l = false -> child_of h a l = Some c -> NoDup (descend c)).
  { intros l c Hl Ec. destruct (Hc l c Ec) as (Hcd & Hfc & Hatc & _). rewrite Hl, Nat.sub_0_r in Hatc.
    unfold descend. destruct rest; [by apply chain_nodup|]. apply (IH m); (done || lia). }
  assert (Hmp : forall c x, child_of h a LHash = Some c -> x ∈ act h c ++ suffixes (found fuel h sys c) i (t :: rest) ->
      has_path c (fun _ => True) x).
  { intros c x Ec Hx. destruct (Hc LHash c Ec) as (_ & Hfc & _). apply elem_of_app in Hx as [[-> Hx]%elem_act|Hx]; [by exists []|].
    apply elem_suffixes in Hx as (k & Hk & Hx). apply found_spec in Hx as (p & ? & ? & _); [by exists p|done|lia|by apply drop_ne_nil|done]. }
  assert (Hmn : forall c, child_of h a LHash = Some c -> NoDup (act h c ++ suffixes (found fuel h sys c) i (t :: rest))).
  { intros c Ec. destruct (Hc LHash c Ec) as (Hcd & Hfc & Hatc & _). simpl in Hatc.
    assert (Hat0 : at_most 0 c) by (intros p x Hp Hx; specialize (Hatc p x Hp Hx); lia).
    assert (Hsp : forall k x, (k < length (t :: rest))%nat -> x ∈ found fuel h sys c (i + Z.of_nat k) (drop k (t :: rest)) ->
        has_path c (fun p => length p = length (drop k (t :: rest))) x).
    { intros k x Hk Hx. apply found_spec in Hx as (p & Hp & Hxa & Hpm); [|done|lia|by apply drop_ne_nil|done].
      exists p. split; [done|]. split; [done|]. eapply pmatch_length; [|done]. specialize (Hat0 p x Hp Hxa). lia. }
    apply nodup_app_disjoint; [apply act_nodup|apply suffixes_nodup|].
    - intros k Hk. apply (IH 0%nat); (done || lia).
    - intros k1 k2 x Hk Hx1 Hx2. apply Hsp in Hx1 as (p1 & Hp1 & _ & Hl1); [|lia]. apply Hsp in Hx2 as (p2 & Hp2 & _ & Hl2); [|lia].
      assert (p1 = p2) as -> by (eapply (walk_inj n h c); eauto). rewrite Hl1 in Hl2. rewrite !length_drop in Hl2. lia.
    - intros x [-> _]%elem_act (k & Hk & Hx)%elem_suffixes. apply Hsp in Hx as (p & Hp & _ & Hl); [|done].
      assert (p = []) as -> by (eapply (walk_inj n h c); eauto). rewrite length_drop in Hl. simpl in *. lia. }
  apply nodup_app_disjoint.
  - apply below_nodup. intros c Ec. exact (Hdn (LWord t) c eq_refl Ec).
  - destruct (sys <=? i); [|constructor]. apply nodup_app_disjoint.
    + apply below_nodup. intros c Ec. exact (Hdn LPlus c eq_refl Ec).
    + apply below_nodup. auto.
    + intros x. apply (below_disjoint a LPlus LHash _ _ (fun _ => True) (fun _ => True)); [done|done|eauto|eauto].
  - intros x Hx Hx'. destruct (sys <=? i); [|by apply elem_of_nil in Hx']. apply elem_of_app in Hx' as [Hx'|Hx']; revert Hx Hx'.
    + apply (below_disjoint a (LWord t) LPlus _ _ (fun _ => True) (fun _ => True)); [done|done|eauto|eauto].
    + apply (below_disjoint a (LWord t) LHash _ _ (fun _ => True) (fun _ => True)); [done|done|eauto|eauto].
Qed.
End Exact.
End Walk.
