(* ===== verification/TreeSearch.v ===== *)
(** * The search of the subscription tree is exact

    iett_findMatchingSubsNodes (TopicTree.v) returns the nodes of the filters
    that match the topic (TreeMatch.v), each once. *)

From S2P Require Import Prelude TopicString TopicLevels ChildTable TopicTree TreeResults TreeMatch.
From stdpp Require Import gmap.
#[local] Open Scope Z_scope.

(** ** Reading an analysed topic *)

Lemma starts_bound k ls i off :
  starts k ls !! i = Some off -> k <= off < k + size0 ls.
Proof.
  revert k i. induction ls as [|l ls IH]; intros k [|i] E; simpl in E; simplify_eq; rewrite size0_cons.
  - unfold size0. lia.
  - apply IH in E. lia.
Qed.

Lemma array_read_lookup {A} (a : array A) i x : a !! i = Some (Some x) -> array_read a (Z.of_nat i) = Ret x.
Proof. intros E. unfold array_read. destruct (Z.leb_spec 0 (Z.of_nat i)); [|lia]. by rewrite Nat2Z.id, E. Qed.

Lemma terminated_lookup l a i off : terminated l a -> l !! i = Some off -> array_read a (Z.of_nat i) = Ret (Some off).
Proof.
  intros [junk ->] Hi. apply array_read_lookup. apply lookup_app_l_Some. rewrite map_app.
  apply lookup_app_l_Some. rewrite !list_lookup_fmap, Hi. done.
Qed.

Lemma terminated_end l a : terminated l a -> array_read a (Z.of_nat (length l)) = Ret None.
Proof.
  intros [junk ->]. apply array_read_lookup. apply lookup_app_l_Some. rewrite map_app.
  apply list_lookup_middle. by rewrite !length_map.
Qed.

Lemma topic_level has_w has_m s t i x :
  is_cstr s -> analysed has_w has_m s t -> levels s !! i = Some x ->
  exists off, starts 0 (levels s) !! i = Some off
    /\ array_read (substrings t) (Z.of_nat i) = Ret (Some off)
    /\ deref_string t (Some off) = Ret x
    /\ array_read (substringHashes t) (Z.of_nat i) = Ret (iett_generateSubstringHash x).
Proof.
  intros Hs Ha Hi. destruct (level_at (levels s) i x 0 [] (levels_level s Hs) Hi eq_refl) as (off & Ho & Hx).
  exists off. split; [done|]. split; [eapply terminated_lookup; [apply (an_substrings _ _ _ _ Ha)|done]|]. split.
  - unfold deref_string. rewrite (an_copy _ _ _ _ Ha). apply starts_bound in Ho. unfold size0 in Ho.
    destruct (Z.leb_spec 0 off); [|lia]. destruct (Z.ltb_spec off (Z.of_nat (length (joined0 (levels s))))); [|lia].
    simpl. by rewrite <- Hx.
  - destruct (an_hashes _ _ _ _ Ha) as [junk ->]. apply array_read_lookup, lookup_app_l_Some. by rewrite !list_lookup_fmap, Hi.
Qed.

Section Search.
Context {T : Type} `{!ChildTable T} `{!ChildTableLaws T}.
Context (mem : nat -> bool) (N : nat) (h : gmap nat (iettSubsNode_t T)) (Hw : tree_wf N h).

Lemma res_outcome_mono (P Q : results -> Prop) o :
  (forall res, P res -> Q res) -> res_outcome mem P o -> res_outcome mem Q o.
Proof. intros HPQ (rc & res & n & E & [[Erc HP]|Hf]); exists rc, res, n; eauto. Qed.

Lemma and_then_ok (P Q : results -> Prop) o k :
  res_outcome mem P o -> (forall res n, P res -> res_outcome mem Q (k res n)) -> res_outcome mem Q (and_then o k).
Proof.
  intros (rc & res & n & -> & [[-> HP]|(-> & Hi & Hf)]) Hk; unfold and_then; cbn [mbind outcome_bind].
  - change (OK =? OK) with true. cbv iota. auto.
  - do 3 eexists. split; [done|]. right. auto.
Qed.

Lemma ret_ok (P : results -> Prop) res n : P res -> res_outcome mem P (Ret (OK, res, n)).
Proof. intros HP. do 3 eexists. split; [done|]. by left. Qed.

(** ** Collecting a node and the multicards below it *)

Lemma get_node a : is_Some (h !! a) -> exists nd, h !! a = Some nd /\ node_at h a = Ret nd.
Proof. intros [nd E]. exists nd. unfold node_at. by rewrite E. Qed.

Lemma append_active n a nd L res :
  h !! a = Some nd -> res_rep res L ->
  res_outcome mem (fun res' => res_rep res' (L ++ act h a))
    (if is_active nd then append_result mem n res a else Ret (OK, res, n)).
Proof.
  intros Hnd Hr. unfold act, active_at. rewrite Hnd. destruct (is_active nd).
  - by apply append_result_ok.
  - rewrite app_nil_r. by apply ret_ok.
Qed.

Lemma add_active_loop_ok fuel : forall n a L res ty,
  is_Some (h !! a) -> (N - a < fuel)%nat -> res_rep res L ->
  res_outcome mem (fun res' => res_rep res' (L ++ if ty =? iettNODE_FLAG_MULTICARD then act h a else chain fuel h a))
    (add_active_loop mem fuel n h ty (Some a) res).
Proof.
  induction fuel as [|fuel IH]; intros n a L res ty Ha Hf Hr; [lia|]. cbn [add_active_loop chain].
  destruct (get_node a Ha) as (nd & Hnd & ->). cbn [mbind outcome_bind].
  destruct (append_active n a nd L res Hnd Hr) as (rc & res1 & n1 & -> & [[-> H1]|(-> & Hi & Hfl)]); cbn [mbind outcome_bind].
  2: { do 3 eexists. split; [done|]. right. auto. }
  change (OK =? OK) with true. cbn [negb].
  assert (Ec : child_of h a LHash = multicardChild nd) by (unfold child_of; by rewrite Hnd).
  destruct (ty =? iettNODE_FLAG_MULTICARD) eqn:Ety; [destruct fuel; by apply ret_ok|].
  rewrite Ec. destruct (multicardChild nd) as [d|] eqn:Ed.
  - rewrite app_assoc. apply (tw_child _ _ Hw) in Ec as [Hc Hd].
    specialize (IH n1 d (L ++ act h a) res1 ty Hd ltac:(lia) H1). by rewrite Ety in IH.
  - rewrite app_nil_r. destruct fuel; by apply ret_ok.
Qed.

Lemma addActive_ok fuel n a l c L res :
  child_of h a l = Some c -> (N - c < fuel)%nat -> res_rep res L ->
  res_outcome mem (fun res' => res_rep res' (L ++ if is_hash l then act h c else chain fuel h c))
    (iett_addActiveSubsNodes mem fuel n h c res).
Proof.
  intros Ec Hf Hr. pose proof Ec as [_ Hc]%(tw_child _ _ Hw). destruct (get_node c Hc) as (nd & Hnd & Eat).
  unfold iett_addActiveSubsNodes. rewrite Eat. cbn [mbind outcome_bind].
  rewrite <- level_type_hash, <- (tw_type _ _ Hw _ _ _ _ Ec Hnd). by apply add_active_loop_ok.
Qed.

(** ** The search *)

Context (multi : Z) (cached : bool) (topic : iettTopic_t) (s : list Z) (has_w has_m : bool).
Context (Hs : is_cstr s) (Ht : analysed has_w has_m s topic).

Definition grows_to (L M : list nat) (res' : results) : Prop :=
  exists L', res_rep res' L' /\ grown multi L M L'.

Lemma grows_app L M M' res o :
  grows_to L M res -> (forall L1, res_rep res L1 -> res_outcome mem (grows_to L1 M') o) ->
  res_outcome mem (grows_to L (M ++ M')) o.
Proof.
  intros (L1 & Hr & Hg) Ho. eapply res_outcome_mono; [|apply (Ho L1 Hr)].
  intros res' (L2 & Hr2 & Hg2). exists L2. split; [done|]. by eapply grown_app.
Qed.

Lemma rep_grows L res : res_rep res L -> grows_to L [] res.
Proof. intros Hr. exists L. split; [done|]. apply grown_nil. Qed.

Lemma rep_append_grows L M res : res_rep res (L ++ M) -> grows_to L M res.
Proof. intros Hr. exists (L ++ M). split; [done|]. apply grown_append. Qed.

(** The loop below a multicard visits the suffixes of the topic. *)
Lemma multicard_loop_ok g f rounds : forall k n L res,
  (k < length (levels s))%nat -> (length (levels s) - k <= rounds)%nat ->
  (forall j n L res, (k <= j < length (levels s))%nat -> res_rep res L ->
     res_outcome mem (grows_to L (g (Z.of_nat j) (drop j (levels s)))) (f (Z.of_nat j) n res)) ->
  res_rep res L ->
  res_outcome mem (grows_to L (suffixes g (Z.of_nat k) (drop k (levels s))))
    (multicard_loop topic f rounds (Z.of_nat k) n res).
Proof.
  induction rounds as [|rounds IH]; intros k n L res Hk Hr Hf Hrep; [lia|]. cbn [multicard_loop].
  destruct (lookup_lt_is_Some_2 _ _ Hk) as [x Hx]. rewrite (drop_S _ _ _ Hx). cbn [suffixes]. rewrite <- (drop_S _ _ _ Hx).
  eapply and_then_ok; [by apply Hf; [lia|]|]. intros res1 n1 H1. eapply grows_app; [exact H1|]. intros L1 Hr1.
  rewrite (an_count _ _ _ _ Ht). destruct (Z.ltb_spec (Z.of_nat k + 1) (Z.of_nat (length (levels s)))) as [Hlt|Hge].
  - replace (Z.of_nat k + 1) with (Z.of_nat (S k)) by lia. apply IH; [lia|lia| |done]. intros j n2 L2 res2 Hj. apply Hf. lia.
  - rewrite drop_ge by lia. apply ret_ok. by apply rep_grows.
Qed.

Definition sys : Z := sysTopicEndIndex topic.

Lemma sys_le : sys <= 1.
Proof. unfold sys. rewrite (an_sys _ _ _ _ Ht). destruct (bool_decide _); lia. Qed.

(** What a call below depth [k] does to the results [L]. *)
Definition search_ok (fuel : nat) : Prop := forall a k n L res,
  is_Some (h !! a) -> (N - a < fuel)%nat -> (k < length (levels s))%nat -> res_rep res L ->
  exists rc res' n', iett_findMatchingSubsNodes mem multi cached topic fuel h a (Z.of_nat k) n res = Ret (rc, res', n') /\
    (rc = OK /\ (exists L', res_rep res' L' /\ grown multi L (found fuel h sys a (Z.of_nat k) (drop k (levels s))) L'
                            /\ (k = 0%nat -> 0 < multi -> NoDup L'))
     \/ rc = ISMRC_AllocateError /\ (exists i, mem i = false) /\ failed_ok res' /\ (k = 0%nat -> r_nodeCount res' = 0)).

Lemma search_grows fuel a k n L res :
  search_ok fuel -> is_Some (h !! a) -> (N - a < fuel)%nat -> (k < length (levels s))%nat -> res_rep res L ->
  res_outcome mem (grows_to L (found fuel h sys a (Z.of_nat k) (drop k (levels s))))
    (iett_findMatchingSubsNodes mem multi cached topic fuel h a (Z.of_nat k) n res).
Proof.
  intros IH Ha Hf Hk Hr. destruct (IH a k n L res Ha Hf Hk Hr) as (rc & res2 & n2 & -> & Ho).
  do 3 eexists. split; [done|]. destruct Ho as [[-> (L2 & H1 & H2 & _)]|(-> & Hi & Hfl & _)]; [left|by right].
  split; [done|]. by exists L2.
Qed.

Section Node.
Context (fuel : nat) (IH : search_ok fuel) (a k : nat) (x : list Z) (nd : iettSubsNode_t T).
Context (Hnd : h !! a = Some nd) (Hf : (N - a < S fuel)%nat) (Hx : levels s !! k = Some x).
Let rest := drop (S k) (levels s).
Let descend (c : nat) := match rest with [] => chain fuel h c | _ => found fuel h sys c (Z.of_nat k + 1) rest end.

(** Descending into a child by a word or a plus. *)
Lemma descend_ok l c n L res :
  is_hash l = false -> child_of h a l = Some c -> res_rep res L ->
  res_outcome mem (grows_to L (descend c))
    (if Z.of_nat k + 1 =? substringCount topic then iett_addActiveSubsNodes mem fuel n h c res
     else iett_findMatchingSubsNodes mem multi cached topic fuel h c (Z.of_nat k + 1) n res).
Proof.
  intros Hl Ec Hr. pose proof Ec as [Hac Hc]%(tw_child _ _ Hw). pose proof (lookup_lt_Some _ _ _ Hx) as Hk.
  rewrite (an_count _ _ _ _ Ht). unfold descend, rest.
  destruct (Z.eqb_spec (Z.of_nat k + 1) (Z.of_nat (length (levels s)))) as [El|Ne].
  - rewrite drop_ge by lia. eapply res_outcome_mono; [|apply (addActive_ok fuel n a l c L res Ec); [lia|done]].
    intros res2. rewrite Hl. apply rep_append_grows.
  - replace (Z.of_nat k + 1) with (Z.of_nat (S k)) by lia.
    destruct (drop (S k) (levels s)) as [|y ys] eqn:Ed; [apply (f_equal length) in Ed; rewrite length_drop in Ed; simpl in Ed; lia|].
    rewrite <- Ed. apply search_grows; auto; lia.
Qed.

Lemma word_ok n L res :
  res_rep res L ->
  res_outcome mem (grows_to L (below (child_of h a (LWord x)) descend))
    (match children nd with
     | None => Ret (OK, res, n)
     | Some t =>
         sub ← array_read (substrings topic) (Z.of_nat k);
         str ← deref_string topic sub;
         hash ← array_read (substringHashes topic) (Z.of_nat k);
         '(_, v) ← ct_get t str hash;
         match v with
         | Some c => if Z.of_nat k + 1 =? substringCount topic then iett_addActiveSubsNodes mem fuel n h c res
                     else iett_findMatchingSubsNodes mem multi cached topic fuel h c (Z.of_nat k + 1) n res
         | None => Ret (OK, res, n)
         end
     end).
Proof.
  intros Hr. destruct (topic_level _ _ _ _ _ _ Hs Ht Hx) as (off & _ & Esub & Estr & Ehash).
  assert (Ech : child_of h a (LWord x) = t ← children nd; match ct_get t x (iett_generateSubstringHash x) with Ret (_, v) => v | _ => None end)
    by (unfold child_of; by rewrite Hnd).
  destruct (children nd) as [t|] eqn:Et; [|rewrite Ech; apply ret_ok; by apply rep_grows].
  destruct (tw_tables _ _ Hw _ _ _ Hnd Et) as [m Hm].
  rewrite Esub. cbn [mbind outcome_bind]. rewrite Estr. cbn [mbind outcome_bind]. rewrite Ehash. cbn [mbind outcome_bind].
  simpl in Ech. rewrite (ct_get_spec _ _ x Hm) in *. destruct (m !! x) as [c|]; cbn [mbind outcome_bind].
  - rewrite Ech. cbn [below]. by apply (descend_ok (LWord x)).
  - rewrite Ech. apply ret_ok. by apply rep_grows.
Qed.

Lemma plus_ok n L res :
  res_rep res L ->
  res_outcome mem (grows_to L (below (child_of h a LPlus) descend))
    (match wildcardChild nd with
     | Some c => if Z.of_nat k + 1 =? substringCount topic then iett_addActiveSubsNodes mem fuel n h c res
                 else iett_findMatchingSubsNodes mem multi cached topic fuel h c (Z.of_nat k + 1) n res
     | None => Ret (OK, res, n)
     end).
Proof.
  intros Hr. assert (Ech : child_of h a LPlus = wildcardChild nd) by (unfold child_of; by rewrite Hnd). rewrite Ech.
  destruct (wildcardChild nd) as [c|]; [by apply (descend_ok LPlus)|apply ret_ok; by apply rep_grows].
Qed.

Lemma hash_ok n L res :
  res_rep res L ->
  res_outcome mem
    (grows_to L (below (child_of h a LHash) (fun c => act h c ++ suffixes (found fuel h sys c) (Z.of_nat k) (x :: rest))))
    (match multicardChild nd with
     | None => Ret (OK, res, n)
     | Some c =>
         and_then (iett_addActiveSubsNodes mem fuel n h c res) (fun res n =>
           multicard_loop topic (iett_findMatchingSubsNodes mem multi cached topic fuel h c)
             (Z.to_nat (substringCount topic)) (Z.of_nat k) n res)
     end).
Proof.
  intros Hr. assert (Ech : child_of h a LHash = multicardChild nd) by (unfold child_of; by rewrite Hnd). rewrite Ech.
  destruct (multicardChild nd) as [c|]; [|apply ret_ok; by apply rep_grows]. cbn [below].
  pose proof Ech as [Hac Hc]%(tw_child _ _ Hw). pose proof (lookup_lt_Some _ _ _ Hx) as Hk.
  eapply and_then_ok; [apply (addActive_ok fuel n a LHash c L res Ech); [lia|done]|].
  intros res3 n3 H3. eapply grows_app; [apply rep_append_grows, H3|]. intros L3 Hr3.
  unfold rest. rewrite <- (drop_S _ _ _ Hx). apply multicard_loop_ok; [done|rewrite (an_count _ _ _ _ Ht); lia| |done].
  intros j n4 L4 res4 Hj Hr4. apply search_grows; auto; lia.
Qed.
End Node.

(** An error at the top leaves no results. *)
Lemma finish_zero n cached' res rc res' n' :
  finish_results mem n multi 0 cached' OK res = Ret (rc, res', n') -> rc <> OK -> r_nodeCount res' = 0.
Proof.
  unfold finish_results. destruct (r_array res) eqn:Ea; [|by intros [=]].
  simpl. destruct (_ && _); [by intros [= <- <-]|].
  intros E. apply bind_ret_inv in E as (arr & _ & E). destruct (multi >? 0); [|by simplify_eq].
  apply bind_ret_inv in E as ([? ?] & _ & E). apply bind_ret_inv in E as (? & _ & E). by simplify_eq.
Qed.

Lemma find_ok fuel : search_ok fuel.
Proof.
  induction fuel as [|fuel IH]; intros a k n L res Ha Hf Hk Hrep; [lia|]. cbn [iett_findMatchingSubsNodes].
  destruct (get_node a Ha) as (nd & Hnd & ->). cbn [mbind outcome_bind].
  destruct (lookup_lt_is_Some_2 _ _ Hk) as [x Hx]. rewrite (drop_S _ _ _ Hx). cbn [found].
  match goal with |- context [grown multi L ?f] => set (F := f) end.
  match goal with |- context [mbind _ ?b] => set (body := b) end.
  assert (Hbody : res_outcome mem (grows_to L F) body).
  { unfold F, body. eapply and_then_ok; [by apply (word_ok fuel IH a k x nd Hnd Hf Hx)|].
    intros res1 n1 H1. eapply grows_app; [exact H1|]. intros L1 Hr1. fold sys. rewrite Z.geb_leb.
    destruct (sys <=? Z.of_nat k); [|apply ret_ok; by apply rep_grows].
    eapply and_then_ok; [by apply (plus_ok fuel IH a k x nd Hnd Hf Hx)|].
    intros res2 n2 H2. eapply grows_app; [exact H2|]. intros L2 Hr2.
    by apply (hash_ok fuel IH a k x nd Hnd Hf Hx). }
  destruct Hbody as (rc & res1 & n1 & -> & [[-> (L1 & Hr1 & Hg1)]|(-> & Hi & Hfl)]); cbn [mbind outcome_bind].
  - destruct (finish_results_ok mem n1 multi (Z.of_nat k) cached res1 L1 Hr1) as (rc & res2 & n2 & E & Ho).
    rewrite E. do 3 eexists. split; [done|]. destruct Ho as [[-> (L2 & Hr2 & Hg2 & Hnd2)]|(-> & Hi & Hfl)]; [left|right].
    + split; [done|]. exists L2. split; [done|]. split; [|intros ->; auto].
      pose proof (grown_app _ _ _ _ _ _ Hg1 Hg2) as Hg. by rewrite app_nil_r in Hg.
    + split_and!; [done..|]. intros ->. by eapply finish_zero.
  - destruct (finish_results_failed mem n1 multi (Z.of_nat k) cached ISMRC_AllocateError res1 ltac:(done) Hfl)
      as (res2 & n2 & -> & Hf2 & Hc2).
    do 3 eexists. split; [done|]. right. split_and!; [done..|]. intros ->. auto.
Qed.
End Search.
