(* ===== verification/TreeInsert.v ===== *)
(** * Inserting filters into the subscription tree

    iett_insertOrFindSubsNode (TopicTree.v): it finds the node of a filter when
    there is one, and otherwise extends the tree by exactly the nodes of the
    filter's prefixes. *)

From S2P Require Import Prelude TopicString TopicLevels ChildTable TopicTree TreeMatch TreeSearch.
From stdpp Require Import gmap.
#[local] Open Scope Z_scope.

(** ** Kinds of levels *)

Definition level_kind (l : level) : node_kind :=
  match l with LWord _ => Knormal | LPlus => Kwild | LHash => Kmulti end.

Lemma card_starts_app c k l1 l2 :
  card_starts c k (l1 ++ l2) = card_starts c k l1 ++ card_starts c (k + size0 l1) l2.
Proof.
  revert k. induction l1 as [|l l1 IH]; intros k; simpl; [unfold size0; simpl; by rewrite Z.add_0_r|].
  rewrite IH, <- app_assoc, size0_cons. do 3 f_equal. lia.
Qed.

Lemma card_starts_ge c k ls : Forall (fun off => k <= off) (card_starts c k ls).
Proof.
  revert k. induction ls as [|l ls IH]; intros k; simpl; [constructor|]. apply Forall_app. split.
  - case_bool_decide; repeat constructor. lia.
  - eapply Forall_impl; [apply IH|]. simpl. lia.
Qed.

Lemma starts_at ls i l : ls !! i = Some l -> starts 0 ls !! i = Some (size0 (take i ls)).
Proof.
  enough (G : forall k, ls !! i = Some l -> starts k ls !! i = Some (k + size0 (take i ls))) by apply (G 0).
  revert i. induction ls as [|x ls IH]; intros [|i] k Hi; simpl in *; try done.
  - by rewrite Z.add_0_r.
  - rewrite IH, size0_cons by done. f_equal. lia.
Qed.

(** The next wildcard pointer points to this level exactly when it is a wildcard. *)
Lemma card_at c ls a i l :
  terminated (card_starts c 0 ls) a -> ls !! i = Some l ->
  exists w, array_read a (Z.of_nat (length (card_starts c 0 (take i ls)))) = Ret w
    /\ (w = Some (size0 (take i ls)) <-> l = [c]).
Proof.
  intros Ht Hi. set (n := length (card_starts c 0 (take i ls))).
  assert (Hsplit : card_starts c 0 ls = card_starts c 0 (take i ls) ++
      (if bool_decide (l = [c]) then [size0 (take i ls)] else []) ++
      card_starts c (size0 (take i ls) + Z.of_nat (length l) + 1) (drop (S i) ls)).
  { rewrite <- (take_drop_middle ls i l Hi) at 1. by rewrite card_starts_app. }
  case_bool_decide as E.
  - exists (Some (size0 (take i ls))). split; [|done]. eapply terminated_lookup; [exact Ht|].
    rewrite Hsplit. by apply list_lookup_middle.
  - destruct (card_starts c (size0 (take i ls) + Z.of_nat (length l) + 1) (drop (S i) ls)) as [|off rest] eqn:Er.
    + exists None. split; [|by split; congruence]. rewrite Hsplit in Ht. simpl in Ht. rewrite app_nil_r in Ht.
      by apply terminated_end.
    + exists (Some off). split; [eapply terminated_lookup; [exact Ht|]; rewrite Hsplit; by apply list_lookup_middle|].
      pose proof (card_starts_ge c (size0 (take i ls) + Z.of_nat (length l) + 1) (drop (S i) ls)) as Hge.
      rewrite Er in Hge. apply Forall_cons in Hge as [Hge _]. split; [|done]. intros [= ->]. lia.
Qed.

Lemma card_count_next c ls i l :
  ls !! i = Some l ->
  Z.of_nat (length (card_starts c 0 (take (S i) ls)))
  = Z.of_nat (length (card_starts c 0 (take i ls))) + if bool_decide (l = [c]) then 1 else 0.
Proof.
  intros Hi. rewrite (take_S_r _ _ _ Hi), card_starts_snoc, length_app. case_bool_decide; simpl; lia.
Qed.

Section InsertCorrect.
Context {T : Type} `{!ChildTable T} `{!ChildTableLaws T} (mem : nat -> bool).
Implicit Types (h : gmap nat (iettSubsNode_t T)).

(** ** Adding one node *)

Definition alloc_failed (rc : Z) : Prop := rc = ISMRC_AllocateError /\ exists i, mem i = false.

Lemma new_flags_type topic l ws ms :
  Z.land (new_flags topic (level_kind l) ws ms) iettNODE_FLAG_TYPE_MASK = level_type l.
Proof.
  unfold new_flags. destruct l, (ms >? 1), (negb (ws =? 0) || negb (ms =? 0)), (negb (sysTopicEndIndex topic =? 0));
    vm_compute; reflexivity.
Qed.

(** What linking a new node to its parent does to the children of the parent. *)
Definition linked (pnode pnode' : iettSubsNode_t T) (l : level) (a : nat) : Prop :=
  n_topicString pnode' = n_topicString pnode /\ n_parent pnode' = n_parent pnode
  /\ nodeFlags pnode' = nodeFlags pnode /\ is_active pnode' = is_active pnode
  /\ (l <> LPlus -> wildcardChild pnode' = wildcardChild pnode)
  /\ (l <> LHash -> multicardChild pnode' = multicardChild pnode)
  /\ match l with
     | LPlus => wildcardChild pnode' = Some a /\ children pnode' = children pnode
     | LHash => multicardChild pnode' = Some a /\ children pnode' = children pnode
     | LWord w => exists t' m', children pnode' = Some t' /\ ct_rep t' m' /\
                   forall k, m' !! k = if bool_decide (k = w) then Some a else
                     t ← children pnode; match ct_get t k (iett_generateSubstringHash k) with Ret (_, v) => v | _ => None end
     end.

Lemma link_normal_ok n pnode w a :
  (forall t, children pnode = Some t -> exists m, ct_rep t m) ->
  (t ← children pnode; match ct_get t w (iett_generateSubstringHash w) with Ret (_, v) => v | _ => None end) = None ->
  exists rc pnode' n', link_normal mem n pnode w (iett_generateSubstringHash w) a = Ret (rc, pnode', n') /\ (n <= n')%nat /\
    (rc = OK /\ linked pnode pnode' (LWord w) a \/ alloc_failed rc).
Proof.
  intros Hrep Hnone. unfold link_normal.
  (* the table before the node is put in *)
  set (old := fun k => t ← children pnode; match ct_get t k (iett_generateSubstringHash k) with Ret (_, v) => v | _ => None end).
  assert (Hprep : exists rc pnode1 n1,
    match children pnode with
    | None => let '(rc, t, n) := ct_create mem n iettINITIAL_SUBSCRIBER_NODE_CAPACITY in
              Ret (rc, if rc =? OK then set_children pnode t else pnode, n)
    | Some t => if ct_totalCount t >? ct_capacity t * (iettNODE_LOADINGFACTOR_HIGH_WATER - 1) then
          '(rc, t, n) ← ct_resize mem n t (ct_capacity t * iettNODE_CAPACITY_INCREMENT_FACTOR);
          Ret (rc, set_children pnode (Some t), n)
        else Ret (OK, pnode, n)
    end = Ret (rc, pnode1, n1) /\ (n <= n1)%nat /\
    (rc = OK /\ (exists t m, pnode1 = set_children pnode (Some t) /\ ct_rep t m /\ forall k, m !! k = old k) \/ alloc_failed rc)).
  { unfold old. destruct (children pnode) as [t|] eqn:Et.
    - destruct (Hrep t eq_refl) as [m Hm].
      assert (Hm' : forall k, m !! k = match ct_get t k (iett_generateSubstringHash k) with Ret (_, v) => v | _ => None end)
        by (intros k; rewrite (ct_get_spec _ _ k Hm); by destruct (m !! k)).
      destruct (_ >? _).
      + pose proof (ct_capacity_pos _ _ Hm) as Hcap.
        destruct (ct_resize_spec mem n t m (ct_capacity t * iettNODE_CAPACITY_INCREMENT_FACTOR) Hm) as (rc & t' & n' & -> & Hn & Ho);
          [unfold iettNODE_CAPACITY_INCREMENT_FACTOR; lia|]. cbn [mbind outcome_bind].
        do 3 eexists. split; [done|]. split; [done|]. destruct Ho as [[-> Hr]|Ho]; [left|by right].
        split; [done|]. exists t', m. auto.
      + do 3 eexists. split; [done|]. split; [done|]. left. split; [done|]. exists t, m. split; [|done].
        unfold set_children. rewrite <- Et. by destruct pnode.
    - destruct (ct_create_spec mem n iettINITIAL_SUBSCRIBER_NODE_CAPACITY) as (rc & ot & n' & -> & Hn & Ho); [done|].
      do 3 eexists. split; [done|]. split; [done|]. destruct Ho as [[-> (t & -> & Hr)]|Ho]; [left|by right].
      split; [done|]. exists t, ∅. split; [done|]. split; [done|]. intros k. apply lookup_empty. }
  destruct Hprep as (rc & pnode1 & n1 & -> & Hn1 & Ho). cbn [mbind outcome_bind].
  destruct Ho as [[-> (t & m & -> & Hm & Hold)]|[-> Hi]].
  2: { do 3 eexists. split; [done|]. split; [done|]. right. by split. }
  change (OK =? OK) with true. cbn [negb children set_children].
  destruct (ct_put_spec mem n1 t m w a Hm) as (rc & t' & n2 & -> & Hn2 & Ho); [by rewrite Hold|]. cbn [mbind outcome_bind].
  do 3 eexists. split; [done|]. split; [lia|]. destruct Ho as [[-> Hr]|Ho]; [left|by right].
  split; [done|]. repeat (split; [done|]). exists t', (<[w := a]> m). split; [done|]. split; [done|].
  intros k. case_bool_decide as E; [subst; apply lookup_insert_eq|]. rewrite lookup_insert_ne by done. by rewrite Hold.
Qed.

(** The tree after a node [c] has been added as child [l] of [a]. *)
Record added (n n' : nat) h h' (a : nat) (l : level) (c : nat) : Prop := {
  ad_wf : tree_wf n' h';
  ad_new : h !! c = None;
  ad_dom : forall b, is_Some (h !! b) -> is_Some (h' !! b);
  ad_child : forall b m, child_of h' b m = if bool_decide (b = a /\ m = l) then Some c else child_of h b m;
  ad_active : forall b, active_at h' b = active_at h b
}.

Lemma child_linked h a c l pnode pnode' node :
  h !! a = Some pnode -> h !! c = None -> a <> c -> linked pnode pnode' l c ->
  children node = None -> wildcardChild node = None -> multicardChild node = None ->
  forall b m, child_of (<[a := pnode']> (<[c := node]> h)) b m = if bool_decide (b = a /\ m = l) then Some c else child_of h b m.
Proof.
  intros Hp Hc Hac (_ & _ & _ & _ & Hw & Hm & Hl) H1 H2 H3 b m. unfold child_of.
  destruct (decide (b = a)) as [->|Hb].
  - rewrite lookup_insert_eq, Hp. cbn [mbind option_bind]. destruct m as [w| |].
    + destruct l as [w'| |].
      * destruct Hl as (t' & m' & -> & Hr & Hlk). cbn [mbind option_bind]. rewrite (ct_get_spec _ _ w Hr), Hlk.
        destruct (decide (w = w')) as [->|Hne]; [by rewrite !bool_decide_true|].
        rewrite !(bool_decide_false) by naive_solver. by destruct (children pnode ≫= _).
      * rewrite bool_decide_false by naive_solver. by destruct Hl as [_ ->].
      * rewrite bool_decide_false by naive_solver. by destruct Hl as [_ ->].
    + destruct l as [w'| |]; [rewrite bool_decide_false by naive_solver; by apply Hw| |rewrite bool_decide_false by naive_solver; by apply Hw].
      rewrite bool_decide_true by done. by destruct Hl.
    + destruct l as [w'| |]; [rewrite bool_decide_false by naive_solver; by apply Hm|rewrite bool_decide_false by naive_solver; by apply Hm|].
      rewrite bool_decide_true by done. by destruct Hl.
  - rewrite bool_decide_false by naive_solver. rewrite lookup_insert_ne by done.
    destruct (decide (b = c)) as [->|Hbc].
    + rewrite lookup_insert_eq, Hc. cbn [mbind option_bind]. destruct m; rewrite ?H1, ?H2, ?H3; done.
    + by rewrite lookup_insert_ne.
Qed.

Lemma lookup_two h a c pnode' node b :
  a <> c -> (<[a := pnode']> (<[c := node]> h)) !! b =
  if bool_decide (b = a) then Some pnode' else if bool_decide (b = c) then Some node else h !! b.
Proof.
  intros Hac. case_bool_decide as E; [subst; apply lookup_insert_eq|]. rewrite lookup_insert_ne by done.
  case_bool_decide as E'; [subst; apply lookup_insert_eq|by apply lookup_insert_ne].
Qed.

Lemma linked_wf n n' h a l pnode pnode' node :
  tree_wf n h -> h !! a = Some pnode -> child_of h a l = None -> linked pnode pnode' l n -> (n < n')%nat ->
  children node = None -> wildcardChild node = None -> multicardChild node = None ->
  is_active node = false -> n_parent node = Some a -> n_topicString node = Some (new_topicString pnode (level_string l)) ->
  Z.land (nodeFlags node) iettNODE_FLAG_TYPE_MASK = level_type l -> is_level (level_string l) ->
  added n n' h (<[a := pnode']> (<[n := node]> h)) a l n.
Proof.
  intros Hw Ha Hfree Hl Hn H1 H2 H3 Hact Hpar Hts Hty Hlev.
  assert (Han : a <> n) by (pose proof (tw_dom _ _ Hw a ltac:(eauto)); lia).
  assert (Hnew : h !! n = None).
  { destruct (h !! n) eqn:E; [|done]. pose proof (tw_dom _ _ Hw n ltac:(eauto)). lia. }
  pose proof (child_linked h a n l pnode pnode' node Ha Hnew Han Hl H1 H2 H3) as Hch.
  pose proof (fun b => lookup_two h a n pnode' node b Han) as Hlk.
  pose proof Hl as (El1 & El2 & El3 & El4 & _ & _ & Hlch).
  assert (Hts' : forall b nd, h !! b = Some nd -> exists nd', (<[a := pnode']> (<[n := node]> h)) !! b = Some nd'
      /\ nodeFlags nd' = nodeFlags nd /\ n_parent nd' = n_parent nd /\ n_topicString nd' = n_topicString nd).
  { intros b nd Hb. rewrite Hlk. case_bool_decide as E; [subst; simplify_eq; eauto|].
    rewrite bool_decide_false by congruence. eauto. }
  split; [split|done| |done|].
  - rewrite Hlk. destruct (tw_root _ _ Hw) as [r Hr]. case_bool_decide; [eauto|]. case_bool_decide; eauto.
  - intros nd. destruct (tw_root _ _ Hw) as [r Hr]. destruct (Hts' 0%nat r Hr) as (nd' & -> & _ & Ep & _).
    intros [= <-]. rewrite Ep. by apply (tw_top _ _ Hw).
  - intros b m c. rewrite Hch, Hlk. case_bool_decide as E.
    + intros [= <-]. destruct E as [-> ->]. pose proof (tw_dom _ _ Hw a ltac:(eauto)).
      split; [lia|]. case_bool_decide; [eauto|]. rewrite bool_decide_true by done. eauto.
    + intros Hc. apply (tw_child _ _ Hw) in Hc as [? [nd ?]]. split; [lia|]. case_bool_decide; [eauto|]. case_bool_decide; eauto.
  - intros b. rewrite Hlk. case_bool_decide as E; [subst; pose proof (tw_dom _ _ Hw a ltac:(eauto)); lia|].
    case_bool_decide as E'; [lia|]. intros Hb. pose proof (tw_dom _ _ Hw b Hb). lia.
  - intros b nd t. rewrite Hlk. case_bool_decide as E; [|case_bool_decide as E'].
    + intros [= <-] Hc. subst b. destruct l as [w| |].
      * destruct Hlch as (t' & m' & Et & Hr & _). simplify_eq. eauto.
      * destruct Hlch as [_ Ec]. rewrite Ec in Hc. by eapply (tw_tables _ _ Hw).
      * destruct Hlch as [_ Ec]. rewrite Ec in Hc. by eapply (tw_tables _ _ Hw).
    + intros [= <-] Hc. congruence.
    + apply (tw_tables _ _ Hw).
  - assert (Hno : forall b m, child_of h b m <> Some n).
    { intros b m Hc. apply (tw_child _ _ Hw) in Hc. lia. }
    intros b m b' m' c. rewrite !Hch. case_bool_decide as E1; case_bool_decide as E2.
    + naive_solver.
    + intros [= <-] Hc. by apply Hno in Hc.
    + intros Hc [= <-]. by apply Hno in Hc.
    + apply (tw_inj _ _ Hw).
  - intros b m c nd. rewrite Hch. case_bool_decide as E.
    + intros [= <-]. rewrite Hlk, bool_decide_false, bool_decide_true by done. intros [= <-]. by destruct E as [_ ->].
    + intros Hc Hnd. pose proof Hc as [Hbc [nd0 Hnd0]]%(tw_child _ _ Hw).
      destruct (Hts' c nd0 Hnd0) as (nd' & Hnd' & Ef & _). simplify_eq. rewrite Ef. by eapply (tw_type _ _ Hw).
  - intros b m c. rewrite Hch. case_bool_decide as E; [by destruct E as [_ ->]|]. apply (tw_level _ _ Hw).
  - intros b m c nd pd. rewrite Hch. case_bool_decide as E.
    + intros [= <-]. destruct E as [-> ->]. rewrite !Hlk, (bool_decide_false (n = a)), !bool_decide_true by done.
      intros [= <-] [= <-]. split; [done|]. rewrite Hts. unfold new_topicString. by rewrite El1.
    + intros Hc Hnd Hpd. pose proof Hc as [Hbc [nd0 Hnd0]]%(tw_child _ _ Hw).
      assert (is_Some (h !! b)) as [pd0 Hpd0] by (unfold child_of in Hc; destruct (h !! b); [eauto|done]).
      destruct (Hts' c nd0 Hnd0) as (nd' & Hnd' & _ & Ep & Et). destruct (Hts' b pd0 Hpd0) as (pd' & Hpd' & _ & _ & Et').
      simplify_eq. rewrite Ep, Et. destruct (tw_parent _ _ Hw _ _ _ _ _ Hc Hnd0 Hpd0) as [-> ->].
      split; [done|]. unfold new_topicString. by rewrite Et'.
  - intros b [nd Hb]. destruct (Hts' b nd Hb) as (nd' & -> & _). eauto.
  - intros b. unfold active_at. rewrite Hlk. case_bool_decide as E; [subst; rewrite Ha; done|].
    case_bool_decide as E'; [subst; by rewrite Hnew|done].
Qed.

Lemma add_node_ok n h a l topic ws ms :
  tree_wf n h -> is_Some (h !! a) -> child_of h a l = None -> is_level (level_string l) ->
  exists rc o h' n', add_node mem n h a topic (level_kind l) (level_string l) (iett_generateSubstringHash (level_string l)) ws ms
      = Ret (rc, o, h', n') /\
    (rc = OK /\ o = Some n /\ added n n' h h' a l n \/ alloc_failed rc).
Proof.
  intros Hw [pnode Ha] Hfree Hlev. unfold add_node. destruct (mem n) eqn:Em; cbn [negb].
  2: { do 4 eexists. split; [done|]. right. split; eauto. }
  unfold node_at. rewrite Ha. cbn [mbind outcome_bind].
  set (node := mk_node (new_flags topic (level_kind l) ws ms) (Some (new_topicString pnode (level_string l))) None None None (Some a) 0 0 0 0 false).
  assert (Hlink : exists rc pnode' n',
    match level_kind l with
    | Kwild => Ret (OK, set_wildcardChild pnode (Some n), S n)
    | Kmulti => Ret (OK, set_multicardChild pnode (Some n), S n)
    | Knormal => link_normal mem (S n) pnode (level_string l) (iett_generateSubstringHash (level_string l)) n
    end = Ret (rc, pnode', n') /\ (S n <= n')%nat /\ (rc = OK /\ linked pnode pnode' l n \/ alloc_failed rc)).
  { destruct l as [w| |]; cbn [level_kind level_string].
    - apply link_normal_ok; [intros t Ht; by eapply (tw_tables _ _ Hw)|]. unfold child_of in Hfree. by rewrite Ha in Hfree.
    - do 3 eexists. split; [done|]. split; [done|]. left. split; [done|]. by repeat split.
    - do 3 eexists. split; [done|]. split; [done|]. left. split; [done|]. by repeat split. }
  destruct Hlink as (rc & pnode' & n' & -> & Hn & [[-> Hl]|[-> Hi]]); cbn [mbind outcome_bind].
  - do 4 eexists. split; [done|]. left. split; [done|]. split; [done|].
    eapply (linked_wf n n' h a l pnode pnode' node); try done. apply new_flags_type.
  - do 4 eexists. split; [done|]. right. split; eauto.
Qed.

(** ** The whole filter *)

(** [h'] extends [h] by inactive nodes on the path [path]. *)
Record tree_ext (path : list level) h h' : Prop := {
  te_keep : forall p c, walk h 0 p = Some c -> walk h' 0 p = Some c;
  te_new : forall p c, walk h' 0 p = Some c -> walk h 0 p = Some c \/ p `prefix_of` path /\ h !! c = None;
  te_dom : forall b, is_Some (h !! b) -> is_Some (h' !! b);
  te_active : forall b, active_at h' b = active_at h b
}.

Lemma tree_ext_refl path h : tree_ext path h h.
Proof. split; auto. Qed.

Lemma tree_ext_trans path h h1 h2 : tree_ext path h h1 -> tree_ext path h1 h2 -> tree_ext path h h2.
Proof.
  intros [K1 N1 D1 A1] [K2 N2 D2 A2]. split; auto.
  - intros p c [Hp|[Hp Hc]]%N2; [by apply N1|]. right. split; [done|].
    destruct (h !! c) eqn:E; [|done]. destruct (D1 c ltac:(eauto)). congruence.
  - intros b. by rewrite A2, A1.
Qed.

Lemma added_ext n n' h h' a l c pre path :
  tree_wf n h -> added n n' h h' a l c -> child_of h a l = None -> walk h 0 pre = Some a -> pre ++ [l] `prefix_of` path ->
  tree_ext path h h' /\ walk h' 0 (pre ++ [l]) = Some c.
Proof.
  intros Hw [Hw' Hnew Hdom Hch Hact] Hfree Hpre Hpath.
  assert (Hkeepc : forall b m d, child_of h b m = Some d -> child_of h' b m = Some d).
  { intros b m d Hd. rewrite Hch. case_bool_decide as E; [|done]. destruct E as [-> ->]. congruence. }
  assert (Hkeep : forall p b d, walk h b p = Some d -> walk h' b p = Some d).
  { induction p as [|m p IH]; intros b d Hd; simpl in *; [done|]. destruct (child_of h b m) as [e|] eqn:Ee; [|done].
    rewrite (Hkeepc _ _ _ Ee). by apply IH. }
  assert (Hac : a <> c).
  { intros ->. apply (walk_dom n) in Hpre as [[? ?] _]; [congruence|done|]. apply (tw_root _ _ Hw). }
  split.
  - split; [auto| |done|done].
    intros p. induction p as [|m p IH] using rev_ind; intros d Hd; [left; done|].
    rewrite walk_app in Hd. destruct (walk h' 0 p) as [b|] eqn:Eb; [|done]. simpl in Hd.
    destruct (child_of h' b m) as [d'|] eqn:Ed; [|done]. simplify_eq/=. rewrite Hch in Ed.
    destruct (IH b eq_refl) as [Hb|[_ Hb]].
    + case_bool_decide as E; [|left; rewrite walk_app, Hb; simpl; by rewrite Ed].
      destruct E as [-> ->]. simplify_eq. right. split; [|done].
      assert (p = pre) as -> by (eapply (walk_inj n h 0); eauto; apply (tw_root _ _ Hw)). done.
    + exfalso. case_bool_decide as E.
      * destruct E as [-> _]. apply (walk_dom n) in Hpre as [[? ?] _]; [congruence|done|]. apply (tw_root _ _ Hw).
      * unfold child_of in Ed. by rewrite Hb in Ed.
  - rewrite walk_app, (Hkeep _ _ _ Hpre). simpl. rewrite Hch, bool_decide_true by done. done.
Qed.

Context (topic : iettTopic_t) (s : list Z) (Hs : is_cstr s) (Ht : analysed true true s topic).

Definition path_to (i : nat) : list level := take i (filter_levels s).

Lemma path_next i x : levels s !! i = Some x -> path_to (S i) = path_to i ++ [classify x].
Proof. intros Hi. unfold path_to. apply take_S_r. unfold filter_levels. by rewrite list_lookup_fmap, Hi. Qed.

(** One round of the loop reads the level, its kind and the child. *)
Lemma round_reads i x :
  levels s !! i = Some x ->
  exists w m, array_read (substrings topic) (Z.of_nat i) = Ret (Some (size0 (take i (levels s))))
    /\ deref_card (wildcards topic) (Z.of_nat (length (card_starts PLUS 0 (take i (levels s))))) = Ret w
    /\ deref_card (multicards topic) (Z.of_nat (length (card_starts HASH 0 (take i (levels s))))) = Ret m
    /\ (Some (size0 (take i (levels s))) = w <-> x = [PLUS]) /\ (Some (size0 (take i (levels s))) = m <-> x = [HASH])
    /\ deref_string topic (Some (size0 (take i (levels s)))) = Ret x
    /\ array_read (substringHashes topic) (Z.of_nat i) = Ret (iett_generateSubstringHash x).
Proof.
  intros Hi. destruct (topic_level _ _ _ _ _ _ Hs Ht Hi) as (off & Ho & E1 & E2 & E3).
  rewrite (starts_at _ _ _ Hi) in Ho. injection Ho as <-.
  pose proof (an_wildcards _ _ _ _ Ht) as Hw. pose proof (an_multicards _ _ _ _ Ht) as Hm. unfold cards_terminated in *.
  destruct (wildcards topic) as [wa|]; [|done]. destruct (multicards topic) as [ma|]; [|done]. destruct Hw as [_ Hw], Hm as [_ Hm].
  destruct (card_at PLUS _ _ _ _ Hw Hi) as (w & Ew & Hwx). destruct (card_at HASH _ _ _ _ Hm Hi) as (m & Emm & Hmx).
  exists w, m. unfold deref_card. repeat (split; [done|]).
  split; [rewrite <- Hwx; split; congruence|]. split; [rewrite <- Hmx; split; congruence|]. done.
Qed.

Definition wseen (i : nat) : Z := Z.of_nat (length (card_starts PLUS 0 (take i (levels s)))).
Definition mseen (i : nat) : Z := Z.of_nat (length (card_starts HASH 0 (take i (levels s)))).

Lemma classify_string x : level_string (classify x) = x.
Proof. unfold classify. case_bool_decide; [by subst|]. case_bool_decide; [by subst|done]. Qed.

Lemma find_child_ok n h a pnode x :
  tree_wf n h -> h !! a = Some pnode ->
  find_child pnode (level_kind (classify x)) x (iett_generateSubstringHash x) = Ret (child_of h a (classify x)).
Proof.
  intros Hw Ha. unfold child_of. rewrite Ha. cbn [mbind option_bind]. pose proof (classify_string x) as Hx.
  destruct (classify x) as [w| |]; cbn [level_kind find_child]; [|done|done]. simpl in Hx. subst w.
  destruct (children pnode) as [t|] eqn:Et; [|done]. destruct (tw_tables _ _ Hw _ _ _ Ha Et) as [m Hm].
  cbn [mbind option_bind]. rewrite (ct_get_spec _ _ x Hm). by destruct (m !! x).
Qed.

Lemma next_substring i x :
  levels s !! i = Some x ->
  exists o, array_read (substrings topic) (Z.of_nat i + 1) = Ret o /\ (o = None <-> S i = length (levels s)).
Proof.
  intros Hi. pose proof (lookup_lt_Some _ _ _ Hi) as Hlt. replace (Z.of_nat i + 1) with (Z.of_nat (S i)) by lia.
  destruct (decide (S i < length (levels s))%nat) as [Hl|Hl].
  - destruct (lookup_lt_is_Some_2 _ _ Hl) as [y Hy]. destruct (topic_level _ _ _ _ _ _ Hs Ht Hy) as (off & _ & E & _).
    eexists. split; [exact E|]. split; [done|lia].
  - exists None. split; [|split; [lia|done]]. replace (S i) with (length (starts 0 (levels s))) by (rewrite length_starts; lia).
    apply terminated_end, Ht.
Qed.

Lemma insert_round fuel n h a op i x :
  tree_wf n h -> is_Some (h !! a) -> levels s !! i = Some x ->
  insert_loop mem (S fuel) n h a topic op (Z.of_nat i) (wseen i) (mseen i) =
  '(rc, o, h, n) ←
    match child_of h a (classify x) with
    | Some c => Ret (OK, Some c, h, n)
    | None => match op with
              | iettOP_FIND => Ret (ISMRC_NotFound, None, h, n)
              | iettOP_ADD => add_node mem n h a topic (level_kind (classify x)) x (iett_generateSubstringHash x) (wseen (S i)) (mseen (S i))
              end
    end;
  if negb (rc =? OK) then Ret (rc, None, h, n) else
  match o with
  | None => Crash
  | Some b => if bool_decide (S i = length (levels s)) then Ret (OK, Some b, h, n)
              else insert_loop mem fuel n h b topic op (Z.of_nat (S i)) (wseen (S i)) (mseen (S i))
  end.
Proof.
  intros Hw [pnode Ha] Hi. cbn [insert_loop].
  destruct (round_reads i x Hi) as (w & m & E1 & E2 & E3 & Hwx & Hmx & E4 & E5). destruct (next_substring i x Hi) as (nx & E6 & Hnx).
  rewrite E1. cbn [mbind outcome_bind]. fold (wseen i) in E2. fold (mseen i) in E3. rewrite E2. cbn [mbind outcome_bind].
  set (kind := if bool_decide (Some (size0 (take i (levels s))) = w) then Kwild
               else if bool_decide (Some (size0 (take i (levels s))) = m) then Kmulti else Knormal).
  assert (Hm : exists m', (if bool_decide (Some (size0 (take i (levels s))) = w) then Ret None else deref_card (multicards topic) (mseen i)) = Ret m'
    /\ (if bool_decide (Some (size0 (take i (levels s))) = w) then Kwild
        else if bool_decide (Some (size0 (take i (levels s))) = m') then Kmulti else Knormal) = level_kind (classify x)).
  { unfold classify. rewrite <- (bool_decide_ext _ _ Hwx). case_bool_decide; [eauto|]. exists m. split; [done|].
    rewrite <- (bool_decide_ext _ _ Hmx). by case_bool_decide. }
  destruct Hm as (m' & -> & Hkind). cbn [mbind outcome_bind]. rewrite Hkind, E5. cbn [mbind outcome_bind]. rewrite E4.
  cbn [mbind outcome_bind]. unfold node_at. rewrite Ha. cbn [mbind outcome_bind].
  rewrite (find_child_ok _ _ _ _ x Hw Ha). cbn [mbind outcome_bind].
  assert (Ew : match level_kind (classify x) with Kwild => wseen i + 1 | _ => wseen i end = wseen (S i)).
  { unfold wseen. rewrite (card_count_next _ _ _ _ Hi). unfold classify. repeat case_bool_decide; simpl; lia. }
  assert (Em : match level_kind (classify x) with Kmulti => mseen i + 1 | _ => mseen i end = mseen (S i)).
  { unfold mseen. rewrite (card_count_next _ _ _ _ Hi). unfold classify. repeat case_bool_decide; simplify_eq; simpl; lia. }
  rewrite Ew, Em. rewrite E6.
  assert (Hlast : forall (b : nat) h n, (match nx with None => Ret (OK, Some b, h, n)
      | Some _ => insert_loop mem fuel n h b topic op (Z.of_nat i + 1) (wseen (S i)) (mseen (S i)) end)
      = if bool_decide (S i = length (levels s)) then Ret (OK, Some b, h, n)
        else insert_loop mem fuel n h b topic op (Z.of_nat (S i)) (wseen (S i)) (mseen (S i))).
  { intros b h' n'. replace (Z.of_nat i + 1) with (Z.of_nat (S i)) by lia.
    destruct nx; [rewrite bool_decide_false by naive_solver|rewrite bool_decide_true by naive_solver]; done. }
  destruct (child_of h a (classify x)) as [c|]; [|destruct op].
  - cbn [mbind outcome_bind]. by rewrite Hlast.
  - destruct (add_node _ _ _ _ _ _ _ _ _ _) as [[[[rc o] h'] n']| |]; cbn [mbind outcome_bind]; [|done|done].
    destruct (negb _); [done|]. destruct o; [|done]. by rewrite Hlast.
  - done.
Qed.

(** Adding: the node of the filter, in an extension of the tree. *)
Lemma insert_loop_add fuel : forall i n h a,
  tree_wf n h -> (i < length (levels s))%nat -> (length (levels s) - i <= fuel)%nat -> walk h 0 (path_to i) = Some a ->
  exists rc o h' n', insert_loop mem fuel n h a topic iettOP_ADD (Z.of_nat i) (wseen i) (mseen i) = Ret (rc, o, h', n') /\
    (rc = OK /\ (exists b, o = Some b /\ walk h' 0 (filter_levels s) = Some b) /\ tree_wf n' h'
       /\ tree_ext (filter_levels s) h h'
     \/ alloc_failed rc).
Proof.
  induction fuel as [|fuel IH]; intros i n h a Hw Hi Hf Ha; [lia|].
  destruct (lookup_lt_is_Some_2 _ _ Hi) as [x Hx].
  assert (Had : is_Some (h !! a)) by (apply (walk_dom n) in Ha as [? _]; [done|done|apply (tw_root _ _ Hw)]).
  rewrite (insert_round fuel n h a iettOP_ADD i x) by done.
  (* the rest of the loop from the node [b] of the next prefix *)
  assert (Hrest : forall h1 n1 b, tree_wf n1 h1 -> walk h1 0 (path_to (S i)) = Some b -> tree_ext (filter_levels s) h h1 ->
    exists rc o h' n', (if bool_decide (S i = length (levels s)) then Ret (OK, Some b, h1, n1)
       else insert_loop mem fuel n1 h1 b topic iettOP_ADD (Z.of_nat (S i)) (wseen (S i)) (mseen (S i))) = Ret (rc, o, h', n') /\
    (rc = OK /\ (exists b, o = Some b /\ walk h' 0 (filter_levels s) = Some b) /\ tree_wf n' h'
       /\ tree_ext (filter_levels s) h h' \/ alloc_failed rc)).
  { intros h1 n1 b Hw1 Hb He. case_bool_decide as El.
    - do 4 eexists. split; [done|]. left. split; [done|]. split; [|done]. exists b. split; [done|].
      unfold path_to in Hb. rewrite take_ge in Hb by (unfold filter_levels; rewrite length_map; lia). done.
    - destruct (IH (S i) n1 h1 b Hw1 ltac:(lia) ltac:(lia) Hb) as (rc & o & h' & n' & E & Ho). rewrite E.
      do 4 eexists. split; [done|]. destruct Ho as [(-> & H1 & H2 & H3)|Ho]; [left|by right].
      split; [done|]. split; [done|]. split; [done|]. by eapply tree_ext_trans. }
  destruct (child_of h a (classify x)) as [c|] eqn:Ec; cbn [mbind outcome_bind].
  - apply Hrest; [done| |apply tree_ext_refl]. rewrite (path_next i x Hx), walk_app, Ha. simpl. by rewrite Ec.
  - destruct (add_node_ok n h a (classify x) topic (wseen (S i)) (mseen (S i)) Hw Had Ec) as (rc & o & h1 & n1 & E & Ho).
    { rewrite classify_string. exact (Forall_lookup_1 _ _ _ _ (levels_level s Hs) Hx). }
    rewrite classify_string in E. rewrite E. cbn [mbind outcome_bind]. destruct Ho as [(-> & -> & Hadd)|[-> Hal]].
    + change (OK =? OK) with true. cbn [negb].
      destruct (added_ext n n1 h h1 a (classify x) n (path_to i) (filter_levels s) Hw Hadd Ec Ha) as [He Hb].
      { rewrite <- (path_next i x Hx). unfold path_to. apply prefix_take. }
      apply Hrest; [apply Hadd|by rewrite (path_next i x Hx)|done].
    + do 4 eexists. split; [done|]. right. by split.
Qed.

(** Finding: the node that the path leads to. *)
Lemma insert_loop_find fuel : forall i n h a,
  tree_wf n h -> (i < length (levels s))%nat -> (length (levels s) - i <= fuel)%nat -> is_Some (h !! a) ->
  insert_loop mem fuel n h a topic iettOP_FIND (Z.of_nat i) (wseen i) (mseen i)
  = Ret (match walk h a (drop i (filter_levels s)) with
         | Some b => (OK, Some b, h, n) | None => (ISMRC_NotFound, None, h, n) end).
Proof.
  induction fuel as [|fuel IH]; intros i n h a Hw Hi Hf Ha; [lia|].
  destruct (lookup_lt_is_Some_2 _ _ Hi) as [x Hx]. rewrite (insert_round fuel n h a iettOP_FIND i x) by done.
  assert (Hd : drop i (filter_levels s) = classify x :: drop (S i) (filter_levels s))
    by (apply drop_S; unfold filter_levels; by rewrite list_lookup_fmap, Hx).
  rewrite Hd. cbn [walk]. destruct (child_of h a (classify x)) as [c|] eqn:Ec; cbn [mbind outcome_bind option_bind]; [|done].
  change (OK =? OK) with true. cbn [negb]. pose proof Ec as [_ Hc]%(tw_child _ _ Hw). case_bool_decide as El.
  - rewrite drop_ge by (unfold filter_levels; rewrite length_map; lia). done.
  - by apply IH; [|lia|lia|].
Qed.

(** The substrings array holds more entries than there are levels. *)
Lemma levels_fit : (length (levels s) - 0 <= length (substrings topic))%nat.
Proof.
  destruct (an_substrings _ _ _ _ Ht) as [junk ->]. rewrite length_app, length_map, length_app, length_map, length_starts. lia.
Qed.

Lemma insert_add_root N h :
  tree_wf N h ->
  exists rc o h' n', iett_insertOrFindSubsNode mem N h 0 topic iettOP_ADD = Ret (rc, o, h', n') /\
    (rc = OK /\ (exists b, o = Some b /\ walk h' 0 (filter_levels s) = Some b) /\ tree_wf n' h'
       /\ tree_ext (filter_levels s) h h' \/ alloc_failed rc).
Proof.
  intros Hw. unfold iett_insertOrFindSubsNode. rewrite (an_dest _ _ _ _ Ht). destruct (levels_cons s) as (l0 & ls0 & El).
  apply (insert_loop_add _ 0); [done|rewrite El; simpl; lia|apply levels_fit|done].
Qed.
End InsertCorrect.
