(* ===== verification/TreeCorrect.v ===== *)
(** * The subscription tree: properties

    Inserting and finding filters, and collecting the filters that match a topic. *)

From S2P Require Import Prelude TopicString TopicLevels HashTable ChildTable TopicTree TreeResults TreeMatch TreeSearch TreeInsert.
From stdpp Require Import gmap.
#[local] Open Scope Z_scope.

(** The system prefix length of a topic: 1 for topics that start with a dollar. *)
Definition sys_end (s : list Z) : Z := if bool_decide (head s = Some DOLLAR) then 1 else 0.

(** C1. Publishing finds exactly the matching subscriptions.  In every well-formed
    tree, for every topic string, whatever allocations fail:
    iett_findMatchingSubsNodes, given enough fuel for the depth of the tree,
    returns; with OK the result holds, each once, exactly the nodes that have
    active subscribers (or statistics) and whose filter matches the topic, where
    a plus matches one level, a hash any number of levels (also none, anywhere
    in the filter), and neither the first level of a topic that starts with a
    dollar.  With ISMRC_AllocateError an allocation failed and the count is 0.
    The hypothesis on multiMultiSubs is the one of the comment in the code: it is
    positive unless no active filter has two hashes. *)
Theorem search_exact {T} `{!ChildTable T} `{!ChildTableLaws T} mem multi cached topic s has_w has_m
    N (h : gmap nat (iettSubsNode_t T)) n res :
  tree_wf N h -> is_cstr s -> analysed has_w has_m s topic ->
  (0 < multi \/ at_most h 1 0) -> res_rep res [] ->
  exists rc res' n', iett_findMatchingSubsNodes mem multi cached topic (S N) h 0 0 n res = Ret (rc, res', n') /\
    (rc = OK /\ (exists L, res_rep res' L /\ NoDup L /\
       forall x, x ∈ L <-> active_at h x = true /\ exists p, walk h 0 p = Some x /\ pmatch (sys_end s) 0 p (levels s))
     \/ rc = ISMRC_AllocateError /\ (exists i, mem i = false) /\ r_nodeCount res' = 0).
Proof.
  intros Hw Hs Ht Hmulti Hres. destruct (levels_cons s) as (l0 & ls0 & El).
  assert (Hsys : sys topic = sys_end s) by apply (an_sys _ _ _ _ Ht).
  assert (Hle : sys_end s <= 1) by (unfold sys_end; destruct (bool_decide _); lia).
  assert (Hspec : forall x, x ∈ found (S N) h (sys topic) 0 0 (levels s) <->
      active_at h x = true /\ exists p, walk h 0 p = Some x /\ pmatch (sys_end s) 0 p (levels s)).
  { intros x. rewrite Hsys, (found_spec N h Hw) by (rewrite ?El; done || lia). unfold has_path. naive_solver. }
  destruct (find_ok mem N h Hw multi cached topic s has_w has_m Hs Ht (S N) 0%nat 0%nat n [] res (tw_root _ _ Hw) ltac:(lia)
              ltac:(rewrite El; simpl; lia) Hres) as (rc & res' & n' & E & Ho).
  exists rc, res', n'. split; [exact E|]. destruct Ho as [(-> & L & Hr & [Happ Hin] & Hnd)|(-> & Hi & _ & Hc)]; [left|right; auto].
  split; [done|]. exists L. change (drop 0 (levels s)) with (levels s) in *. change (Z.of_nat 0) with 0 in *.
  split; [done|]. split.
  - destruct (Z.lt_ge_cases 0 multi) as [Hp|Hn]; [by apply Hnd|]. destruct Hmulti as [?|Hat]; [lia|].
    rewrite (Happ Hn), app_nil_l, Hsys. apply (found_nodup N h Hw _ _ 1); (done || lia || apply (tw_root _ _ Hw)).
  - intros x. rewrite Hin, Hspec, elem_of_nil. tauto.
Qed.

(** C2. Adding a filter: iett_insertOrFindSubsNode with iettOP_ADD, on a
    well-formed tree and an analysed filter, returns; with OK it returns the node
    at the path of the filter in a tree that is well-formed again, has all the
    old nodes at their paths, active or not as before, and has no other nodes than
    these and new ones without subscribers at prefixes of the filter; it fails only
    if an allocation does. *)
Theorem insert_adds_filter {T} `{!ChildTable T} `{!ChildTableLaws T} mem topic s
    N (h : gmap nat (iettSubsNode_t T)) :
  tree_wf N h -> is_cstr s -> analysed true true s topic ->
  exists rc o h' n', iett_insertOrFindSubsNode mem N h 0 topic iettOP_ADD = Ret (rc, o, h', n') /\
    (rc = OK /\ (exists b, o = Some b /\ walk h' 0 (filter_levels s) = Some b) /\ tree_wf n' h'
       /\ tree_ext (filter_levels s) h h'
     \/ rc = ISMRC_AllocateError /\ exists i, mem i = false).
Proof. intros Hw Hs Ht. by apply (insert_add_root mem topic s Hs Ht). Qed.

(** C3. Finding a filter: with iettOP_FIND the tree is not changed, and the result
    is the node at the path of the filter, or ISMRC_NotFound exactly when there
    is none. *)
Theorem insert_finds_filter {T} `{!ChildTable T} `{!ChildTableLaws T} mem topic s
    N (h : gmap nat (iettSubsNode_t T)) :
  tree_wf N h -> is_cstr s -> analysed true true s topic ->
  iett_insertOrFindSubsNode mem N h 0 topic iettOP_FIND
  = Ret (match walk h 0 (filter_levels s) with
         | Some b => (OK, Some b, h, N) | None => (ISMRC_NotFound, None, h, N) end).
Proof.
  intros Hw Hs Ht. unfold iett_insertOrFindSubsNode. rewrite (an_dest _ _ _ _ Ht).
  destruct (levels_cons s) as (l0 & ls0 & El).
  apply (insert_loop_find mem topic s Hs Ht _ 0); [done|rewrite El; simpl; lia|by apply levels_fit|apply (tw_root _ _ Hw)].
Qed.

(** ** A concrete tree

    The root as iett_createTopicTree makes it, then the filters "a/+/b/#" and
    "a/#" added; the node of the first has an active subscriber. *)

Definition all_mem (_ : nat) : bool := true.

Definition root_node {T} : iettSubsNode_t T := mk_node iettNODE_FLAG_TREE_ROOT None None None None None 0 0 0 0 false.

Definition root_tree {T} : gmap nat (iettSubsNode_t T) := {[0%nat := root_node]}.

Lemma root_tree_wf {T} `{!ChildTable T} `{!ChildTableLaws T} : tree_wf (T := T) 1 root_tree.
Proof.
  assert (Hc : forall a l, child_of (T := T) root_tree a l = None).
  { intros a l. unfold child_of, root_tree. destruct (decide (a = 0%nat)) as [->|Hne];
      [rewrite lookup_singleton_eq; by destruct l|by rewrite lookup_singleton_ne]. }
  split.
  - unfold root_tree. rewrite lookup_singleton_eq. eauto.
  - intros nd. unfold root_tree. rewrite lookup_singleton_eq. by intros [= <-].
  - intros a l c. by rewrite Hc.
  - intros a [nd Ha]. unfold root_tree in Ha. apply lookup_singleton_Some in Ha as [<- _]. lia.
  - intros a nd t Ha Ht. unfold root_tree in Ha. apply lookup_singleton_Some in Ha as [<- <-]. done.
  - intros a l a' l' c. by rewrite Hc.
  - intros a l c nd. by rewrite Hc.
  - intros a l c. by rewrite Hc.
  - intros a l c nd pd. by rewrite Hc.
Qed.

Abbreviation demo_heap := (gmap nat (iettSubsNode_t (ieutHashTable_t nat))).

(** A topic string after its analysis. *)
Definition analysed_topic (s : list Z) : iettTopic_t :=
  match iett_analyseTopicString all_mem (fun _ => 0) 0 (fresh_topic s iettDEFAULT_SUBSTRING_ARRAY_SIZE true true) with
  | Ret (_, t, _) => t
  | _ => fresh_topic s 0 true true
  end.

Lemma analysed_topic_ok s : is_cstr s -> analysed true true s (analysed_topic s).
Proof.
  intros Hs.
  destruct (analyse_analysed iettDEFAULT_SUBSTRING_ARRAY_SIZE ltac:(done) s true true all_mem (fun _ => 0) 0 Hs)
    as [(rc & t & n & E & Ho) Hok].
  apply bind_ret_inv in E as ([[rc1 t1] n1] & E & Er). unfold analysed_topic. rewrite E.
  apply (Hok _ _ _ E). intros ->. simpl in Er. injection Er as <- _ _. by destruct Ho as [[? _]|[_ [? ?]]].
Qed.

Definition add_filter (tr : demo_heap * nat) (s : list Z) : demo_heap * nat :=
  match iett_insertOrFindSubsNode all_mem tr.2 tr.1 0 (analysed_topic s) iettOP_ADD with
  | Ret (_, _, h, n) => (h, n)
  | _ => tr
  end.

Lemma add_filter_wf (tr : demo_heap * nat) s : tree_wf tr.2 tr.1 -> is_cstr s -> tree_wf (add_filter tr s).2 (add_filter tr s).1.
Proof.
  intros Hw Hs.
  destruct (insert_add_root all_mem (analysed_topic s) s Hs (analysed_topic_ok s Hs) _ _ Hw) as (rc & o & h & n & E & Ho).
  unfold add_filter. rewrite E. destruct Ho as [(_ & _ & Hw' & _)|[_ [? ?]]]; done.
Qed.

(** "a/#". *)
Definition demo_filter : list Z := [97; 47; 35].

Definition demo_tree : demo_heap * nat := add_filter (add_filter (root_tree, 1%nat) demo_topic) demo_filter.

Lemma demo_filter_cstr : is_cstr demo_filter.
Proof. apply (bool_decide_unpack _). vm_compute. exact I. Qed.

Lemma demo_tree_wf : tree_wf demo_tree.2 demo_tree.1.
Proof.
  apply add_filter_wf; [|apply demo_filter_cstr]. apply add_filter_wf; [apply root_tree_wf|apply demo_topic_cstr].
Qed.

(** Giving the node [a] an active subscriber. *)
Definition activate {T} (h : gmap nat (iettSubsNode_t T)) (a : nat) : gmap nat (iettSubsNode_t T) :=
  alter (fun p => mk_node (nodeFlags p) (n_topicString p) (children p) (wildcardChild p) (multicardChild p) (n_parent p)
                    (activeCount p + 1) (delPendCount p) (useCount p) (activeCluster p) (statsActive p)) a h.

Lemma activate_wf {T} `{!ChildTable T} `{!ChildTableLaws T} n (h : gmap nat (iettSubsNode_t T)) a :
  tree_wf n h -> tree_wf n (activate h a).
Proof.
  assert (Hlk : forall b nd, activate h a !! b = Some nd -> exists nd0, h !! b = Some nd0 /\ children nd = children nd0
      /\ wildcardChild nd = wildcardChild nd0 /\ multicardChild nd = multicardChild nd0 /\ nodeFlags nd = nodeFlags nd0
      /\ n_parent nd = n_parent nd0 /\ n_topicString nd = n_topicString nd0).
  { intros b nd. unfold activate. destruct (decide (b = a)) as [->|Hne].
    - rewrite lookup_alter_eq. intros (nd0 & Hb & ->)%fmap_Some. exists nd0. by repeat split.
    - rewrite lookup_alter_ne by done. intros Hb. exists nd. by repeat split. }
  assert (His : forall b, is_Some (activate h a !! b) <-> is_Some (h !! b)) by (intros b; apply lookup_alter_is_Some).
  assert (Hch : forall b l, child_of (activate h a) b l = child_of h b l).
  { intros b l. unfold child_of. destruct (activate h a !! b) as [nd|] eqn:E.
    - destruct (Hlk b nd E) as (nd0 & -> & Ec & Ew & Em & _). simpl. destruct l; rewrite ?Ec, ?Ew, ?Em; done.
    - destruct (h !! b) as [nd0|] eqn:E0; [|done]. destruct (proj2 (His b) ltac:(eauto)). congruence. }
  intros Hw. split.
  - apply His, (tw_root _ _ Hw).
  - intros nd Hnd. destruct (Hlk _ nd Hnd) as (nd0 & Hnd0 & _ & _ & _ & _ & -> & _). by apply (tw_top _ _ Hw).
  - intros b l c. rewrite Hch, His. apply (tw_child _ _ Hw).
  - intros b. rewrite His. apply (tw_dom _ _ Hw).
  - intros b nd t Hb Ht. destruct (Hlk b nd Hb) as (nd0 & Hb0 & Ec & _). rewrite Ec in Ht. by eapply (tw_tables _ _ Hw).
  - intros b l b' l' c. rewrite !Hch. apply (tw_inj _ _ Hw).
  - intros b l c nd. rewrite Hch. intros Hc Hnd. destruct (Hlk c nd Hnd) as (nd0 & Hnd0 & _ & _ & _ & -> & _).
    by eapply (tw_type _ _ Hw).
  - intros b l c. rewrite Hch. apply (tw_level _ _ Hw).
  - intros b l c nd pd. rewrite Hch. intros Hc Hnd Hpd. destruct (Hlk c nd Hnd) as (nd0 & Hnd0 & _ & _ & _ & _ & -> & ->).
    destruct (Hlk b pd Hpd) as (pd0 & Hpd0 & _ & _ & _ & _ & _ & Ets). unfold new_topicString. rewrite Ets.
    by eapply (tw_parent _ _ Hw).
Qed.

Definition no_results : results := mk_results None 0 0.

Lemma no_results_rep : res_rep no_results [].
Proof. by split. Qed.

(** "a/x/b". *)
Definition demo_publish : list Z := [97; 47; 120; 47; 98].

Lemma demo_publish_cstr : is_cstr demo_publish.
Proof. apply (bool_decide_unpack _). vm_compute. exact I. Qed.

(** 10 is the node of "a/+/b/#". *)
Definition demo_active : demo_heap := activate demo_tree.1 10.

Lemma demo_active_wf : tree_wf demo_tree.2 demo_active.
Proof. apply activate_wf, demo_tree_wf. Qed.

Lemma search_exact_witness :
  exists rc res' n', iett_findMatchingSubsNodes all_mem 1 false (analysed_topic demo_publish) (S demo_tree.2) demo_active 0 0 0 no_results
      = Ret (rc, res', n') /\
    (rc = OK /\ (exists L, res_rep res' L /\ NoDup L /\
       forall x, x ∈ L <-> active_at demo_active x = true /\
         exists p, walk demo_active 0 p = Some x /\ pmatch (sys_end demo_publish) 0 p (levels demo_publish))
     \/ rc = ISMRC_AllocateError /\ (exists i, all_mem i = false) /\ r_nodeCount res' = 0).
Proof.
  exact (search_exact all_mem 1 false (analysed_topic demo_publish) demo_publish true true demo_tree.2 demo_active 0 no_results
    demo_active_wf demo_publish_cstr (analysed_topic_ok _ demo_publish_cstr) (or_introl eq_refl) no_results_rep).
Defined.

Lemma insert_adds_filter_witness :
  exists rc o h' n', iett_insertOrFindSubsNode all_mem demo_tree.2 demo_active 0 (analysed_topic demo_publish) iettOP_ADD
      = Ret (rc, o, h', n') /\
    (rc = OK /\ (exists b, o = Some b /\ walk h' 0 (filter_levels demo_publish) = Some b) /\ tree_wf n' h'
       /\ tree_ext (filter_levels demo_publish) demo_active h'
     \/ rc = ISMRC_AllocateError /\ exists i, all_mem i = false).
Proof.
  exact (insert_adds_filter all_mem (analysed_topic demo_publish) demo_publish demo_tree.2 demo_active
    demo_active_wf demo_publish_cstr (analysed_topic_ok _ demo_publish_cstr)).
Defined.

Lemma insert_finds_filter_witness :
  iett_insertOrFindSubsNode all_mem demo_tree.2 demo_active 0 (analysed_topic demo_filter) iettOP_FIND
  = Ret (match walk demo_active 0 (filter_levels demo_filter) with
         | Some b => (OK, Some b, demo_active, demo_tree.2)
         | None => (ISMRC_NotFound, None, demo_active, demo_tree.2) end).
Proof.
  exact (insert_finds_filter all_mem (analysed_topic demo_filter) demo_filter demo_tree.2 demo_active
    demo_active_wf demo_filter_cstr (analysed_topic_ok _ demo_filter_cstr)).
Defined.

(** The search computes: the published "a/x/b" finds the one active filter. *)
Example demo_search :
  (r_nodeCount <$> (match iett_findMatchingSubsNodes all_mem 0 false (analysed_topic demo_publish) (S demo_tree.2)
                       demo_active 0 0 0 no_results with Ret (_, r, _) => Some r | _ => None end)) = Some 1.
Proof. vm_compute. reflexivity. Qed.
