(* ===== verification/TreeRemove.v ===== *)
(** * Removing inactive nodes of the subscription tree

    server_engine/src/topicTree.c, iett_removeInactiveSubsNodesFromEngineTopicTree:
    from a node that has just lost its last subscription, climb to the highest
    ancestor below which there is nothing but the way we came, and unlink it. *)

From S2P Require Import Prelude TopicString TopicLevels HashTable ChildTable TopicTree TreeMatch TreeInsert TreeCorrect.
From stdpp Require Import gmap.
#[local] Open Scope Z_scope.

Section Model.
Context {T : Type} `{!ChildTable T}.
Implicit Types (h : gmap nat (iettSubsNode_t T)) (nd : iettSubsNode_t T).

Definition iettQUICK_INACTIVE_SUBSNODE_TEST nd : bool :=
  (useCount nd =? 0) && (activeCount nd =? 0) && (delPendCount nd =? 0)
  && (activeCluster nd =? 0) && negb (statsActive nd).

(** The test for children other than those allowed. *)
Definition no_child_left nd (allowChildren : Z) (allowWildcard allowMulticard : bool) : bool :=
  match children nd with None => true | Some t => ct_totalCount t =? allowChildren end
  && (allowWildcard || bool_decide (wildcardChild nd = None))
  && (allowMulticard || bool_decide (multicardChild nd = None)).

(** The loop up the tree.  (The statistics of a node that will be removed are also
    taken off a list that is not part of the tree, and a node that stays frees its
    empty lists of subscriptions.) *)
Fixpoint climb (fuel : nat) h (node : nat) (removeNode : option nat)
    (allowChildren : Z) (allowWildcard allowMulticard : bool) : outcome (option nat) :=
  match fuel with
  | O => Hang
  | S fuel =>
      nd ← node_at h node;
      match n_parent nd with
      | None => Ret removeNode
      | Some parent =>
          if iettQUICK_INACTIVE_SUBSNODE_TEST nd && no_child_left nd allowChildren allowWildcard allowMulticard then
            let nodeType := Z.land (nodeFlags nd) iettNODE_FLAG_TYPE_MASK in
            climb fuel h parent (Some node) (if nodeType =? iettNODE_FLAG_NORMAL then 1 else 0)
              (nodeType =? iettNODE_FLAG_WILDCARD) (nodeType =? iettNODE_FLAG_MULTICARD)
          else Ret removeNode
      end
  end.

(** [strrchr(s, '/') + 1], if there is a slash. *)
Fixpoint after_last_slash (s : list Z) : option (list Z) :=
  match s with
  | [] => None
  | c :: s => match after_last_slash s with
              | Some r => Some r
              | None => if c =? SLASH then Some s else None
              end
  end.

Definition set_parent nd (p : option nat) : iettSubsNode_t T :=
  mk_node (nodeFlags nd) (n_topicString nd) (children nd) (wildcardChild nd) (multicardChild nd) p (activeCount nd)
    (delPendCount nd) (useCount nd) (activeCluster nd) (statsActive nd).

(** What unlinking [nd] does to its parent. *)
Definition unlink_from (pnode nd : iettSubsNode_t T) : outcome (iettSubsNode_t T) :=
  let nodeType := Z.land (nodeFlags nd) iettNODE_FLAG_TYPE_MASK in
  if nodeType =? iettNODE_FLAG_WILDCARD then Ret (set_wildcardChild pnode None)
  else if nodeType =? iettNODE_FLAG_MULTICARD then Ret (set_multicardChild pnode None)
  else
    match n_topicString nd, children pnode with
    | Some topicString, Some t =>
        let substring := default topicString (after_last_slash topicString) in
        t ← ct_remove t substring (iett_generateSubstringHash substring);
        Ret (set_children pnode (Some t))
    | _, _ => Crash
    end.

(** [(removedSubtree, heap)]. *)
Definition iett_removeInactiveSubsNodesFromEngineTopicTree (fuel : nat) h (node : nat)
    : outcome (option nat * gmap nat (iettSubsNode_t T)) :=
  removeNode ← climb fuel h node None 0 false false;
  match removeNode with
  | None => Ret (None, h)
  | Some r =>
      nd ← node_at h r;
      match n_parent nd with
      | None => Crash
      | Some parent =>
          pnode ← node_at h parent;
          pnode ← unlink_from pnode nd;
          Ret (Some r, <[r := set_parent nd None]> (<[parent := pnode]> h))
      end
  end.
End Model.

Section Correct.
Context {T : Type} `{!ChildTable T} `{!ChildTableLaws T}.
Implicit Types (h : gmap nat (iettSubsNode_t T)) (nd : iettSubsNode_t T).

(** ** The string of the last level *)

Lemma after_last_slash_level l : is_level l -> after_last_slash l = None.
Proof.
  induction 1 as [|c l [_ Hc] _ IH]; simpl; [done|]. rewrite IH.
  by destruct (Z.eqb_spec c SLASH).
Qed.

Lemma after_last_slash_app s l : is_level l -> after_last_slash (s ++ SLASH :: l) = Some l.
Proof.
  intros Hl. induction s as [|c s IH]; simpl; [by rewrite after_last_slash_level|]. by rewrite IH.
Qed.

Lemma last_level pd l :
  is_level l -> default (new_topicString pd l) (after_last_slash (new_topicString (T := T) pd l)) = l.
Proof.
  intros Hl. unfold new_topicString. destruct (n_topicString pd) as [s|].
  - by rewrite after_last_slash_app.
  - by rewrite after_last_slash_level.
Qed.

(** ** Children other than the one we came from *)

(** The child at [ol], if any, is the only child of [b]. *)
Definition no_other h (b : nat) (ol : option level) : Prop :=
  forall m c, child_of h b m = Some c -> ol = Some m.

(** What the loop allows when it came from the child at [ol]. *)
Definition allowed_children (ol : option level) : Z := match ol with Some (LWord _) => 1 | _ => 0 end.
Definition allowed_wildcard (ol : option level) : bool := match ol with Some LPlus => true | _ => false end.
Definition allowed_multicard (ol : option level) : bool := match ol with Some LHash => true | _ => false end.

(** The words of the children of a node, as a map. *)
Definition word_map h (b : nat) nd : Prop :=
  match children nd with
  | None => forall w, child_of h b (LWord w) = None
  | Some t => exists m, ct_rep t m /\ forall w, child_of h b (LWord w) = m !! w
  end.

Lemma word_map_ok n h b nd : tree_wf n h -> h !! b = Some nd -> word_map h b nd.
Proof.
  intros Hw Hb. unfold word_map. destruct (children nd) as [t|] eqn:Et.
  - destruct (tw_tables _ _ Hw _ _ _ Hb Et) as [m Hm]. exists m. split; [done|]. intros w.
    unfold child_of. rewrite Hb. simpl. rewrite Et. simpl. rewrite (ct_get_spec _ _ w Hm). by destruct (m !! w).
  - intros w. unfold child_of. rewrite Hb. simpl. by rewrite Et.
Qed.

Lemma map_size_one (m : gmap (list Z) nat) w c :
  m !! w = Some c -> size m = 1%nat <-> forall k, is_Some (m !! k) -> k = w.
Proof.
  intros Hw. split.
  - intros Hs k [x Hk]. destruct (decide (k = w)) as [|Hne]; [done|].
    pose proof (map_size_delete_Some w m ltac:(eauto)) as Hd.
    assert (size (delete w m) = 0%nat) as H0 by lia. apply map_size_empty_inv in H0.
    assert (delete w m !! k = Some x) as Hk' by (by rewrite lookup_delete_ne by done).
    by rewrite H0, lookup_empty in Hk'.
  - intros Hk. assert (m = {[w := c]}) as ->; [|apply map_size_singleton].
    apply map_eq. intros k. destruct (decide (k = w)) as [->|Hne]; [by rewrite lookup_singleton_eq|].
    rewrite lookup_singleton_ne by done. apply eq_None_not_Some. naive_solver.
Qed.

Lemma no_child_left_iff n h b nd ol :
  tree_wf n h -> h !! b = Some nd -> (forall l, ol = Some l -> is_Some (child_of h b l)) ->
  no_child_left nd (allowed_children ol) (allowed_wildcard ol) (allowed_multicard ol) = true <-> no_other h b ol.
Proof.
  intros Hw Hb Hol.
  assert (Hwild : child_of h b LPlus = wildcardChild nd) by (unfold child_of; by rewrite Hb).
  assert (Hmulti : child_of h b LHash = multicardChild nd) by (unfold child_of; by rewrite Hb).
  assert (Hwords : match children nd with None => true | Some t => ct_totalCount t =? allowed_children ol end = true
                   <-> forall w c, child_of h b (LWord w) = Some c -> ol = Some (LWord w)).
  { pose proof (word_map_ok n h b nd Hw Hb) as Hm. unfold word_map in Hm. destruct (children nd) as [t|].
    2: { split; [|done]. intros _ w c. by rewrite Hm. }
    destruct Hm as (m & Hr & Hlk). rewrite (ct_total_spec _ _ Hr), Z.eqb_eq.
    assert (Hdec : (exists w, ol = Some (LWord w)) \/ ~ exists w, ol = Some (LWord w))
      by (destruct ol as [[w| |]|]; [left; by exists w|right; naive_solver..]).
    destruct Hdec as [[w ->]|Hno].
    - destruct (Hol _ eq_refl) as [c Hc]. rewrite Hlk in Hc. simpl.
      change 1 with (Z.of_nat 1). rewrite Nat2Z.inj_iff, (map_size_one m w c Hc). setoid_rewrite Hlk.
      unfold is_Some. naive_solver.
    - assert (allowed_children ol = 0) as -> by (destruct ol as [[]|]; naive_solver).
      setoid_rewrite Hlk. split.
      + intros Hs w c Hc. assert (size m = 0%nat) as ->%map_size_empty_inv by lia. by rewrite lookup_empty in Hc.
      + intros Hall. assert (m = ∅) as ->; [|by rewrite map_size_empty].
        apply map_empty. intros k. apply eq_None_not_Some. intros [c Hc]. apply Hno. eauto. }
  unfold no_child_left. rewrite !andb_true_iff, !orb_true_iff, !bool_decide_eq_true, Hwords. split.
  - intros [[H1 H2] H3] [w| |] c Hc; [by apply (H1 w c)| |].
    + rewrite Hwild in Hc. destruct H2 as [H2|H2]; [by destruct ol as [[]|]|congruence].
    + rewrite Hmulti in Hc. destruct H3 as [H3|H3]; [by destruct ol as [[]|]|congruence].
  - intros Hno. split_and!.
    + intros w c Hc. by apply (Hno (LWord w) c).
    + rewrite <- Hwild. destruct (child_of h b LPlus) as [c|] eqn:E; [left|by right]. by rewrite (Hno _ _ E).
    + rewrite <- Hmulti. destruct (child_of h b LHash) as [c|] eqn:E; [left|by right]. by rewrite (Hno _ _ E).
Qed.

(** ** Unlinking *)

Lemma unlink_ok n h p l r pnode nd :
  tree_wf n h -> child_of h p l = Some r -> h !! p = Some pnode -> h !! r = Some nd ->
  exists pnode', unlink_from pnode nd = Ret pnode'
    /\ n_topicString pnode' = n_topicString pnode /\ n_parent pnode' = n_parent pnode
    /\ nodeFlags pnode' = nodeFlags pnode /\ is_active pnode' = is_active pnode
    /\ (forall t, children pnode' = Some t -> exists m, ct_rep t m)
    /\ (forall h', h' !! p = Some pnode' ->
        forall m, child_of h' p m = if bool_decide (m = l) then None else child_of h p m).
Proof.
  intros Hw Hc Hp Hr. unfold unlink_from. rewrite (tw_type _ _ Hw _ _ _ _ Hc Hr).
  assert (Htab : forall t, children pnode = Some t -> exists m, ct_rep t m) by (intros t; exact (tw_tables _ _ Hw p pnode t Hp)).
  destruct l as [w| |]; simpl.
  - destruct (tw_parent _ _ Hw _ _ _ _ _ Hc Hr Hp) as [_ ->]. pose proof (tw_level _ _ Hw _ _ _ Hc) as Hl.
    pose proof (word_map_ok n h p pnode Hw Hp) as Hm. unfold word_map in Hm. destruct (children pnode) as [t|] eqn:Et; [|congruence].
    destruct Hm as (m & Hrep & Hlk). simpl in Hl |- *. rewrite last_level by done.
    destruct (ct_remove_spec t m w Hrep) as (t' & -> & Hrep'). cbn [mbind outcome_bind].
    eexists. split; [done|]. split_and!; try done.
    + intros t2 [= <-]. eauto.
    + intros h' Hh' m'. unfold child_of at 1. rewrite Hh'. cbn [mbind option_bind]. destruct m' as [w'| |]; cbn.
      * rewrite (ct_get_spec _ _ w' Hrep'). destruct (decide (w' = w)) as [->|Hne].
        -- by rewrite lookup_delete_eq, bool_decide_true.
        -- rewrite lookup_delete_ne, bool_decide_false, Hlk by congruence. by destruct (m !! w').
      * unfold child_of. by rewrite Hp.
      * unfold child_of. by rewrite Hp.
  - eexists. split; [done|]. split_and!; try done. intros h' Hh' m. unfold child_of at 1. rewrite Hh'. unfold child_of. rewrite Hp.
    by destruct m.
  - eexists. split; [done|]. split_and!; try done. intros h' Hh' m. unfold child_of at 1. rewrite Hh'. unfold child_of. rewrite Hp.
    by destruct m.
Qed.

(** The heap after the removal, seen through its children. *)
Record unlinked n h h' (p : nat) (l : level) (r : nat) : Prop := {
  ul_wf : tree_wf n h';
  ul_active x : active_at h' x = active_at h x;
  ul_child b m : child_of h' b m = if bool_decide (b = p /\ m = l) then None else child_of h b m
}.

Lemma unlinked_ok n h p l r pnode pnode' nd :
  tree_wf n h -> child_of h p l = Some r -> h !! p = Some pnode -> h !! r = Some nd -> unlink_from pnode nd = Ret pnode' ->
  unlinked n h (<[r := set_parent nd None]> (<[p := pnode']> h)) p l r.
Proof.
  intros Hw Hc Hp Hr Hu. destruct (unlink_ok n h p l r pnode nd Hw Hc Hp Hr) as (? & Hu' & Ets & Epar & Efl & Eact & Htab & Hch).
  rewrite Hu in Hu'. injection Hu' as <-. pose proof (tw_child _ _ Hw _ _ _ Hc) as [Hpr _].
  set (h' := <[r := _]> _).
  assert (Hsame : forall b nb, h !! b = Some nb -> exists nb', h' !! b = Some nb' /\ nodeFlags nb' = nodeFlags nb
      /\ n_topicString nb' = n_topicString nb /\ is_active nb' = is_active nb
      /\ (b <> r -> n_parent nb' = n_parent nb) /\ (b <> p -> children nb' = children nb /\
          wildcardChild nb' = wildcardChild nb /\ multicardChild nb' = multicardChild nb)).
  { intros b nb Hb. unfold h'. destruct (decide (b = r)) as [->|Hbr].
    - rewrite lookup_insert_eq. simplify_eq. eexists. split; [done|]. split_and!; done.
    - rewrite lookup_insert_ne by done. destruct (decide (b = p)) as [->|Hbp].
      + rewrite lookup_insert_eq. simplify_eq. eexists. split; [done|]. split_and!; done.
      + rewrite lookup_insert_ne by done. eexists. split; [done|]. split_and!; done. }
  assert (Hdom : forall b, is_Some (h' !! b) <-> is_Some (h !! b)).
  { intros b. unfold h'. rewrite !lookup_insert_is_Some'. split; [|tauto]. intros [->|[->|?]]; eauto. }
  assert (Hchild : forall b m, child_of h' b m = if bool_decide (b = p /\ m = l) then None else child_of h b m).
  { intros b m. destruct (decide (b = p)) as [->|Hbp].
    - rewrite (Hch h') by (unfold h'; rewrite lookup_insert_ne by lia; apply lookup_insert_eq).
      by destruct (decide (m = l)) as [->|]; [rewrite !bool_decide_true by done|rewrite !bool_decide_false by naive_solver].
    - rewrite bool_decide_false by naive_solver. unfold child_of. destruct (h !! b) as [nb|] eqn:Hb.
      + destruct (Hsame b nb Hb) as (nb' & -> & _ & _ & _ & _ & Hk). destruct (Hk Hbp) as (E1 & E2 & E3). simpl.
        destruct m; by rewrite ?E1, ?E2, ?E3.
      + destruct (h' !! b) eqn:Hb'; [|done]. destruct (proj1 (Hdom b) ltac:(eauto)). congruence. }
  assert (Hinv : forall b m c, child_of h' b m = Some c -> child_of h b m = Some c /\ ~ (b = p /\ m = l)).
  { intros b m c. rewrite Hchild. by case_bool_decide. }
  split; [|intros x; unfold active_at|done].
  2: { destruct (h !! x) as [nx|] eqn:Hx; [by destruct (Hsame x nx Hx) as (nx' & -> & _ & _ & -> & _)|].
       destruct (h' !! x) eqn:Hx'; [|done]. destruct (proj1 (Hdom x) ltac:(eauto)). congruence. }
  split.
  - apply Hdom, (tw_root _ _ Hw).
  - intros nd0 Hnd0. destruct (tw_root _ _ Hw) as [r0 Hr0]. destruct (Hsame _ _ Hr0) as (nb & Hnb & _ & _ & _ & Epn & _).
    simplify_eq. rewrite Epn by lia. by apply (tw_top _ _ Hw).
  - intros b m c [Hbc _]%Hinv. rewrite Hdom. by apply (tw_child _ _ Hw _ _ _ Hbc).
  - intros b. rewrite Hdom. apply (tw_dom _ _ Hw).
  - intros b nb t Hb Ht. assert (is_Some (h !! b)) as [nb0 Hb0] by (apply Hdom; eauto).
    destruct (Hsame b nb0 Hb0) as (nb' & Hb' & _ & _ & _ & _ & Hk). simplify_eq. destruct (decide (b = p)) as [->|Hbp].
    + assert (nb = pnode') as -> by (unfold h' in Hb; rewrite lookup_insert_ne, lookup_insert_eq in Hb by lia; congruence). by apply Htab.
    + destruct (Hk Hbp) as (Ec & _). rewrite Ec in Ht. by eapply (tw_tables _ _ Hw).
  - intros b m b' m' c [Hb _]%Hinv [Hb' _]%Hinv. by eapply (tw_inj _ _ Hw).
  - intros b m c nc [Hb _]%Hinv Hnc. destruct (proj2 (tw_child _ _ Hw _ _ _ Hb)) as [nc0 Hnc0].
    destruct (Hsame c nc0 Hnc0) as (nc' & Hnc' & Ef & _). simplify_eq. rewrite Ef. by eapply (tw_type _ _ Hw).
  - intros b m c [Hb _]%Hinv. by eapply (tw_level _ _ Hw).
  - intros b m c nc pd [Hb Hne]%Hinv Hnc Hpd. destruct (proj2 (tw_child _ _ Hw _ _ _ Hb)) as [nc0 Hnc0].
    assert (is_Some (h !! b)) as [pd0 Hpd0] by (apply Hdom; eauto).
    destruct (Hsame c nc0 Hnc0) as (nc' & Hnc' & _ & Et & _ & Epn & _).
    destruct (Hsame b pd0 Hpd0) as (pd' & Hpd' & _ & Etp & _). simplify_eq.
    assert (c <> r) as Hcr by (intros ->; apply Hne; by eapply (tw_inj _ _ Hw)).
    rewrite Epn, Et by done. destruct (tw_parent _ _ Hw _ _ _ _ _ Hb Hnc0 Hpd0) as [-> ->].
    split; [done|]. unfold new_topicString. by rewrite Etp.
Qed.

Lemma prefix_snoc_inv {A} (l k : list A) x : l `prefix_of` k ++ [x] -> l = k ++ [x] \/ l `prefix_of` k.
Proof.
  intros [t Ht]. destruct t as [|y t _] using rev_ind; [left; by rewrite app_nil_r in Ht|right].
  rewrite app_assoc in Ht. apply app_inj_2 in Ht as [-> _]; [by exists t|done].
Qed.

Lemma walk_unlinked n h h' p l r pre :
  tree_wf n h -> unlinked n h h' p l r -> walk h 0 pre = Some p ->
  forall q x, walk h' 0 q = Some x <-> walk h 0 q = Some x /\ ~ pre ++ [l] `prefix_of` q.
Proof.
  intros Hw Hu Hpre q. induction q as [|m q IH] using rev_ind; intros x.
  - simpl. split; [|tauto]. intros Hx. split; [done|]. intros Hq. apply prefix_nil_inv in Hq. by destruct pre.
  - rewrite !walk_app, !bind_Some. cbn [walk]. split.
    + intros (b & [Hb Hnp]%IH & Hx). rewrite (ul_child _ _ _ _ _ _ Hu) in Hx. case_bool_decide as E; [done|].
      split; [by exists b|]. intros [Heq|Hq]%prefix_snoc_inv; [|done].
      apply app_inj_2 in Heq as [-> [= ->]]; [|done]. apply E. split; congruence.
    + intros [(b & Hb & Hx) Hnp]. exists b. split.
      { apply IH. split; [done|]. intros Hq. apply Hnp. by apply prefix_app_r. }
      rewrite (ul_child _ _ _ _ _ _ Hu). rewrite bool_decide_false; [done|]. intros [-> ->].
      apply Hnp. by rewrite (walk_inj n h 0 pre q p Hw (tw_root _ _ Hw) Hpre Hb).
Qed.

(** ** Climbing *)

(** The node at the prefix of length [j] of [pth] can go: it is not the root, it is
    not in use, and it has no child off the path. *)
Definition prunable h (pth : list level) (j : nat) : Prop :=
  (0 < j)%nat /\ exists b nd, walk h 0 (take j pth) = Some b /\ h !! b = Some nd
    /\ iettQUICK_INACTIVE_SUBSNODE_TEST nd = true /\ no_other h b (pth !! j).

Section Climb.
Context (n : nat) (h : gmap nat (iettSubsNode_t T)) (pth : list level) (a : nat).
Context (Hw : tree_wf n h) (Hpth : walk h 0 pth = Some a).

Lemma prefix_node j : exists b nd, walk h 0 (take j pth) = Some b /\ h !! b = Some nd
  /\ (forall l, pth !! j = Some l -> is_Some (child_of h b l)).
Proof.
  rewrite <- (take_drop j pth), walk_app in Hpth. destruct (walk h 0 (take j pth)) as [b|] eqn:Hb; [|done].
  destruct (walk_dom n h 0 _ b Hw (tw_root _ _ Hw) Hb) as [[nd Hnd] _]. exists b, nd. split_and!; [done..|].
  intros l Hl. rewrite (drop_S _ _ _ Hl) in Hpth. simpl in Hpth. destruct (child_of h b l); [eauto|done].
Qed.

Lemma prunable_iff j b nd :
  (0 < j)%nat -> walk h 0 (take j pth) = Some b -> h !! b = Some nd ->
  iettQUICK_INACTIVE_SUBSNODE_TEST nd && no_child_left nd (allowed_children (pth !! j)) (allowed_wildcard (pth !! j))
    (allowed_multicard (pth !! j)) = true <-> prunable h pth j.
Proof.
  intros Hj Hb Hnd. destruct (prefix_node j) as (b' & nd' & Hb' & Hnd' & Hch). simplify_eq.
  rewrite andb_true_iff, (no_child_left_iff n h b nd (pth !! j) Hw Hnd Hch). unfold prunable. naive_solver.
Qed.

(** The highest node that goes, above [j] and with everything on the path to [j]. *)
Lemma climb_ok j : forall fuel b rm, (j <= length pth)%nat -> walk h 0 (take j pth) = Some b -> (b < fuel)%nat ->
  exists i, (i <= j)%nat /\ (forall k, (i < k <= j)%nat -> prunable h pth k) /\ ~ prunable h pth i
    /\ climb fuel h b rm (allowed_children (pth !! j)) (allowed_wildcard (pth !! j)) (allowed_multicard (pth !! j))
       = Ret (if bool_decide (i = j) then rm else walk h 0 (take (S i) pth)).
Proof.
  induction j as [|j IH]; intros [|fuel] b rm Hj Hb Hf; try lia; cbn [climb].
  - simpl in Hb. injection Hb as <-. destruct (tw_root _ _ Hw) as [nd Hnd]. exists 0%nat. split; [done|].
    split; [lia|]. split; [by intros [? _]; lia|]. unfold node_at. rewrite Hnd. cbn [mbind outcome_bind].
    by rewrite (tw_top _ _ Hw nd Hnd).
  - destruct (lookup_lt_is_Some_2 pth j) as [l Hl]; [lia|].
    rewrite (take_S_r _ _ _ Hl), walk_app in Hb. destruct (walk h 0 (take j pth)) as [p|] eqn:Hp; [|done]. simpl in Hb.
    destruct (child_of h p l) as [b'|] eqn:Hc; [|done]. injection Hb as ->.
    destruct (tw_child _ _ Hw _ _ _ Hc) as [Hpb [nd Hnd]].
    destruct (walk_dom n h 0 _ p Hw (tw_root _ _ Hw) Hp) as [[pd Hpd] _].
    unfold node_at. rewrite Hnd. cbn [mbind outcome_bind]. rewrite (proj1 (tw_parent _ _ Hw _ _ _ _ _ Hc Hnd Hpd)).
    assert (HbS : walk h 0 (take (S j) pth) = Some b) by (rewrite (take_S_r _ _ _ Hl), walk_app, Hp; simpl; by rewrite Hc).
    pose proof (prunable_iff (S j) b nd ltac:(lia) HbS Hnd) as Hpr. destruct (_ && _).
    + destruct (IH fuel p (Some b) ltac:(lia) eq_refl ltac:(lia)) as (i & Hi & Hall & Hnot & E).
      exists i. split; [lia|]. split; [|split; [done|]].
      { intros k Hk. destruct (decide (k = S j)) as [->|]; [by apply Hpr|apply Hall; lia]. }
      rewrite (tw_type _ _ Hw _ _ _ _ Hc Hnd). rewrite Hl in E.
      transitivity (climb fuel h p (Some b) (allowed_children (Some l)) (allowed_wildcard (Some l)) (allowed_multicard (Some l)));
        [by destruct l|]. rewrite E, (bool_decide_false (i = S j)) by lia. f_equal. case_bool_decide; [by subst|done].
    + exists (S j). split; [done|]. split; [lia|]. split; [intros Hp'; by apply Hpr in Hp'|]. by rewrite bool_decide_true.
Qed.

(** Below a path of such nodes there is only the path. *)
Lemma pruned_path q : forall k x,
  (k <= length pth)%nat -> (forall j, (k <= j <= length pth)%nat -> prunable h pth j) -> walk h 0 (take k pth ++ q) = Some x ->
  exists k', (k <= k' <= length pth)%nat /\ take k pth ++ q = take k' pth.
Proof.
  induction q as [|m q IH]; intros k x Hk Hall Hx.
  - exists k. by rewrite app_nil_r.
  - rewrite walk_app in Hx. destruct (Hall k ltac:(lia)) as (_ & b & nd & Hb & _ & _ & Hno). rewrite Hb in Hx. simpl in Hx.
    destruct (child_of h b m) as [c|] eqn:Hc; [|done]. specialize (Hno _ _ Hc). pose proof (lookup_lt_Some _ _ _ Hno) as Hlt.
    assert (Heq : take k pth ++ m :: q = take (S k) pth ++ q) by (by rewrite (take_S_r _ _ _ Hno), <- app_assoc).
    destruct (IH (S k) x) as (k' & Hk' & E); [lia|intros; apply Hall; lia| |exists k'; split; [lia|congruence]].
    rewrite <- Heq, walk_app, Hb. simpl. by rewrite Hc.
Qed.

Lemma inactive_not_active nd : iettQUICK_INACTIVE_SUBSNODE_TEST nd = true -> is_active nd = false.
Proof.
  unfold iettQUICK_INACTIVE_SUBSNODE_TEST, is_active. rewrite !andb_true_iff. intros [[[[_ ->] _] _] ->%negb_true_iff]. done.
Qed.
End Climb.
End Correct.

(** C4. Removing what has become inactive: from any node of the tree, the highest
    ancestor-or-self is unlinked below which, down to that node, every node is
    unused and has no other child; when the node itself is in use or has children,
    nothing happens.  The tree stays well-formed, loses exactly the filters through
    the unlinked node, and none of them has an active subscriber: every search finds
    what it found before. *)
Theorem remove_inactive {T} `{!ChildTable T} `{!ChildTableLaws T} n (h : gmap nat (iettSubsNode_t T)) pth a :
  tree_wf n h -> walk h 0 pth = Some a ->
  exists o h', iett_removeInactiveSubsNodesFromEngineTopicTree (S a) h a = Ret (o, h') /\ tree_wf n h'
    /\ match o with
       | None => h' = h /\ ~ prunable h pth (length pth)
       | Some r => exists i, (i < length pth)%nat /\ walk h 0 (take (S i) pth) = Some r
           /\ (forall k, (i < k <= length pth)%nat -> prunable h pth k) /\ ~ prunable h pth i
           /\ (forall q x, walk h' 0 q = Some x <-> walk h 0 q = Some x /\ ~ take (S i) pth `prefix_of` q)
       end
    /\ (forall x, active_at h' x = active_at h x)
    /\ (forall q x, active_at h x = true -> walk h' 0 q = Some x <-> walk h 0 q = Some x).
Proof.
  intros Hw Hpth. destruct (climb_ok n h pth a Hw Hpth (length pth) (S a) a None) as (i & Hi & Hall & Hnot & E);
    [done|by rewrite firstn_all|lia|].
  rewrite (lookup_ge_None_2 pth (length pth)) in E by lia. cbn [allowed_children allowed_wildcard allowed_multicard] in E.
  unfold iett_removeInactiveSubsNodesFromEngineTopicTree. rewrite E. cbn [mbind outcome_bind].
  case_bool_decide as Ei; [subst i; exists None, h; by split_and!|].
  destruct (lookup_lt_is_Some_2 pth i) as [l Hl]; [lia|].
  destruct (prefix_node n h pth a Hw Hpth i) as (p & pd & Hp & Hpd & Hch). destruct (Hch l Hl) as [r Hc].
  assert (Hr : walk h 0 (take (S i) pth) = Some r) by (rewrite (take_S_r _ _ _ Hl), walk_app, Hp; simpl; by rewrite Hc).
  destruct (tw_child _ _ Hw _ _ _ Hc) as [_ [nd Hnd]]. rewrite Hr. unfold node_at. rewrite Hnd. cbn [mbind outcome_bind].
  rewrite (proj1 (tw_parent _ _ Hw _ _ _ _ _ Hc Hnd Hpd)), Hpd. cbn [mbind outcome_bind].
  destruct (unlink_ok n h p l r pd nd Hw Hc Hpd Hnd) as (pd' & Hu & _). rewrite Hu. cbn [mbind outcome_bind].
  pose proof (unlinked_ok n h p l r pd pd' nd Hw Hc Hpd Hnd Hu) as Hul.
  pose proof (walk_unlinked n h _ p l r _ Hw Hul Hp) as Hwalk. rewrite <- (take_S_r _ _ _ Hl) in Hwalk.
  do 2 eexists. split; [done|]. split; [exact (ul_wf _ _ _ _ _ _ Hul)|]. split; [|split; [exact (ul_active _ _ _ _ _ _ Hul)|]].
  - exists i. split_and!; [lia|done..].
  - intros q x Hx. rewrite Hwalk. split; [tauto|]. intros Hq. split; [done|]. intros [q' ->].
    destruct (pruned_path h pth q' (S i) x) as (k & Hk & Ek); [lia|intros; apply Hall; lia|done|].
    destruct (Hall k ltac:(lia)) as (_ & b & nb & Hb & Hnb & Hin & _). rewrite Ek, Hb in Hq. injection Hq as ->.
    unfold active_at in Hx. by rewrite Hnb, (inactive_not_active _ Hin) in Hx.
Qed.

(** ** A concrete removal: "a/x/b" is added to the tree of TreeCorrect.v, and goes
    again; "a" stays, for it has other children. *)

Definition demo_more : demo_heap * nat := add_filter demo_tree demo_publish.

Lemma demo_more_wf : tree_wf demo_more.2 demo_more.1.
Proof. apply add_filter_wf; [apply demo_tree_wf|apply demo_publish_cstr]. Qed.

Definition demo_leaf : nat := default 0%nat (walk demo_more.1 0 (filter_levels demo_publish)).

Definition demo_removed : option nat * demo_heap :=
  match iett_removeInactiveSubsNodesFromEngineTopicTree (S demo_leaf) demo_more.1 demo_leaf with
  | Ret r => r
  | _ => (None, ∅)
  end.

(** The node of "a/x" has been unlinked; "a/#" is still there. *)
Example demo_removal :
  demo_removed.1 = walk demo_more.1 0 (take 2 (filter_levels demo_publish)) /\ demo_removed.1 <> None /\
  walk demo_removed.2 0 (filter_levels demo_publish) = None /\ walk demo_removed.2 0 (filter_levels demo_filter) <> None.
Proof. vm_compute. repeat split; discriminate. Qed.

Lemma remove_inactive_witness :
  exists o h', iett_removeInactiveSubsNodesFromEngineTopicTree (S demo_leaf) demo_more.1 demo_leaf = Ret (o, h')
    /\ tree_wf demo_more.2 h' /\ (forall q x, active_at demo_more.1 x = true -> walk h' 0 q = Some x <-> walk demo_more.1 0 q = Some x).
Proof.
  destruct (remove_inactive demo_more.2 demo_more.1 (filter_levels demo_publish) demo_leaf demo_more_wf) as (o & h' & E & Hw & _ & _ & Hs);
    [vm_compute; reflexivity|]. exists o, h'. split; [exact E|]. split; [exact Hw|exact Hs].
Defined.
