(* ===== verification/SubList.v ===== *)
(** * Lists of subscriptions

    server_engine/src/topicTree.c: the unsorted list of subscriptions that a node
    of the subscription tree keeps.  Each subscription remembers its index in the
    list, so that it is removed without a search: the last entry takes its
    place. *)

From S2P Require Import Prelude TopicString.
From stdpp Require Import gmap.
#[local] Open Scope Z_scope.

Definition NOT_LISTED : Z := 0xffffffff.
Definition iettINITIAL_SUBSCRIBER_ARRAY_CAPACITY : Z := 10.
Definition iettSUBATTR_SHARE_WITH_CLUSTER : Z := 0x100.

(** The members of [ismEngine_Subscription_t] that the lists use. *)
Record subscription_t := mk_sub { nodeListIndex : Z; internalAttrs : Z }.

Abbreviation subs := (gmap nat subscription_t).

(** [iettSubscriptionList_t]: [sl_list] holds the addresses, NULL is [None]. *)
Record iettSubscriptionList_t := mk_list {
  sl_count : Z;
  sl_max : Z;
  sl_list : option (array (option nat))
}.

Definition get_sub (ss : subs) (a : nat) : outcome subscription_t :=
  match ss !! a with Some s => Ret s | None => Crash end.

Definition set_index (ss : subs) (a : nat) (i : Z) : outcome subs :=
  s ← get_sub ss a; Ret (<[a := mk_sub i (internalAttrs s)]> ss).

Definition list_write (l : option (array (option nat))) (i : Z) (x : option nat) : outcome (array (option nat)) :=
  match l with Some a => array_write a i x | None => Crash end.

Definition list_read (l : option (array (option nat))) (i : Z) : outcome (option nat) :=
  match l with Some a => array_read a i | None => Crash end.

Section SubList.
Context (mem : nat -> bool).

Definition realloc_list (l : option (array (option nat))) (size : Z) : array (option nat) :=
  let old := default [] l in
  take (Z.to_nat size) old ++ replicate (Z.to_nat size - length old) None.

(** [(rc, subscriptions, list, allocations)]. *)
Definition iett_addSubscriptionToSubsNode (n : nat) (ss : subs) (sub : nat) (l : iettSubscriptionList_t)
    : outcome (Z * subs * iettSubscriptionList_t * nat) :=
  let full := sl_count l =? sl_max l in
  if full && negb (mem n) then Ret (ISMRC_AllocateError, ss, l, S n) else
  let l := if full then
             let newMax := if sl_max l =? 0 then iettINITIAL_SUBSCRIBER_ARRAY_CAPACITY else u32 (sl_max l * 2) in
             mk_list (sl_count l) newMax (Some (realloc_list (sl_list l) (newMax + 1)))
           else l in
  let n := if full then S n else n in
  s ← get_sub ss sub;
  (* assert: it is not on another list *)
  if negb (nodeListIndex s =? NOT_LISTED) then Crash else
  ss ← set_index ss sub (sl_count l);
  arr ← list_write (sl_list l) (sl_count l) (Some sub);
  arr ← array_write arr (sl_count l + 1) None;
  Ret (OK, ss, mk_list (sl_count l + 1) (sl_max l) (Some arr), n).

(** The linear search from [middle]. *)
Fixpoint find_sub (fuel : nat) (l : option (array (option nat))) (sub : nat) (middle end_ : Z) : outcome (option Z) :=
  match fuel with
  | O => Hang
  | S fuel =>
      if middle <? end_ then
        x ← list_read l middle;
        if bool_decide (x = Some sub) then Ret (Some middle) else find_sub fuel l sub (middle + 1) end_
      else Ret None
  end.

(** Where the subscription is: at its index, or else found by searching. *)
Definition locate_sub (s : subscription_t) (sub : nat) (l : iettSubscriptionList_t) : outcome (option Z) :=
  let middle := nodeListIndex s in
  here ← (if middle <? sl_count l then x ← list_read (sl_list l) middle; Ret (bool_decide (x = Some sub)) else Ret false);
  if (here : bool) then Ret (Some middle)
  else find_sub (S (Z.to_nat (sl_count l))) (sl_list l) sub 0 (sl_count l).

Definition iett_removeSubscriptionFromSubsNode (ss : subs) (sub : nat) (l : iettSubscriptionList_t)
    : outcome (Z * subs * iettSubscriptionList_t) :=
  s ← get_sub ss sub;
  where_ ← locate_sub s sub l;
  match where_ with
  | None => Ret (ISMRC_NotFound, ss, l)
  | Some middle =>
      let end_ := sl_count l in
      '(arr, ss) ←
        (if end_ >? 1 then
           last ← list_read (sl_list l) (end_ - 1);
           arr ← list_write (sl_list l) middle last;
           match last with
           | Some b => ss ← set_index ss b middle; Ret (Some arr, ss)
           | None => Crash
           end
         else Ret (sl_list l, ss));
      ss ← set_index ss sub NOT_LISTED;
      let count := sl_count l - 1 in
      if count =? 0 then Ret (OK, ss, mk_list 0 0 None)
      else arr ← list_write arr count None; Ret (OK, ss, mk_list count (sl_max l) (Some arr))
  end.

(** ** Active subscriptions

    The part of a node and of the tree that these update.  [cluster_add] and
    [cluster_remove] are the answers of the cluster component, called with the
    topic string and whether it has wildcards; it is asked only when clustering
    is enabled. *)
Record active_t := mk_active {
  activeSubs : iettSubscriptionList_t;
  activeCluster : Z;
  cacheUpdates : Z
}.

Context (clusterEnabled : bool) (cluster_add cluster_remove : Z).

Definition is_clusterSub (s : subscription_t) : bool :=
  Z.land (internalAttrs s) iettSUBATTR_SHARE_WITH_CLUSTER =? iettSUBATTR_SHARE_WITH_CLUSTER.

Definition iett_addActiveSubscriptionToSubsNode (n : nat) (ss : subs) (sub : nat) (nd : active_t) (inRecovery : bool)
    : outcome (Z * subs * active_t * nat) :=
  '(rc, ss, l, n) ← iett_addSubscriptionToSubsNode n ss sub (activeSubs nd);
  if negb (rc =? OK) then Ret (rc, ss, mk_active l (activeCluster nd) (cacheUpdates nd), n) else
  s ← get_sub ss sub;
  let clusterSub := is_clusterSub s in
  let cluster := if clusterSub then u32 (activeCluster nd + 1) else activeCluster nd in
  if inRecovery then Ret (OK, ss, mk_active l cluster (cacheUpdates nd), n) else
  let cache := if sl_count l =? 1 then cacheUpdates nd + 1 else cacheUpdates nd in
  if clusterSub && (cluster =? 1) then
    let rc := if clusterEnabled then cluster_add else OK in
    if rc =? OK then Ret (OK, ss, mk_active l cluster cache, n)
    else
      '(_, ss, l) ← iett_removeSubscriptionFromSubsNode ss sub l;
      Ret (rc, ss, mk_active l (u32 (cluster - 1)) cache, n)
  else Ret (OK, ss, mk_active l cluster cache, n).

Definition iett_removeActiveSubscriptionFromSubsNode (n : nat) (ss : subs) (sub : nat) (nd : active_t) (inRecovery : bool)
    : outcome (Z * subs * active_t * nat) :=
  '(rc, ss, l) ← iett_removeSubscriptionFromSubsNode ss sub (activeSubs nd);
  if negb (rc =? OK) then Ret (rc, ss, mk_active l (activeCluster nd) (cacheUpdates nd), n) else
  s ← get_sub ss sub;
  let clusterSub := is_clusterSub s in
  let cluster := if clusterSub then u32 (activeCluster nd - 1) else activeCluster nd in
  if inRecovery then Ret (OK, ss, mk_active l cluster (cacheUpdates nd), n) else
  if clusterSub && (cluster =? 0) then
    let rc := if clusterEnabled then (if cluster_remove =? ISMRC_NotFound then OK else cluster_remove) else OK in
    if rc =? OK then Ret (OK, ss, mk_active l cluster (cacheUpdates nd), n)
    else
      '(_, ss, l, n) ← iett_addSubscriptionToSubsNode n ss sub l;
      Ret (rc, ss, mk_active l (u32 (cluster + 1)) (cacheUpdates nd), n)
  else Ret (OK, ss, mk_active l cluster (cacheUpdates nd), n).
End SubList.

(** ** Invariant *)

(** The list holds [ids], each once, and each knows its place. *)
Record sublist_ok (ss : subs) (l : iettSubscriptionList_t) (ids : list nat) : Prop := {
  so_count : sl_count l = Z.of_nat (length ids);
  so_array : match sl_list l with
             | Some arr => (exists junk, arr = map (Some ∘ Some) ids ++ Some None :: junk)
                           /\ Z.of_nat (length arr) = sl_max l + 1
             | None => ids = [] /\ sl_max l = 0
             end;
  so_max : sl_max l < 2 ^ 31;
  so_index : forall i a, ids !! i = Some a -> exists s, ss !! a = Some s /\ nodeListIndex s = Z.of_nat i
}.

Lemma so_nodup ss l ids : sublist_ok ss l ids -> NoDup ids.
Proof.
  intros Hok. apply NoDup_alt. intros i j a Hi Hj.
  destruct (so_index _ _ _ Hok _ _ Hi) as (s & Hs & Ei). destruct (so_index _ _ _ Hok _ _ Hj) as (s' & Hs' & Ej).
  simplify_eq. lia.
Qed.

Lemma so_bound ss l ids : sublist_ok ss l ids -> Z.of_nat (length ids) <= sl_max l.
Proof.
  intros [Hc Ha Hm _]. destruct (sl_list l) as [arr|]; [|destruct Ha as [-> ->]; simpl; lia].
  destruct Ha as [[junk ->] Hl]. rewrite length_app, length_map in Hl. simpl in Hl. lia.
Qed.

Lemma set_index_ok ss a s i : ss !! a = Some s -> set_index ss a i = Ret (<[a := mk_sub i (internalAttrs s)]> ss).
Proof. intros E. unfold set_index, get_sub. by rewrite E. Qed.

Lemma list_write_at pre y x suf i :
  i = Z.of_nat (length pre) -> array_write (pre ++ y :: suf) i x = Ret (pre ++ Some x :: suf) (A := array (option nat)).
Proof.
  intros ->. unfold array_write. destruct (Z.leb_spec 0 (Z.of_nat (length pre))); [|lia].
  rewrite length_app. simpl. destruct (Z.ltb_spec (Z.of_nat (length pre)) (Z.of_nat (length pre + S (length suf)))); [|lia].
  simpl. rewrite Nat2Z.id. f_equal. rewrite <- (Nat.add_0_r (length pre)). by rewrite insert_app_r.
Qed.

(** Adding. *)
(** The list with room for one more entry and the terminating null. *)
Lemma grown_list ss l ids :
  sublist_ok ss l ids -> sl_max l < 2 ^ 30 ->
  let newMax := if sl_max l =? 0 then iettINITIAL_SUBSCRIBER_ARRAY_CAPACITY else u32 (sl_max l * 2) in
  let l1 := if sl_count l =? sl_max l
            then mk_list (sl_count l) newMax (Some (realloc_list (sl_list l) (newMax + 1))) else l in
  exists y1 y2 junk, sl_count l1 = Z.of_nat (length ids) /\ sl_list l1 = Some (map (Some ∘ Some) ids ++ y1 :: y2 :: junk)
    /\ Z.of_nat (length (map (Some ∘ Some) ids ++ y1 :: y2 :: junk)) = sl_max l1 + 1 /\ sl_max l1 < 2 ^ 31.
Proof.
  intros Hok Hbig newMax l1. pose proof (so_bound _ _ _ Hok) as Hb. pose proof Hok as [Hc Ha Hm Hi].
  unfold l1. destruct (Z.eqb_spec (sl_count l) (sl_max l)) as [E|E]; cbn [sl_count sl_list sl_max].
  - assert (HnM : sl_max l < newMax < 2 ^ 31).
    { unfold newMax, iettINITIAL_SUBSCRIBER_ARRAY_CAPACITY. destruct (Z.eqb_spec (sl_max l) 0); [lia|].
      change (2 ^ 30) with 1073741824 in Hbig. change (2 ^ 31) with 2147483648. rewrite wrapu_small; [lia|]. change (2 ^ 32) with 4294967296. lia. }
    assert (Hre : exists y1 y2 junk, realloc_list (sl_list l) (newMax + 1) = map (Some ∘ Some) ids ++ y1 :: y2 :: junk).
    { unfold realloc_list. destruct (sl_list l) as [arr|]; cbn [default from_option id].
      - destruct Ha as [[junk ->] Hl]. rewrite take_ge by lia. rewrite <- app_assoc. exists (Some None).
        rewrite length_app, length_map in *. simpl in *.
        destruct (junk ++ replicate _ None) as [|y2 rest] eqn:Ej; [|eauto].
        apply (f_equal length) in Ej. rewrite length_app, length_replicate in Ej. simpl in Ej. lia.
      - destruct Ha as [-> Hz]. rewrite take_nil. simpl.
        destruct (Z.to_nat (newMax + 1)) as [|[|k]] eqn:Ek; [lia|lia|]. simpl. eauto. }
    destruct Hre as (y1 & y2 & junk & Hre). exists y1, y2, junk. rewrite Hre. split; [done|]. split; [done|].
    split; [|lia]. rewrite <- Hre. unfold realloc_list. rewrite length_app, length_take, length_replicate. lia.
  - destruct (sl_list l) as [arr|]; [|destruct Ha as [-> Hz]; simpl in Hc; lia].
    destruct Ha as [[junk ->] Hl]. destruct junk as [|y2 junk]; [rewrite length_app, length_map in Hl; simpl in Hl; lia|].
    exists (Some None), y2, junk. done.
Qed.

Lemma add_sub_ok mem n ss sub l ids s :
  sublist_ok ss l ids -> sl_max l < 2 ^ 30 -> ss !! sub = Some s -> nodeListIndex s = NOT_LISTED ->
  exists rc ss' l' n', iett_addSubscriptionToSubsNode mem n ss sub l = Ret (rc, ss', l', n') /\
    (rc = OK /\ sublist_ok ss' l' (ids ++ [sub])
       /\ ss' = <[sub := mk_sub (Z.of_nat (length ids)) (internalAttrs s)]> ss
     \/ rc = ISMRC_AllocateError /\ ss' = ss /\ l' = l /\ exists i, mem i = false).
Proof.
  intros Hok Hbig Hsub Hidx. pose proof (so_bound _ _ _ Hok) as Hb. pose proof Hok as [Hc Ha Hm Hi].
  unfold iett_addSubscriptionToSubsNode.
  destruct ((sl_count l =? sl_max l) && negb (mem n)) eqn:Ef.
  { apply andb_true_iff in Ef as [_ Ef%negb_true_iff]. do 4 eexists. split; [done|]. right. eauto. }
  set (l1 := if sl_count l =? sl_max l then _ else l).
  assert (Hnew : forall i a, (ids ++ [sub]) !! i = Some a ->
    exists s', <[sub := mk_sub (Z.of_nat (length ids)) (internalAttrs s)]> ss !! a = Some s' /\ nodeListIndex s' = Z.of_nat i).
  { intros i a [Hia|[Hge Hia]]%lookup_app_Some.
    - destruct (Hi i a Hia) as (s' & Hs' & Hn'). exists s'. rewrite lookup_insert_ne; [done|]. intros ->. simplify_eq.
      rewrite Hidx in Hn'. apply lookup_lt_Some in Hia. unfold NOT_LISTED in Hn'. lia.
    - apply list_lookup_singleton_Some in Hia as [Hz <-]. rewrite lookup_insert_eq. eexists. split; [done|]. simpl. lia. }
  destruct (grown_list ss l ids Hok Hbig) as (y1 & y2 & junk & Ec & El & Hlen & Hm1). cbv zeta in El, Ec, Hlen, Hm1 |- *. fold l1 in El, Ec, Hlen, Hm1. unfold get_sub. rewrite Hsub. cbn [mbind outcome_bind].
  rewrite Hidx. change (NOT_LISTED =? NOT_LISTED) with true. cbn [negb].
  rewrite (set_index_ok _ _ _ _ Hsub). cbn [mbind outcome_bind]. rewrite El, Ec. unfold list_write.
  rewrite list_write_at by (by rewrite length_map). cbn [mbind outcome_bind].
  assert (Eapp : map (Some ∘ Some) ids ++ Some (Some sub) :: y2 :: junk = map (Some ∘ Some) (ids ++ [sub]) ++ y2 :: junk)
    by (by rewrite map_app, <- app_assoc).
  rewrite Eapp, list_write_at by (rewrite length_map, length_app; simpl; lia). cbn [mbind outcome_bind].
  do 4 eexists. split; [done|]. left. split; [done|]. split; [|done].
  split; cbn [sl_count sl_list sl_max]; [rewrite length_app; simpl; lia| |done|done].
  split; [by eexists|]. rewrite length_app, length_map in *. simpl in *. rewrite length_app. simpl. lia.
Qed.

(** Reading the list. *)
Lemma list_read_ok ss l ids i a : sublist_ok ss l ids -> ids !! i = Some a -> list_read (sl_list l) (Z.of_nat i) = Ret (Some a).
Proof.
  intros [_ Ha _ _] Hi. unfold list_read. destruct (sl_list l) as [arr|]; [|by destruct Ha as [-> _]].
  destruct Ha as [[junk ->] _]. unfold array_read. destruct (Z.leb_spec 0 (Z.of_nat i)); [|lia].
  rewrite Nat2Z.id, lookup_app_l by (rewrite length_map; by apply lookup_lt_Some in Hi).
  by rewrite list_lookup_fmap, Hi.
Qed.

Lemma find_sub_absent ss l ids sub : sublist_ok ss l ids -> sub ∉ ids -> forall fuel i,
  (length ids - i < fuel)%nat -> find_sub fuel (sl_list l) sub (Z.of_nat i) (sl_count l) = Ret None.
Proof.
  intros Hok Hn. induction fuel as [|fuel IH]; intros i Hf; [lia|]. cbn [find_sub]. rewrite (so_count _ _ _ Hok).
  destruct (Z.ltb_spec (Z.of_nat i) (Z.of_nat (length ids))) as [Hlt|]; [|done].
  destruct (lookup_lt_is_Some_2 ids i ltac:(lia)) as [a Ha]. rewrite (list_read_ok _ _ _ _ _ Hok Ha). cbn [mbind outcome_bind].
  rewrite bool_decide_false by (intros [= ->]; apply Hn; by eapply list_elem_of_lookup_2).
  replace (Z.of_nat i + 1) with (Z.of_nat (S i)) by lia. rewrite <- (so_count _ _ _ Hok). apply IH. lia.
Qed.

Lemma remove_absent ss l ids sub s :
  sublist_ok ss l ids -> sub ∉ ids -> ss !! sub = Some s -> 0 <= nodeListIndex s ->
  iett_removeSubscriptionFromSubsNode ss sub l = Ret (ISMRC_NotFound, ss, l).
Proof.
  intros Hok Hn Hs Hpos. unfold iett_removeSubscriptionFromSubsNode, get_sub. rewrite Hs. cbn [mbind outcome_bind].
  unfold locate_sub. rewrite (so_count _ _ _ Hok) at 1.
  assert (Hhere : (if nodeListIndex s <? Z.of_nat (length ids)
                   then x ← list_read (sl_list l) (nodeListIndex s); Ret (bool_decide (x = Some sub)) else Ret false) = Ret false).
  { destruct (Z.ltb_spec (nodeListIndex s) (Z.of_nat (length ids))) as [Hlt|]; [|done].
    destruct (lookup_lt_is_Some_2 ids (Z.to_nat (nodeListIndex s)) ltac:(lia)) as [a Ha].
    pose proof (list_read_ok _ _ _ _ _ Hok Ha) as E. rewrite Z2Nat.id in E by lia. rewrite E. cbn [mbind outcome_bind].
    by rewrite bool_decide_false by (intros [= ->]; apply Hn; by eapply list_elem_of_lookup_2). }
  rewrite Hhere. cbn [mbind outcome_bind]. rewrite (find_sub_absent ss l ids sub Hok Hn _ 0); [done|].
  rewrite (so_count _ _ _ Hok). lia.
Qed.

Lemma remove_here ss l ids sub i s :
  sublist_ok ss l ids -> ids !! i = Some sub -> ss !! sub = Some s ->
  locate_sub s sub l = Ret (Some (Z.of_nat i)).
Proof.
  intros Hok Hi Hs. destruct (so_index _ _ _ Hok _ _ Hi) as (s' & Hs' & En). simplify_eq. unfold locate_sub. rewrite En.
  rewrite (so_count _ _ _ Hok). pose proof (lookup_lt_Some _ _ _ Hi).
  destruct (Z.ltb_spec (Z.of_nat i) (Z.of_nat (length ids))); [|lia]. rewrite (list_read_ok _ _ _ _ _ Hok Hi).
  cbn [mbind outcome_bind]. by rewrite bool_decide_true.
Qed.

(** The list without its entry [i]: the last entry takes its place. *)
Definition swap_remove (ids : list nat) (i : nat) : list nat :=
  match last ids with
  | Some z => take (length ids - 1) (<[i := z]> ids)
  | None => []
  end.

Lemma swap_remove_snoc front z i :
  (i <= length front)%nat -> swap_remove (front ++ [z]) i = <[i := z]> front.
Proof.
  intros Hi. unfold swap_remove. rewrite last_snoc, length_app. simpl. replace (length front + 1 - 1)%nat with (length front) by lia.
  destruct (decide (i < length front)%nat) as [Hlt|Hge].
  - rewrite insert_app_l by done. by rewrite take_app_length' by (by rewrite length_insert).
  - replace i with (length front) by lia. rewrite (list_insert_ge front) by lia.
    rewrite <- (Nat.add_0_r (length front)) at 2. rewrite insert_app_r. simpl. by rewrite take_app_length.
Qed.

Lemma swap_remove_elem ids i sub x :
  NoDup ids -> ids !! i = Some sub -> x ∈ swap_remove ids i <-> x ∈ ids /\ x <> sub.
Proof.
  intros Hnd Hi. destruct ids as [|z front _] using rev_ind; [done|].
  pose proof (lookup_lt_Some _ _ _ Hi) as Hlt. rewrite length_app in Hlt. simpl in Hlt.
  apply NoDup_app in Hnd as (Hf & Hz & _). rewrite swap_remove_snoc by lia. rewrite elem_of_app, list_elem_of_singleton.
  apply lookup_app_Some in Hi as [Hi|[Hge Hi]].
  - rewrite insert_take_drop by (by eapply lookup_lt_Some).
    rewrite <- (take_drop_middle front i sub Hi) at 3. rewrite !elem_of_app, !elem_of_cons.
    rewrite <- (take_drop_middle front i sub Hi) in Hf. apply NoDup_app in Hf as (_ & Hf1 & [Hf2 _]%NoDup_cons).
    assert (Hsz : sub <> z) by (intros ->; apply (Hz z); [by eapply list_elem_of_lookup_2|by left]).
    assert (Ht : x ∈ take i front -> x <> sub) by (intros Hx ->; apply (Hf1 _ Hx); by left).
    assert (Hd : x ∈ drop (S i) front -> x <> sub) by (intros Hx ->; done).
    split; [intros [?|[->|?]]; auto|]. intros [[[?|[?|?]]|?] ?]; subst; auto. done.
  - apply list_lookup_singleton_Some in Hi as [Ez <-]. rewrite list_insert_ge by lia.
    assert (Hx : x ∈ front -> x <> z) by (intros Hx ->; apply (Hz z Hx); by left).
    split; [auto|]. intros [[?|?] ?]; done.
Qed.

(** Removing. *)
(** The last entry is written over entry [i]. *)
Lemma move_last (front : list nat) (z i : nat) (junk : array (option nat)) :
  (i <= length front)%nat ->
  array_write (map (Some ∘ Some) (front ++ [z]) ++ Some None :: junk) (Z.of_nat i) (Some z)
  = Ret (map (Some ∘ Some) (<[i := z]> front ++ [z]) ++ Some None :: junk) (A := array (option nat)).
Proof.
  intros Hi. unfold array_write. destruct (Z.leb_spec 0 (Z.of_nat i)); [|lia].
  destruct (Z.ltb_spec (Z.of_nat i) (Z.of_nat (length (map (Some ∘ Some) (front ++ [z]) ++ Some None :: junk))));
    [|rewrite length_app, length_map, length_app in *; simpl in *; lia].
  simpl. f_equal. rewrite Nat2Z.id, insert_app_l by (rewrite length_map, length_app; simpl; lia). f_equal.
  etransitivity; [symmetry; apply (list_fmap_insert (Some ∘ Some) (front ++ [z]) i z)|].
  apply (f_equal (map (Some ∘ Some))). destruct (decide (i < length front)%nat) as [Hl|Hg]; [by rewrite insert_app_l|].
  replace i with (length front) by lia. rewrite (list_insert_ge front) by lia.
  rewrite <- (Nat.add_0_r (length front)) at 1. by rewrite insert_app_r.
Qed.

(** The index of every subscription after the move. *)
Lemma reindexed (ss : subs) front z i sub s sz ss1 :
  NoDup (front ++ [z]) ->
  (forall j a, (front ++ [z]) !! j = Some a -> exists s', ss !! a = Some s' /\ nodeListIndex s' = Z.of_nat j) ->
  (front ++ [z]) !! i = Some sub ->
  (front <> [] -> ss1 = <[z := mk_sub (Z.of_nat i) (internalAttrs sz)]> ss) -> (front = [] -> ss1 = ss) ->
  (forall j a, <[i := z]> front !! j = Some a ->
     exists s', <[sub := mk_sub NOT_LISTED (internalAttrs s)]> ss1 !! a = Some s' /\ nodeListIndex s' = Z.of_nat j)
  /\ (forall x, x ∉ front ++ [z] -> <[sub := mk_sub NOT_LISTED (internalAttrs s)]> ss1 !! x = ss !! x).
Proof.
  intros Hnd Hidx Hi H1 H0. pose proof (lookup_lt_Some _ _ _ Hi) as Hlt. rewrite length_app in Hlt. simpl in Hlt. split.
  - intros j a Hj. destruct front as [|f0 front0] eqn:Efr; [destruct i; done|]. rewrite <- Efr in *. rewrite H1 by (by rewrite Efr).
    assert (Ha : a <> sub).
    { intros ->. assert (Hin : sub ∈ swap_remove (front ++ [z]) i) by (rewrite swap_remove_snoc by lia; by eapply list_elem_of_lookup_2).
      by apply (swap_remove_elem _ _ sub) in Hin as [_ ?]. }
    rewrite lookup_insert_ne by done. apply list_lookup_insert_Some in Hj as [(<- & <- & _)|(Hne & Hj)].
    + rewrite lookup_insert_eq. eauto.
    + assert (Hja : (front ++ [z]) !! j = Some a) by (by apply lookup_app_l_Some).
      rewrite lookup_insert_ne; [by apply Hidx|]. intros <-.
      assert (j = length front) as -> by (eapply NoDup_lookup; [exact Hnd|exact Hja|by apply list_lookup_middle]).
      apply lookup_lt_Some in Hj. lia.
  - intros x Hx. rewrite not_elem_of_app, list_elem_of_singleton in Hx. rewrite lookup_insert_ne.
    2: { intros <-. apply list_elem_of_lookup_2 in Hi. rewrite elem_of_app, list_elem_of_singleton in Hi. tauto. }
    destruct front as [|f0 front0] eqn:Efr; [by rewrite H0|]. rewrite H1 by done. rewrite lookup_insert_ne; [done|]. intros <-. tauto.
Qed.

Lemma remove_sub_ok ss l ids sub i s :
  sublist_ok ss l ids -> ids !! i = Some sub -> ss !! sub = Some s ->
  exists ss' l', iett_removeSubscriptionFromSubsNode ss sub l = Ret (OK, ss', l')
    /\ sublist_ok ss' l' (swap_remove ids i)
    /\ ss' !! sub = Some (mk_sub NOT_LISTED (internalAttrs s))
    /\ (forall x, x ∉ ids -> ss' !! x = ss !! x).
Proof.
  intros Hok Hi Hs. pose proof (so_nodup _ _ _ Hok) as Hnd. pose proof (so_bound _ _ _ Hok) as Hbound.
  unfold iett_removeSubscriptionFromSubsNode, get_sub. rewrite Hs. cbn [mbind outcome_bind].
  rewrite (remove_here _ _ _ _ _ _ Hok Hi Hs). cbn [mbind outcome_bind].
  destruct ids as [|z front _] using rev_ind; [done|]. pose proof (lookup_lt_Some _ _ _ Hi) as Hlt. rewrite length_app in Hlt. simpl in Hlt.
  rewrite swap_remove_snoc by lia.
  assert (Hz : (front ++ [z]) !! length front = Some z) by (by apply list_lookup_middle).
  destruct (so_index _ _ _ Hok _ _ Hz) as (sz & Hsz & Ezi).
  assert (Hsubz : sub = z <-> i = length front).
  { split; [intros ->; by eapply NoDup_lookup|intros ->; congruence]. }
  assert (Hlen : Z.of_nat (length (front ++ [z])) = Z.of_nat (length front) + 1) by (rewrite length_app; simpl; lia).
  pose proof Hok as [Hc Ha Hm Hidx]. rewrite Hc, Hlen in *.
  destruct (sl_list l) as [arr|] eqn:El; [|destruct Ha as [Ha _]; by destruct front].
  destruct Ha as [[junk ->] Hal].
  (* the index of every subscription after the move *)
  set (ss1 := <[z := mk_sub (Z.of_nat i) (internalAttrs sz)]> ss).
  assert (Hs1 : exists a1, ss1 !! sub = Some (mk_sub a1 (internalAttrs s))).
  { unfold ss1. destruct (decide (z = sub)) as [->|Hne]; [simplify_eq; rewrite lookup_insert_eq; eauto|].
    rewrite lookup_insert_ne, Hs by done. destruct s. eauto. }
  destruct (Z.gtb_spec (Z.of_nat (length front) + 1) 1) as [Hgt|Hle].
  - replace (Z.of_nat (length front) + 1 - 1) with (Z.of_nat (length front)) by lia.
    rewrite <- El, (list_read_ok _ _ _ _ _ Hok Hz), El. cbn [mbind outcome_bind list_write].
    rewrite move_last by (rewrite ?length_app in *; simpl in *; lia). cbn [mbind outcome_bind]. rewrite (set_index_ok _ _ _ _ Hsz). cbn [mbind outcome_bind]. fold ss1.
    destruct Hs1 as [a1 Hs1]. rewrite (set_index_ok _ _ _ _ Hs1). cbn [mbind outcome_bind internalAttrs].
    rewrite (proj2 (Z.eqb_neq (Z.of_nat (length front)) 0)) by lia.
    rewrite map_app, <- app_assoc. simpl map. rewrite <- app_comm_cons. cbn [list_write app].
    rewrite list_write_at by (by rewrite length_map, length_insert). cbn [mbind outcome_bind].
    destruct (reindexed ss front z i sub s sz ss1 Hnd Hidx Hi) as [Hf1 Hf2]; [done|by intros ->|].
    do 2 eexists. split; [done|]. split; [|split; [apply lookup_insert_eq|done]].
    split; cbn [sl_count sl_list sl_max]; [by rewrite length_insert| |done|done].
    split; [by eexists|]. rewrite !length_app, !length_map in *. simpl in *. rewrite length_app, length_insert in *. simpl in *. lia.
  - assert (front = []) as -> by (destruct front; [done|simpl in Hle; lia]). assert (i = 0%nat) as -> by (simpl in Hlt; lia).
    simpl in Hi. simplify_eq. cbn [mbind outcome_bind]. rewrite (set_index_ok _ _ _ _ Hs). cbn [mbind outcome_bind].
    destruct (reindexed ss [] sub 0 sub s s ss Hnd Hidx eq_refl) as [Hf1 Hf2]; [done|done|].
    do 2 eexists. split; [done|]. split; [|split; [apply lookup_insert_eq|done]]. by split.
Qed.

(** ** Properties *)

(** C33. Adding a subscription to a list: with OK the list holds it after the
    entries it had, every entry knows its index, and no other subscription has
    changed; the only failure is an allocation that fails, and then nothing has
    changed.  The growing array is never written outside its bounds. *)
Theorem add_subscription mem n ss sub l ids s :
  sublist_ok ss l ids -> sl_max l < 2 ^ 30 -> ss !! sub = Some s -> nodeListIndex s = NOT_LISTED ->
  exists rc ss' l' n', iett_addSubscriptionToSubsNode mem n ss sub l = Ret (rc, ss', l', n') /\
    (rc = OK /\ sublist_ok ss' l' (ids ++ [sub])
       /\ ss' = <[sub := mk_sub (Z.of_nat (length ids)) (internalAttrs s)]> ss
     \/ rc = ISMRC_AllocateError /\ ss' = ss /\ l' = l /\ exists i, mem i = false).
Proof. apply add_sub_ok. Qed.

(** C34. Removing a subscription: if it is in the list it is found by its index,
    exactly it is taken out (the others keep or get the right index) and it is
    marked as not listed; if it is not in the list, ISMRC_NotFound is returned
    and nothing changes, also when its index is stale. *)
Theorem remove_subscription ss l ids sub s :
  sublist_ok ss l ids -> ss !! sub = Some s -> 0 <= nodeListIndex s ->
  if bool_decide (sub ∈ ids) then
    exists ss' l' ids', iett_removeSubscriptionFromSubsNode ss sub l = Ret (OK, ss', l')
      /\ sublist_ok ss' l' ids' /\ (forall x, x ∈ ids' <-> x ∈ ids /\ x <> sub)
      /\ ss' !! sub = Some (mk_sub NOT_LISTED (internalAttrs s))
      /\ (forall x, x ∉ ids -> ss' !! x = ss !! x)
  else iett_removeSubscriptionFromSubsNode ss sub l = Ret (ISMRC_NotFound, ss, l).
Proof.
  intros Hok Hs Hpos. case_bool_decide as Hin.
  - apply list_elem_of_lookup in Hin as [i Hi]. destruct (remove_sub_ok ss l ids sub i s Hok Hi Hs) as (ss' & l' & E & Hok' & H1 & H2).
    exists ss', l', (swap_remove ids i). split; [done|]. split; [done|]. split; [|done].
    intros x. apply swap_remove_elem; [by eapply so_nodup|done].
  - by eapply remove_absent.
Qed.

(** C35. Adding an active subscription is undone when the cluster component
    refuses it: the return code is the cluster's, the list holds what it held
    before, and the subscriptions and the count of clustered subscriptions are
    as they were. *)
Theorem add_active_rolled_back mem n ss sub nd ids s cluster_add :
  sublist_ok ss (activeSubs nd) ids -> sl_max (activeSubs nd) < 2 ^ 30 -> ss !! sub = Some s ->
  nodeListIndex s = NOT_LISTED -> is_clusterSub s = true -> activeCluster nd = 0 -> cluster_add <> OK ->
  (forall i, mem i = true) ->
  exists nd' n', iett_addActiveSubscriptionToSubsNode mem true cluster_add n ss sub nd false
      = Ret (cluster_add, ss, nd', n')
    /\ sublist_ok ss (activeSubs nd') ids /\ activeCluster nd' = 0.
Proof.
  intros Hok Hbig Hs Hidx Hcl Hac Hrc Hmem.
  destruct (add_sub_ok mem n ss sub (activeSubs nd) ids s Hok Hbig Hs Hidx) as (rc & ss1 & l1 & n1 & E & Ho).
  destruct Ho as [(-> & Hok1 & ->)|(-> & _ & _ & i & Hi)]; [|by rewrite Hmem in Hi].
  set (s1 := mk_sub (Z.of_nat (length ids)) (internalAttrs s)) in *.
  assert (Hs1 : <[sub := s1]> ss !! sub = Some s1) by apply lookup_insert_eq.
  assert (Hi1 : (ids ++ [sub]) !! length ids = Some sub) by (by apply list_lookup_middle).
  destruct (remove_sub_ok _ _ _ _ _ _ Hok1 Hi1 Hs1) as (ss2 & l2 & E2 & Hok2 & H1 & H2).
  assert (Hids : swap_remove (ids ++ [sub]) (length ids) = ids) by (rewrite swap_remove_snoc, list_insert_ge by lia; done).
  rewrite Hids in Hok2.
  assert (Hss : ss2 = ss).
  { apply map_eq. intros x. destruct (decide (x = sub)) as [->|Hne].
    - rewrite H1, Hs. destruct s. simpl in *. by subst.
    - destruct (decide (x ∈ ids)) as [Hx|Hx].
      + apply list_elem_of_lookup in Hx as [j Hj]. destruct (so_index _ _ _ Hok _ _ Hj) as (sx & Hsx & Ex).
        revert E2. unfold iett_removeSubscriptionFromSubsNode, get_sub. rewrite Hs1. cbn [mbind outcome_bind].
        rewrite (remove_here _ _ _ _ _ _ Hok1 Hi1 Hs1). cbn [mbind outcome_bind].
        assert (Hl0 : (length ids > 0)%nat) by (apply lookup_lt_Some in Hj; lia).
        rewrite (so_count _ _ _ Hok1), length_app. simpl length.
        destruct (Z.gtb_spec (Z.of_nat (length ids + 1)) 1); [|lia].
        replace (Z.of_nat (length ids + 1) - 1) with (Z.of_nat (length ids)) by lia.
        rewrite (list_read_ok _ _ _ _ _ Hok1 Hi1). cbn [mbind outcome_bind].
        destruct (list_write (sl_list l1) (Z.of_nat (length ids)) (Some sub)); cbn [mbind outcome_bind]; [|done|done].
        rewrite (set_index_ok _ _ _ _ Hs1). cbn [mbind outcome_bind].
        erewrite set_index_ok by apply lookup_insert_eq. cbn [mbind outcome_bind].
        destruct (Z.eqb_spec (Z.of_nat (length ids)) 0); [lia|].
        destruct (list_write _ _ _); cbn [mbind outcome_bind]; [|done|done]. intros [= <- _].
        by rewrite !lookup_insert_ne.
      + rewrite H2, lookup_insert_ne; [done|done|]. rewrite not_elem_of_app, list_elem_of_singleton. done. }
  unfold iett_addActiveSubscriptionToSubsNode. rewrite E. cbn [mbind outcome_bind]. change (OK =? OK) with true. cbn [negb].
  unfold get_sub. rewrite Hs1. cbn [mbind outcome_bind]. assert (Hcl1 : is_clusterSub s1 = true) by exact Hcl.
  rewrite Hcl1, Hac. change (u32 (0 + 1)) with 1. cbn [andb]. change (1 =? 1) with true. cbv iota.
  rewrite (proj2 (Z.eqb_neq cluster_add OK)) by done. rewrite E2. cbn [mbind outcome_bind]. rewrite Hss in *.
  do 2 eexists. split; [done|]. split; [done|]. done.
Qed.

(** Removing an active subscription is not always undone when the cluster
    component refuses it: the last subscription of a node frees the list, and
    when the allocation to put it back fails this is ignored; the call reports
    the cluster's error, the node counts a clustered subscription, but its list
    is empty. *)
Theorem remove_active_lost_on_failure :
  exists mem ss sub nd s nd' n',
    sublist_ok ss (activeSubs nd) [sub] /\ ss !! sub = Some s /\ activeCluster nd = 1 /\ is_clusterSub s = true /\
    iett_removeActiveSubscriptionFromSubsNode mem true ISMRC_DestNotValid 0 ss sub nd false
    = Ret (ISMRC_DestNotValid, <[sub := mk_sub NOT_LISTED (internalAttrs s)]> ss, nd', n')
    /\ sl_count (activeSubs nd') = 0 /\ activeCluster nd' = 1.
Proof.
  set (s := mk_sub 0 iettSUBATTR_SHARE_WITH_CLUSTER).
  set (nd := mk_active (mk_list 1 1 (Some [Some (Some 7%nat); Some None])) 1 0).
  exists (fun _ => false), {[7%nat := s]}, 7%nat, nd, s. do 2 eexists.
  split. { split; simpl; [done|split; [by exists []|done]|done|]. intros [|i] a Hi; simplify_eq/=.
    - exists s. split; [apply lookup_singleton_eq|done]. }
  split; [apply lookup_singleton_eq|]. split; [done|]. split; [done|]. split; [vm_compute; reflexivity|]. done.
Qed.

(** ** Concrete instances *)

Definition demo_subs : subs := <[3%nat := mk_sub 0 0]> (<[4%nat := mk_sub 1 0]> {[5%nat := mk_sub NOT_LISTED iettSUBATTR_SHARE_WITH_CLUSTER]}).

Definition demo_list : iettSubscriptionList_t := mk_list 2 2 (Some [Some (Some 3%nat); Some (Some 4%nat); Some None]).

Lemma demo_list_ok : sublist_ok demo_subs demo_list [3%nat; 4%nat].
Proof.
  split; simpl; [done|split; [by exists []|done]|done|].
  intros [|[|i]] a Hi; simplify_eq/=; eexists; by split.
Qed.

Lemma add_subscription_witness :
  exists rc ss' l' n', iett_addSubscriptionToSubsNode (fun _ => true) 0 demo_subs 5 demo_list = Ret (rc, ss', l', n') /\
    (rc = OK /\ sublist_ok ss' l' ([3; 4] ++ [5])%nat
       /\ ss' = <[5%nat := mk_sub 2 iettSUBATTR_SHARE_WITH_CLUSTER]> demo_subs
     \/ rc = ISMRC_AllocateError /\ ss' = demo_subs /\ l' = demo_list /\ exists i : nat, true = false).
Proof.
  exact (add_subscription (fun _ => true) 0 demo_subs 5 demo_list [3; 4]%nat (mk_sub NOT_LISTED iettSUBATTR_SHARE_WITH_CLUSTER)
           demo_list_ok eq_refl eq_refl eq_refl).
Defined.

Lemma remove_subscription_witness :
  exists ss' l' ids', iett_removeSubscriptionFromSubsNode demo_subs 3 demo_list = Ret (OK, ss', l')
      /\ sublist_ok ss' l' ids' /\ (forall x, x ∈ ids' <-> x ∈ [3; 4]%nat /\ x <> 3%nat)
      /\ ss' !! 3%nat = Some (mk_sub NOT_LISTED 0)
      /\ (forall x, x ∉ [3; 4]%nat -> ss' !! x = demo_subs !! x).
Proof.
  exact (remove_subscription demo_subs demo_list [3; 4]%nat 3 (mk_sub 0 0) demo_list_ok eq_refl ltac:(simpl; lia)).
Defined.

Lemma add_active_rolled_back_witness :
  exists nd' n', iett_addActiveSubscriptionToSubsNode (fun _ => true) true ISMRC_DestNotValid 0 demo_subs 5 (mk_active demo_list 0 0) false
      = Ret (ISMRC_DestNotValid, demo_subs, nd', n')
    /\ sublist_ok demo_subs (activeSubs nd') [3; 4]%nat /\ activeCluster nd' = 0.
Proof.
  apply (add_active_rolled_back (fun _ => true) 0 demo_subs 5 (mk_active demo_list 0 0) [3; 4]%nat
           (mk_sub NOT_LISTED iettSUBATTR_SHARE_WITH_CLUSTER));
    [exact demo_list_ok|reflexivity|reflexivity|reflexivity|reflexivity|reflexivity|discriminate|reflexivity].
Defined.
