(* ===== verification/WaiterStatus.v ===== *)
(** * The waiter of a queue

    server_engine/src/waiterStatus.c, with the operations of
    server_engine/src/simpQ.c, intermediateQ.c and engine.c that move the status
    word.  The word says whether the consumer is connected and enabled, and it is
    also the lock of the queue's get side: threads change it by compare-and-swap
    only.  A thread that finds the waiter locked may leave a "pending" bit, which
    the owner must act on before it unlocks.

    Each C function is a program of the small language [prog], whose instructions
    are the accesses to the shared word (and the calls whose order matters); what
    a function does between two of them is local and is computed by Rocq
    functions.  Programs of several threads are interleaved by [step].

    The delivery loops are those of the simple queue.  A call that the server makes
    while it is inside another operation (the check for more messages, or whatever
    a message callback calls besides the suspend) is a thread of its own here, which
    allows every interleaving the code has and more.  [ieq_drain], which takes
    messages from a simple queue without the lock, is called by unit tests only and
    is left out. *)

From S2P Require Import Prelude.
From stdpp Require Import relations.
#[local] Open Scope Z_scope.

(** ** Status words (waiterStatus.h) *)

Definition IEWS_WAITERSTATUS_DISCONNECTED : Z := 0.
Definition IEWS_WAITERSTATUS_DISABLED : Z := 0x1.
Definition IEWS_WAITERSTATUS_ENABLED : Z := 0x2.
Definition IEWS_WAITERSTATUS_GETTING : Z := 0x4.
Definition IEWS_WAITERSTATUS_DELIVERING : Z := 0x8.
Definition IEWS_WAITERSTATUS_DISABLE_PEND : Z := 0x10.
Definition IEWS_WAITERSTATUS_CANCEL_DISABLE_PEND : Z := 0x20.
Definition IEWS_WAITERSTATUS_DISCONNECT_PEND : Z := 0x40.
Definition IEWS_WAITERSTATUS_RECLAIMSPACE_PEND : Z := 0x80.
Definition IEWS_WAITERSTATUS_DISABLED_LOCKEDWAIT : Z := 0x1000000.

Abbreviation DISCONNECTED := IEWS_WAITERSTATUS_DISCONNECTED.
Abbreviation DISABLED := IEWS_WAITERSTATUS_DISABLED.
Abbreviation ENABLED := IEWS_WAITERSTATUS_ENABLED.
Abbreviation GETTING := IEWS_WAITERSTATUS_GETTING.
Abbreviation DELIVERING := IEWS_WAITERSTATUS_DELIVERING.
Abbreviation DISABLE_PEND := IEWS_WAITERSTATUS_DISABLE_PEND.
Abbreviation CANCEL_DISABLE_PEND := IEWS_WAITERSTATUS_CANCEL_DISABLE_PEND.
Abbreviation DISCONNECT_PEND := IEWS_WAITERSTATUS_DISCONNECT_PEND.
Abbreviation RECLAIMSPACE_PEND := IEWS_WAITERSTATUS_RECLAIMSPACE_PEND.
Abbreviation DISABLED_LOCKEDWAIT := IEWS_WAITERSTATUS_DISABLED_LOCKEDWAIT.

Declare Scope status_scope.
Infix "|||" := Z.lor (at level 50, left associativity) : status_scope.
Infix "&&&" := Z.land (at level 40, left associativity) : status_scope.
(** [~x] of a 64-bit word. *)
Notation "-! x" := (Z.lxor 0xffffffffffffffff x) (at level 35, x at level 30) : status_scope.
#[local] Open Scope status_scope.

Definition IEWS_WAITERSTATUSMASK_ACTIVE : Z :=
  ENABLED ||| GETTING ||| DELIVERING ||| RECLAIMSPACE_PEND.
Definition IEWS_WAITERSTATUSMASK_PENDING : Z :=
  DISABLE_PEND ||| CANCEL_DISABLE_PEND ||| DISCONNECT_PEND ||| RECLAIMSPACE_PEND.
Definition IEWS_WAITERSTATUSMASK_LOCKED : Z :=
  GETTING ||| DELIVERING ||| DISABLED_LOCKEDWAIT ||| IEWS_WAITERSTATUSMASK_PENDING.

Abbreviation ACTIVE := IEWS_WAITERSTATUSMASK_ACTIVE.
Abbreviation PENDING := IEWS_WAITERSTATUSMASK_PENDING.
Abbreviation LOCKED := IEWS_WAITERSTATUSMASK_LOCKED.

(** [if (x)] on an integer. *)
Definition nz (x : Z) : bool := negb (x =? 0).

Definition locked (s : Z) : bool := nz (s &&& LOCKED).

(** ** Return codes *)

Definition ISMRC_WaiterDisabled : Z := 9.
Definition ISMRC_AsyncCompletion : Z := 10.
Definition ISMRC_WaiterRemoved : Z := 20.
Definition ISMRC_WaiterEnabled : Z := 23.
Definition ISMRC_DisableWaiterCancel : Z := 28.
Definition ISMRC_NoAvailWaiter : Z := 17.
Definition ISMRC_WaiterInUse : Z := 203.
Definition ISMRC_WaiterInvalid : Z := 204.
Definition ISMRC_QueueDeleted : Z := 205.

Inductive ismQueueType_t := multiConsumer | simple | intermediate.

(** ** Programs *)

(** The macros around compare-and-swap, each with its assertion. *)
Inductive cas_kind :=
  | tryLockToState
  | changeState
  | tryUnlockNoPending
  | bool_Unlock
  | sync_compare_and_swap.

(** [iews_checkLockOperation], [iews_checkLockinessUnchanged],
    [iews_checkUnlockingWithNoPending] and the assertion of [iews_bool_Unlock]. *)
Definition cas_check (c : cas_kind) (fromState toState : Z) : bool :=
  match c with
  | tryLockToState => (fromState &&& LOCKED =? 0) && nz (toState &&& LOCKED)
  | changeState =>
      (nz (fromState &&& LOCKED) && nz (toState &&& LOCKED))
      || ((fromState &&& LOCKED =? 0) && (toState &&& LOCKED =? 0))
  | tryUnlockNoPending =>
      ((fromState =? GETTING) || (fromState =? DELIVERING) || (fromState =? DISABLED_LOCKEDWAIT))
      && (toState &&& LOCKED =? 0)
  | bool_Unlock => nz (fromState &&& LOCKED) && (toState &&& LOCKED =? 0)
  | sync_compare_and_swap => true
  end.

(** Calls that are visible outside the word. *)
Inductive event :=
  | Acquire                     (** [acquireConsumerReference] *)
  | Undo                        (** [releaseConsumerReference], by who acquired it *)
  | Release                     (** [releaseConsumerReference], on behalf of the waiter *)
  | deliverStatus (rc : Z)      (** [ism_engine_deliverStatus] *)
  | reclaimSpace                (** [ieq_reclaimSpace] with [takeLock] false *)
  | checkWaiters                (** [ieq_checkWaiters] *)
  | getMessage                  (** [iesq_getMessage] *)
  | deliverMessage              (** [ism_engine_deliverMessage] *)
  | qOperation                  (** the work for which a Q-operation lock is taken *)
  | setConsumer                 (** [Q->pConsumer = pConsumer] and the delete count *)
  | clearConsumer               (** [Q->pConsumer = NULL] *)
  | reducePreDeleteCount.

#[global] Instance event_eq_dec : EqDecision event.
Proof. solve_decision. Defined.

(** What follows [ieq_completeWaiterActions] in its caller. *)
Inductive after :=
  | ThenReturn (rc : Z)
  | ThenRecheck                 (** loop again in [iesq_checkWaiters] *)
  | ThenCheckWaiters (rc : Z)   (** call [ieq_checkWaiters] and return *)
  | ThenCheckIfBuffered.        (** the same, when messages are buffered *)

(** Heads of loops and entries of functions. *)
Inductive label :=
  | resumeMessageDelivery (isDeleted : bool)
  | enableWaiter (deliverLater : bool)
  | disableWaiter
  | initWaiter
  | termWaiter
  | reclaimQueue
  | reapQueue (allowMsgDelivery : bool)
  | lockQueue (allowMsgDelivery : bool)
  | lockQueueFirst (allowMsgDelivery : bool)
  | lockQueueAgain (allowMsgDelivery : bool)
  | dumpQ
  | lockForDump_loop (oldState : Z)
  | checkWaiters_entry
  | checkWaiters_loop
  | putToWaitingGetter
  | delivered (suspended : bool) (a : after)
  | suspend (a : after)
  | disableAndComplete (a : after)
  | complete_reclaim (noDeliver waiterWasEnabled : bool) (a : after)
  | complete_disable (noDeliver doRelease : bool) (a : after)
  | complete_disconnect (doRelease : bool) (a : after).

Inductive prog :=
  | Done (rc : Z)
  | Goto (l : label)
  | Read (k : Z -> prog)
  | Cas (c : cas_kind) (fromState toState : Z) (k : Z -> prog)   (** [k] gets the value found *)
  | Act (e : event) (p : prog)
  | Choose (k : bool -> prog)   (** decided by data outside the model *)
  | Fail.                       (** a failed assertion or an FFDC that ends the server *)

(** The boolean versions of the macros. *)
Definition cas_bool (c : cas_kind) (fromState toState : Z) (k : bool -> prog) : prog :=
  Cas c fromState toState (fun old => k (old =? fromState)).

Definition assert_ (b : bool) (p : prog) : prog := if b then p else Fail.
Definition act_if (b : bool) (e : event) (p : prog) : prog := if b then Act e p else p.

(** ** The functions

    [again] is the next iteration of the function's loop, [ret] its return. *)

(** The test before the loop.  (The flag [informOnEmpty] set here is read in
    [iesq_checkWaiters], where it is a choice.) *)
Definition ieq_enableWaiter (QType : ismQueueType_t) (isDeleted : bool) (loop : prog) (ret : Z -> prog) : prog :=
  match QType with
  | multiConsumer => if isDeleted then ret ISMRC_QueueDeleted else loop
  | _ => loop
  end.

Definition enable_loop (deliverLater : bool) (again : prog) (ret : Z -> prog) : prog :=
  let finish oldState rc :=
    if negb deliverLater && ((oldState =? DISABLED) || nz (oldState &&& ACTIVE))
    then Act checkWaiters (ret OK) else ret rc in
  Read (fun oldState =>
  if nz (oldState &&& DISCONNECT_PEND) then ret ISMRC_WaiterInvalid
  else if oldState =? DISABLED then
    cas_bool changeState DISABLED ENABLED (fun doneEnable =>
    if doneEnable then finish oldState OK else again)
  else if nz (oldState &&& ACTIVE) && (oldState &&& -! ACTIVE =? 0) then ret ISMRC_WaiterEnabled
  else if nz (oldState &&& CANCEL_DISABLE_PEND) then ret ISMRC_WaiterEnabled
  else if nz (oldState &&& DISABLE_PEND) then
    cas_bool changeState oldState (oldState ||| CANCEL_DISABLE_PEND) (fun doneEnable =>
    if doneEnable then finish oldState ISMRC_DisableWaiterCancel else again)
  else if nz (oldState &&& DISABLED_LOCKEDWAIT) then again
  else ret ISMRC_WaiterInvalid).

(** engine.c, [ism_engine_resumeMessageDelivery]: around the enable. *)
Definition resume_enable (rc : Z) : prog :=
  let tail rc := Act Acquire (Act checkWaiters (Act Undo (Done rc))) in
  if rc =? ISMRC_WaiterEnabled then Act Undo (tail rc)
  else if rc =? ISMRC_DisableWaiterCancel then tail OK
  else if rc =? ISMRC_WaiterInvalid then Act Undo (tail rc)
  else tail rc.

Definition ieq_disableWaiter (again : prog) (complete : prog) (ret : Z -> prog) : prog :=
  Read (fun oldState =>
  let try c newState (k : prog) := cas_bool c oldState newState (fun doneDisable => if doneDisable then k else again) in
  let inUse := ret ISMRC_AsyncCompletion in
  if (oldState =? DISCONNECTED) || nz (oldState &&& DISCONNECT_PEND) then ret ISMRC_WaiterInvalid
  else if (oldState =? GETTING) || (oldState =? DELIVERING) then
    try changeState DISABLE_PEND inUse
  else if oldState =? DISABLED then
    try changeState DISABLED (ret ISMRC_WaiterDisabled)
  else if nz (oldState &&& CANCEL_DISABLE_PEND) then
    try changeState (oldState &&& -! CANCEL_DISABLE_PEND)
        (Act (deliverStatus ISMRC_WaiterDisabled) (Act Release inUse))
  else if nz (oldState &&& DISABLE_PEND) then try changeState oldState inUse
  else if nz (oldState &&& PENDING) then try changeState (oldState ||| DISABLE_PEND) inUse
  else if nz (oldState &&& DISABLED_LOCKEDWAIT) then again
  else
    assert_ (oldState &&& (GETTING ||| DELIVERING ||| DISABLE_PEND ||| CANCEL_DISABLE_PEND) =? 0)
      (try tryLockToState DISABLE_PEND complete)).

Definition iews_addPendFlagWhileLocked (pendFlag : Z) (again : prog) (ret : prog) : prog :=
  Read (fun oldState =>
  let try newState := cas_bool changeState oldState newState (fun addedFlag => if addedFlag then ret else again) in
  if (oldState =? GETTING) || (oldState =? DELIVERING) then try pendFlag
  else if nz (oldState &&& PENDING) then
    assert_ (oldState &&& -! PENDING =? 0) (try (oldState ||| pendFlag))
  else Fail).

(** [ret gotLock oldStatus newStatus]. *)
Definition iews_tryLockForReclaimSpace (again : prog) (ret : bool -> Z -> Z -> prog) : prog :=
  Read (fun oldStatus =>
  let lock newStatus := cas_bool tryLockToState oldStatus newStatus
                          (fun doneCAS => if doneCAS then ret true oldStatus newStatus else again) in
  let flag newStatus := cas_bool changeState oldStatus newStatus
                          (fun doneCAS => if doneCAS then ret false oldStatus newStatus else again) in
  if oldStatus =? ENABLED then lock DELIVERING
  else if (oldStatus =? DISABLED) || (oldStatus =? DISCONNECTED) then lock DISABLED_LOCKEDWAIT
  else if (oldStatus =? GETTING) || (oldStatus =? DELIVERING) then flag RECLAIMSPACE_PEND
  else if nz (oldStatus &&& PENDING) then flag (oldStatus ||| RECLAIMSPACE_PEND)
  else if oldStatus =? DISABLED_LOCKEDWAIT then again
  else Fail).

Definition iews_tryLockForQOperation (allowMsgDelivery : bool) (again : prog)
    (ret : bool -> Z -> Z -> prog) : prog :=
  Read (fun oldStatus =>
  let lock newStatus := cas_bool tryLockToState oldStatus newStatus
                          (fun doneCAS => if doneCAS then ret true oldStatus newStatus else again) in
  let unchanged := cas_bool changeState oldStatus oldStatus
                     (fun doneCAS => if doneCAS then ret false oldStatus oldStatus else again) in
  if allowMsgDelivery then
    if oldStatus =? ENABLED then lock DELIVERING
    else if (oldStatus =? DISABLED) || (oldStatus =? DISCONNECTED) then lock DISABLED_LOCKEDWAIT
    else if (oldStatus =? GETTING) || (oldStatus =? DELIVERING) || nz (oldStatus &&& PENDING) then unchanged
    else if oldStatus =? DISABLED_LOCKEDWAIT then again
    else Fail
  else
    if nz (oldStatus &&& (ACTIVE ||| PENDING ||| DISABLED_LOCKEDWAIT)) then unchanged
    else if (oldStatus =? DISABLED) || (oldStatus =? DISCONNECTED) then lock DISABLED_LOCKEDWAIT
    else Fail).

(** The first attempt is made only on a waiter that looks unlocked; [waitLoop] is
    the timed loop, whose condition on the clock is a choice. *)
Definition iews_getLockForQOperation (first waitLoop : prog) : prog :=
  Read (fun preLockedState => if preLockedState &&& LOCKED =? 0 then first else waitLoop).

Definition iews_unlockAfterQOperation (completeWaiterActions : prog) (lockedState preLockedState : Z)
    (ret : prog) : prog :=
  if lockedState =? DELIVERING then
    cas_bool tryUnlockNoPending DELIVERING preLockedState (fun doneCAS =>
    if doneCAS then Act checkWaiters ret else completeWaiterActions)
  else
    assert_ (lockedState =? DISABLED_LOCKEDWAIT)
      (cas_bool tryUnlockNoPending DISABLED_LOCKEDWAIT preLockedState (fun doneCAS =>
       if doneCAS then ret else Fail)).

(** [ieq_completeWaiterActions] in three parts, one per loop. *)
Definition return_to (a : after) : prog :=
  match a with
  | ThenReturn rc => Done rc
  | ThenRecheck => Goto checkWaiters_loop
  | ThenCheckWaiters rc => Act checkWaiters (Done rc)
  | ThenCheckIfBuffered => Choose (fun buffered => act_if buffered checkWaiters (Done OK))
  end.

(** The queue forgets the consumer before the last loop. *)
Definition start_disconnect (QType : ismQueueType_t) (doRelease : bool) (a : after) : prog :=
  let loop := Goto (complete_disconnect doRelease a) in
  match QType with
  | simple | intermediate => Act clearConsumer loop
  | multiConsumer => loop
  end.

Definition completeWaiterActions_reclaim (QType : ismQueueType_t) (noDeliver waiterWasEnabled : bool) (a : after) : prog :=
  Read (fun oldStatus =>
  assert_ (nz (oldStatus &&& PENDING) && (oldStatus &&& -! PENDING =? 0))
  (let loopAgain := Goto (complete_reclaim noDeliver waiterWasEnabled a) in
   if oldStatus =? RECLAIMSPACE_PEND then
     cas_bool changeState RECLAIMSPACE_PEND DELIVERING (fun removedflag =>
     if removedflag then
       Act reclaimSpace
       (cas_bool tryUnlockNoPending DELIVERING ENABLED (fun stateChanged =>
        if stateChanged then act_if (negb noDeliver) checkWaiters (return_to a) else loopAgain))
     else loopAgain)
   else
     let dying := nz (oldStatus &&& (DISABLE_PEND ||| DISCONNECT_PEND)) in
     let doRelease := dying && waiterWasEnabled in
     act_if doRelease (deliverStatus ISMRC_WaiterDisabled)
       (if dying && nz (oldStatus &&& DISABLE_PEND) then Goto (complete_disable noDeliver doRelease a)
        else if nz (oldStatus &&& DISCONNECT_PEND) then start_disconnect QType doRelease a
        else act_if doRelease Release (return_to a)))).

(** The removal of the reclaim flag that the last two loops share. *)
Definition remove_reclaim (oldStatus : Z) (again : prog) : prog :=
  cas_bool changeState oldStatus (oldStatus &&& -! RECLAIMSPACE_PEND) (fun removedflag =>
  act_if removedflag reclaimSpace again).

Definition completeWaiterActions_disable (QType : ismQueueType_t) (noDeliver doRelease : bool) (a : after) : prog :=
  let again := Goto (complete_disable noDeliver doRelease a) in
  Read (fun oldStatus =>
  assert_ (oldStatus &&& -! PENDING =? 0)
  (if nz (oldStatus &&& RECLAIMSPACE_PEND) then remove_reclaim oldStatus again
   else if nz (oldStatus &&& DISCONNECT_PEND) then
     cas_bool changeState oldStatus DISCONNECT_PEND (fun doneDisable =>
     if doneDisable then start_disconnect QType doRelease a else again)
   else if nz (oldStatus &&& CANCEL_DISABLE_PEND) then
     cas_bool bool_Unlock oldStatus ENABLED (fun doneDisable =>
     if doneDisable then act_if (negb noDeliver) checkWaiters (act_if doRelease Release (return_to a)) else again)
   else
     cas_bool bool_Unlock oldStatus DISABLED (fun doneDisable =>
     if doneDisable then act_if doRelease Release (return_to a) else again))).

Definition completeWaiterActions_disconnect (doRelease : bool) (a : after) : prog :=
  let again := Goto (complete_disconnect doRelease a) in
  Read (fun oldStatus =>
  if nz (oldStatus &&& RECLAIMSPACE_PEND) then remove_reclaim oldStatus again
  else
    cas_bool bool_Unlock DISCONNECT_PEND DISCONNECTED (fun finishedDisconnect =>
    if finishedDisconnect then
      Act (deliverStatus ISMRC_WaiterRemoved)
        (Act reducePreDeleteCount (act_if doRelease Release (return_to a)))
    else again)).

(** [ism_engine_getConsumerMessageDeliveryStatus] *)
Inductive ismMessageDeliveryStatus_t := STOPPED | STARTED | STOPPING.

Definition ism_engine_getConsumerMessageDeliveryStatus (waiterStatus : Z) : ismMessageDeliveryStatus_t :=
  if nz (waiterStatus &&& (DISCONNECTED ||| DISABLED ||| DISABLED_LOCKEDWAIT)) then STOPPED
  else if nz (waiterStatus &&& (DISABLE_PEND ||| DISCONNECT_PEND))
          && (waiterStatus &&& CANCEL_DISABLE_PEND =? 0) then STOPPING
  else STARTED.

(** ** The queues *)

Definition iesq_initWaiter (again : prog) : prog :=
  Read (fun oldStatus =>
  if oldStatus =? DISABLED_LOCKEDWAIT then again
  else
    let newStatus := if oldStatus =? DISCONNECTED then DISABLED else oldStatus in
    cas_bool changeState oldStatus newStatus (fun doneCAS =>
    if doneCAS then
      if oldStatus =? DISCONNECTED then Act setConsumer (Done OK) else Done ISMRC_WaiterInUse
    else again)).

(** [complete waiterWasEnabled]. *)
Definition iesq_termWaiter (again : prog) (complete : bool -> prog) : prog :=
  Read (fun oldState =>
  if (oldState =? DISCONNECTED) || nz (oldState &&& DISCONNECT_PEND) then Done ISMRC_WaiterInvalid
  else if (oldState =? GETTING) || (oldState =? DELIVERING) then
    cas_bool changeState oldState DISCONNECT_PEND (fun doneDisconnect =>
    if doneDisconnect then Done ISMRC_AsyncCompletion else again)
  else if nz (oldState &&& CANCEL_DISABLE_PEND) then again
  else if nz (oldState &&& PENDING) then again     (* newState is computed but not stored *)
  else if oldState =? DISABLED_LOCKEDWAIT then again
  else
    cas_bool tryLockToState oldState DISCONNECT_PEND (fun doneDisconnect =>
    if doneDisconnect then complete (negb (oldState =? DISABLED)) else again)).

(** intermediateQ.c, and the same loop in multiConsumerQ.c. *)
Definition ieiq_termWaiter (again : prog) (complete : bool -> prog) : prog :=
  Read (fun oldState =>
  let try newState (k : prog) :=
    cas_bool sync_compare_and_swap oldState newState (fun doneDisconnect => if doneDisconnect then k else again) in
  if (oldState =? DISCONNECTED) || nz (oldState &&& DISCONNECT_PEND) then Done ISMRC_WaiterInvalid
  else if (oldState =? GETTING) || (oldState =? DELIVERING) then
    try DISCONNECT_PEND (Done ISMRC_AsyncCompletion)
  else if nz (oldState &&& CANCEL_DISABLE_PEND) then again
  else if nz (oldState &&& PENDING) then try (oldState ||| DISCONNECT_PEND) (Done ISMRC_AsyncCompletion)
  else if oldState =? DISABLED_LOCKEDWAIT then again
  else try DISCONNECT_PEND (complete (negb (oldState =? DISABLED)))).

(** The message callback.  engine.h asks of an application whose session was made
    with explicit suspends that it calls [ism_engine_suspendMessageDelivery] when it
    returns false, and not when it returns true.  An application of kind [obeys]
    keeps the first half of this, which is what the queue relies on; nothing is
    expected of [anything]. *)
Inductive application := obeys | anything.

(** What the callback returns, as far as the engine can know. *)
Definition callback_returns (app : application) (fExplicitSuspends suspended : bool) (k : bool -> prog) : prog :=
  match app with
  | obeys => if fExplicitSuspends && negb suspended then k true else Choose k
  | anything => Choose k
  end.

(** The application may suspend delivery while it has the message.  Other engine calls
    of the callback are threads of their own. *)
Definition ism_engine_deliverMessage (a : after) : prog :=
  Act deliverMessage (Choose (fun suspends => if suspends then Goto (suspend a) else Goto (delivered false a))).

(** After the callback; [unlocked] is what follows when nobody left work.  Whether
    the session has explicit suspends is fixed when the session is made. *)
Definition after_delivery (app : application) (suspended : bool) (unlocked : prog) (a : after) : prog :=
  Choose (fun fExplicitSuspends =>
  callback_returns app fExplicitSuspends suspended (fun reenableWaiter =>
  if reenableWaiter then
    Cas tryUnlockNoPending DELIVERING ENABLED (fun oldStatus =>
    if oldStatus =? DELIVERING then unlocked else Goto (complete_reclaim true true a))
  else if negb fExplicitSuspends then Goto (disableAndComplete a)
  else Goto (complete_reclaim true true a))).

Definition iesq_checkWaiters (loopAgain : prog) (deliver : prog) : prog :=
  Cas tryLockToState ENABLED GETTING (fun oldStatus =>
  if oldStatus =? ENABLED then
    Act getMessage (Choose (fun gotMessage =>
    if gotMessage then cas_bool changeState GETTING DELIVERING (fun _ => deliver)
    else
      Choose (fun informOnEmpty =>
      act_if informOnEmpty (deliverStatus ISMRC_NoMsgAvail)
      (Cas tryUnlockNoPending GETTING ENABLED (fun oldStatus =>
       if oldStatus =? GETTING then Done OK else Goto (complete_reclaim true true ThenRecheck))))))
  else if oldStatus =? GETTING then loopAgain
  else Done OK).

Definition iesq_putToWaitingGetter (loopAgain : prog) (deliver : prog) : prog :=
  Cas tryLockToState ENABLED DELIVERING (fun oldStatus =>
  if oldStatus =? ENABLED then deliver
  else if oldStatus =? GETTING then loopAgain
  else Done ISMRC_NoAvailWaiter).

(** The locking of [iesq_reclaimSpace] and [iesq_reapExpiredMsgs]; what they do to
    the queue under the lock is one event. *)
Definition reclaimSpace_locking (again : prog) : prog :=
  iews_tryLockForReclaimSpace again (fun gotLock oldStatus newStatus =>
  if gotLock then
    Act reclaimSpace
      (iews_unlockAfterQOperation (Goto (complete_reclaim true true (ThenCheckWaiters OK))) newStatus oldStatus (Done OK))
  else Done OK).

Definition reapExpiredMsgs_locking (allowMsgDelivery : bool) (again : prog) : prog :=
  iews_tryLockForQOperation allowMsgDelivery again (fun gotLock oldStatus newStatus =>
  if gotLock then
    Choose (fun gotExpiryLock =>
    act_if gotExpiryLock qOperation
      (iews_unlockAfterQOperation (Goto (complete_reclaim true true (ThenCheckWaiters OK))) newStatus oldStatus (Done OK)))
  else Done OK).

(** The locking of [iesq_getConsumerStats]; [notLocked] goes on trying. *)
Definition getConsumerStats_locking (allowMsgDelivery : bool) (again notLocked : prog) : prog :=
  iews_tryLockForQOperation allowMsgDelivery again (fun gotLock oldStatus newStatus =>
  if gotLock then
    Act qOperation
      (iews_unlockAfterQOperation (Goto (complete_reclaim true true (ThenCheckWaiters OK))) newStatus oldStatus (Done OK))
  else notLocked).

(** [iesq_lockConsumerForDump] and [ieiq_lockConsumerForDump]: [oldState] is read
    once and never again, so the loop can only succeed when the word comes back to
    it.  [locked oldState] goes on with the lock, [gaveUp] without. *)
Definition try_lockForDump (oldState : Z) (locked : prog) (failed : prog) : prog :=
  if oldState &&& LOCKED =? 0 then
    cas_bool sync_compare_and_swap oldState DELIVERING (fun lockedConsumer =>
    if lockedConsumer then locked else failed)
  else failed.

Definition lockConsumerForDump (locked : Z -> prog) (loop : Z -> prog) : prog :=
  Read (fun oldState => try_lockForDump oldState (locked oldState) (loop oldState)).

Definition lockForDump_wait (oldState : Z) (again : prog) (locked gaveUp : prog) : prog :=
  try_lockForDump oldState locked (Choose (fun timeLeft => if timeLeft then again else gaveUp)).

(** [iesq_dumpQ] and [ieiq_dumpQ] once the consumer is locked. *)
Definition dump_locked (previousState : Z) : prog :=
  Act qOperation
    (cas_bool sync_compare_and_swap DELIVERING previousState (fun unlocked =>
     if unlocked then Act checkWaiters (Done OK)
     else Goto (complete_reclaim true (previousState =? ENABLED) (ThenCheckWaiters OK)))).

(** ** The code at each label *)

Section Machine.
Context (QType : ismQueueType_t) (app : application).

Definition body (l : label) : prog :=
  match l with
  | resumeMessageDelivery isDeleted =>
      Act Acquire (ieq_enableWaiter QType isDeleted (Goto (enableWaiter true)) resume_enable)
  | enableWaiter deliverLater => enable_loop deliverLater (Goto l) resume_enable
  | disableWaiter => ieq_disableWaiter (Goto l) (Goto (complete_reclaim false true (ThenReturn OK))) Done
  | initWaiter => iesq_initWaiter (Goto l)
  | termWaiter =>
      match QType with
      | simple => iesq_termWaiter
      | _ => ieiq_termWaiter
      end (Goto l) (fun waiterWasEnabled => Goto (complete_reclaim false waiterWasEnabled (ThenReturn OK)))
  | reclaimQueue => reclaimSpace_locking (Goto l)
  | reapQueue allow => reapExpiredMsgs_locking allow (Goto l)
  | lockQueue allow =>
      iews_getLockForQOperation (Goto (lockQueueFirst allow)) (Goto (lockQueueAgain allow))
  | lockQueueFirst allow => getConsumerStats_locking allow (Goto l) (Goto (lockQueueAgain allow))
  | lockQueueAgain allow =>
      getConsumerStats_locking allow (Goto l)
        (Choose (fun timeLeft => if timeLeft then Goto l else Done ISMRC_WaiterInUse))
  | dumpQ =>
      match QType with
      | simple | intermediate => lockConsumerForDump dump_locked (fun oldState => Goto (lockForDump_loop oldState))
      | multiConsumer => Done OK                (* the dump does not lock the waiters *)
      end
  | lockForDump_loop oldState => lockForDump_wait oldState (Goto l) (dump_locked oldState) (Done OK)
  | checkWaiters_entry =>
      Choose (fun noBufferedMsgs => if noBufferedMsgs then Done OK else Goto checkWaiters_loop)
  | checkWaiters_loop =>
      iesq_checkWaiters (Goto l) (ism_engine_deliverMessage ThenRecheck)
  | putToWaitingGetter =>
      iesq_putToWaitingGetter (Goto l) (ism_engine_deliverMessage ThenCheckIfBuffered)
  | delivered suspended a => after_delivery app suspended (return_to a) a
  | suspend a => iews_addPendFlagWhileLocked DISABLE_PEND (Goto l) (Goto (delivered true a))
  | disableAndComplete a =>
      iews_addPendFlagWhileLocked DISABLE_PEND (Goto l) (Goto (complete_reclaim true true a))
  | complete_reclaim noDeliver waiterWasEnabled a => completeWaiterActions_reclaim QType noDeliver waiterWasEnabled a
  | complete_disable noDeliver doRelease a => completeWaiterActions_disable QType noDeliver doRelease a
  | complete_disconnect doRelease a =>
      completeWaiterActions_disconnect doRelease a
  end.

(** ** Interleaving *)

Record machine := mk_machine { status : Z; log : list event; threads : list prog }.

(** One instruction of one thread. *)
Inductive instr : Z -> prog -> Z -> list event -> prog -> Prop :=
  | instr_goto s l : instr s (Goto l) s [] (body l)
  | instr_read s k : instr s (Read k) s [] (k s)
  | instr_cas_done s c to k : cas_check c s to = true -> instr s (Cas c s to k) to [] (k s)
  | instr_cas_lost s c from to k : s <> from -> cas_check c from to = true ->
      instr s (Cas c from to k) s [] (k s)
  | instr_cas_assert s c from to k : cas_check c from to = false ->
      instr s (Cas c from to k) (if s =? from then to else s) [] Fail
  | instr_act s e p : instr s (Act e p) s [e] p
  | instr_choose s k b : instr s (Choose k) s [] (k b).

(** The operations a thread can start.  Two of them do not keep the count of the
    consumer's references (WaiterCorrect.v shows how) and are not [usual]: the dump
    of a queue, and resuming delivery on a queue that is being deleted. *)
Inductive operations := usual | all.

Definition entry (ops : operations) (l : label) : bool :=
  match l with
  | resumeMessageDelivery isDeleted => match ops with usual => negb isDeleted | all => true end
  | dumpQ => match ops with usual => false | all => true end
  | disableWaiter | initWaiter | termWaiter | reclaimQueue | reapQueue _ | lockQueue _
  | checkWaiters_entry | putToWaitingGetter => true
  | _ => false
  end.

Inductive step (ops : operations) : machine -> machine -> Prop :=
  | step_start s lg ts l : entry ops l = true ->
      step ops (mk_machine s lg ts) (mk_machine s lg (ts ++ [Goto l]))
  | step_instr s s' lg es ts1 p p' ts2 : instr s p s' es p' ->
      step ops (mk_machine s lg (ts1 ++ p :: ts2)) (mk_machine s' (lg ++ es) (ts1 ++ p' :: ts2)).

Definition initial : machine := mk_machine DISCONNECTED [] [].

Definition reachable (ops : operations) (m : machine) : Prop := rtc (step ops) initial m.

(** A thread run alone: [(status, events, what is left)]; the choices come from
    [ch].  Executable. *)
Fixpoint run (fuel : nat) (ch : list bool) (s : Z) (p : prog) : Z * list event * prog :=
  match fuel with
  | O => (s, [], p)
  | S fuel =>
      match p with
      | Done _ | Fail => (s, [], p)
      | Goto l => run fuel ch s (body l)
      | Read k => run fuel ch s (k s)
      | Cas c from to k =>
          let s' := if s =? from then to else s in
          if cas_check c from to then run fuel ch s' (k s) else (s', [], Fail)
      | Act e p => let '(s', es, q) := run fuel ch s p in (s', e :: es, q)
      | Choose k => run fuel (tail ch) s (k (default false (head ch)))
      end
  end.
End Machine.
