(* ===== verification/WaiterLock.v ===== *)
(** * The waiter's lock protocol

    A rely-guarantee argument about the programs of WaiterStatus.v, by a verified
    checker.  A thread is annotated with a [ghost]: whether it owns the lock, which
    status words it may then see, and the consumer references it still has to
    account for.  [okb] checks a program against its ghost; [Inv_step] shows that
    checked programs keep the machine's invariant under every interleaving; that
    the program at each label passes the check is a computation.

    The accounts of references are kept for the [usual] operations only; the lock
    itself is respected by all of them. *)

From S2P Require Import Prelude WaiterStatus.
From stdpp Require Import relations.
#[local] Open Scope Z_scope.
#[local] Open Scope status_scope.

(** ** What a status word can be *)

(** The combinations of pending bits that arise: a disable is cancelled only while
    it is pending, and a disconnect ends the matter. *)
Definition pending_words : list Z :=
  [DISABLE_PEND; DISABLE_PEND ||| CANCEL_DISABLE_PEND; RECLAIMSPACE_PEND;
   DISABLE_PEND ||| RECLAIMSPACE_PEND; DISABLE_PEND ||| CANCEL_DISABLE_PEND ||| RECLAIMSPACE_PEND;
   DISCONNECT_PEND; DISCONNECT_PEND ||| DISABLE_PEND; DISCONNECT_PEND ||| RECLAIMSPACE_PEND;
   DISCONNECT_PEND ||| DISABLE_PEND ||| RECLAIMSPACE_PEND].

Definition words : list Z :=
  [DISCONNECTED; DISABLED; ENABLED; GETTING; DELIVERING; DISABLED_LOCKEDWAIT] ++ pending_words.

(** What the threads that do not own the lock may turn a locked word into. *)
Definition others (s : Z) : list Z :=
  if (s =? GETTING) || (s =? DELIVERING) then [DISABLE_PEND; RECLAIMSPACE_PEND; DISCONNECT_PEND]
  else if nz (s &&& PENDING) then
    [s ||| RECLAIMSPACE_PEND]
    ++ (if nz (s &&& DISCONNECT_PEND) then [] else
        [s ||| DISABLE_PEND]
        ++ (if nz (s &&& CANCEL_DISABLE_PEND) then [s &&& -! CANCEL_DISABLE_PEND]
            else (s ||| DISCONNECT_PEND)
                 :: (if nz (s &&& DISABLE_PEND) then [s ||| CANCEL_DISABLE_PEND] else [])))
  else [].

Definition mem (x : Z) (l : list Z) : bool := existsb (Z.eqb x) l.

Definition extend (l : list Z) : list Z :=
  foldl (fun acc x => if mem x acc then acc else x :: acc) l (concat (map others l)).

(** The words an owner may find after it has seen [s]. *)
Definition reach (s : Z) : list Z := Nat.iter 6 extend [s].

Definition stableb (l : list Z) : bool :=
  forallb (fun s => locked s && mem s words && forallb (fun t => mem t l) (others s)) l.

Lemma mem_In x l : mem x l = true <-> In x l.
Proof.
  unfold mem. rewrite existsb_exists. split.
  - intros (y & Hy & ->%Z.eqb_eq). done.
  - intros ?. exists x. split; [done|apply Z.eqb_refl].
Qed.

Lemma reach_refl s : In s words -> In s (reach s).
Proof.
  intros Hs. apply mem_In. assert (Hall : forallb (fun s => mem s (reach s)) words = true) by reflexivity.
  rewrite forallb_forall in Hall. by apply Hall.
Qed.

Lemma reach_stable s : In s words -> locked s = true -> stableb (reach s) = true.
Proof.
  intros Hs Hl.
  assert (Hall : forallb (fun s => negb (locked s) || stableb (reach s)) words = true) by reflexivity.
  rewrite forallb_forall in Hall. specialize (Hall s Hs). by rewrite Hl in Hall.
Qed.

Section Stable.
Context (l : list Z) (Hst : stableb l = true).

Lemma stable_locked s : In s l -> locked s = true.
Proof.
  intros Hs. unfold stableb in Hst. rewrite forallb_forall in Hst.
  specialize (Hst s Hs). rewrite !andb_true_iff in Hst. tauto.
Qed.

Lemma stable_word s : In s l -> In s words.
Proof.
  intros Hs. unfold stableb in Hst. rewrite forallb_forall in Hst.
  specialize (Hst s Hs). rewrite !andb_true_iff, mem_In in Hst. tauto.
Qed.

Lemma stable_others s t : In s l -> In t (others s) -> In t l.
Proof.
  intros Hs Ht. unfold stableb in Hst. rewrite forallb_forall in Hst.
  specialize (Hst s Hs). rewrite !andb_true_iff, forallb_forall in Hst.
  apply mem_In. by apply Hst.
Qed.
End Stable.

(** ** Ghosts *)

(** [own]: the words the owner may see, and whether the waiter was enabled when it
    was locked (an enabled waiter holds a reference to the consumer).  [debt]:
    references this thread must still release or hand over.  [owed]: callbacks it
    has made to say the waiter is disabled, and not yet matched by a release. *)
Record ghost := mk_ghost { own : option (list Z * bool); debt : Z; owed : Z }.

Definition idle : ghost := mk_ghost None 0 0.

Definition ref (g : ghost) : Z :=
  match own g with Some (_, true) => 1 | _ => 0 end.

(** References held by the waiter itself, as its word shows. *)
Definition held (s : Z) : Z :=
  if s =? ENABLED then 1 else if nz (s &&& CANCEL_DISABLE_PEND) then 1 else 0.

Definition seen (g : ghost) : list Z :=
  match own g with Some (l, _) => l | None => words end.

Definition narrow (g : ghost) (s : Z) : ghost :=
  match own g with
  | Some (_, r) => mk_ghost (Some (reach s, r)) (debt g) (owed g)
  | None => g
  end.

(** Case analysis on a label and its flags. *)
Ltac by_label l :=
  destruct l as [[]|[]| | | | |[]|[]|[]|[]| |oldState| | | |[] []|[]|[]|[] [] []|[] [] []|[] []].

(** Whether the references are accounted for. *)
Definition accounted (ops : operations) : bool := match ops with usual => true | all => false end.

Section Checker.
Context (app : application) (ops : operations).

(** The ghost after a compare-and-swap that succeeds. *)
Definition trans (g : ghost) (from to : Z) : option ghost :=
  let set o :=
    let g' := mk_ghost o 0 (owed g) in
    let d := debt g + ref g + held from - ref g' - held to in
    if negb (accounted ops) || (0 <=? d) then Some (mk_ghost o d (owed g)) else None in
  if negb (mem to words) then None else
  match own g with
  | Some (_, r) => set (if locked to then Some (reach to, r) else None)
  | None =>
      if locked from then if (to =? from) || mem to (others from) then set None else None
      else set (if locked to then Some (reach to, from =? ENABLED) else None)
  end.

(** Work that only the owner of the lock may do. *)
Definition exclusive (e : event) : bool :=
  match e with
  | reclaimSpace | getMessage | deliverMessage | qOperation | clearConsumer => true
  | _ => false
  end.

Definition owns (g : ghost) : bool := match own g with Some _ => true | None => false end.

Definition act (g : ghost) (e : event) : option ghost :=
  if exclusive e && negb (owns g) then None else
  match e with
  | Acquire => Some (mk_ghost (own g) (debt g + 1) (owed g))
  | Undo => if negb (accounted ops) || (1 <=? debt g) then Some (mk_ghost (own g) (debt g - 1) (owed g)) else None
  | Release =>
      if negb (accounted ops) || ((1 <=? debt g) && (1 <=? owed g)) then Some (mk_ghost (own g) (debt g - 1) (owed g - 1)) else None
  | deliverStatus rc =>
      Some (if rc =? ISMRC_WaiterDisabled then mk_ghost (own g) (debt g) (owed g + 1) else g)
  | _ => Some g
  end.

(** The ghost at each label. *)
Definition locked_words : list Z := GETTING :: DELIVERING :: pending_words.
Definition disconnect_words : list Z := [DISCONNECT_PEND; DISCONNECT_PEND ||| RECLAIMSPACE_PEND].
Definition disable_words : list Z := filter (fun s => nz (s &&& DISABLE_PEND) = true) pending_words.

Definition owner (l : list Z) (r : bool) (owed : Z) : ghost := mk_ghost (Some (l, r)) 0 owed.

Definition pre (l : label) : ghost :=
  match l with
  | enableWaiter _ => mk_ghost None 1 0
  | delivered false _ => owner (DELIVERING :: pending_words) true 0
  | delivered true _ => owner disable_words true 0
  | suspend _ => owner (DELIVERING :: pending_words) true 0
  | disableAndComplete _ => owner (DELIVERING :: pending_words) true 0
  | complete_reclaim _ true _ =>
      owner (match app with obeys => pending_words | anything => DELIVERING :: pending_words end) true 0
  | complete_reclaim _ false _ => owner (if accounted ops then disconnect_words else pending_words) false 0
  | complete_disable _ true _ => owner disable_words true 1
  | complete_disable _ false _ => owner (if accounted ops then [] else disable_words) false 0
  | complete_disconnect r _ => owner disconnect_words r (if r then 1 else 0)
  | _ => idle
  end.

Definition sub (g h : ghost) : bool :=
  match own g, own h with
  | None, None => true
  | Some (l, r), Some (l', r') => forallb (fun s => mem s l') l && (negb (accounted ops) || eqb r r')
  | _, _ => false
  end && (negb (accounted ops) || ((debt g =? debt h) && (owed g =? owed h))).

(** Labels at which a thread can be. *)
Definition legal (l : label) : bool :=
  match l with
  | resumeMessageDelivery isDeleted => negb (accounted ops && isDeleted)
  | dumpQ => negb (accounted ops)
  | lockForDump_loop oldState => negb (accounted ops) && mem oldState words
  | _ => true
  end.

Fixpoint okb (g : ghost) (p : prog) : bool :=
  match p with
  | Done _ => sub g idle
  | Goto l => legal l && sub g (pre l)
  | Read k => forallb (fun s => okb (narrow g s) (k s)) (seen g)
  | Cas c from to k =>
      cas_check c from to &&
      forallb (fun s =>
        if s =? from then match trans g from to with Some g' => okb g' (k s) | None => false end
        else okb (narrow g s) (k s)) (seen g)
  | Act e p => match act g e with Some g' => okb g' p | None => false end
  | Choose k => okb g (k true) && okb g (k false)
  | Fail => match app with obeys => false | anything => true end
  end.

End Checker.

(** ** Every label passes *)

Lemma dump_words (P : Z -> bool) x : forallb P words = true -> mem x words = true -> P x = true.
Proof. rewrite forallb_forall, mem_In. auto. Qed.

Lemma dump_loop_ok app ops Q x :
  accounted ops = false -> mem x words = true -> okb app ops (pre app ops (lockForDump_loop x)) (body Q app (lockForDump_loop x)) = true.
Proof.
  intros Hs. apply (dump_words (fun x => okb app ops (pre app ops (lockForDump_loop x)) (body Q app (lockForDump_loop x)))).
  destruct app, ops, Q; try discriminate Hs; vm_compute; reflexivity.
Qed.

Lemma labels_ok app ops Q l : legal ops l = true -> okb app ops (pre app ops l) (body Q app l) = true.
Proof.
  intros Hl. by_label l;
    match goal with
    | |- context [lockForDump_loop] => simpl in Hl; apply andb_true_iff in Hl as [Hs%negb_true_iff Hm]; by apply dump_loop_ok
    | _ => destruct app, ops; try discriminate Hl; destruct Q; vm_compute; reflexivity
    end.
Qed.

Lemma pre_stable app ops l ws r : own (pre app ops l) = Some (ws, r) -> stableb ws = true.
Proof. by_label l; destruct app, ops; intros [= <- <-]; vm_compute; reflexivity. Qed.

Lemma entry_pre app ops l : entry ops l = true -> legal ops l = true /\ pre app ops l = idle.
Proof. by_label l; by destruct ops. Qed.

Section Invariant.
Context (app : application) (ops : operations).

(** ** The invariant *)

(** [g] fits a machine whose word is [s]. *)
Definition fits (s : Z) (g : ghost) : Prop :=
  match own g with
  | Some (ws, _) => In s ws /\ stableb ws = true
  | None => True
  end /\ (accounted ops = true -> 0 <= debt g /\ 0 <= owed g).

Definition owners (gs : list ghost) : nat := length (filter (fun g => owns g = true) gs).

Definition sum_over (f : ghost -> Z) (gs : list ghost) : Z := foldr (fun g acc => f g + acc) 0 gs.

Definition count (e : event) (lg : list event) : Z := Z.of_nat (length (filter (eq e) lg)).

(** References acquired and not yet released; callbacks not yet matched. *)
Definition outstanding (lg : list event) : Z := count Acquire lg - count Undo lg - count Release lg.
Definition unmatched (lg : list event) : Z :=
  count (deliverStatus ISMRC_WaiterDisabled) lg - count Release lg.

Record annotated (m : machine) (gs : list ghost) : Prop := {
  an_ok : Forall2 (fun g p => okb app ops g p = true) gs (threads m);
  an_word : In (status m) words;
  an_owners : owners gs = if locked (status m) then 1%nat else 0%nat;
  an_fits : Forall (fits (status m)) gs;
  an_refs : accounted ops = true -> outstanding (log m) = held (status m) + sum_over (fun g => debt g + ref g) gs;
  an_owed : accounted ops = true -> unmatched (log m) = sum_over owed gs
}.

Definition Inv (m : machine) : Prop := exists gs, annotated m gs.

Lemma sum_over_app f l k : sum_over f (l ++ k) = sum_over f l + sum_over f k.
Proof. induction l as [|g l IH]; simpl; lia. Qed.

Lemma owners_app l k : owners (l ++ k) = (owners l + owners k)%nat.
Proof. unfold owners. by rewrite filter_app, length_app. Qed.

Lemma owners_cons g l : owners (g :: l) = ((if owns g then 1 else 0) + owners l)%nat.
Proof.
  unfold owners. rewrite filter_cons. destruct (owns g) eqn:E; case_decide; simpl; congruence || lia.
Qed.

Lemma owners_zero l g : owners l = 0%nat -> In g l -> own g = None.
Proof.
  intros H0 Hin. unfold owners in H0. apply length_zero_iff_nil in H0.
  destruct (own g) eqn:E; [|done].
  assert (In g (filter (fun g => owns g = true) l)) as Hf; [|by rewrite H0 in Hf].
  apply list_elem_of_In, list_elem_of_filter. split; [by unfold owns; rewrite E|by apply list_elem_of_In].
Qed.

Lemma count_app e l k : count e (l ++ k) = count e l + count e k.
Proof. unfold count. rewrite filter_app, length_app. lia. Qed.

Lemma outstanding_nil : outstanding [] = 0.
Proof. reflexivity. Qed.
Lemma unmatched_nil : unmatched [] = 0.
Proof. reflexivity. Qed.

(** *** One instruction *)

(** [g] may become [g'] when the word goes from [s] to [s']. *)
Record moves (s s' : Z) (es : list event) (g g' : ghost) : Prop := {
  mv_word : In s' words;
  mv_fits : fits s' g';
  mv_rely : own g = None -> locked s = true -> s' = s \/ In s' (others s);
  mv_lock : own g = None -> locked s = true -> own g' = None;
  mv_take : own g = None -> locked s = false -> owns g' = locked s';
  mv_keep : owns g = true -> owns g' = locked s';
  mv_refs : accounted ops = true -> outstanding es + held s + debt g + ref g = held s' + debt g' + ref g';
  mv_owed : accounted ops = true -> unmatched es + owed g = owed g'
}.

Lemma moves_same s g es g' :
  In s words -> fits s g' -> own g' = own g \/ (owns g = true /\ owns g' = true) ->
  (accounted ops = true -> outstanding es + debt g + ref g = debt g' + ref g' /\ unmatched es + owed g = owed g') ->
  fits s g -> moves s s es g g'.
Proof.
  intros Hw Hf Ho Hru Hfg.
  assert (Hlk : owns g = true -> locked s = true).
  { unfold owns, fits in *. destruct (own g) as [[ws r]|]; [|done]. intros _.
    destruct Hfg as [[Hin Hst] _]. exact (stable_locked ws Hst s Hin). }
  constructor; try done; try (intros Hs; destruct (Hru Hs); lia); unfold owns in *.
  - auto.
  - intros Hn _. destruct Ho as [->|[? ?]]; [done|]. by rewrite Hn in *.
  - intros Hn ->. destruct Ho as [->|[? ?]]; by rewrite ?Hn in *.
  - intros Hn. rewrite (Hlk Hn). destruct Ho as [->|[? ?]]; done.
Qed.

Lemma fits_seen s g : In s words -> fits s g -> In s (seen g).
Proof. unfold fits, seen. destruct (own g) as [[ws r]|]; tauto. Qed.

Lemma fits_locked s g : fits s g -> owns g = true -> locked s = true.
Proof.
  unfold fits, owns. destruct (own g) as [[ws r]|]; [|done]. intros [[Hin Hst] _] _.
  exact (stable_locked ws Hst s Hin).
Qed.

Lemma narrow_moves s g : In s words -> fits s g -> moves s s [] g (narrow g s).
Proof.
  intros Hw Hf. pose proof (fits_locked s g Hf) as Hl. unfold narrow, owns in *.
  destruct (own g) as [[ws r]|] eqn:E.
  - apply moves_same; auto; try done.
    + destruct Hf as [_ Hf]. split; [|done]. simpl. split; [by apply reach_refl|by apply reach_stable, Hl].
    + right. unfold owns. by rewrite E.
    + intros _. unfold ref. rewrite E. simpl. rewrite outstanding_nil, unmatched_nil. lia.
  - apply moves_same; auto; intros _; rewrite outstanding_nil, unmatched_nil; lia.
Qed.

Lemma ref_own g h : own g = own h -> ref g = ref h.
Proof. unfold ref. by intros ->. Qed.

Lemma trans_moves s to g g' :
  In s words -> fits s g -> trans ops g s to = Some g' -> moves s to [] g g'.
Proof.
  intros Hw Hf Ht. unfold trans in Ht. destruct (mem to words) eqn:Hto; [|done]. simpl in Ht.
  apply mem_In in Hto. pose proof (fits_locked s g Hf) as Hl.
  assert (Hset : forall o, match o with Some (ws, _) => In to ws /\ stableb ws = true | None => True end ->
    (let d := debt g + ref g + held s - ref (mk_ghost o 0 (owed g)) - held to in
     if negb (accounted ops) || (0 <=? d) then Some (mk_ghost o d (owed g)) else None) = Some g' ->
    fits to g' /\ own g' = o /\ owed g' = owed g /\
    debt g + ref g + held s = debt g' + ref g' + held to).
  { intros o Ho. cbv zeta. clear Ht. destruct (negb (accounted ops) || _) eqn:Ed; [|done]. intros Hg. apply (inj Some) in Hg.
    destruct Hf as (_ & Hf). rewrite (ref_own g' (mk_ghost o 0 (owed g))) by (by rewrite <-Hg). rewrite <-Hg.
    unfold fits. cbn [own debt owed]. split_and!; try done; try lia.
    intros Hs. rewrite Hs in Ed. apply Z.leb_le in Ed. specialize (Hf Hs). lia. }
  assert (Hlock : forall r : bool, match (if locked to then Some (reach to, r) else None) with
                            | Some (ws, _) => In to ws /\ stableb ws = true | None => True end).
  { intros r. destruct (locked to) eqn:E; [|done]. split; [by apply reach_refl|by apply reach_stable]. }
  unfold owns in *. destruct (own g) as [[ws r]|] eqn:E.
  - specialize (Hl eq_refl). destruct (Hset _ (Hlock r) Ht) as (? & Ho & Hw' & Hd).
    constructor; try done; rewrite ?outstanding_nil, ?unmatched_nil; unfold owns; rewrite ?E, ?Ho; try done; try lia; try (intros; congruence).
    + by destruct (locked to).
  - destruct (locked s) eqn:Els.
    + destruct ((to =? s) || mem to (others s)) eqn:Eo; [|done].
      destruct (Hset None I Ht) as (? & Ho & Hw' & Hd).
      constructor; try done; rewrite ?outstanding_nil, ?unmatched_nil; unfold owns; rewrite ?E, ?Ho; try done; try lia; try (intros; congruence).
      * intros _ _. apply orb_true_iff in Eo as [->%Z.eqb_eq|Hm%mem_In]; auto.
    + destruct (Hset _ (Hlock (s =? ENABLED)) Ht) as (? & Ho & Hw' & Hd).
      constructor; try done; rewrite ?outstanding_nil, ?unmatched_nil; unfold owns; rewrite ?E, ?Ho; try done; try lia; try (intros; congruence).
      * intros _ _. by destruct (locked to).
Qed.

Lemma act_moves s e g g' :
  In s words -> fits s g -> act ops g e = Some g' -> moves s s [e] g g'.
Proof.
  intros Hw Hf Ha. unfold act in Ha.
  destruct (exclusive e && negb (owns g)); [done|].
  assert (Hcase : own g' = own g /\ outstanding [e] + debt g = debt g' /\ unmatched [e] + owed g = owed g' /\
    (accounted ops = true -> 0 <= debt g -> 0 <= owed g -> 0 <= debt g' /\ 0 <= owed g')).
  { destruct e; simpl in Ha.
    all: try (injection Ha as <-; split_and!; [done|reflexivity..|intros; simpl; split; lia]).
    - injection Ha as <-. split_and!; simpl; [done| |done|lia]. change (outstanding [Acquire]) with 1. lia.
    - destruct (negb (accounted ops) || _) eqn:Ed; [|done]. injection Ha as <-. split_and!; simpl; [done| |done|].
      + change (outstanding [Undo]) with (-1). lia.
      + intros Hs. rewrite Hs in Ed. apply Z.leb_le in Ed. lia.
    - destruct (negb (accounted ops) || _) eqn:Ed; [|done]. injection Ha as <-. split_and!; simpl; [done|..].
      + change (outstanding [Release]) with (-1). lia.
      + change (unmatched [Release]) with (-1). lia.
      + intros Hs. rewrite Hs in Ed. apply andb_true_iff in Ed as [Ed1%Z.leb_le Ed2%Z.leb_le]. lia.
    - unfold unmatched, count. rewrite filter_cons. destruct (Z.eqb_spec rc ISMRC_WaiterDisabled) as [->|Hne].
      + injection Ha as <-. split_and!; simpl; done || lia.
      + injection Ha as <-. rewrite decide_False by congruence. split_and!; simpl; done || lia. }
  destruct Hcase as (Ho & Hr & Hm & Hp).
  pose proof (ref_own g' g Ho) as Href.
  apply moves_same; auto; [|lia]. unfold fits. rewrite Ho. destruct Hf as [? Hf]. split; [done|].
  intros Hs. destruct (Hf Hs). by apply Hp.
Qed.

Lemma sub_spec g h :
  sub ops g h = true ->
  match own g, own h with
  | None, None => True
  | Some (l, r), Some (l', r') => (forall s, In s l -> In s l') /\ (accounted ops = true -> r = r')
  | _, _ => False
  end /\ (accounted ops = true -> debt g = debt h /\ owed g = owed h).
Proof.
  unfold sub. rewrite andb_true_iff. intros [Ho Hd]. split.
  - destruct (own g) as [[l r]|], (own h) as [[l' r']|]; try done.
    rewrite andb_true_iff, forallb_forall in Ho. destruct Ho as [Hsub Hr]. split.
    + intros s Hs. by apply mem_In, Hsub.
    + intros Hs. rewrite Hs in Hr. by apply eqb_prop.
  - intros Hs. rewrite Hs in Hd. apply andb_true_iff in Hd as [Hd%Z.eqb_eq Hu%Z.eqb_eq]. done.
Qed.

Lemma sub_moves s g h :
  In s words -> fits s g -> sub ops g h = true -> (forall ws r, own h = Some (ws, r) -> stableb ws = true) ->
  moves s s [] g h.
Proof.
  intros Hw Hf [Ho Hd]%sub_spec Hst. pose proof Hf as [Hfo Hfd].
  apply moves_same; [done|..|done]; unfold fits, owns, ref in *;
    destruct (own g) as [[ws r]|] eqn:Eg, (own h) as [[ws' r']|] eqn:Eh; try done; auto.
  - destruct Ho as [Hsub Hr], Hfo as [Hin _]. split; [split; eauto|].
    intros Hs. destruct (Hd Hs), (Hfd Hs). lia.
  - split; [done|]. intros Hs. destruct (Hd Hs), (Hfd Hs). lia.
  - intros Hs. destruct Ho as [_ Hr], (Hd Hs). rewrite (Hr Hs), outstanding_nil, unmatched_nil. lia.
  - intros Hs. destruct (Hd Hs). rewrite outstanding_nil, unmatched_nil. lia.
Qed.

Lemma instr_moves Q s p s' es p' g :
  instr Q app s p s' es p' -> okb app ops g p = true -> In s words -> fits s g ->
  exists g', okb app ops g' p' = true /\ moves s s' es g g'.
Proof.
  intros Hi Hok Hw Hf. pose proof (fits_seen s g Hw Hf) as Hseen. destruct Hi; simpl in Hok.
  - apply andb_true_iff in Hok as [Hl Hs]. exists (pre app ops l). split; [by apply labels_ok|].
    apply sub_moves; auto. apply pre_stable.
  - rewrite forallb_forall in Hok. exists (narrow g s). split; [by apply Hok|by apply narrow_moves].
  - apply andb_true_iff in Hok as [_ Hok]. rewrite forallb_forall in Hok. specialize (Hok s Hseen).
    rewrite Z.eqb_refl in Hok. destruct (trans ops g s to) as [g'|] eqn:Et; [|done].
    exists g'. split; [done|by apply trans_moves].
  - apply andb_true_iff in Hok as [_ Hok]. rewrite forallb_forall in Hok. specialize (Hok s Hseen).
    rewrite (proj2 (Z.eqb_neq s from)) in Hok by done.
    exists (narrow g s). split; [done|by apply narrow_moves].
  - rewrite andb_true_iff in Hok. destruct Hok as [Hc _]. congruence.
  - destruct (act ops g e) as [g'|] eqn:Ea; [|done]. exists g'. split; [done|by apply act_moves].
  - apply andb_true_iff in Hok as [Ht Hff]. exists g. split; [by destruct b|].
    apply moves_same; auto; try lia.
Qed.

(** *** The machine *)

Lemma others_fit s s' es g g' h :
  moves s s' es g g' -> fits s g -> fits s h ->
  (locked s = true -> own g = None \/ own h = None) -> (locked s = false -> own h = None) -> fits s' h.
Proof.
  intros Hm Hg Hh Hone Hnone. unfold fits in *. destruct Hh as [Hh Hd]. split; [|done].
  destruct (own h) as [[ws r]|] eqn:E; [|done]. destruct Hh as [Hin Hst]. split; [|done].
  destruct (locked s) eqn:El; [|by specialize (Hnone eq_refl)].
  destruct (Hone eq_refl) as [Hgn|]; [|done].
  destruct (mv_rely _ _ _ _ _ Hm Hgn El) as [->|Ho]; [done|].
  by apply (stable_others ws Hst s).
Qed.

Lemma Inv_start s lg ts l :
  entry ops l = true -> Inv (mk_machine s lg ts) -> Inv (mk_machine s lg (ts ++ [Goto l])).
Proof.
  intros He [gs [Hok Hw How Hfit Hrefs Howed]]. cbn [status log threads] in *.
  exists (gs ++ [idle]). destruct (entry_pre app ops l He) as [Hleg Hpre].
  constructor; cbn [status log threads]; try done.
  - apply Forall2_app; [done|]. constructor; [|done]. cbn [okb]. rewrite Hleg, Hpre. by destruct ops.
  - rewrite owners_app, owners_cons. simpl. unfold owners at 2. simpl. lia.
  - apply Forall_app; split; [done|]. constructor; [|done]. unfold fits. simpl. split; [done|lia].
  - intros Hs. rewrite (Hrefs Hs), sum_over_app. simpl. unfold ref. simpl. lia.
  - intros Hs. rewrite (Howed Hs), sum_over_app. simpl. lia.
Qed.

(** The thread that moves keeps the lock to one owner. *)
Lemma owners_moves s s' es g g' n :
  moves s s' es g g' -> In s words -> fits s g ->
  ((if owns g then 1 else 0) + n = if locked s then 1 else 0)%nat ->
  ((if owns g' then 1 else 0) + n = if locked s' then 1 else 0)%nat.
Proof.
  intros Hm Hw Hfg How.
  pose proof (mv_take _ _ _ _ _ Hm) as Ht. pose proof (mv_keep _ _ _ _ _ Hm) as Hk.
  pose proof (mv_lock _ _ _ _ _ Hm) as Hlk. pose proof (mv_rely _ _ _ _ _ Hm) as Hry.
  pose proof (fits_locked s g Hfg) as Hgl. unfold owns in *.
  destruct (own g) as [x|] eqn:Eg.
  - rewrite (Hk eq_refl). rewrite (Hgl eq_refl) in How. destruct (locked s'); lia.
  - destruct (locked s) eqn:El.
    + rewrite (Hlk eq_refl eq_refl).
      assert (locked s' = true) as ->; [|lia].
      destruct (Hry eq_refl eq_refl) as [->|Ho]; [done|].
      apply (stable_locked (reach s)); [by apply reach_stable|].
      apply (stable_others (reach s)) with s; [by apply reach_stable|by apply reach_refl|done].
    + rewrite (Ht eq_refl eq_refl). destruct (locked s'); lia.
Qed.

Lemma only_owner s g gs1 gs2 h :
  owners (gs1 ++ g :: gs2) = (if locked s then 1%nat else 0%nat) -> In h gs1 \/ In h gs2 ->
  (locked s = true -> own g = None \/ own h = None) /\ (locked s = false -> own h = None).
Proof.
  rewrite owners_app, owners_cons. intros How Hh. split; intros El; rewrite El in How.
  - destruct (own g) eqn:Eg; [right|by left]. unfold owns in How. rewrite Eg in How.
    destruct Hh as [Hh|Hh]; [apply (owners_zero gs1)|apply (owners_zero gs2)]; done || lia.
  - destruct Hh as [Hh|Hh]; [apply (owners_zero gs1)|apply (owners_zero gs2)]; done || lia.
Qed.

Lemma Inv_instr Q s s' lg es ts1 p p' ts2 :
  instr Q app s p s' es p' -> Inv (mk_machine s lg (ts1 ++ p :: ts2)) ->
  Inv (mk_machine s' (lg ++ es) (ts1 ++ p' :: ts2)).
Proof.
  intros Hi [gs [Hok Hw How Hfit Hrefs Howed]]. cbn [status log threads] in *.
  apply Forall2_app_inv_r in Hok as (gs1 & [|g gs2] & Hok1 & Hok2 & ->); [by inversion Hok2|].
  inversion Hok2 as [|? ? ? ? Hokg Hok2' ]; subst.
  apply Forall_app in Hfit as [Hf1 Hf2]. inversion Hf2 as [|? ? Hfg Hf2']; subst.
  destruct (instr_moves Q s p s' es p' g Hi Hokg Hw Hfg) as (g' & Hokg' & Hm).
  rewrite sum_over_app in Hrefs, Howed. simpl in Hrefs, Howed.
  exists (gs1 ++ g' :: gs2). constructor; cbn [status log threads].
  - apply Forall2_app; [done|]. by constructor.
  - exact (mv_word _ _ _ _ _ Hm).
  - rewrite owners_app, owners_cons in How |- *.
    pose proof (owners_moves s s' es g g' (owners gs1 + owners gs2) Hm Hw Hfg). lia.
  - rewrite Forall_app, Forall_cons. split_and!; [|exact (mv_fits _ _ _ _ _ Hm)|].
    + rewrite Forall_forall in Hf1 |- *. intros h Hh%list_elem_of_In.
      destruct (only_owner s g gs1 gs2 h How (or_introl Hh)). eapply others_fit; eauto. by apply Hf1, list_elem_of_In.
    + rewrite Forall_forall in Hf2' |- *. intros h Hh%list_elem_of_In.
      destruct (only_owner s g gs1 gs2 h How (or_intror Hh)). eapply others_fit; eauto. by apply Hf2', list_elem_of_In.
  - intros Hs. specialize (Hrefs Hs). pose proof (mv_refs _ _ _ _ _ Hm Hs) as Hr. rewrite sum_over_app. simpl.
    unfold outstanding in *. rewrite !count_app. lia.
  - intros Hs. specialize (Howed Hs). pose proof (mv_owed _ _ _ _ _ Hm Hs) as Hr. rewrite sum_over_app. simpl.
    unfold unmatched in *. rewrite !count_app. lia.
Qed.

Lemma Inv_step Q m m' : Inv m -> step Q app ops m m' -> Inv m'.
Proof. intros HI Hstep. destruct Hstep; [by apply Inv_start|by eapply Inv_instr]. Qed.

Lemma Inv_initial : Inv initial.
Proof. exists []. constructor; simpl; try done. by left. Qed.

Lemma Inv_rtc Q m m' : rtc (step Q app ops) m m' -> Inv m -> Inv m'.
Proof. induction 1; eauto using Inv_step. Qed.

Lemma Inv_reachable Q m : reachable Q app ops m -> Inv m.
Proof. intros Hr. exact (Inv_rtc Q initial m Hr Inv_initial). Qed.
End Invariant.

(** ** Schedules

    Executable runs of the machine, to exhibit reachable states. *)
Inductive move := Start (l : label) | Go (i : nat) (choice : bool).

Definition exec_instr (Q : ismQueueType_t) (app : application) (s : Z) (p : prog) (choice : bool) : Z * list event * prog :=
  match p with
  | Done _ | Fail => (s, [], p)
  | Goto l => (s, [], body Q app l)
  | Read k => (s, [], k s)
  | Cas c from to k =>
      let s' := if s =? from then to else s in (s', [], if cas_check c from to then k s else Fail)
  | Act e p => (s, [e], p)
  | Choose k => (s, [], k choice)
  end.

Definition exec (Q : ismQueueType_t) (app : application) (ops : operations) (m : machine) (mv : move) : machine :=
  match mv with
  | Start l => if entry ops l then mk_machine (status m) (log m) (threads m ++ [Goto l]) else m
  | Go i choice =>
      match threads m !! i with
      | Some p =>
          let '(s, es, p') := exec_instr Q app (status m) p choice in
          mk_machine s (log m ++ es) (take i (threads m) ++ p' :: drop (S i) (threads m))
      | None => m
      end
  end.

Lemma exec_instr_sound Q app s p b :
  exec_instr Q app s p b = (s, [], p) \/
  let '(s', es, p') := exec_instr Q app s p b in instr Q app s p s' es p'.
Proof.
  destruct p as [rc|l|k|c from to k|e p|k|]; simpl; auto; try (right; constructor).
  right. destruct (cas_check c from to) eqn:Hc; [|by constructor].
  destruct (Z.eqb_spec s from) as [->|Hne]; by constructor.
Qed.

Lemma exec_sound Q app ops m mv : rtc (step Q app ops) m (exec Q app ops m mv).
Proof.
  destruct m as [s lg ts], mv as [l|i b]; simpl.
  - destruct (entry ops l) eqn:E; [|done]. apply rtc_once. by constructor.
  - destruct (ts !! i) as [p|] eqn:Hi; [|done].
    pose proof (exec_instr_sound Q app s p b) as Hs. destruct (exec_instr Q app s p b) as [[s' es] p'].
    pose proof (take_drop_middle ts i p Hi) as Hts. destruct Hs as [[= -> -> ->]|Hs].
    + rewrite Hts, app_nil_r. done.
    + apply rtc_once. rewrite <-Hts at 1. by constructor.
Qed.

Lemma schedule_reachable Q app ops mvs : reachable Q app ops (foldl (exec Q app ops) initial mvs).
Proof.
  unfold reachable. assert (Hgen : forall m, rtc (step Q app ops) m (foldl (exec Q app ops) m mvs)); [|apply Hgen].
  induction mvs as [|mv mvs IH]; intros m; simpl; [done|].
  etrans; [apply (exec_sound Q app ops m mv)|apply IH].
Qed.
