(* ===== verification/WaiterCorrect.v ===== *)
(** * The waiter: theorems

    What the lock protocol of WaiterLock.v gives for every interleaving, and what
    each operation does when it is not disturbed. *)

From S2P Require Import Prelude WaiterStatus WaiterLock.
From stdpp Require Import relations.
#[local] Open Scope Z_scope.
#[local] Open Scope status_scope.

(** ** Interleavings *)

(** The ghost of a thread of an annotated machine. *)
Lemma thread_ghost app ops m gs i p :
  annotated app ops m gs -> threads m !! i = Some p ->
  exists g, gs !! i = Some g /\ okb app ops g p = true /\ fits ops (status m) g.
Proof.
  intros Han Hi. destruct (Forall2_lookup_r _ _ _ _ _ (an_ok _ _ _ _ Han) Hi) as (g & Hg & Hok).
  exists g. split_and!; [done..|]. exact (Forall_lookup_1 _ _ _ _ (an_fits _ _ _ _ Han) Hg).
Qed.

Lemma owners_unique gs i j g h :
  (owners gs <= 1)%nat -> gs !! i = Some g -> gs !! j = Some h -> owns g = true -> owns h = true -> i = j.
Proof.
  revert i j. induction gs as [|x gs IH]; intros i j Hle Hi Hj Hg Hh; [done|].
  rewrite owners_cons in Hle.
  assert (Hin : forall k y, gs !! k = Some y -> owns y = true -> (1 <= owners gs)%nat).
  { intros k y Hk Hy. destruct (owners gs) eqn:E; [|lia].
    pose proof (owners_zero gs y E (proj1 (list_elem_of_In _ _) (list_elem_of_lookup_2 _ _ _ Hk))) as Hn.
    unfold owns in Hy. by rewrite Hn in Hy. }
  destruct i as [|i], j as [|j]; simpl in *; simplify_eq; try done.
  - specialize (Hin j h Hj Hh). rewrite Hg in Hle. lia.
  - specialize (Hin i g Hi Hg). rewrite Hh in Hle. lia.
  - f_equal. apply IH; auto. destruct (owns x); lia.
Qed.

Lemma exclusive_owns app ops g e p : okb app ops g (Act e p) = true -> exclusive e = true -> owns g = true.
Proof. simpl. unfold act. intros Hok He. rewrite He in Hok. by destruct (owns g). Qed.

Lemma owners_le app ops m gs : annotated app ops m gs -> (owners gs <= 1)%nat.
Proof. intros Han. rewrite (an_owners _ _ _ _ Han). destruct (locked (status m)); lia. Qed.

(** C6. Mutual exclusion: however the operations of any number of threads are
    interleaved (the dump of the queue and the resume on a deleted queue among them),
    and whatever the application answers, at most one of them at a time is about to
    take a message, deliver one, reclaim space, scan the queue or detach the
    consumer; and while one is, the status word is a locked one. *)
Theorem waiter_mutual_exclusion Q app ops m i j e f p q :
  reachable Q app ops m -> threads m !! i = Some (Act e p) -> threads m !! j = Some (Act f q) ->
  exclusive e = true -> exclusive f = true -> i = j /\ locked (status m) = true.
Proof.
  intros [gs Han]%Inv_reachable Hi Hj He Hf.
  destruct (thread_ghost app ops m gs i _ Han Hi) as (g & Hg & Hok & Hfit).
  destruct (thread_ghost app ops m gs j _ Han Hj) as (h & Hh & Hok' & _).
  pose proof (exclusive_owns app ops g e p Hok He) as Hog. pose proof (exclusive_owns app ops h f q Hok' Hf) as Hoh.
  split; [by apply (owners_unique gs i j g h (owners_le app ops m gs Han))|exact (fits_locked ops _ _ Hfit Hog)].
Qed.

(** C7. If the application keeps the contract of the message callback (in a
    session with explicit suspends it suspends when it declines more messages), then
    no assertion on the status word fails and no "unexpected status" report is
    reached, in any interleaving of the operations: the word is always one of the
    fifteen that the protocol knows. *)
Theorem waiter_never_fails Q ops m :
  reachable Q obeys ops m -> ~ In Fail (threads m) /\ In (status m) words.
Proof.
  intros [gs Han]%Inv_reachable. split; [|exact (an_word _ _ _ _ Han)].
  intros [i Hi]%list_elem_of_In%list_elem_of_lookup.
  by destruct (thread_ghost obeys ops m gs i _ Han Hi) as (g & _ & [=] & _).
Qed.

Lemma sum_over_nonneg f gs : Forall (fun g => 0 <= f g) gs -> 0 <= sum_over f gs.
Proof. induction 1; simpl; lia. Qed.

Lemma sum_over_lookup f gs i g :
  Forall (fun g => 0 <= f g) gs -> gs !! i = Some g -> f g <= sum_over f gs.
Proof.
  intros Hall. revert i. induction Hall as [|x gs Hx Hall IH]; intros i Hi; [done|].
  pose proof (sum_over_nonneg f gs Hall). destruct i as [|i]; simpl in *; simplify_eq; [lia|].
  specialize (IH i Hi). lia.
Qed.

Lemma ref_nonneg g : 0 <= ref g.
Proof. unfold ref. destruct (own g) as [[? []]|]; lia. Qed.

Lemma debts_nonneg app m gs : annotated app usual m gs -> Forall (fun g => 0 <= debt g + ref g) gs.
Proof.
  intros Han. refine (Forall_impl _ _ _ (an_fits _ _ _ _ Han) _). intros g (_ & Hd).
  destruct (Hd eq_refl). pose proof (ref_nonneg g). lia.
Qed.

(** C9. As long as only the usual operations run (no dump of the queue, and no
    resume on a multi-consumer queue that is being deleted), references to the
    consumer are never released too often, whatever the application does: when a
    thread is about to give one back, there are references besides those of the
    waiter itself (one if it is enabled, one for a cancelled disable), so that the
    consumer cannot be freed under an enabled waiter. *)
Theorem waiter_release_is_covered Q app m i e p :
  reachable Q app usual m -> threads m !! i = Some (Act e p) -> e = Release \/ e = Undo ->
  held (status m) + 1 <= outstanding (log m).
Proof.
  intros [gs Han]%Inv_reachable Hi He. rewrite (an_refs _ _ _ _ Han eq_refl).
  destruct (thread_ghost app usual m gs i _ Han Hi) as (g & Hg & Hok & _).
  pose proof (sum_over_lookup _ _ _ _ (debts_nonneg app m gs Han) Hg) as Hle. simpl in Hle.
  pose proof (ref_nonneg g). simpl in Hok. unfold act in Hok.
  destruct He as [-> | ->]; simpl in Hok; destruct (Z.leb_spec 1 (debt g)); done || lia.
Qed.

Definition finished (p : prog) : Prop := exists rc, p = Done rc.

Lemma finished_idle app ops g p :
  okb app ops g p = true -> finished p -> own g = None /\ (accounted ops = true -> debt g = 0 /\ owed g = 0).
Proof.
  intros Hok [rc ->]. simpl in Hok. apply sub_spec in Hok as [Ho Hd]. split; [|done].
  by destruct (own g) as [[]|].
Qed.

Lemma finished_ghosts app ops m gs :
  annotated app ops m gs -> Forall finished (threads m) ->
  owners gs = 0%nat /\
  (accounted ops = true -> sum_over (fun g => debt g + ref g) gs = 0 /\ sum_over owed gs = 0).
Proof.
  intros Han Hfin. pose proof (an_ok _ _ _ _ Han) as Hok. clear Han.
  induction Hok as [|g p gs ps Hg _ IH]; [done|].
  inversion Hfin as [|? ? Hp Hps]; subst. destruct (IH Hps) as (H1 & H2).
  destruct (finished_idle app ops g p Hg Hp) as (Ho & Hd).
  rewrite owners_cons. assert (ref g = 0) by (unfold ref; by rewrite Ho).
  assert (owns g = false) as -> by (unfold owns; by rewrite Ho). split; [done|].
  intros Hs. destruct (Hd Hs), (H2 Hs). simpl. lia.
Qed.

(** C8. Whenever every operation has returned, the waiter is not locked.  And if
    only the usual operations ran (no dump of the queue, and no resume on a
    multi-consumer queue that is being deleted), the books balance: the only
    reference left is that of an enabled waiter, and every "waiter disabled" callback
    has had its release. *)
Theorem waiter_balanced Q app ops m :
  reachable Q app ops m -> Forall finished (threads m) ->
  locked (status m) = false /\
  (ops = usual ->
   outstanding (log m) = (if status m =? ENABLED then 1 else 0) /\
   count (deliverStatus ISMRC_WaiterDisabled) (log m) = count Release (log m)).
Proof.
  intros [gs Han]%Inv_reachable Hfin. destruct (finished_ghosts app ops m gs Han Hfin) as (H1 & H2).
  pose proof (an_owners _ _ _ _ Han) as How. rewrite H1 in How.
  destruct (locked (status m)) eqn:El; [done|]. split; [done|]. intros ->. destruct (H2 eq_refl) as [H3 H4].
  pose proof (an_refs _ _ _ _ Han eq_refl) as Hr. pose proof (an_owed _ _ _ _ Han eq_refl) as Hu.
  rewrite H3 in Hr. rewrite H4 in Hu. unfold unmatched in Hu. split; [|lia].
  rewrite Hr. assert (Hall : forallb (fun s => locked s || (held s =? if s =? ENABLED then 1 else 0)) words = true)
    by reflexivity. rewrite forallb_forall in Hall. specialize (Hall _ (an_word _ _ _ _ Han)).
  rewrite El in Hall. apply Z.eqb_eq in Hall. simpl in *. lia.
Qed.

(** ** Operations that are not disturbed *)

(** What [ieq_completeWaiterActions] leaves, and the calls it makes. *)
Definition completed (s : Z) : Z :=
  if nz (s &&& DISCONNECT_PEND) then DISCONNECTED
  else if nz (s &&& CANCEL_DISABLE_PEND) then ENABLED
  else if nz (s &&& DISABLE_PEND) then DISABLED
  else ENABLED.

Definition completion_events (Q : ismQueueType_t) (noDeliver waiterWasEnabled : bool) (s : Z) : list event :=
  let disable := nz (s &&& DISABLE_PEND) in
  let disconnect := nz (s &&& DISCONNECT_PEND) in
  let reclaim := if nz (s &&& RECLAIMSPACE_PEND) then [reclaimSpace] else [] in
  let check := if completed s =? ENABLED then if noDeliver then [] else [checkWaiters] else [] in
  if disable || disconnect then
    (if waiterWasEnabled then [deliverStatus ISMRC_WaiterDisabled] else [])
    ++ (if disable then reclaim else [])
    ++ (if disconnect then
          (match Q with multiConsumer => [] | _ => [clearConsumer] end)
          ++ (if disable then [] else reclaim)
          ++ [deliverStatus ISMRC_WaiterRemoved; reducePreDeleteCount]
        else check)
    ++ (if waiterWasEnabled then [Release] else [])
  else reclaim ++ check.

(** C30. Completing the actions that others have left terminates when it is not
    disturbed, acts on every pending bit, and unlocks: a pending disconnect
    disconnects, a cancelled disable enables, a pending disable disables, and a
    reclaim alone enables.  The callbacks and the release are exactly those owed, in
    order; the "waiter disabled" callback and the release of the reference are made
    if and only if the caller says the waiter was enabled and it is being disabled
    or disconnected. *)
Theorem complete_acts_on_every_bit Q app noDeliver waiterWasEnabled rc s :
  In s pending_words ->
  run Q app 40 [] s (Goto (complete_reclaim noDeliver waiterWasEnabled (ThenReturn rc)))
  = (completed s, completion_events Q noDeliver waiterWasEnabled s, Done rc).
Proof.
  intros Hs. repeat destruct Hs as [<-|Hs]; try done; destruct Q, noDeliver, waiterWasEnabled; reflexivity.
Qed.

(** The answer of [ism_engine_resumeMessageDelivery] and the word it leaves. *)
Definition resumed (Q : ismQueueType_t) (isDeleted : bool) (s : Z) : Z * Z :=
  if match Q with multiConsumer => isDeleted | _ => false end then (ISMRC_QueueDeleted, s)
  else if nz (s &&& DISCONNECT_PEND) || (s =? DISCONNECTED) then (ISMRC_WaiterInvalid, s)
  else if s =? DISABLED then (OK, ENABLED)
  else if nz (s &&& DISABLE_PEND) && (s &&& CANCEL_DISABLE_PEND =? 0) then (OK, s ||| CANCEL_DISABLE_PEND)
  else (ISMRC_WaiterEnabled, s).

(** C31. Resuming delivery, in every state in which it does not have to wait for
    another thread: it enables a disabled waiter or cancels a pending disable, and
    keeps one reference to the consumer for it; otherwise the word is unchanged and
    the reference is given back, except on a multi-consumer queue that is being
    deleted, where the answer is [ISMRC_QueueDeleted] and the reference taken in
    advance is kept although the waiter is not enabled. *)
Theorem resume_outcome Q app isDeleted s :
  In s words -> s <> DISABLED_LOCKEDWAIT ->
  exists es,
    run Q app 20 [] s (Goto (resumeMessageDelivery isDeleted))
    = ((resumed Q isDeleted s).2, es, Done (resumed Q isDeleted s).1) /\
    outstanding es = (if ((resumed Q isDeleted s).1 =? OK) || ((resumed Q isDeleted s).1 =? ISMRC_QueueDeleted)
                      then 1 else 0).
Proof.
  intros Hs Hne. repeat destruct Hs as [<-|Hs]; try done; destruct Q, isDeleted; eexists; split; reflexivity.
Qed.

(** The answer of [ieq_disableWaiter] and the word it leaves. *)
Definition disabled (s : Z) : Z * Z :=
  if nz (s &&& DISCONNECT_PEND) || (s =? DISCONNECTED) then (ISMRC_WaiterInvalid, s)
  else if s =? DISABLED then (ISMRC_WaiterDisabled, s)
  else if s =? ENABLED then (OK, DISABLED)
  else if (s =? GETTING) || (s =? DELIVERING) then (ISMRC_AsyncCompletion, DISABLE_PEND)
  else (ISMRC_AsyncCompletion, (s &&& -! CANCEL_DISABLE_PEND) ||| DISABLE_PEND).

(** C32. Disabling, in every state in which it does not have to wait: an enabled
    waiter is disabled at once, with the callback and the release; a locked one is
    marked, and a cancelled disable is reinstated, with a callback and a release for
    the enable that cancelled it. *)
Theorem disable_outcome Q app s :
  In s words -> s <> DISABLED_LOCKEDWAIT ->
  run Q app 60 [] s (Goto disableWaiter)
  = ((disabled s).2,
     (if (s =? ENABLED) || nz (s &&& CANCEL_DISABLE_PEND)
      then [deliverStatus ISMRC_WaiterDisabled; Release] else []),
     Done (disabled s).1).
Proof.
  intros Hs Hne. repeat destruct Hs as [<-|Hs]; try done; reflexivity.
Qed.

(** ** Surprises *)

Lemma spin_goto Q app fuel ch s l k :
  body Q app l = Read k -> k s = Goto l -> exists p, run Q app fuel ch s (Goto l) = (s, [], p) /\ ~ finished p.
Proof.
  intros Hb Hk. induction fuel as [fuel IH] using lt_wf_ind.
  destruct fuel as [|[|fuel]]; cbn [run].
  - eexists; split; [done|]. by intros [? [=]].
  - rewrite Hb. eexists; split; [done|]. by intros [? [=]].
  - rewrite Hb. cbn [run]. rewrite Hk. apply IH. lia.
Qed.

(** C40. On a simple queue, detaching the consumer from a waiter that already has
    a pending bit (other than the disconnect) computes the new word but never stores
    it: alone, it loops for ever and leaves the word as it was.  The same operation
    of the other queues marks the waiter and returns, unless the disable was
    cancelled. *)
Theorem simple_term_spins app fuel ch s :
  In s pending_words -> s &&& DISCONNECT_PEND = 0 ->
  (exists p, run simple app fuel ch s (Goto termWaiter) = (s, [], p) /\ ~ finished p) /\
  (s &&& CANCEL_DISABLE_PEND = 0 -> forall Q, Q <> simple ->
   run Q app 5 ch s (Goto termWaiter) = (s ||| DISCONNECT_PEND, [], Done ISMRC_AsyncCompletion)).
Proof.
  intros Hs Hd. split.
  - eapply spin_goto; [reflexivity|]. repeat destruct Hs as [<-|Hs]; try discriminate Hd; done.
  - intros Hc Q HQ. repeat destruct Hs as [<-|Hs]; try discriminate Hd; try discriminate Hc; by destruct Q.
Qed.

(** The delivery status reported for a consumer: "stopped" for a disabled
    waiter, "stopping" while a disable or disconnect is pending and not cancelled,
    and "started" in all other cases, a disconnected waiter included (its word is 0,
    which no mask can detect). *)
Theorem delivery_status_characterised s :
  In s words ->
  ism_engine_getConsumerMessageDeliveryStatus s =
  if mem s [DISABLED; DISABLED_LOCKEDWAIT] then STOPPED
  else if mem s [DISCONNECTED; ENABLED; GETTING; DELIVERING; RECLAIMSPACE_PEND] then STARTED
  else if nz (s &&& CANCEL_DISABLE_PEND) then STARTED else STOPPING.
Proof. intros Hs. repeat destruct Hs as [<-|Hs]; done. Qed.

(** ** Schedules that break the accounts *)

Definition steps (i n : nat) : list move := replicate n (Go i false).

(** A dump locks a disabled waiter as if it were enabled; a reclaim that comes in
    leaves its flag, and the dump completes it by enabling the waiter, for which
    nobody has taken a reference.  The next disable releases one that is not there. *)
Definition dump_schedule : list move :=
  (Start initWaiter :: steps 0 5) ++ (Start dumpQ :: steps 1 3) ++ (Start reclaimQueue :: steps 2 4)
  ++ steps 1 12 ++ (Start disableWaiter :: steps 3 12).

Theorem dump_over_releases :
  exists m, reachable simple obeys all m /\ Forall finished (threads m) /\
    status m = DISABLED /\ outstanding (log m) = -1.
Proof.
  exists (foldl (exec simple obeys all) initial dump_schedule). split; [apply schedule_reachable|].
  split; [|by vm_compute].
  vm_compute. repeat (apply Forall_cons; split; [by eexists|]). by apply Forall_nil.
Qed.

(** The same with no consumer at all: the waiter of a queue to which nobody has
    attached ends up enabled. *)
Theorem dump_enables_disconnected :
  exists m, reachable simple obeys all m /\ Forall finished (threads m) /\
    status m = ENABLED /\ ~ In setConsumer (log m).
Proof.
  exists (foldl (exec simple obeys all) initial
    ((Start dumpQ :: steps 0 3) ++ (Start reclaimQueue :: steps 1 4) ++ steps 0 12)).
  split; [apply schedule_reachable|]. split.
  - vm_compute. repeat (apply Forall_cons; split; [by eexists|]). by apply Forall_nil.
  - split; [by vm_compute|]. vm_compute. intuition congruence.
Qed.

(** An application with explicit suspends that returns false and has not suspended:
    no flag is left for the completion of the waiter's actions, whose assertion
    fails. *)
Theorem declining_without_suspending_fails :
  exists m, reachable simple anything usual m /\ In Fail (threads m).
Proof.
  exists (foldl (exec simple anything usual) initial
    ((Start initWaiter :: steps 0 5) ++ (Start (resumeMessageDelivery false) :: steps 1 10)
     ++ Start putToWaitingGetter :: steps 2 5 ++ Go 2 true :: steps 2 4)).
  split; [apply schedule_reachable|]. vm_compute. auto.
Qed.

(** ** Witnesses *)

(** A consumer is attached, delivery is resumed, and a put finds it waiting. *)
Definition attach : list move := (Start initWaiter :: steps 0 5) ++ (Start (resumeMessageDelivery false) :: steps 1 10).
Definition demo_delivering : machine :=
  foldl (exec simple obeys usual) initial (attach ++ Start putToWaitingGetter :: steps 2 2).
Definition demo_disabling : machine :=
  foldl (exec simple obeys usual) initial (attach ++ Start disableWaiter :: steps 2 9).

Lemma waiter_mutual_exclusion_witness : 2%nat = 2%nat /\ locked (status demo_delivering) = true.
Proof.
  eapply (waiter_mutual_exclusion simple obeys usual demo_delivering 2 2 deliverMessage deliverMessage);
    [apply schedule_reachable|reflexivity..].
Defined.

Lemma waiter_never_fails_witness :
  ~ In Fail (threads demo_delivering) /\ In (status demo_delivering) words.
Proof. apply (waiter_never_fails simple usual), schedule_reachable. Defined.

Lemma waiter_release_is_covered_witness : held (status demo_disabling) + 1 <= outstanding (log demo_disabling).
Proof.
  apply (waiter_release_is_covered simple obeys demo_disabling 2 Release (Done OK));
    [apply schedule_reachable|vm_compute; reflexivity|by left].
Defined.

Definition demo_done : machine := exec simple obeys usual demo_disabling (Go 2 false).

Lemma waiter_balanced_witness :
  locked (status demo_done) = false /\
  (usual = usual ->
   outstanding (log demo_done) = (if status demo_done =? ENABLED then 1 else 0) /\
   count (deliverStatus ISMRC_WaiterDisabled) (log demo_done) = count Release (log demo_done)).
Proof.
  apply (waiter_balanced simple obeys usual).
  - unfold demo_done, demo_disabling. rewrite <-(foldl_snoc (exec simple obeys usual)). apply schedule_reachable.
  - assert (threads demo_done = [Done OK; Done OK; Done OK]) as -> by (vm_compute; reflexivity).
    repeat (apply Forall_cons; split; [by exists OK|]). by apply Forall_nil.
Defined.

Lemma complete_acts_on_every_bit_witness :
  run simple obeys 40 [] DISABLE_PEND (Goto (complete_reclaim false true (ThenReturn OK)))
  = (DISABLED, [deliverStatus ISMRC_WaiterDisabled; Release], Done OK).
Proof. apply (complete_acts_on_every_bit simple obeys false true OK DISABLE_PEND). by left. Defined.

Lemma resume_outcome_witness :
  exists es, run simple obeys 20 [] DISABLED (Goto (resumeMessageDelivery false)) = (ENABLED, es, Done OK) /\
    outstanding es = 1.
Proof. apply (resume_outcome simple obeys false DISABLED); [by right; left|done]. Defined.

Lemma disable_outcome_witness :
  run simple obeys 60 [] DELIVERING (Goto disableWaiter) = (DISABLE_PEND, [], Done ISMRC_AsyncCompletion).
Proof. apply (disable_outcome simple obeys DELIVERING); [by do 4 right; left|done]. Defined.

Lemma simple_term_spins_witness :
  (exists p, run simple obeys 1000 [] DISABLE_PEND (Goto termWaiter) = (DISABLE_PEND, [], p) /\ ~ finished p) /\
  (DISABLE_PEND &&& CANCEL_DISABLE_PEND = 0 -> forall Q, Q <> simple ->
   run Q obeys 5 [] DISABLE_PEND (Goto termWaiter)
   = (DISABLE_PEND ||| DISCONNECT_PEND, [], Done ISMRC_AsyncCompletion)).
Proof. apply (simple_term_spins obeys 1000 [] DISABLE_PEND); [by left|reflexivity]. Defined.

Lemma delivery_status_witness : ism_engine_getConsumerMessageDeliveryStatus DISCONNECTED = STARTED.
Proof. apply (delivery_status_characterised DISCONNECTED). by left. Defined.
