(* ===== verification/WaiterProgress.v ===== *)
(** * The waiter: progress

    The lock is never lost: in every state that an interleaving of the operations of
    WaiterStatus.v can reach, the thread that owns the lock, run alone, returns and
    unlocks; and while the waiter is not locked every thread, run alone, returns.
    Both hold however the data decide (whether there are messages, what a callback
    answers, whether time is left), as long as the same thread is not given messages
    for ever: the choices are an arbitrary finite list, after which there is nothing
    more to do. *)

From S2P Require Import Prelude WaiterStatus WaiterLock WaiterCorrect.
From stdpp Require Import relations.
#[local] Open Scope Z_scope.

(** ** One thread alone *)

Definition returned (r : Z * list event * prog) : bool :=
  match r with (s, _, Done _) => negb (locked s) | _ => false end.

(** A thread run up to its next choice. *)
Fixpoint advance (Q : ismQueueType_t) (fuel : nat) (s : Z) (p : prog) : Z * prog :=
  match fuel with
  | O => (s, p)
  | S fuel =>
      match p with
      | Done _ | Fail | Choose _ => (s, p)
      | Goto l => advance Q fuel s (body Q obeys l)
      | Read k => advance Q fuel s (k s)
      | Cas c from to k =>
          let s' := if s =? from then to else s in
          if cas_check c from to then advance Q fuel s' (k s) else (s', Fail)
      | Act _ p => advance Q fuel s p
      end
  end.

Definition at_choice (r : Z * prog) : bool :=
  match r with
  | (s, Done _) => negb (locked s)
  | (_, Choose _) => true
  | _ => false
  end.

(** 60 instructions are enough from any label: the longest run disables, reclaims
    and disconnects, and then looks for more messages. *)
Definition label_returns (Q : ismQueueType_t) (ops : operations) (fuel : nat) (l : label) : bool :=
  forallb (fun s => negb (owns (pre obeys ops l) || negb (locked s))
                    || (returned (run Q obeys fuel [] s (Goto l)) && at_choice (advance Q fuel s (Goto l))))
    (seen (pre obeys ops l)).

Lemma dump_loop_returns Q ops x : mem x words = true -> label_returns Q ops 60 (lockForDump_loop x) = true.
Proof.
  apply (dump_words (fun x => label_returns Q ops 60 (lockForDump_loop x))).
  destruct ops, Q; vm_compute; reflexivity.
Qed.

Lemma labels_return Q ops l : legal ops l = true -> label_returns Q ops 60 l = true.
Proof.
  intros Hl. by_label l;
    match goal with
    | |- context [lockForDump_loop] => simpl in Hl; apply andb_true_iff in Hl as [_ Hm]; by apply dump_loop_returns
    | _ => destruct ops; try discriminate Hl; destruct Q; vm_compute; reflexivity
    end.
Qed.

Lemma label_returned Q ops fuel l s :
  label_returns Q ops fuel l = true -> In s (seen (pre obeys ops l)) ->
  owns (pre obeys ops l) = true \/ locked s = false ->
  returned (run Q obeys fuel [] s (Goto l)) = true /\ at_choice (advance Q fuel s (Goto l)) = true.
Proof.
  unfold label_returns. rewrite forallb_forall. intros Hr Hs Ho. specialize (Hr s Hs).
  apply orb_true_iff in Hr as [Hr|Hr]; [|by apply andb_true_iff in Hr].
  apply negb_true_iff, orb_false_iff in Hr as [Hr1 Hr2]. apply negb_false_iff in Hr2. destruct Ho; congruence.
Qed.

Section Progress.
Context (Q : ismQueueType_t) (ops : operations).

(** A program that passes the check, and either owns the lock or finds it free. *)
Record able (s : Z) (p : prog) (g : ghost) : Prop := {
  ab_ok : okb obeys ops g p = true;
  ab_word : In s words;
  ab_fits : fits ops s g;
  ab_free : owns g = true \/ locked s = false
}.

Lemma moves_owns s s' es g g' :
  moves ops s s' es g g' -> owns g = true \/ locked s = false -> owns g' = true \/ locked s' = false.
Proof.
  intros Hm Hown. assert (owns g' = locked s') as ->; [|destruct (locked s'); auto].
  destruct (own g) eqn:E.
  - apply (mv_keep _ _ _ _ _ _ Hm). unfold owns. by rewrite E.
  - apply (mv_take _ _ _ _ _ _ Hm); [done|]. destruct Hown as [Ho|]; [|done]. unfold owns in Ho. by rewrite E in Ho.
Qed.

Lemma able_moves s s' es g g' p p' :
  able s p g -> okb obeys ops g' p' = true -> moves ops s s' es g g' -> able s' p' g'.
Proof.
  intros [_ Hw Hf Ho] Hok Hm.
  by constructor; [|exact (mv_word _ _ _ _ _ _ Hm)|exact (mv_fits _ _ _ _ _ _ Hm)|eapply moves_owns].
Qed.

Lemma able_instr s p s' es p' g : instr Q obeys s p s' es p' -> able s p g -> exists g', able s' p' g'.
Proof.
  intros Hi Hab. pose proof Hab as [Hok Hw Hf _].
  destruct (instr_moves obeys ops Q s p s' es p' g Hi Hok Hw Hf) as (g' & Hok' & Hm).
  exists g'. by eapply able_moves.
Qed.

(** The word after a compare-and-swap, and the instruction it was. *)
Lemma able_cas s c from to k g :
  able s (Cas c from to k) g ->
  cas_check c from to = true /\ exists g', able (if s =? from then to else s) (k s) g'.
Proof.
  intros Hab. assert (Hc : cas_check c from to = true).
  { destruct Hab as [Hok _ _ _]. simpl in Hok. by apply andb_true_iff in Hok as [? _]. }
  split; [done|]. destruct (Z.eqb_spec s from) as [->|Hne]; eapply able_instr; eauto; by constructor.
Qed.

(** *** Up to the next choice *)

Lemma able_advance fuel s p g :
  able s p g -> let '(s', p') := advance Q fuel s p in exists g', able s' p' g'.
Proof.
  revert s p g. induction fuel as [|fuel IH]; intros s p g Hab; cbn [advance]; [by exists g|].
  destruct p as [rc|l|k|c from to k|e p|k|]; try (by exists g).
  - destruct (able_instr s _ _ _ _ g (instr_goto Q obeys s l) Hab) as [g' Hg]. by eapply IH.
  - destruct (able_instr s _ _ _ _ g (instr_read Q obeys s k) Hab) as [g' Hg]. by eapply IH.
  - destruct (able_cas s c from to k g Hab) as [-> [g' Hg]]. by eapply IH.
  - destruct (able_instr s _ _ _ _ g (instr_act Q obeys s e p) Hab) as [g' Hg]. by eapply IH.
Qed.

Lemma able_goto s l g :
  able s (Goto l) g ->
  returned (run Q obeys 60 [] s (Goto l)) = true /\ at_choice (advance Q 60 s (Goto l)) = true.
Proof.
  intros [Hok Hw Hf Hown]. simpl in Hok. apply andb_true_iff in Hok as [Hl Hs].
  pose proof (sub_moves ops s g (pre obeys ops l) Hw Hf Hs (pre_stable obeys ops l)) as Hm.
  apply (label_returned Q ops); [by apply labels_return| |by eapply moves_owns].
  exact (fits_seen ops s (pre obeys ops l) Hw (mv_fits _ _ _ _ _ _ Hm)).
Qed.

Lemma able_done s rc g : able s (Done rc) g -> locked s = false.
Proof.
  intros [Hok _ _ Ho]. apply finished_idle in Hok as [Hn _]; [|by exists rc].
  destruct Ho as [Hc|]; [|done]. unfold owns in Hc. by rewrite Hn in Hc.
Qed.

Lemma able_at_choice p : forall s g, able s p g -> exists fuel, at_choice (advance Q fuel s p) = true.
Proof.
  induction p as [rc|l|k IH|c from to k IH|e p IH|k IH|]; intros s g Hab.
  - exists 0%nat. simpl. by rewrite (able_done s rc g Hab).
  - exists 60%nat. by apply (able_goto s l g).
  - destruct (able_instr s _ _ _ _ g (instr_read Q obeys s k) Hab) as [g' Hg].
    destruct (IH s s g' Hg) as [n Hn]. by exists (S n).
  - destruct (able_cas s c from to k g Hab) as [Hc [g' Hg]].
    destruct (IH s _ g' Hg) as [n Hn]. exists (S n). cbn [advance]. by rewrite Hc.
  - destruct (able_instr s _ _ _ _ g (instr_act Q obeys s e p) Hab) as [g' Hg].
    destruct (IH s g' Hg) as [n Hn]. by exists (S n).
  - by exists 0%nat.
  - by destruct Hab.
Qed.

(** A run up to a choice goes on with what is chosen. *)
Lemma run_advance fuel n ch s p :
  returned (let '(s', p') := advance Q fuel s p in run Q obeys n ch s' p') = true ->
  exists m, returned (run Q obeys m ch s p) = true.
Proof.
  revert s p. induction fuel as [|fuel IH]; intros s p Hr; cbn [advance] in Hr; [by exists n|].
  destruct p as [rc|l|k|c from to k|e p|k|]; try (by exists n).
  - destruct (IH _ _ Hr) as [m Hm]. by exists (S m).
  - destruct (IH _ _ Hr) as [m Hm]. by exists (S m).
  - destruct (cas_check c from to) eqn:Hc.
    + destruct (IH _ _ Hr) as [m Hm]. exists (S m). cbn [run]. by rewrite Hc.
    + by destruct n.
  - destruct (IH _ _ Hr) as [m Hm]. exists (S m). cbn [run]. by destruct (run Q obeys m ch s p) as [[s' es] q].
Qed.

(** *** Returning *)

(** When nothing is left to choose. *)
Lemma returns_nil p : forall s g, able s p g -> exists fuel, returned (run Q obeys fuel [] s p) = true.
Proof.
  induction p as [rc|l|k IH|c from to k IH|e p IH|k IH|]; intros s g Hab.
  - exists 0%nat. simpl. by rewrite (able_done s rc g Hab).
  - exists 60%nat. by apply (able_goto s l g).
  - destruct (able_instr s _ _ _ _ g (instr_read Q obeys s k) Hab) as [g' Hg].
    destruct (IH s s g' Hg) as [n Hn]. by exists (S n).
  - destruct (able_cas s c from to k g Hab) as [Hc [g' Hg]].
    destruct (IH s _ g' Hg) as [n Hn]. exists (S n). cbn [run]. by rewrite Hc.
  - destruct (able_instr s _ _ _ _ g (instr_act Q obeys s e p) Hab) as [g' Hg].
    destruct (IH s g' Hg) as [n Hn]. exists (S n). cbn [run]. by destruct (run Q obeys n [] s p) as [[s' es] q].
  - destruct (able_instr s _ _ _ _ g (instr_choose Q obeys s k false) Hab) as [g' Hg].
    destruct (IH false s g' Hg) as [n Hn]. by exists (S n).
  - by destruct Hab.
Qed.

(** Whatever is chosen. *)
Lemma returns_any ch : forall s p g, able s p g -> exists fuel, returned (run Q obeys fuel ch s p) = true.
Proof.
  induction ch as [|b ch IH]; intros s p g Hab; [by eapply returns_nil|].
  destruct (able_at_choice p s g Hab) as [fuel Hf]. pose proof (able_advance fuel s p g Hab) as Ha.
  assert (Hn : exists n, returned (let '(s', p') := advance Q fuel s p in run Q obeys n (b :: ch) s' p') = true).
  { destruct (advance Q fuel s p) as [s' p']. destruct Ha as [g' Hg]. destruct p' as [rc| | | | |k|]; try done.
    - by exists 0%nat.
    - destruct (able_instr s' _ _ _ _ g' (instr_choose Q obeys s' k b) Hg) as [h Hh].
      destruct (IH s' (k b) h Hh) as [n Hn]. by exists (S n). }
  destruct Hn as [n Hn]. by apply (run_advance fuel n).
Qed.

Lemma returned_inv r : returned r = true -> exists s es rc, r = (s, es, Done rc) /\ locked s = false.
Proof. destruct r as [[s es] []]; try done. intros ?%negb_true_iff. by exists s, es, rc. Qed.

Lemma owner_thread m gs :
  annotated obeys ops m gs -> locked (status m) = true ->
  exists i g p, gs !! i = Some g /\ threads m !! i = Some p /\ owns g = true.
Proof.
  intros Han Hl. pose proof (an_owners _ _ _ _ Han) as Ho. rewrite Hl in Ho. unfold owners in Ho.
  destruct (filter (fun g => owns g = true) gs) as [|g rest] eqn:E; [done|].
  assert (g ∈ filter (fun g => owns g = true) gs) as Hin by (rewrite E; apply list_elem_of_here).
  apply list_elem_of_filter in Hin as [Hg [i Hi]%list_elem_of_lookup].
  destruct (Forall2_lookup_l _ _ _ _ _ (an_ok _ _ _ _ Han) Hi) as (p & Hp & _). by exists i, g, p.
Qed.

Lemma thread_able m gs i p g :
  annotated obeys ops m gs -> threads m !! i = Some p -> gs !! i = Some g ->
  owns g = true \/ locked (status m) = false -> able (status m) p g.
Proof.
  intros Han Hp Hg Ho. destruct (thread_ghost obeys ops m gs i p Han Hp) as (g' & Hg' & Hok & Hfit). simplify_eq.
  constructor; auto. exact (an_word _ _ _ _ Han).
Qed.
End Progress.

(** A thread whose run alone ends, whatever is chosen, with the waiter unlocked. *)
Definition returns_alone (Q : ismQueueType_t) (s : Z) (p : prog) : Prop :=
  forall ch, exists fuel s' es rc, run Q obeys fuel ch s p = (s', es, Done rc) /\ locked s' = false.

(** C10. The lock is never lost, in any interleaving of the operations, for an
    application that keeps the callback's contract.  When the waiter is locked, one
    of the threads, run alone, returns and leaves it unlocked; when it is not, every
    thread, run alone, returns and leaves it unlocked.  This is for every finite
    list of outcomes of the decisions that the data make (messages there or not,
    answers of the callback, time left), decisions after the list going the way that
    ends the work.  The callback is taken to call nothing but the suspend: an
    operation that it calls itself runs on the owner's stack, and one that waits for
    the owner then waits for ever. *)
Theorem waiter_lock_not_lost Q ops m :
  reachable Q obeys ops m ->
  (locked (status m) = true -> exists i p, threads m !! i = Some p /\ returns_alone Q (status m) p) /\
  (locked (status m) = false -> forall i p, threads m !! i = Some p -> returns_alone Q (status m) p).
Proof.
  intros [gs Han]%Inv_reachable. split; intros Hl.
  - destruct (owner_thread ops m gs Han Hl) as (i & g & p & Hg & Hp & Ho). exists i, p. split; [done|]. intros ch.
    destruct (returns_any Q ops ch (status m) p g) as [fuel Hr]; [by eapply thread_able; eauto|].
    exists fuel. by apply returned_inv.
  - intros i p Hp ch. destruct (thread_ghost obeys ops m gs i p Han Hp) as (g & Hg & _).
    destruct (returns_any Q ops ch (status m) p g) as [fuel Hr]; [by eapply thread_able; eauto|].
    exists fuel. by apply returned_inv.
Qed.

Lemma waiter_lock_not_lost_witness :
  (locked (status demo_delivering) = true ->
   exists i p, threads demo_delivering !! i = Some p /\ returns_alone simple (status demo_delivering) p) /\
  (locked (status demo_delivering) = false ->
   forall i p, threads demo_delivering !! i = Some p -> returns_alone simple (status demo_delivering) p).
Proof. apply (waiter_lock_not_lost simple usual), schedule_reachable. Defined.
