(* ===== verification/Utf8.v ===== *)
(** * UTF-8

    The validation, the restricted validation and the repair of UTF-8 strings in
    server_utils/src/global.c.  The loops over [sp < endp] recurse on the bytes that
    are left; a byte of the fast loop in single byte mode is a round of the outer
    loop in state 0. *)

From S2P Require Import Prelude.

(** ** Model *)

Definition States : list Z :=
  [0; 0; 0; 0; 0; 0; 0; 0; 0; 0; 0; 0; 0; 0; 0; 0;
   1; 1; 1; 1; 1; 1; 1; 1; 2; 2; 2; 2; 3; 3; 4; 1].

Definition StateMask : list Z := [0; 0; 0x1F; 0x0F; 0x07].

(** [States[c >> 3]] and [c & StateMask[state]] *)
Definition start_state (c : Z) : Z := nth (Z.to_nat (Z.shiftr c 3)) States 0.
Definition start_bits (c : Z) : Z := Z.land c (nth (Z.to_nat (start_state c)) StateMask 0).

Definition validSecond (state byte1 byte2 : Z) : bool :=
  if (byte2 <? 0x80) || (byte2 >? 0xbf) then false
  else if state =? 2 then negb (byte1 <? 2)
  else if state =? 3 then
    negb ((byte1 =? 0) && (byte2 <? 0xa0) || (byte1 =? 13) && (byte2 >? 0x9f))
  else if state =? 4 then
    if (byte1 =? 0) && (byte2 <? 0x90) then false
    else if (byte1 =? 4) && (byte2 >? 0x8f) then false
    else negb (byte1 >? 4)
  else true.

(** The test of a byte that follows the first. *)
Definition bad_next (inputsize state byte1 byte2 : Z) : bool :=
  (inputsize =? 1) && negb (validSecond state byte1 byte2)
  || (inputsize >? 1) && ((byte2 <? 0x80) || (byte2 >? 0xbf)).

Fixpoint valid_loop (sp : list Z) (state byte1 count inputsize : Z) : Z :=
  match sp with
  | [] => if state =? 0 then count else -1
  | c :: sp =>
      if state =? 0 then
        if c <? 0x80 then valid_loop sp 0 byte1 (count + 1) inputsize
        else if start_state c =? 1 then -1
        else valid_loop sp (start_state c) (start_bits c) (count + 1) 1
      else if bad_next inputsize state byte1 c then -1
      else if inputsize + 1 >=? state then valid_loop sp 0 byte1 count inputsize
      else valid_loop sp state byte1 count (inputsize + 1)
  end.

(** The bytes from [s] to [s + len]. *)
Definition span (s : list Z) (len : Z) : outcome (list Z) :=
  if len <=? Z.of_nat (length s) then Ret (take (Z.to_nat len) s) else Crash.

Definition ism_common_validUTF8 (s : list Z) (len : Z) : outcome Z :=
  sp ← span s len; Ret (valid_loop sp 0 0 0 0).

(** The restrictions (enum of server_utils/include/ismutil.h). *)
Definition UR_NoNull : Z := 0x1.
Definition UR_NoC0Line : Z := 0x2.
Definition UR_NoC0Other : Z := 0x4.
Definition UR_NoC1 : Z := 0x8.
Definition UR_NoControl : Z := 0xF.
Definition UR_NoNonchar : Z := 0x10.
Definition UR_NoPlus : Z := 0x20.
Definition UR_NoHash : Z := 0x40.
Definition UR_NoWildcard : Z := 0x60.
Definition UR_NoSpace : Z := 0x80.
Definition UR_NoSlash : Z := 0x100.

(** [notallowed & flag] *)
Definition has (notallowed flag : Z) : bool := negb (Z.land notallowed flag =? 0).

(** The [switch] of [ism_common_validUTF8Restrict] on a character up to ['/']: the
    code that is returned, or 0. *)
Definition restrict_ascii (notallowed c : Z) : Z :=
  if c =? 0x20 then if has notallowed UR_NoSpace then -7 else 0
  else if existsb (Z.eqb c) [0x21; 0x22; 0x24; 0x25; 0x26; 0x27; 0x28; 0x29; 0x2A; 0x2C; 0x2D; 0x2E] then 0
  else if existsb (Z.eqb c) [0x0A; 0x0D; 0x09] then if has notallowed UR_NoC0Line then -2 else 0
  else if c =? 0 then if has notallowed UR_NoNull then -1 else 0
  else if c =? 0x2B then if has notallowed UR_NoPlus then -6 else 0
  else if c =? 0x23 then if has notallowed UR_NoHash then -6 else 0
  else if c =? 0x2F then if has notallowed UR_NoSlash then -8 else 0
  else if has notallowed UR_NoC0Other then -2 else 0.

(** The tests of a complete code point of more than one byte. *)
Definition is_nonchar (codept : Z) : bool :=
  (codept >=? 0xfdd0) &&
  (if codept <? 0xfffe then (codept >=? 0xfdd0) && (codept <=? 0xfdef)
   else (Z.land codept 0xffff =? 0xfffe) || (Z.land codept 0xffff =? 0xffff)).

Definition restrict_multi (notallowed codept : Z) : Z :=
  if (codept <? 0xa0) && has notallowed UR_NoC1 then -3
  else if has notallowed UR_NoNonchar && is_nonchar codept then -4
  else 0.

Definition next_codept (codept byte2 : Z) : Z := Z.lor (Z.shiftl codept 6) (Z.land byte2 0x3f).

Fixpoint restrict_loop (notallowed : Z) (sp : list Z) (state byte1 codept count inputsize : Z) : Z :=
  match sp with
  | [] => if state =? 0 then count else -5
  | c :: sp =>
      if state =? 0 then
        if c <? 0x80 then
          let rc := if c <=? 0x2F then restrict_ascii notallowed c else 0 in
          if rc =? 0 then restrict_loop notallowed sp 0 byte1 codept (count + 1) inputsize else rc
        else if start_state c =? 1 then -5
        else restrict_loop notallowed sp (start_state c) (start_bits c) (start_bits c) (count + 1) 1
      else if bad_next inputsize state byte1 c then -1
      else
        let codept := next_codept codept c in
        if inputsize + 1 >=? state then
          let rc := restrict_multi notallowed codept in
          if rc =? 0 then restrict_loop notallowed sp 0 byte1 codept count inputsize else rc
        else restrict_loop notallowed sp state byte1 codept count (inputsize + 1)
  end.

Definition ism_common_validUTF8Restrict (s : list Z) (len notallowed : Z) : outcome Z :=
  let len := if len <? 0 then Z.of_nat (length (until_nul s)) else len in
  sp ← span s len; Ret (restrict_loop notallowed sp 0 0 0 0 0).

(** The bytes that [putUTF8Char] stores. *)
Definition putUTF8Char (c : Z) : list Z :=
  if c <=? 0x7F then [u8 c]
  else if c >? 0x7FF then
    if c >=? 0x10000 then
      [u8 (Z.lor 0xF0 (Z.land (Z.shiftr c 18) 0x07)); u8 (Z.lor 0x80 (Z.land (Z.shiftr c 12) 0x3F));
       u8 (Z.lor 0x80 (Z.land (Z.shiftr c 6) 0x3F)); u8 (Z.lor 0x80 (Z.land c 0x3F))]
    else
      [u8 (Z.lor 0xE0 (Z.land (Z.shiftr c 12) 0x0F)); u8 (Z.lor 0x80 (Z.land (Z.shiftr c 6) 0x3F));
       u8 (Z.lor 0x80 (Z.land c 0x3F))]
  else [u8 (Z.lor 0xC0 (Z.land (Z.shiftr c 6) 0x1F)); u8 (Z.lor 0x80 (Z.land c 0x3F))].

(** The repair: [out] is what has been written; the terminating null is not part of
    the result.  A replacement of 0 leaves characters out. *)
Definition put_unless0 (c : Z) (out : list Z) : list Z := if c =? 0 then out else out ++ putUTF8Char c.

Definition replace_ascii (notallowed repl c : Z) : Z :=
  if existsb (Z.eqb c) [0x20; 0x21; 0x22; 0x24; 0x25; 0x26; 0x27; 0x28; 0x29; 0x2A] then c
  else if existsb (Z.eqb c) [0x0A; 0x0D; 0x09] then if has notallowed UR_NoC0Line then repl else c
  else if c =? 0 then if has notallowed UR_NoNull then repl else c
  else if (c =? 0x2B) || (c =? 0x23) then if has notallowed UR_NoWildcard then repl else c
  else if has notallowed UR_NoC0Other then repl else c.

(** What is written for a complete code point.  [codept &= 0xffff] stays. *)
Definition replace_multi (notallowed repl codept : Z) : Z :=
  let codept := if (codept <? 0xa0) && has notallowed UR_NoC1 then repl else codept in
  if (codept >=? 0xfdd0) && has notallowed UR_NoNonchar then
    if codept <? 0xfffe then
      if (codept >=? 0xfdd0) && (codept <=? 0xfdef) then repl else codept
    else
      let codept := Z.land codept 0xffff in
      if (codept =? 0xfffe) || (codept =? 0xffff) then repl else codept
  else codept.

Fixpoint replace_loop (notallowed repl : Z) (sp : list Z) (state byte1 codept inputsize : Z)
    (out : list Z) : list Z :=
  match sp with
  | [] =>
      let out := if state =? 0 then out else put_unless0 repl out in
      match out with [] => putUTF8Char (if repl =? 0 then 0x3F else repl) | _ => out end
  | c :: sp =>
      if state =? 0 then
        if c <? 0x80 then
          let out := if c <=? 0x2B then put_unless0 (replace_ascii notallowed repl c) out else out ++ [c] in
          replace_loop notallowed repl sp 0 byte1 codept inputsize out
        else
          let '(state, out) :=
            if start_state c =? 1 then (0, put_unless0 repl out) else (start_state c, out) in
          replace_loop notallowed repl sp state (start_bits c) (start_bits c) 1 out
      else if bad_next inputsize state byte1 c then
        replace_loop notallowed repl sp 0 byte1 codept inputsize (put_unless0 repl out)
      else
        let codept := next_codept codept c in
        if inputsize + 1 >=? state then
          let codept := replace_multi notallowed repl codept in
          replace_loop notallowed repl sp 0 byte1 codept inputsize (put_unless0 codept out)
        else replace_loop notallowed repl sp state byte1 codept (inputsize + 1) out
  end.

(** Returns the string written to [outc]; its length is the result of the function.
    [repl] is a [uint32_t] that is converted to [int] wherever its value is used. *)
Definition ism_common_validUTF8Replace (s : list Z) (len notallowed repl : Z) : outcome (list Z) :=
  sp ← span s len; Ret (replace_loop notallowed (i32 repl) sp 0 0 0 0 []).
