(* ===== verification/Utf8Correct.v ===== *)
(** * UTF-8: correctness

    The validation accepts exactly the encodings of sequences of Unicode scalar
    values that the restrictions allow; the repair changes supplementary
    characters. *)

From S2P Require Import Prelude Utf8.

(** ** Specification *)

(** Unicode scalar values. *)
Definition scalar (c : Z) : Prop := 0 <= c < 0xD800 \/ 0xE000 <= c < 0x110000.

#[global] Instance scalar_dec c : Decision (scalar c).
Proof. unfold scalar; apply _. Defined.

Definition encode (cs : list Z) : list Z := concat (map putUTF8Char cs).

(** The characters that the restrictions are meant to forbid. *)
Definition forbidden (notallowed c : Z) : bool :=
  has notallowed UR_NoNull && (c =? 0)
  || has notallowed UR_NoC0Line && ((c =? 0x09) || (c =? 0x0A) || (c =? 0x0D))
  || has notallowed UR_NoC0Other && ((0 <? c) && (c <? 0x20) && negb ((c =? 0x09) || (c =? 0x0A) || (c =? 0x0D)))
  || has notallowed UR_NoC1 && ((0x80 <=? c) && (c <? 0xA0))
  || has notallowed UR_NoNonchar
     && ((0xFDD0 <=? c) && (c <=? 0xFDEF) || (c mod 0x10000 =? 0xFFFE) || (c mod 0x10000 =? 0xFFFF))
  || has notallowed UR_NoPlus && (c =? 0x2B)
  || has notallowed UR_NoHash && (c =? 0x23)
  || has notallowed UR_NoSpace && (c =? 0x20)
  || has notallowed UR_NoSlash && (c =? 0x2F).

(** ** Encodings as numbers *)

Lemma lor_low k h l : 0 <= k -> 0 <= l < 2 ^ k -> Z.lor (h * 2 ^ k) l = h * 2 ^ k + l.
Proof. intros. rewrite <-lor_shiftl, Z.shiftl_mul_pow2 by done. done. Qed.

Lemma cont_byte x : u8 (Z.lor 0x80 (Z.land x 0x3F)) = 0x80 + x mod 64.
Proof.
  change 0x3F with (Z.ones 6). rewrite Z.land_ones by lia. pose proof (Z.mod_pos_bound x (2 ^ 6) ltac:(lia)).
  change 0x80 with (2 * 2 ^ 6) at 1. rewrite lor_low by lia. rewrite wrapu_small by lia. done.
Qed.

Lemma lead_byte h k x : 0 <= k -> 0 <= x < 2 ^ k -> 0 <= h * 2 ^ k -> h * 2 ^ k + 2 ^ k <= 256 ->
  u8 (Z.lor (h * 2 ^ k) (Z.land x (Z.ones k))) = h * 2 ^ k + x.
Proof.
  intros Hk Hx H0 H1. rewrite Z.land_ones, Z.mod_small, lor_low by lia. apply wrapu_small. lia.
Qed.

Lemma enc2 c : 0x80 <= c < 0x800 -> putUTF8Char c = [0xC0 + c / 64; 0x80 + c mod 64].
Proof.
  intros Hc. unfold putUTF8Char. destruct (Z.leb_spec c 0x7F); [lia|]. destruct (Z.gtb_spec c 0x7FF); [lia|].
  rewrite cont_byte, Z.shiftr_div_pow2 by lia. change (2 ^ 6) with 64. f_equal.
  apply (lead_byte 6 5); try lia. split; [apply Z.div_pos; lia|apply Z.div_lt_upper_bound; lia].
Qed.

Lemma enc3 c : 0x800 <= c < 0x10000 ->
  putUTF8Char c = [0xE0 + c / 4096; 0x80 + (c / 64) mod 64; 0x80 + c mod 64].
Proof.
  intros Hc. unfold putUTF8Char. destruct (Z.leb_spec c 0x7F); [lia|]. destruct (Z.gtb_spec c 0x7FF); [|lia].
  destruct (Z.geb_spec c 0x10000); [lia|].
  rewrite !cont_byte, !Z.shiftr_div_pow2 by lia. change (2 ^ 6) with 64. change (2 ^ 12) with 4096. f_equal.
  apply (lead_byte 14 4); try lia. split; [apply Z.div_pos; lia|apply Z.div_lt_upper_bound; lia].
Qed.

Lemma enc4 c : 0x10000 <= c < 0x110000 ->
  putUTF8Char c = [0xF0 + c / 262144; 0x80 + (c / 4096) mod 64; 0x80 + (c / 64) mod 64; 0x80 + c mod 64].
Proof.
  intros Hc. unfold putUTF8Char. destruct (Z.leb_spec c 0x7F); [lia|]. destruct (Z.gtb_spec c 0x7FF); [|lia].
  destruct (Z.geb_spec c 0x10000); [|lia].
  rewrite !cont_byte, !Z.shiftr_div_pow2 by lia. change (2 ^ 6) with 64. change (2 ^ 12) with 4096.
  change (2 ^ 18) with 262144. f_equal.
  apply (lead_byte 30 3); try lia. split; [apply Z.div_pos; lia|apply Z.div_lt_upper_bound; lia].
Qed.

(** The same, from the bits of the code point. *)
Lemma digit64 a y : 0 <= y < 64 -> (a * 64 + y) / 64 = a /\ (a * 64 + y) mod 64 = y.
Proof.
  intros Hy. split; [rewrite Z.div_add_l, Z.div_small by lia; lia|].
  rewrite Z.add_comm, Z.mod_add, Z.mod_small by lia. lia.
Qed.

Lemma enc2_bits x y : 2 <= x < 32 -> 0 <= y < 64 -> putUTF8Char (x * 64 + y) = [0xC0 + x; 0x80 + y].
Proof. intros Hx Hy. rewrite enc2 by lia. by destruct (digit64 x y Hy) as [-> ->]. Qed.

Lemma enc3_bits x y z : 0 <= x < 16 -> 0 <= y < 64 -> 0 <= z < 64 -> 0x20 <= x * 64 + y ->
  putUTF8Char ((x * 64 + y) * 64 + z) = [0xE0 + x; 0x80 + y; 0x80 + z].
Proof.
  intros Hx Hy Hz H. rewrite enc3 by lia. change 4096 with (64 * 64). rewrite <-Z.div_div by lia.
  destruct (digit64 (x * 64 + y) z Hz) as [-> ->]. by destruct (digit64 x y Hy) as [-> ->].
Qed.

Lemma enc4_bits x y z w : 0 <= y < 64 -> 0 <= z < 64 -> 0 <= w < 64 -> 0x10 <= x * 64 + y < 0x110 ->
  putUTF8Char (((x * 64 + y) * 64 + z) * 64 + w) = [0xF0 + x; 0x80 + y; 0x80 + z; 0x80 + w].
Proof.
  intros Hy Hz Hw H. rewrite enc4 by lia. change 4096 with (64 * 64). change 262144 with (64 * 64 * 64).
  rewrite <-!Z.div_div by lia. destruct (digit64 ((x * 64 + y) * 64 + z) w Hw) as [-> ->].
  destruct (digit64 (x * 64 + y) z Hz) as [-> ->]. by destruct (digit64 x y Hy) as [-> ->].
Qed.

(** ** First and further bytes *)

Lemma start_spec c : is_byte c -> 0x80 <= c ->
  (start_state c = 1 /\ (c < 0xC0 \/ 0xF8 <= c))
  \/ (start_state c = 2 /\ 0xC0 <= c < 0xE0 /\ start_bits c = c - 0xC0)
  \/ (start_state c = 3 /\ 0xE0 <= c < 0xF0 /\ start_bits c = c - 0xE0)
  \/ (start_state c = 4 /\ 0xF0 <= c < 0xF8 /\ start_bits c = c - 0xF0).
Proof.
  intros Hb Hc. set (P := fun c => (c <? 0x80) ||
    ((start_state c =? 1) && ((c <? 0xC0) || (0xF8 <=? c))
     || (start_state c =? 2) && (0xC0 <=? c) && (c <? 0xE0) && (start_bits c =? c - 0xC0)
     || (start_state c =? 3) && (0xE0 <=? c) && (c <? 0xF0) && (start_bits c =? c - 0xE0)
     || (start_state c =? 4) && (0xF0 <=? c) && (c <? 0xF8) && (start_bits c =? c - 0xF0))).
  assert (P c = true) as H by (apply byte_cases; [vm_compute; reflexivity|done]). subst P. cbv beta in H. lia.
Qed.

Lemma next_codept_val a y : 0 <= y < 64 -> next_codept a (0x80 + y) = a * 64 + y.
Proof.
  intros Hy. unfold next_codept. change 0x3f with (Z.ones 6). rewrite Z.land_ones by lia.
  change (2 ^ 6) with 64. replace (0x80 + y) with (y + 2 * 64) by lia.
  rewrite Z.mod_add, Z.mod_small, lor_shiftl by lia. done.
Qed.

Lemma bad_next_1 state b1 c : bad_next 1 state b1 c = negb (validSecond state b1 c).
Proof. unfold bad_next. simpl. apply orb_false_r. Qed.

Lemma bad_next_more i state b1 c : 1 < i -> bad_next i state b1 c = (c <? 0x80) || (c >? 0xbf).
Proof.
  intros Hi. unfold bad_next. destruct (Z.eqb_spec i 1); [lia|]. destruct (Z.gtb_spec i 1); [done|lia].
Qed.

(** ** The restricted validation *)

Definition restrict0 (f : Z) (sp : list Z) (count : Z) : Z := restrict_loop f sp 0 0 0 count 0.

Lemma restrict_state0 f sp b cp count i : restrict_loop f sp 0 b cp count i = restrict0 f sp count.
Proof.
  unfold restrict0. revert b cp count i. induction sp as [|c sp IH]; intros b cp count i; [done|].
  cbn [restrict_loop]. simpl (0 =? 0). cbv iota. destruct (c <? 0x80); [|done].
  destruct ((if c <=? 0x2F then _ else 0) =? 0); [|done]. by rewrite !IH.
Qed.

(** One further byte of a character. *)
Lemma restrict_next f state b cp count i y sp :
  state <> 0 -> bad_next i state b (0x80 + y) = false -> 0 <= y < 64 ->
  restrict_loop f ((0x80 + y) :: sp) state b cp count i
  = if i + 1 >=? state then
      if restrict_multi f (cp * 64 + y) =? 0 then restrict0 f sp count else restrict_multi f (cp * 64 + y)
    else restrict_loop f sp state b (cp * 64 + y) count (i + 1).
Proof.
  intros Hs Hb Hy. cbn [restrict_loop]. destruct (Z.eqb_spec state 0); [done|].
  rewrite Hb, next_codept_val by done. by rewrite restrict_state0.
Qed.

Lemma restrict_start f c count sp n :
  0 <= n -> is_byte c -> start_state c = n -> n <> 1 -> 0x80 <= c ->
  restrict0 f (c :: sp) count = restrict_loop f sp n (start_bits c) (start_bits c) (count + 1) 1.
Proof.
  intros H0 Hb Hs Hn Hc. unfold restrict0. cbn [restrict_loop]. simpl (0 =? 0). cbv iota.
  destruct (Z.ltb_spec c 0x80); [lia|]. rewrite Hs. by destruct (Z.eqb_spec n 1).
Qed.

Lemma not_bad_more i state b y : 1 < i -> 0 <= y < 64 -> bad_next i state b (0x80 + y) = false.
Proof.
  intros Hi Hy. rewrite bad_next_more by done.
  destruct (Z.ltb_spec (0x80 + y) 0x80); [lia|]. destruct (Z.gtb_spec (0x80 + y) 0xbf); [lia|done].
Qed.

Lemma valid_second_spec n b y : 0 <= y < 64 -> 0 <= b ->
  validSecond n b (0x80 + y)
  = match n with
    | 2 => 2 <=? b
    | 3 => negb ((b =? 0) && (y <? 0x20) || (b =? 13) && (0x1f <? y))
    | 4 => (0x10 <=? b * 64 + y) && (b * 64 + y <? 0x110)
    | _ => true
    end.
Proof.
  intros Hy Hb. unfold validSecond.
  destruct (Z.ltb_spec (0x80 + y) 0x80); [lia|]. destruct (Z.gtb_spec (0x80 + y) 0xbf); [lia|]. simpl orb. cbv iota.
  destruct (Z.eqb_spec n 2) as [->|]; [|destruct (Z.eqb_spec n 3) as [->|]; [|destruct (Z.eqb_spec n 4) as [->|]]].
  - lia.
  - lia.
  - destruct ((b =? 0) && (0x80 + y <? 0x90)) eqn:E1; [lia|].
    destruct ((b =? 4) && (0x80 + y >? 0x8f)) eqn:E2; lia.
  - destruct n as [|[[[]|[]|]|[[]|[]|]|]|]; done || lia.
Qed.

(** What follows a character. *)
Definition after_char (f c : Z) (sp : list Z) (count : Z) : Z :=
  if restrict_multi f c =? 0 then restrict0 f sp (count + 1) else restrict_multi f c.

Ltac second_ok := rewrite bad_next_1, valid_second_spec; [apply negb_false_iff; lia|lia..].

Lemma char2 f x y sp count : 2 <= x < 32 -> 0 <= y < 64 ->
  restrict0 f (0xC0 + x :: 0x80 + y :: sp) count = after_char f (x * 64 + y) sp count.
Proof.
  intros Hx Hy. destruct (start_spec (0xC0 + x)) as [|[(Es & _ & Eb)|[|]]]; try (unfold is_byte; lia).
  rewrite (restrict_start f _ _ _ 2), Eb, restrict_next by (done || lia || (try unfold is_byte; lia) || second_ok).
  by replace (0xC0 + x - 0xC0) with x by lia.
Qed.

Lemma char3 f x y z sp count :
  0 <= x < 16 -> 0 <= y < 64 -> 0 <= z < 64 -> (x = 0 -> 0x20 <= y) -> (x = 13 -> y < 0x20) ->
  restrict0 f (0xE0 + x :: 0x80 + y :: 0x80 + z :: sp) count = after_char f ((x * 64 + y) * 64 + z) sp count.
Proof.
  intros Hx Hy Hz H1 H2. destruct (start_spec (0xE0 + x)) as [|[|[(Es & _ & Eb)|]]]; try (unfold is_byte; lia).
  rewrite (restrict_start f _ _ _ 3), Eb, restrict_next by (done || lia || (try unfold is_byte; lia) || second_ok).
  simpl (_ >=? _). cbv iota. rewrite restrict_next by (done || (apply not_bad_more; lia)).
  by replace (0xE0 + x - 0xE0) with x by lia.
Qed.

Lemma char4 f x y z w sp count :
  0 <= x < 8 -> 0 <= y < 64 -> 0 <= z < 64 -> 0 <= w < 64 -> 0x10 <= x * 64 + y < 0x110 ->
  restrict0 f (0xF0 + x :: 0x80 + y :: 0x80 + z :: 0x80 + w :: sp) count
  = after_char f (((x * 64 + y) * 64 + z) * 64 + w) sp count.
Proof.
  intros Hx Hy Hz Hw H1. destruct (start_spec (0xF0 + x)) as [|[|[|(Es & _ & Eb)]]]; try (unfold is_byte; lia).
  rewrite (restrict_start f _ _ _ 4), Eb, restrict_next by (done || lia || (try unfold is_byte; lia) || second_ok).
  simpl (_ >=? _). cbv iota. rewrite restrict_next by (done || (apply not_bad_more; lia)).
  simpl (_ >=? _). cbv iota. rewrite restrict_next by (done || (apply not_bad_more; lia)).
  by replace (0xF0 + x - 0xF0) with x by lia.
Qed.

Lemma split64 c : c = c / 64 * 64 + c mod 64.
Proof. rewrite (Z.div_mod c 64) at 1 by lia. lia. Qed.

(** The encoding of a character is read as that character. *)
Lemma restrict_char f c sp count :
  scalar c -> 0x80 <= c -> restrict0 f (putUTF8Char c ++ sp) count = after_char f c sp count.
Proof.
  intros Hs Hc. pose proof (Z.mod_pos_bound c 64 ltac:(lia)). pose proof (Z.mod_pos_bound (c / 64) 64 ltac:(lia)).
  pose proof (Z.mod_pos_bound (c / 4096) 64 ltac:(lia)). pose proof (split64 c) as S0.
  pose proof (split64 (c / 64)) as S1. rewrite Z.div_div in S1 by lia. change (64 * 64) with 4096 in S1.
  pose proof (split64 (c / 4096)) as S2. rewrite Z.div_div in S2 by lia. change (4096 * 64) with 262144 in S2.
  unfold scalar in Hs.
  destruct (Z.lt_ge_cases c 0x800); [|destruct (Z.lt_ge_cases c 0x10000)].
  - rewrite enc2 by lia. simpl app. rewrite char2 by lia. by rewrite <-S0.
  - rewrite enc3 by lia. simpl app. rewrite char3 by lia. by rewrite <-S1, <-S0.
  - rewrite enc4 by lia. simpl app. rewrite char4 by lia. by rewrite <-S2, <-S1, <-S0.
Qed.

(** In the middle of a character: an error, or a byte that fits. *)
Lemma restrict_middle f sp state b cp count i :
  state <> 0 -> 1 <= i ->
  restrict_loop f sp state b cp count i < 0
  \/ exists y rest, sp = 0x80 + y :: rest /\ 0 <= y < 64 /\ bad_next i state b (0x80 + y) = false.
Proof.
  intros Hs Hi. destruct sp as [|c sp]; cbn [restrict_loop]; destruct (Z.eqb_spec state 0); try done; [by left|].
  destruct (bad_next i state b c) eqn:E; [by left|]. right. exists (c - 0x80), sp.
  replace (0x80 + (c - 0x80)) with c by lia. split; [done|]. split; [|done].
  revert E. unfold bad_next, validSecond. destruct (Z.eqb_spec i 1); destruct (Z.gtb_spec i 1); try lia;
    destruct (Z.ltb_spec c 0x80); destruct (Z.gtb_spec c 0xbf); simpl; lia || done.
Qed.

(** The string starts with the encoding of a character. *)
Definition starts_char (bs : list Z) : Prop :=
  exists c rest, bs = putUTF8Char c ++ rest /\ scalar c /\ 0x80 <= c.

Lemma starts_intro c bs rest :
  putUTF8Char c = bs -> scalar c -> 0x80 <= c -> starts_char (bs ++ rest).
Proof. intros <- Hs Hc. by exists c, rest. Qed.

(** Reads one more byte of the character, or stops with an error. *)
Ltac next_byte y H :=
  match goal with |- restrict_loop ?f ?sp ?n ?b ?cp ?k ?i < 0 \/ _ =>
    let rest := fresh "rest" in
    destruct (restrict_middle f sp n b cp k i) as [?|(y & rest & -> & H & ?)]; [lia|lia|by left|]
  end.

Lemma lead2 f x sp count : 0 <= x ->
  restrict_loop f sp 2 x x count 1 < 0 \/ (x < 32 -> starts_char (0xC0 + x :: sp)).
Proof.
  intros H0. next_byte y Hy. right. intros Hx. rewrite bad_next_1, valid_second_spec in * by lia.
  apply (starts_intro (x * 64 + y) [_; _]); unfold scalar; [apply enc2_bits; lia|lia..].
Qed.

Lemma lead3 f x sp count : 0 <= x ->
  restrict_loop f sp 3 x x count 1 < 0 \/ (x < 16 -> starts_char (0xE0 + x :: sp)).
Proof.
  intros H0. next_byte y Hy. rewrite restrict_next by (done || lia).
  rewrite bad_next_1, valid_second_spec in * by lia.
  change (1 + 1 >=? 3) with false. cbv iota. next_byte z Hz. right. intros Hx.
  apply (starts_intro ((x * 64 + y) * 64 + z) [_; _; _]); unfold scalar; [apply enc3_bits; lia|lia..].
Qed.

Lemma lead4 f x sp count : 0 <= x ->
  restrict_loop f sp 4 x x count 1 < 0 \/ starts_char (0xF0 + x :: sp).
Proof.
  intros H0. next_byte y Hy. rewrite restrict_next by (done || lia).
  rewrite bad_next_1, valid_second_spec in * by lia.
  change (1 + 1 >=? 4) with false. cbv iota. next_byte z Hz. rewrite restrict_next by (done || lia).
  change (1 + 1 + 1 >=? 4) with false. cbv iota. next_byte w Hw. right.
  apply (starts_intro (((x * 64 + y) * 64 + z) * 64 + w) [_; _; _; _]); unfold scalar; [apply enc4_bits; lia|lia..].
Qed.

(** A first byte over 0x7F starts the encoding of a character, or the string is
    refused. *)
Lemma restrict_lead f c0 sp count :
  is_byte c0 -> 0x80 <= c0 -> restrict0 f (c0 :: sp) count < 0 \/ starts_char (c0 :: sp).
Proof.
  intros Hb Hc.
  destruct (start_spec c0 Hb Hc) as [[Es _]|[(Es & Hr & Eb)|[(Es & Hr & Eb)|(Es & Hr & Eb)]]].
  - left. unfold restrict0. cbn [restrict_loop]. simpl (0 =? 0). cbv iota. rewrite Es.
    destruct (Z.ltb_spec c0 0x80); [lia|done].
  - rewrite (restrict_start f c0 count sp 2), Eb by (done || lia).
    replace c0 with (0xC0 + (c0 - 0xC0)) at 3 by lia.
    destruct (lead2 f (c0 - 0xC0) sp (count + 1)) as [?|H]; [lia|by left|right; apply H; lia].
  - rewrite (restrict_start f c0 count sp 3), Eb by (done || lia).
    replace c0 with (0xE0 + (c0 - 0xE0)) at 3 by lia.
    destruct (lead3 f (c0 - 0xE0) sp (count + 1)) as [?|H]; [lia|by left|right; apply H; lia].
  - rewrite (restrict_start f c0 count sp 4), Eb by (done || lia).
    replace c0 with (0xF0 + (c0 - 0xF0)) at 3 by lia. apply lead4. lia.
Qed.

(** ** What the restrictions mean *)

Lemma restrict_ascii_spec f c : 0 <= c <= 0x2F -> (restrict_ascii f c =? 0) = negb (forbidden f c).
Proof.
  intros Hc. set (P c := (restrict_ascii f c =? 0) = negb (forbidden f c)).
  assert (Forall P (seqZ 0 48)) as H.
  { vm_compute seqZ. unfold P, restrict_ascii, forbidden.
    repeat (apply Forall_cons_2; [cbn -[has]; rewrite ?andb_false_r, ?andb_true_r, ?orb_false_r;
      first [reflexivity | match goal with |- context [has f ?x] => by destruct (has f x) end]|]).
    apply Forall_nil_2. }
  apply (proj1 (Forall_forall P _) H), elem_of_seqZ. lia.
Qed.

Lemma land_ffff c : Z.land c 0xffff = c mod 0x10000.
Proof. exact (Z.land_ones c 16 ltac:(lia)). Qed.

Lemma nonchar_spec c : scalar c ->
  is_nonchar c = (0xFDD0 <=? c) && (c <=? 0xFDEF) || (c mod 0x10000 =? 0xFFFE) || (c mod 0x10000 =? 0xFFFF).
Proof.
  intros Hs. unfold is_nonchar, scalar in *. rewrite !land_ffff.
  destruct (Z.geb_spec c 0xfdd0), (Z.ltb_spec c 0xfffe), (Z.leb_spec 0xfdd0 c), (Z.leb_spec c 0xfdef);
    try lia; simpl; rewrite ?Z.mod_small by lia; lia.
Qed.

Lemma restrict_multi_spec f c : scalar c -> 0x80 <= c -> (restrict_multi f c =? 0) = negb (forbidden f c).
Proof.
  intros Hs Hc. unfold restrict_multi. rewrite nonchar_spec by done. unfold forbidden.
  destruct (Z.eqb_spec c 0); [lia|]. destruct (Z.eqb_spec c 9); [lia|]. destruct (Z.eqb_spec c 10); [lia|].
  destruct (Z.eqb_spec c 13); [lia|]. destruct (Z.ltb_spec c 0x20); [lia|]. destruct (Z.eqb_spec c 0x2B); [lia|].
  destruct (Z.eqb_spec c 0x23); [lia|]. destruct (Z.eqb_spec c 0x20); [lia|]. destruct (Z.eqb_spec c 0x2F); [lia|].
  rewrite (proj2 (Z.leb_le 0x80 c)) by done. rewrite !andb_false_r, !orb_false_r. simpl.
  destruct (has f UR_NoC1), (c <? 0xA0), (has f UR_NoNonchar); simpl; try done;
    match goal with |- context [if ?b then _ else _] => by destruct b end.
Qed.

Lemma ascii_unrestricted f c : 0x2F < c < 0x80 -> forbidden f c = false.
Proof.
  intros Hc. unfold forbidden. rewrite Z.mod_small by lia.
  destruct (Z.eqb_spec c 0); [lia|]. destruct (Z.eqb_spec c 9); [lia|]. destruct (Z.eqb_spec c 10); [lia|].
  destruct (Z.eqb_spec c 13); [lia|]. destruct (Z.ltb_spec c 0x20); [lia|]. destruct (Z.eqb_spec c 0x2B); [lia|].
  destruct (Z.eqb_spec c 0x23); [lia|]. destruct (Z.eqb_spec c 0x20); [lia|]. destruct (Z.eqb_spec c 0x2F); [lia|].
  destruct (Z.leb_spec 0x80 c); [lia|]. destruct (Z.leb_spec 0xFDD0 c); [lia|].
  destruct (Z.eqb_spec c 0xFFFE); [lia|]. destruct (Z.eqb_spec c 0xFFFF); [lia|].
  by rewrite !andb_false_r.
Qed.

Lemma restrict_code_neg f c : restrict_ascii f c <= 0 /\ restrict_multi f c <= 0.
Proof.
  unfold restrict_ascii, restrict_multi.
  split; repeat match goal with |- context [if ?b then _ else _] => destruct b end; lia.
Qed.

(** One character. *)
Lemma restrict_step f c sp count :
  scalar c ->
  if forbidden f c then restrict0 f (putUTF8Char c ++ sp) count < 0
  else restrict0 f (putUTF8Char c ++ sp) count = restrict0 f sp (count + 1).
Proof.
  intros Hs. pose proof (restrict_code_neg f c) as [Na Nm].
  destruct (Z.lt_ge_cases c 0x80) as [Hc|Hc].
  - unfold scalar in Hs. assert (putUTF8Char c = [c]) as ->.
    { unfold putUTF8Char. rewrite (proj2 (Z.leb_le c 0x7F)) by lia. by rewrite wrapu_small by lia. }
    simpl app. unfold restrict0 at 1 2. cbn [restrict_loop]. simpl (0 =? 0). cbv iota.
    rewrite (proj2 (Z.ltb_lt c 0x80)), restrict_state0 by lia.
    destruct (Z.leb_spec c 0x2F).
    + rewrite restrict_ascii_spec by lia. destruct (forbidden f c) eqn:E; [|done]. cbn [negb].
      pose proof (restrict_ascii_spec f c ltac:(lia)) as R. rewrite E in R. lia.
    + by rewrite ascii_unrestricted by lia.
  - rewrite restrict_char by done. unfold after_char.
    pose proof (restrict_multi_spec f c Hs Hc) as R. rewrite R. destruct (forbidden f c); [cbn [negb]; lia|done].
Qed.

Lemma restrict_ok f cs sp count :
  Forall scalar cs -> Forall (fun c => forbidden f c = false) cs ->
  restrict0 f (encode cs ++ sp) count = restrict0 f sp (count + Z.of_nat (length cs)).
Proof.
  intros Hs Hf. revert count. induction Hs as [|c cs Hc Hs IH]; intros count; [simpl; f_equal; lia|].
  apply Forall_cons in Hf as [Hfc Hf]. change (encode (c :: cs)) with (putUTF8Char c ++ encode cs).
  rewrite <-app_assoc. pose proof (restrict_step f c (encode cs ++ sp) count Hc) as E. rewrite Hfc in E.
  rewrite E, IH by done. f_equal. simpl length. lia.
Qed.

Lemma restrict_inv f sp count :
  Forall is_byte sp -> 0 <= count ->
  restrict0 f sp count < 0
  \/ exists cs, sp = encode cs /\ Forall scalar cs /\ Forall (fun c => forbidden f c = false) cs.
Proof.
  remember (length sp) as n eqn:Hn. assert (length sp <= n)%nat as Hle by lia. clear Hn.
  revert sp count Hle. induction n as [|n IH]; intros sp count Hle Hby Hc;
    (destruct sp as [|c0 sp]; [right; by exists []|]); [simpl in Hle; lia|].
  assert (Hb := Hby). apply Forall_cons in Hb as [Hb _]. unfold is_byte in Hb.
  assert (restrict0 f (c0 :: sp) count < 0 \/ exists c rest, c0 :: sp = putUTF8Char c ++ rest /\ scalar c)
    as [?|(c & rest & E & Hs)]; [|by left|].
  { destruct (Z.lt_ge_cases c0 0x80).
    - right. exists c0, sp. unfold putUTF8Char, scalar. rewrite (proj2 (Z.leb_le c0 0x7F)), wrapu_small by lia.
      split; [done|lia].
    - destruct (restrict_lead f c0 sp count) as [?|(c & rest & ? & ? & _)]; [done|done|by left|right; eauto]. }
  rewrite E in *. pose proof (restrict_step f c rest count Hs) as St.
  destruct (forbidden f c) eqn:Hf; [by left|]. rewrite St.
  assert (1 <= length (putUTF8Char c))%nat.
  { unfold putUTF8Char. repeat match goal with |- context [if ?b then _ else _] => destruct b end; simpl; lia. }
  rewrite length_app in Hle. apply Forall_app in Hby as [_ Hby].
  destruct (IH rest (count + 1)) as [?|(cs & -> & Hcs & Hfs)]; [lia|done|lia|by left|right].
  exists (c :: cs). split; [done|]. split; by constructor.
Qed.

Lemma restrict_exact f sp :
  Forall is_byte sp ->
  (exists cs, sp = encode cs /\ Forall scalar cs /\ Forall (fun c => forbidden f c = false) cs
     /\ restrict0 f sp 0 = Z.of_nat (length cs))
  \/ (restrict0 f sp 0 < 0 /\
      ~ exists cs, sp = encode cs /\ Forall scalar cs /\ Forall (fun c => forbidden f c = false) cs).
Proof.
  intros Hby.
  assert (Hok : forall cs, Forall scalar cs -> Forall (fun c => forbidden f c = false) cs ->
            restrict0 f (encode cs) 0 = Z.of_nat (length cs)).
  { intros cs Hs Hf. rewrite <-(app_nil_r (encode cs)), restrict_ok by done. done. }
  destruct (restrict_inv f sp 0 Hby ltac:(lia)) as [Hneg|(cs & -> & Hs & Hf)].
  - right. split; [done|]. intros (cs & -> & Hs & Hf). rewrite Hok in Hneg by done. lia.
  - left. exists cs. auto.
Qed.

Lemma no_restriction c : restrict_ascii 0 c = 0 /\ restrict_multi 0 c = 0.
Proof.
  unfold restrict_ascii, restrict_multi. assert (forall x, has 0 x = false) as H by done. rewrite !H, !andb_false_r.
  split; [|done]. repeat match goal with |- context [if ?b then _ else _] => destruct b end; done.
Qed.

(** The plain validation is the restricted one without restrictions. *)
Lemma valid_restrict sp state b cp count i :
  0 <= count ->
  valid_loop sp state b count i
  = let r := restrict_loop 0 sp state b cp count i in if r <? 0 then -1 else r.
Proof.
  cbv zeta. revert state b cp count i. induction sp as [|c sp IH]; intros state b cp count i Hc;
    cbn [valid_loop restrict_loop].
  - destruct (state =? 0); [|done]. destruct (Z.ltb_spec count 0); [lia|done].
  - destruct (no_restriction c) as [-> _]. destruct (no_restriction (next_codept cp c)) as [_ ->].
    replace (if c <=? 0x2F then 0 else 0) with 0 by (by destruct (c <=? 0x2F)). simpl (0 =? 0). cbv iota.
    destruct (state =? 0).
    + destruct (c <? 0x80); [apply IH; lia|]. destruct (start_state c =? 1); [done|]. apply IH; lia.
    + destruct (bad_next i state b c); [done|]. destruct (i + 1 >=? state); apply IH; lia.
Qed.

(** C22. A string is valid exactly when it is the encoding of a sequence of Unicode
    scalar values none of which is restricted, and then the number of characters is
    returned; otherwise the result is negative.  Without restrictions the plain
    validation gives the same answer. *)
Theorem utf8_exact s len f :
  Forall is_byte s -> 0 <= len <= Z.of_nat (length s) ->
  let sp := take (Z.to_nat len) s in
  let valid cs := sp = encode cs /\ Forall scalar cs /\ Forall (fun c => forbidden f c = false) cs in
  (exists cs, valid cs /\ ism_common_validUTF8Restrict s len f = Ret (Z.of_nat (length cs))
     /\ (f = 0 -> ism_common_validUTF8 s len = Ret (Z.of_nat (length cs))))
  \/ (exists rc, rc < 0 /\ (~ exists cs, valid cs) /\ ism_common_validUTF8Restrict s len f = Ret rc
     /\ (f = 0 -> ism_common_validUTF8 s len = Ret (-1))).
Proof.
  intros Hby Hlen sp valid.
  assert (Er : ism_common_validUTF8Restrict s len f = Ret (restrict0 f sp 0)).
  { unfold ism_common_validUTF8Restrict, span. destruct (Z.ltb_spec len 0); [lia|].
    by rewrite (proj2 (Z.leb_le len (Z.of_nat (length s)))) by lia. }
  assert (Ev : f = 0 -> ism_common_validUTF8 s len = Ret (let r := restrict0 f sp 0 in if r <? 0 then -1 else r)).
  { intros ->. unfold ism_common_validUTF8, span.
    rewrite (proj2 (Z.leb_le len (Z.of_nat (length s)))), bind_ret by lia. fold sp.
    by rewrite (valid_restrict sp 0 0 0 0 0) by lia. }
  rewrite Er. destruct (restrict_exact f sp (Forall_take _ _ _ Hby)) as [(cs & E & Hs & Hf & R)|[R N]].
  - left. exists cs. rewrite R in *. split; [done|]. split; [done|]. intros H0. rewrite (Ev H0). cbv zeta.
    destruct (Z.ltb_spec (Z.of_nat (length cs)) 0); [lia|done].
  - right. exists (restrict0 f sp 0). split; [done|]. split; [done|]. split; [done|].
    intros H0. rewrite (Ev H0). cbv zeta. destruct (Z.ltb_spec (restrict0 f sp 0) 0); [done|lia].
Qed.

(** "aé" with no controls, and its truncation in the middle of a character. *)
Example utf8_exact_witness :
  (exists cs, [0x61; 0xC3; 0xA9] = encode cs
     /\ ism_common_validUTF8Restrict [0x61; 0xC3; 0xA9] 3 UR_NoControl = Ret (Z.of_nat (length cs)))
  /\ ~ exists cs, [0x61; 0xC3] = encode cs /\ Forall scalar cs.
Proof.
  split.
  - destruct (utf8_exact [0x61; 0xC3; 0xA9] 3 UR_NoControl ltac:(is_bytes) ltac:(simpl; lia))
      as [(cs & (E & _) & R & _)|(rc & Hrc & _ & R & _)].
    + exists cs. split; [exact E|exact R].
    + vm_compute in R. injection R as <-. discriminate Hrc.
  - destruct (utf8_exact [0x61; 0xC3] 2 0 ltac:(is_bytes) ltac:(simpl; lia))
      as [(cs & _ & R & _)|(rc & Hrc & N & _)].
    + vm_compute in R. injection R as R. destruct cs; discriminate R.
    + intros (cs & E & Hs). apply N. exists cs. split; [exact E|]. split; [exact Hs|].
      clear. induction cs; constructor; [reflexivity|assumption].
Defined.

(** ** The repair of a string that is valid *)

Section Replace.
Context (f repl : Z).

Definition replace0 (sp out : list Z) : list Z := replace_loop f repl sp 0 0 0 0 out.

Lemma replace_state0 sp b cp i out : replace_loop f repl sp 0 b cp i out = replace0 sp out.
Proof.
  unfold replace0. revert b cp i out. induction sp as [|c sp IH]; intros b cp i out; [done|].
  cbn [replace_loop]. simpl (0 =? 0). cbv iota. destruct (c <? 0x80); [by rewrite !IH|done].
Qed.

Lemma replace_start c sp out n :
  start_state c = n -> n <> 1 -> 0x80 <= c ->
  replace0 (c :: sp) out = replace_loop f repl sp n (start_bits c) (start_bits c) 1 out.
Proof.
  intros Hs Hn Hc. unfold replace0. cbn [replace_loop]. simpl (0 =? 0). cbv iota.
  destruct (Z.ltb_spec c 0x80); [lia|]. rewrite Hs. by destruct (Z.eqb_spec n 1).
Qed.

Lemma replace_next state b cp i y sp out :
  state <> 0 -> bad_next i state b (0x80 + y) = false -> 0 <= y < 64 ->
  replace_loop f repl ((0x80 + y) :: sp) state b cp i out
  = if i + 1 >=? state then replace0 sp (put_unless0 (replace_multi f repl (cp * 64 + y)) out)
    else replace_loop f repl sp state b (cp * 64 + y) (i + 1) out.
Proof.
  intros Hs Hb Hy. cbn [replace_loop]. destruct (Z.eqb_spec state 0); [done|].
  rewrite Hb, next_codept_val by done. by rewrite replace_state0.
Qed.

Ltac lead n := rewrite (replace_start _ _ _ n) by (done || lia).
Ltac further := rewrite replace_next by (done || lia || second_ok || (apply not_bad_more; lia)).

Lemma replace_char c sp out :
  scalar c -> 0x80 <= c ->
  replace0 (putUTF8Char c ++ sp) out = replace0 sp (put_unless0 (replace_multi f repl c) out).
Proof.
  intros Hs Hc. pose proof (Z.mod_pos_bound c 64 ltac:(lia)). pose proof (Z.mod_pos_bound (c / 64) 64 ltac:(lia)).
  pose proof (Z.mod_pos_bound (c / 4096) 64 ltac:(lia)). pose proof (split64 c) as S0.
  pose proof (split64 (c / 64)) as S1. rewrite Z.div_div in S1 by lia. change (64 * 64) with 4096 in S1.
  pose proof (split64 (c / 4096)) as S2. rewrite Z.div_div in S2 by lia. change (4096 * 64) with 262144 in S2.
  unfold scalar in Hs.
  destruct (Z.lt_ge_cases c 0x800); [|destruct (Z.lt_ge_cases c 0x10000)].
  - destruct (start_spec (0xC0 + c / 64)) as [|[(Es & _ & Eb)|[|]]]; try (unfold is_byte; lia).
    rewrite enc2 by lia. simpl app. lead 2. rewrite Eb. further.
    change (1 + 1 >=? 2) with true. cbv iota. do 3 f_equal. lia.
  - destruct (start_spec (0xE0 + c / 4096)) as [|[|[(Es & _ & Eb)|]]]; try (unfold is_byte; lia).
    rewrite enc3 by lia. simpl app. lead 3. rewrite Eb. further.
    change (1 + 1 >=? 3) with false. cbv iota. further.
    change (1 + 1 + 1 >=? 3) with true. cbv iota. do 3 f_equal. lia.
  - destruct (start_spec (0xF0 + c / 262144)) as [|[|[|(Es & _ & Eb)]]]; try (unfold is_byte; lia).
    rewrite enc4 by lia. simpl app. lead 4. rewrite Eb. further.
    change (1 + 1 >=? 4) with false. cbv iota. further.
    change (1 + 1 + 1 >=? 4) with false. cbv iota. further.
    change (1 + 1 + 1 + 1 >=? 4) with true. cbv iota. do 3 f_equal. lia.
Qed.

(** A character that needs no repair: none of those that are looked for. *)
Definition clean (c : Z) : Prop :=
  scalar c /\ forbidden f c = false /\ ((c = 0x2B \/ c = 0x23) -> has f UR_NoWildcard = false).

(** What becomes of it. *)
Definition truncated (c : Z) : Z := if has f UR_NoNonchar && (0x10000 <=? c) then c mod 0x10000 else c.

Lemma replace_multi_clean c : clean c -> 0x80 <= c -> replace_multi f repl c = truncated c.
Proof.
  intros (Hs & Hf & _) Hc. pose proof (restrict_multi_spec f c Hs Hc) as R. rewrite Hf in R.
  unfold restrict_multi in R. unfold replace_multi, truncated. rewrite land_ffff.
  destruct ((c <? 0xa0) && has f UR_NoC1) eqn:E1; [done|].
  destruct (has f UR_NoNonchar) eqn:E2; [|by rewrite andb_false_r]. rewrite andb_true_r. simpl andb in *.
  rewrite nonchar_spec in R by done. unfold scalar in Hs.
  destruct ((0xFDD0 <=? c) && (c <=? 0xFDEF)) eqn:E3; [done|].
  destruct (c mod 0x10000 =? 0xFFFE) eqn:E4; [done|]. destruct (c mod 0x10000 =? 0xFFFF) eqn:E5; [done|].
  destruct (Z.leb_spec 0x10000 c), (Z.geb_spec c 0xfdd0), (Z.ltb_spec c 0xfffe); try lia.
  - done.
  - simpl. destruct (Z.leb_spec c 0xfdef); [lia|done].
  - simpl. rewrite Z.mod_small in * by lia. lia.
Qed.

Lemma replace_ascii_clean c : clean c -> c <= 0x2B -> replace_ascii f repl c = c.
Proof.
  intros (Hs & Hf & Hw) Hc. unfold scalar in Hs.
  pose proof (restrict_ascii_spec f c ltac:(lia)) as R. rewrite Hf in R. unfold restrict_ascii in R.
  unfold replace_ascii. destruct (Z.eqb_spec c 0) as [->|H0]; [simpl in *; by destruct (has f UR_NoNull)|].
  destruct (Z.eqb_spec c 0x2B), (Z.eqb_spec c 0x23); subst; simpl; try (rewrite Hw by auto; done).
  destruct (Z.eqb_spec c 0x20); [by subst|]. destruct (Z.eqb_spec c 0x2F); [lia|].
  simpl existsb in *. destruct (Z.eqb_spec c 0x2C); [lia|]. destruct (Z.eqb_spec c 0x2D); [lia|].
  destruct (Z.eqb_spec c 0x2E); [lia|]. simpl orb in *.
  destruct ((c =? 33) || _); [done|]. destruct ((c =? 10) || _).
  - by destruct (has f UR_NoC0Line).
  - by destruct (has f UR_NoC0Other).
Qed.

Lemma replace_clean c sp out :
  clean c -> replace0 (putUTF8Char c ++ sp) out = replace0 sp (put_unless0 (truncated c) out).
Proof.
  intros Hc. assert (Hc' := Hc). destruct Hc' as (Hs & _).
  destruct (Z.lt_ge_cases c 0x80) as [Hl|Hl].
  - unfold scalar in Hs. assert (putUTF8Char c = [c]) as E.
    { unfold putUTF8Char. rewrite (proj2 (Z.leb_le c 0x7F)) by lia. by rewrite wrapu_small by lia. }
    assert (truncated c = c) as ->.
    { unfold truncated. destruct (Z.leb_spec 0x10000 c); [lia|]. by rewrite andb_false_r. }
    rewrite E. simpl app. unfold replace0 at 1. cbn [replace_loop]. simpl (0 =? 0). cbv iota.
    rewrite (proj2 (Z.ltb_lt c 0x80)), replace_state0 by lia.
    destruct (Z.leb_spec c 0x2B); [by rewrite replace_ascii_clean by done|].
    unfold put_unless0. destruct (Z.eqb_spec c 0); [lia|]. by rewrite E.
  - by rewrite replace_char, replace_multi_clean by done.
Qed.

(** What is written for characters that need no repair. *)
Definition kept_chars (cs : list Z) : list Z := concat (map (fun c => put_unless0 (truncated c) []) cs).

Lemma replace_clean_all cs out :
  Forall clean cs -> replace0 (encode cs) out = replace0 [] (out ++ kept_chars cs).
Proof.
  intros H. revert out. induction H as [|c cs Hc _ IH]; intros out.
  - unfold kept_chars. simpl. by rewrite app_nil_r.
  - change (encode (c :: cs)) with (putUTF8Char c ++ encode cs). rewrite replace_clean, IH by done.
    f_equal. change (kept_chars (c :: cs)) with (put_unless0 (truncated c) [] ++ kept_chars cs).
    rewrite app_assoc. f_equal. unfold put_unless0. destruct (truncated c =? 0); [by rewrite app_nil_r|done].
Qed.
End Replace.

Lemma kept_plain f cs :
  Forall (fun c => c <> 0 /\ (has f UR_NoNonchar = true -> c < 0x10000)) cs -> kept_chars f cs = encode cs.
Proof.
  induction 1 as [|c cs [H0 Ht] _ IH]; [done|].
  change (kept_chars f (c :: cs)) with (put_unless0 (truncated f c) [] ++ kept_chars f cs).
  assert (truncated f c = c) as ->.
  { unfold truncated. destruct (has f UR_NoNonchar); [|done]. by rewrite (proj2 (Z.leb_gt 0x10000 c)) by auto. }
  rewrite IH. unfold put_unless0. by destruct (Z.eqb_spec c 0).
Qed.

Lemma encode_nonempty cs : cs <> [] -> encode cs <> [].
Proof.
  destruct cs as [|c cs]; [done|]. intros _. change (encode (c :: cs)) with (putUTF8Char c ++ encode cs).
  unfold putUTF8Char. repeat match goal with |- context [if ?b then _ else _] => destruct b end; done.
Qed.

(** C36. The repair of a string in which nothing is to be repaired (valid UTF-8, no
    forbidden character, and no wildcard when these are to be replaced) writes its
    characters again, but an allowed null character is left out, and where
    noncharacters are looked for a supplementary character loses the bits of its
    plane, or is left out when its other bits are 0.  If nothing has been written, as
    for the empty string, the result is the replacement character, or a question mark
    if that is 0.  So a string that is not empty and has neither null characters nor,
    where noncharacters are looked for, supplementary ones is returned as it is. *)
Theorem replace_valid f repl cs :
  Forall (clean f) cs ->
  let s := encode cs in
  ism_common_validUTF8Replace s (Z.of_nat (length s)) f repl
  = Ret (match kept_chars f cs with
         | [] => putUTF8Char (if i32 repl =? 0 then 0x3F else i32 repl)
         | out => out
         end)
  /\ (cs <> [] -> Forall (fun c => c <> 0 /\ (has f UR_NoNonchar = true -> c < 0x10000)) cs ->
      ism_common_validUTF8Replace s (Z.of_nat (length s)) f repl = Ret s).
Proof.
  intros Hc s.
  assert (E : ism_common_validUTF8Replace s (Z.of_nat (length s)) f repl
              = Ret (replace0 f (i32 repl) [] (kept_chars f cs))).
  { unfold ism_common_validUTF8Replace, span. rewrite Z.leb_refl, bind_ret, Nat2Z.id, firstn_all.
    fold (replace0 f (i32 repl) s []). subst s. by rewrite replace_clean_all by done. }
  rewrite E. split; [unfold replace0; by destruct (kept_chars f cs)|].
  intros Hne Hp. rewrite kept_plain by done. fold s.
  unfold replace0. simpl. destruct s eqn:Es; [|done]. by destruct (encode_nonempty cs Hne).
Qed.

Example replace_valid_witness :
  ism_common_validUTF8Replace [0x61; 0xF0; 0x9F; 0x98; 0x80] 5 UR_NoNonchar 0x3F
  = Ret [0x61; 0xEF; 0x98; 0x80].
Proof.
  assert (Hc : Forall (clean UR_NoNonchar) [0x61; 0x1F600]).
  { repeat apply Forall_cons_2; try apply Forall_nil_2;
      (split; [unfold scalar; lia|]; split; [reflexivity|intros [?|?]; discriminate]). }
  exact (proj1 (replace_valid UR_NoNonchar 0x3F [0x61; 0x1F600] Hc)).
Defined.

(** The repair can make an invalid string of a valid one: U+1D800 is valid under the
    restriction to characters, and what is written for it is a surrogate. *)
Theorem replace_breaks :
  let s := [0xF0; 0x9D; 0xA0; 0x80] in
  let f := Z.lor UR_NoControl UR_NoNonchar in
  ism_common_validUTF8Restrict s 4 f = Ret 1
  /\ exists out, ism_common_validUTF8Replace s 4 f 0x3F = Ret out
       /\ ism_common_validUTF8 out (Z.of_nat (length out)) = Ret (-1).
Proof. split; [reflexivity|]. exists [0xED; 0xA0; 0x80]. split; reflexivity. Qed.
