(* ===== verification/MqttProp.v ===== *)
(** * MQTT properties

    The last part of server_utils/src/filter.c: variable length integers, the
    context of known properties, and the functions that check, search and write
    the property area of an MQTT version 5 packet.  Types are in
    server_utils/include/protoex.h.

    An area is the list of its bytes; the code's [bufp] is the list that is left
    and reading past its end is [Crash]. *)

From S2P Require Import Prelude Buffer.

(** ** Variable length integers *)

(** [bufp[i]] *)
Definition at_ (bufp : list Z) (i : Z) : outcome Z :=
  if decide (0 <= i) then
    match bufp !! Z.to_nat i with Some v => Ret v | None => Crash end
  else Crash.

(** The do-while of both readers, with [bp] the offset of the next byte and [get]
    the access to the bytes; [None] is the [return -1] inside it. *)
Fixpoint varint_loop (fuel : nat) (get : Z -> outcome Z) (bp count buflen len multshift : Z)
  : outcome (option (Z * Z)) :=
  match fuel with
  | O => Hang
  | S fuel =>
      let count := count + 1 in
      let buflen := buflen - 1 in
      if (count >? 4) || (buflen <=? 0) then Ret None
      else
        c ← get bp;
        let len := len + Z.shiftl (Z.land c 0x7f) multshift in
        let bp := bp + 1 in
        if negb (Z.land c 0x80 =? 0) then varint_loop fuel get bp count buflen len (multshift + 7)
        else if c =? 0 then Ret None
        else Ret (Some (len, count))
  end.

(** The loop ends at the latest with [count = 5]. *)
Definition varint_fuel : nat := 4.

(** Returns the value and the number of bytes used. *)
Definition read_varint (get : Z -> outcome Z) (bp buflen : Z) : outcome (option (Z * Z)) :=
  if buflen <? 1 then Ret None
  else
    len ← get bp;
    if negb (Z.land len 0x80 =? 0)
    then varint_loop varint_fuel get (bp + 1) 1 buflen (Z.land len 0x7f) 7
    else Ret (Some (len, 1)).

Definition ism_common_getMqttVarInt (buf : concat_alloc_t) : outcome (Z * concat_alloc_t) :=
  r ← read_varint (rd buf) (cpos buf) (cused buf - cpos buf);
  match r with
  | None => Ret (-1, buf)
  | Some (len, count) => Ret (len, set_pos buf (cpos buf + count))
  end.

(** [*used] is only written when a value is returned. *)
Definition ism_common_getMqttVarIntExp (buf : list Z) (buflen : Z) (used : Z) : outcome (Z * Z) :=
  r ← read_varint (at_ buf) 0 buflen;
  match r with
  | None => Ret (-1, used)
  | Some (len, count) => Ret (len, count)
  end.

Definition ism_common_putMqttVarInt (mem : allocator) (len : Z) (buf : concat_alloc_t)
  : outcome concat_alloc_t :=
  if (len >? 268435455) || (len <? 0) then Ret buf
  else if len <=? 127 then bputchar mem len buf
  else if len <=? 16383 then
    buf ← bputchar mem (Z.lor (Z.land len 0x7f) 0x80) buf;
    bputchar mem (Z.shiftr len 7) buf
  else if len <=? 2097151 then
    buf ← bputchar mem (Z.lor (Z.land len 0x7f) 0x80) buf;
    buf ← bputchar mem (Z.lor (Z.shiftr len 7) 0x80) buf;
    bputchar mem (Z.shiftr len 14) buf
  else
    buf ← bputchar mem (Z.lor (Z.land len 0x7f) 0x80) buf;
    buf ← bputchar mem (Z.lor (Z.shiftr len 7) 0x80) buf;
    buf ← bputchar mem (Z.lor (Z.shiftr len 14) 0x80) buf;
    bputchar mem (Z.shiftr len 21) buf.

(** ** The context of known properties *)

(** The [type] member of a field is a byte; a value that is not of the enumeration
    is treated as [MPT_Undef] is, by the [default] of each [switch]. *)
Inductive MqttPropType_e :=
  | MPT_Undef | MPT_Int1 | MPT_Int2 | MPT_Int4 | MPT_String | MPT_Bytes
  | MPT_NamePair | MPT_Boolean | MPT_VarInt.

#[global] Instance MqttPropType_e_eq_dec : EqDecision MqttPropType_e.
Proof. solve_decision. Defined.

Definition CPOI_IS_ALT : Z := 0x10000.
Definition CPOI_ALT_MULTI : Z := 0xC0000.
Definition CPOI_MULTI : Z := 0x80000.

(** The [name] only goes to error messages and is left out. *)
Record mqtt_prop_field_t := mk_field {
  fld_id : Z;
  fld_type : MqttPropType_e;
  fld_version : Z;
  fld_valid : Z
}.

(** [fields] is the memory after the structure, as pointers to fields; [more] is
    the part of it that starts at [array_id + 1]. *)
Record mqtt_prop_ctx_t := mk_ctx {
  ctx_version : Z;
  max_id : Z;
  array_id : Z;
  more_count : Z;
  fields : list (option mqtt_prop_field_t)
}.

(** [ctx->fields[i]] *)
Definition fields_at (slots : list (option mqtt_prop_field_t)) (i : Z)
  : outcome (option mqtt_prop_field_t) :=
  if decide (0 <= i) then
    match slots !! Z.to_nat i with Some p => Ret p | None => Crash end
  else Crash.

Definition set_field (slots : list (option mqtt_prop_field_t)) (i : Z) (p : mqtt_prop_field_t)
  : outcome (list (option mqtt_prop_field_t)) :=
  if decide (0 <= i < Z.of_nat (length slots)) then Ret (<[Z.to_nat i := Some p]> slots)
  else Crash.

(** The first loop of [ism_common_makeMqttPropCtx]: the largest id and the number
    of ids over 127.  The table ends at its field with id 0, which is not part of
    the list [idtbl]. *)
Definition scan_ids (idtbl : list mqtt_prop_field_t) (version : Z) : Z * Z :=
  foldl (fun '(max_id, more_count) tbl =>
           (if (fld_id tbl >? max_id) && (fld_version tbl >=? version) then fld_id tbl else max_id,
            if (fld_id tbl >? 127) && (fld_version tbl >=? version) then more_count + 1 else more_count))
        (0, 0) idtbl.

(** The second loop.  [more] is NULL when its count is 0. *)
Fixpoint fill_fields (idtbl : list mqtt_prop_field_t) (version array_id : Z) (has_more : bool)
    (more_count : Z) (slots : list (option mqtt_prop_field_t))
  : outcome (list (option mqtt_prop_field_t)) :=
  match idtbl with
  | [] => Ret slots
  | tbl :: idtbl =>
      ver ← fields_at slots (fld_id tbl);
      if match ver with None => true | Some ver => fld_version ver <? version end then
        if fld_id tbl <=? array_id then
          slots ← set_field slots (fld_id tbl) tbl;
          fill_fields idtbl version array_id has_more more_count slots
        else if has_more then
          slots ← set_field slots (array_id + 1 + more_count) tbl;
          fill_fields idtbl version array_id has_more (more_count + 1) slots
        else Crash
      else fill_fields idtbl version array_id has_more more_count slots
  end.

(** The memory is sized by [sizeof(mqtt_prop_field_t)], which is 16, and used as
    pointers of 8 bytes. *)
Definition ism_common_makeMqttPropCtx (idtbl : list mqtt_prop_field_t) (version : Z)
  : outcome mqtt_prop_ctx_t :=
  let '(max_id, more_count) := scan_ids idtbl version in
  let max_array := if max_id >? 127 then 127 else max_id in
  slots ← fill_fields idtbl version max_array (negb (more_count =? 0)) 0
            (replicate (Z.to_nat (2 * (max_array + 1 + more_count))) None);
  Ret (mk_ctx version max_id max_array more_count slots).

Fixpoint find_more (slots : list (option mqtt_prop_field_t)) (i : Z) (n : nat) (id : Z)
  : outcome (option mqtt_prop_field_t) :=
  match n with
  | O => Ret None
  | S n =>
      p ← fields_at slots i;
      match p with
      | None => Crash
      | Some fld => if fld_id fld =? id then Ret (Some fld) else find_more slots (i + 1) n id
      end
  end.

(** [id] is compared as an unsigned number. *)
Definition ism_common_findMqttPropID (ctx : mqtt_prop_ctx_t) (id : Z) : outcome (option mqtt_prop_field_t) :=
  if u32 id <? array_id ctx then fields_at (fields ctx) id
  else find_more (fields ctx) (array_id ctx + 1) (Z.to_nat (more_count ctx)) id.

(** The expression that every caller uses. *)
Definition find_field (ctx : mqtt_prop_ctx_t) (id : Z) : outcome (option mqtt_prop_field_t) :=
  if u32 id <=? array_id ctx then fields_at (fields ctx) id
  else ism_common_findMqttPropID ctx id.

(** ** Checking an area *)

Definition ISMRC_Error : Z := 100.
Definition ISMRC_BadClientData : Z := 105.
Definition ISMRC_BadLength : Z := 271.

(** [BIGINT16(bufp + i)] *)
Definition BIGINT16 (bufp : list Z) (i : Z) : outcome Z :=
  h ← at_ bufp i; l ← at_ bufp (i + 1); Ret (Z.lor (Z.shiftl h 8) l).

(** [memcpy(&int32, bufp, 4); endian_int32(int32)], as a signed value. *)
Definition BIGINT32 (bufp : list Z) : outcome Z :=
  a ← at_ bufp 0; b ← at_ bufp 1; c ← at_ bufp 2; d ← at_ bufp 3; Ret (i32 (be_val [a; b; c; d])).

(** The buffer [{bufp, len, len}] that a variable integer is read from. *)
Definition vibuf (bufp : list Z) (len : Z) : concat_alloc_t := mk_concat bufp len len 0 false.

(** The [switch] of [ism_common_checkMqttPropFields]: a return code, or what it
    leaves in [bufp], [len], [datalen] and [value]. *)
Definition check_data (type : MqttPropType_e) (bufp : list Z) (len : Z)
  : outcome (Z + list Z * Z * Z * Z) :=
  match type with
  | MPT_Boolean => Ret (inr (bufp, len, 0, 1))
  | MPT_Int1 =>
      if len >=? 1 then value ← at_ bufp 0; Ret (inr (bufp, len, 1, value))
      else Ret (inr (bufp, len, 1, 0))
  | MPT_Int2 =>
      if len >=? 2 then value ← BIGINT16 bufp 0; Ret (inr (bufp, len, 2, value))
      else Ret (inr (bufp, len, 2, 0))
  | MPT_Int4 =>
      if len >=? 4 then value ← BIGINT32 bufp; Ret (inr (bufp, len, 4, value))
      else Ret (inr (bufp, len, 4, 0))
  | MPT_Bytes | MPT_String =>
      if len <? 2 then Ret (inl ISMRC_BadLength)
      else datalen ← BIGINT16 bufp 0; Ret (inr (drop 2 bufp, len - 2, datalen, 0))
  | MPT_NamePair =>
      namelen ← (if len >=? 4 then BIGINT16 bufp 0 else Ret 4);
      if namelen >? len - 4 then Ret (inl ISMRC_BadLength)
      else
        vallen ← BIGINT16 bufp (namelen + 2);
        if vallen >? len - namelen - 4 then Ret (inl ISMRC_BadLength)
        else Ret (inr (bufp, len, namelen + vallen + 4, namelen))
  | MPT_VarInt =>
      '(value, vib) ← ism_common_getMqttVarInt (vibuf bufp len);
      if value <? 0 then Ret (inl ISMRC_BadLength)
      else Ret (inr (bufp, len, cpos vib, value))
  | MPT_Undef => Ret (inl ISMRC_BadClientData)
  end.

(** [!(fld->valid & CPOI_MULTI)] and the test inside it, for an id seen before. *)
Definition dup_error (valid flags : Z) : bool :=
  (Z.land valid CPOI_MULTI =? 0)
  && ((Z.land flags CPOI_IS_ALT =? 0) || negb (Z.land valid CPOI_ALT_MULTI =? CPOI_ALT_MULTI)).

Section Check.

(** The caller's callback with its [userdata]: it is given the field, the bytes
    from [ptr] on, their number and the value, and returns a code. *)
Context {U : Type} (check : option (U -> mqtt_prop_field_t -> list Z -> Z -> Z -> outcome (U * Z))).

(** [foundtab] has a byte for each id up to [max_id]. *)
Fixpoint check_loop (fuel : nat) (ctx : mqtt_prop_ctx_t) (flags : Z) (bufp : list Z) (len : Z)
    (foundtab : list bool) (u : U) : outcome (Z * U) :=
  if len =? 0 then Ret (0, u)
  else match fuel with
  | O => Hang
  | S fuel =>
      id ← at_ bufp 0;
      let bufp := drop 1 bufp in
      let len := len - 1 in
      if id >? max_id ctx then Ret (ISMRC_BadClientData, u)
      else
        p ← find_field ctx id;
        match p with
        | None => Ret (ISMRC_BadClientData, u)
        | Some fld =>
            if Z.land (fld_valid fld) flags =? 0 then Ret (ISMRC_BadClientData, u)
            else match foundtab !! Z.to_nat id with
            | None => Crash
            | Some found =>
                if found && dup_error (fld_valid fld) flags then Ret (ISMRC_BadClientData, u)
                else
                  let foundtab := <[Z.to_nat id := true]> foundtab in
                  d ← check_data (fld_type fld) bufp len;
                  match d with
                  | inl rc => Ret (rc, u)
                  | inr (bufp, len, datalen, value) =>
                      if len <? datalen then Ret (ISMRC_BadLength, u)
                      else
                        '(u, rc) ← match check with
                          | None => Ret (u, 0)
                          | Some f => f u fld bufp datalen (u32 value)
                          end;
                        if negb (rc =? 0) then Ret (rc, u)
                        else check_loop fuel ctx flags (drop (Z.to_nat datalen) bufp) (len - datalen) foundtab u
                  end
            end
        end
  end.

(** Every round takes at least the byte of the id. *)
Definition ism_common_checkMqttPropFields (bufp : list Z) (len : Z) (ctx : mqtt_prop_ctx_t)
    (flags : Z) (u : U) : outcome (Z * U) :=
  check_loop (length bufp) ctx flags bufp len (replicate (Z.to_nat (max_id ctx + 1)) false) u.

End Check.

(** ** Searching an area *)

(** What a [switch] of the two searches leads to: an answer, or [datalen]. *)
Inductive search_step (A : Type) := Answer (a : A) | Skip (datalen : Z).
Arguments Answer {A}.
Arguments Skip {A}.

(** The length of a name pair, [None] when the area is too short.  [short] is the
    answer, or the length, for fewer than four bytes. *)
Definition name_pair_step {A} (bufp : list Z) (len : Z) (short : search_step A) (none : A)
  : outcome (search_step A) :=
  if len >=? 4 then
    datalen ← BIGINT16 bufp 0;
    if datalen + 4 >? len then Ret (Answer none)
    else n ← BIGINT16 bufp (datalen + 2); Ret (Skip (datalen + (n + 4)))
  else Ret short.

(** [value] is unsigned, so that the test [value < 0] never holds. *)
Definition varint_step (bufp : list Z) (len : Z) : outcome (Z * Z) :=
  c ← at_ bufp 0;
  if negb (Z.land c 0x80 =? 0) then
    '(value, vib) ← ism_common_getMqttVarInt (vibuf bufp len);
    Ret (u32 value, cpos vib)
  else Ret (Z.land c 0x7f, 1).

(** The [switch] of [ism_common_getMqttPropField]; [here] is [id == which]. *)
Definition field_data (type : MqttPropType_e) (here : bool) (deflt : Z) (bufp : list Z) (len : Z)
  : outcome (search_step Z) :=
  match type with
  | MPT_Boolean => Ret (if here then Answer 1 else Skip 0)
  | MPT_Int1 =>
      if here && (len >=? 1) then v ← at_ bufp 0; Ret (Answer v) else Ret (Skip 1)
  | MPT_Int2 =>
      if here && (len >=? 2) then v ← BIGINT16 bufp 0; Ret (Answer v) else Ret (Skip 2)
  | MPT_Int4 =>
      if here && (len >=? 4) then v ← BIGINT32 bufp; Ret (Answer v) else Ret (Skip 4)
  | MPT_String =>
      if len >=? 2 then
        n ← BIGINT16 bufp 0; if here then Ret (Answer deflt) else Ret (Skip (n + 2))
      else Ret (Answer deflt)
  | MPT_NamePair => name_pair_step bufp len (Answer deflt) deflt
  | MPT_VarInt =>
      if len >=? 1 then
        '(value, datalen) ← varint_step bufp len;
        if here then Ret (Answer (i32 value)) else Ret (Skip datalen)
      else Ret (Skip 1)
  | MPT_Undef | MPT_Bytes => Ret (Answer deflt)
  end.

(** The [switch] of [ism_common_getMqttPropString]: a string is answered with the
    bytes from its start on and its length. *)
Definition string_data (type : MqttPropType_e) (here : bool) (bufp : list Z) (len : Z)
  : outcome (search_step (option (list Z * Z))) :=
  match type with
  | MPT_Boolean => Ret (Skip 0)
  | MPT_Int1 => Ret (if here then Answer None else Skip 1)
  | MPT_Int2 => Ret (if here then Answer None else Skip 2)
  | MPT_Int4 => Ret (if here then Answer None else Skip 4)
  | MPT_String =>
      if len >=? 2 then
        datalen ← BIGINT16 bufp 0;
        if here && (len >=? datalen + 2) then Ret (Answer (Some (drop 2 bufp, datalen)))
        else Ret (Skip (datalen + 2))
      else Ret (Skip 2)
  | MPT_NamePair => name_pair_step bufp len (Skip 4) None
  | MPT_VarInt =>
      if len >=? 1 then
        '(_, datalen) ← varint_step bufp len;
        if here then Ret (Answer None) else Ret (Skip datalen)
      else Ret (Skip 1)
  | MPT_Undef | MPT_Bytes => Ret (Answer None)
  end.

(** The loop that both searches have. *)
Fixpoint search_loop {A} (fuel : nat) (ctx : mqtt_prop_ctx_t) (which : Z) (none : A)
    (data : MqttPropType_e -> bool -> list Z -> Z -> outcome (search_step A))
    (bufp : list Z) (len : Z) : outcome A :=
  if len =? 0 then Ret none
  else match fuel with
  | O => Hang
  | S fuel =>
      id ← at_ bufp 0;
      let bufp := drop 1 bufp in
      let len := len - 1 in
      if id >? max_id ctx then Ret none
      else
        p ← find_field ctx id;
        match p with
        | None => Ret none
        | Some fld =>
            d ← data (fld_type fld) (id =? which) bufp len;
            match d with
            | Answer a => Ret a
            | Skip datalen =>
                if len <? datalen then Ret none
                else search_loop fuel ctx which none data (drop (Z.to_nat datalen) bufp) (len - datalen)
            end
        end
  end.

Definition ism_common_getMqttPropField (bufp : list Z) (len which : Z) (ctx : mqtt_prop_ctx_t)
    (deflt : Z) : outcome Z :=
  search_loop (length bufp) ctx which deflt (fun type here => field_data type here deflt) bufp len.

Definition ism_common_getMqttPropString (bufp : list Z) (len which : Z) (ctx : mqtt_prop_ctx_t)
  : outcome (option (list Z * Z)) :=
  search_loop (length bufp) ctx which None string_data bufp len.

(** ** Writing properties *)

Definition ism_common_putMqttPropField (mem : allocator) (id : Z) (ctx : mqtt_prop_ctx_t) (value : Z)
    (buf : concat_alloc_t) : outcome (Z * concat_alloc_t) :=
  p ← find_field ctx id;
  match p with
  | None => Crash
  | Some fld =>
      match fld_type fld with
      | MPT_Boolean =>
          if negb (value =? 0) then buf ← bputchar mem id buf; Ret (0, buf) else Ret (0, buf)
      | MPT_Int1 =>
          buf ← bputchar mem id buf; buf ← bputchar mem value buf; Ret (0, buf)
      | MPT_Int2 =>
          buf ← bputchar mem id buf;
          buf ← bputchar mem (Z.shiftr value 8) buf; buf ← bputchar mem value buf; Ret (0, buf)
      | MPT_Int4 =>
          buf ← bputchar mem id buf;
          buf ← bputchar mem (Z.shiftr value 24) buf; buf ← bputchar mem (Z.shiftr value 16) buf;
          buf ← bputchar mem (Z.shiftr value 8) buf; buf ← bputchar mem value buf; Ret (0, buf)
      | MPT_VarInt =>
          buf ← bputchar mem id buf; buf ← ism_common_putMqttVarInt mem value buf; Ret (0, buf)
      | _ => Ret (ISMRC_Error, buf)
      end
  end.

(** Two bytes of length and the bytes; a negative [len] stands for [strlen(value)]. *)
Definition c_len (value : list Z) (len : Z) : Z :=
  if len <? 0 then Z.of_nat (length (until_nul value)) else len.

Definition put_counted16 (mem : allocator) (value : list Z) (len : Z) (buf : concat_alloc_t)
  : outcome concat_alloc_t :=
  buf ← bputchar mem (Z.shiftr len 8) buf;
  buf ← bputchar mem len buf;
  if negb (len =? 0) then ism_common_allocBufferCopyLen mem value len buf else Ret buf.

Definition ism_common_putMqttPropString (mem : allocator) (id : Z) (ctx : mqtt_prop_ctx_t)
    (value : list Z) (len : Z) (buf : concat_alloc_t) : outcome (Z * concat_alloc_t) :=
  p ← find_field ctx id;
  match p with
  | None => Crash
  | Some fld =>
      match fld_type fld with
      | MPT_String | MPT_Bytes =>
          buf ← bputchar mem id buf;
          buf ← put_counted16 mem value (c_len value len) buf; Ret (0, buf)
      | _ => Ret (ISMRC_Error, buf)
      end
  end.

Definition ism_common_putMqttPropNamePair (mem : allocator) (id : Z) (ctx : mqtt_prop_ctx_t)
    (name : list Z) (namelen : Z) (value : list Z) (len : Z) (buf : concat_alloc_t)
  : outcome (Z * concat_alloc_t) :=
  p ← find_field ctx id;
  match p with
  | None => Crash
  | Some fld =>
      match fld_type fld with
      | MPT_NamePair =>
          buf ← bputchar mem id buf;
          buf ← put_counted16 mem name (c_len name namelen) buf;
          buf ← put_counted16 mem value (c_len value len) buf; Ret (0, buf)
      | _ => Ret (ISMRC_Error, buf)
      end
  end.
