(* ===== verification/MqttVarInt.v ===== *)
(** * Variable length integers of MQTT: correctness

    The encoding as a function, and the theorems that the readers and the writer of
    [MqttProp] implement it. *)

From stdpp Require Import sets.
From S2P Require Import Prelude Buffer MqttProp.
#[local] Open Scope Z_scope.

(** ** The encoding *)

(** Seven bits a byte, least significant first, the high bit on all but the last;
    [n] is the number of bytes allowed after the first. *)
Fixpoint enc_varint_n (n : nat) (v : Z) : list Z :=
  match n with
  | O => [v]
  | S n => if v <? 128 then [v] else (v mod 128 + 128) :: enc_varint_n n (v / 128)
  end.

Definition enc_varint (v : Z) : list Z := enc_varint_n 3 v.

Definition wf_varint (v : Z) : Prop := 0 <= v <= 268435455.

(** The bytes [bs] are what [get] reads from [bp] on. *)
Definition reads (get : Z -> outcome Z) (bp : Z) (bs : list Z) : Prop :=
  forall i c, bs !! i = Some c -> get (bp + Z.of_nat i) = Ret c.

Lemma byte_high c : is_byte c -> (Z.land c 0x80 =? 0) = (c <? 128).
Proof.
  intros Hc. apply (byte_cases (fun c => Bool.eqb (Z.land c 0x80 =? 0) (c <? 128)) eq_refl) in Hc.
  by apply Bool.eqb_prop.
Qed.

Lemma byte_low c : is_byte c -> Z.land c 0x7f = if c <? 128 then c else c - 128.
Proof.
  intros Hc. change 0x7f with (Z.ones 7). rewrite (Z.land_ones c 7) by lia. unfold is_byte in Hc. change (2 ^ 7) with 128.
  destruct (Z.ltb_spec c 128); [by rewrite Z.mod_small by lia|].
  replace c with (c - 128 + 1 * 128) at 1 by lia. rewrite Z.mod_add, Z.mod_small; lia.
Qed.

Lemma reads_cons get bp c bs : reads get bp (c :: bs) -> get bp = Ret c /\ reads get (bp + 1) bs.
Proof.
  intros H. split.
  - rewrite <-(Z.add_0_r bp). apply (H 0%nat c eq_refl).
  - intros i d Hi. replace (bp + 1 + Z.of_nat i) with (bp + Z.of_nat (S i)) by lia. by apply H.
Qed.

Lemma enc_varint_bytes n v : 0 <= v < 128 ^ (Z.of_nat n + 1) -> Forall is_byte (enc_varint_n n v).
Proof.
  revert v. induction n as [|n IH]; intros v Hv; cbn [enc_varint_n].
  - apply Forall_singleton. unfold is_byte. lia.
  - destruct (Z.ltb_spec v 128); [apply Forall_singleton; unfold is_byte; lia|].
    pose proof (Z.mod_pos_bound v 128 ltac:(lia)).
    constructor; [unfold is_byte; lia|]. apply IH.
    split; [apply Z.div_pos; lia|]. apply Z.div_lt_upper_bound; [lia|].
    rewrite Nat2Z.inj_succ in Hv. replace (Z.succ (Z.of_nat n) + 1) with (Z.succ (Z.of_nat n + 1)) in Hv by lia.
    rewrite Z.pow_succ_r in Hv by lia. lia.
Qed.

Lemma length_enc_varint n v : (1 <= length (enc_varint_n n v) <= n + 1)%nat.
Proof.
  revert v. induction n as [|n IH]; intros v; cbn [enc_varint_n]; [simpl; lia|].
  destruct (v <? 128); simpl; [lia|]. specialize (IH (v / 128)). lia.
Qed.

(** What the loop answers on the encoding of the rest of a value. *)
Definition varint_result (n : nat) (count len multshift v : Z) : outcome (option (Z * Z)) :=
  Ret (Some (len + v * 2 ^ multshift, count + Z.of_nat (length (enc_varint_n n v)))).

(** One round of the loop. *)
Lemma varint_loop_round fuel get bp count buflen len ms c :
  count < 4 -> 1 < buflen -> 0 <= ms -> get bp = Ret c -> is_byte c ->
  varint_loop (S fuel) get bp count buflen len ms
  = if c <? 128 then if c =? 0 then Ret None else Ret (Some (len + c * 2 ^ ms, count + 1))
    else varint_loop fuel get (bp + 1) (count + 1) (buflen - 1) (len + (c - 128) * 2 ^ ms) (ms + 7).
Proof.
  intros Hn Hl Hms Hg Hc. cbn [varint_loop]. destruct (Z.gtb_spec (count + 1) 4); [lia|].
  destruct (Z.leb_spec (buflen - 1) 0); [lia|]. simpl orb. cbv iota.
  rewrite Hg, bind_ret, byte_high, byte_low, Z.shiftl_mul_pow2 by done.
  by destruct (c <? 128).
Qed.

Lemma pow128_succ n : 128 ^ (Z.of_nat (S n) + 1) = 128 * 128 ^ (Z.of_nat n + 1).
Proof. rewrite Nat2Z.inj_succ, Z.add_succ_l, Z.pow_succ_r by lia. done. Qed.

Lemma varint_loop_enc n get bp count buflen len ms v bs :
  count = 3 - Z.of_nat n -> 0 <= ms -> 0 < v < 128 ^ (Z.of_nat n + 1) ->
  Z.of_nat (length (enc_varint_n n v)) < buflen ->
  reads get bp (enc_varint_n n v ++ bs) ->
  varint_loop (S (S n)) get bp count buflen len ms = varint_result n count len ms v.
Proof.
  unfold varint_result. revert bp count buflen len ms v.
  assert (Hone : forall fuel bp count buflen len ms v, count < 4 -> 1 < buflen -> 0 <= ms ->
            0 < v < 128 -> get bp = Ret v ->
            varint_loop (S fuel) get bp count buflen len ms = Ret (Some (len + v * 2 ^ ms, count + 1))).
  { intros fuel bp count buflen len ms v ? ? ? Hv Hg.
    rewrite (varint_loop_round _ _ _ _ _ _ _ v) by (try unfold is_byte; done || lia).
    rewrite (proj2 (Z.ltb_lt v 128)) by lia. destruct (Z.eqb_spec v 0); [lia|done]. }
  induction n as [|n IH]; intros bp count buflen len ms v -> Hms Hv Hl Hr; cbn [enc_varint_n] in *;
    [|destruct (Z.ltb_spec v 128) as [Hs|Hs]].
  1: change (128 ^ (Z.of_nat 0 + 1)) with 128 in Hv.
  1,2: simpl in Hl; apply reads_cons in Hr as [Hg _]; apply Hone; try done; lia.
  apply reads_cons in Hr as [Hg Hr]. simpl length in *. rewrite pow128_succ in Hv.
  pose proof (Z.mod_pos_bound v 128 ltac:(lia)).
  rewrite (varint_loop_round _ _ _ _ _ _ _ (v mod 128 + 128)) by (try unfold is_byte; done || lia).
  destruct (Z.ltb_spec (v mod 128 + 128) 128); [lia|].
  rewrite (IH _ _ _ _ _ (v / 128)); [| lia | lia | | lia | exact Hr].
  2: { split; [apply Z.div_str_pos; lia | apply Z.div_lt_upper_bound; lia]. }
  rewrite Z.pow_add_r by lia. do 3 f_equal; [|lia].
  rewrite (Z.div_mod v 128) at 3 by lia. change (2 ^ 7) with 128. ring.
Qed.

Lemma enc_varint_small n c : 0 <= c < 128 -> enc_varint_n n c = [c] /\ c < 128 ^ (Z.of_nat n + 1).
Proof.
  intros Hc. split.
  - destruct n; cbn [enc_varint_n]; [done|]. by rewrite (proj2 (Z.ltb_lt c 128)) by lia.
  - pose proof (Z.pow_pos_nonneg 128 (Z.of_nat n)). rewrite Z.pow_add_r by lia. lia.
Qed.

(** What the loop reads it was given an encoding of. *)
Lemma varint_loop_inv n get bp count buflen len ms bs r :
  count = 3 - Z.of_nat n -> 0 <= ms -> Forall is_byte bs -> reads get bp bs ->
  buflen = Z.of_nat (length bs) + 1 ->
  varint_loop (S (S n)) get bp count buflen len ms = r ->
  r = Ret None \/ exists v rest, bs = enc_varint_n n v ++ rest /\ 0 < v < 128 ^ (Z.of_nat n + 1).
Proof.
  revert bp count buflen len ms bs. induction n as [|n IH];
    intros bp count buflen len ms bs -> Hms Hby Hr -> E; (destruct bs as [|c bs];
    [left; subst r; cbn [varint_loop]; simpl length; rewrite orb_true_r; done|]);
    pose proof (Forall_cons_1 _ _ _ Hby) as [Hc Hby']; unfold is_byte in Hc;
    apply reads_cons in Hr as [Hg Hr'];
    rewrite (varint_loop_round _ _ _ _ _ _ _ c) in E by (simpl length; done || lia);
    (destruct (Z.ltb_spec c 128);
     [destruct (Z.eqb_spec c 0); [by left|]; right; exists c, bs;
      match goal with |- _ = enc_varint_n ?n _ ++ _ /\ _ =>
        destruct (enc_varint_small n c) as [-> ?]; [lia|]; split; [done|lia] end|]).
  - left. subst r. reflexivity.
  - destruct (IH (bp + 1) _ _ (len + (c - 128) * 2 ^ ms) (ms + 7) bs eq_refl ltac:(lia) Hby' Hr' eq_refl)
      as [?|(v & rest & -> & Hv)]; [|by left|right].
    { rewrite <-E. f_equal; simpl length; lia. }
    exists (v * 128 + (c - 128)), rest. rewrite pow128_succ.
    split; [|lia]. cbn [enc_varint_n]. destruct (Z.ltb_spec (v * 128 + (c - 128)) 128); [lia|].
    rewrite (Z.add_comm (v * 128)), Z.mod_add, Z.div_add, Z.mod_small, Z.div_small by lia.
    simpl. f_equal. lia.
Qed.

(** Reading an encoding gives the value; whatever is read is one. *)
Lemma read_varint_enc get bp v bs :
  wf_varint v -> reads get bp (enc_varint v ++ bs) ->
  read_varint get bp (Z.of_nat (length (enc_varint v ++ bs)))
  = Ret (Some (v, Z.of_nat (length (enc_varint v)))).
Proof.
  unfold wf_varint, enc_varint. intros Hv Hr. unfold read_varint. rewrite length_app.
  pose proof (length_enc_varint 3 v). destruct (Z.ltb_spec (Z.of_nat (length (enc_varint_n 3 v) + length bs)) 1); [lia|].
  change (enc_varint_n 3 v) with (if v <? 128 then [v] else (v mod 128 + 128) :: enc_varint_n 2 (v / 128)) in *.
  destruct (Z.ltb_spec v 128); apply reads_cons in Hr as [-> Hr]; cbn [mbind outcome_bind].
  - rewrite byte_high by (unfold is_byte; lia). by rewrite (proj2 (Z.ltb_lt v 128)) by lia.
  - pose proof (Z.mod_pos_bound v 128 ltac:(lia)).
    rewrite byte_high, byte_low by (unfold is_byte; lia).
    destruct (Z.ltb_spec (v mod 128 + 128) 128); [lia|]. unfold varint_fuel. cbn [negb].
    rewrite (varint_loop_enc 2 _ _ _ _ _ _ (v / 128) bs); [| lia | lia | | simpl length; lia | exact Hr].
    2: { split; [apply Z.div_str_pos; lia | apply Z.div_lt_upper_bound; simpl; lia]. }
    unfold varint_result. do 3 f_equal; [|simpl length; lia].
    rewrite (Z.div_mod v 128) at 3 by lia. change (2 ^ 7) with 128. ring.
Qed.

Lemma read_varint_inv get bp bs r :
  Forall is_byte bs -> reads get bp bs -> read_varint get bp (Z.of_nat (length bs)) = r ->
  r = Ret None \/ exists v rest, bs = enc_varint v ++ rest /\ wf_varint v.
Proof.
  intros Hby Hr E. unfold read_varint in E. destruct bs as [|c bs]; [by left|].
  pose proof (Forall_cons_1 _ _ _ Hby) as [Hc Hby']. unfold is_byte in Hc.
  apply reads_cons in Hr as [Hg Hr]. rewrite Hg, bind_ret, byte_high, byte_low in E by done.
  destruct (Z.ltb_spec (Z.of_nat (length (c :: bs))) 1); [simpl length in *; lia|].
  unfold enc_varint, wf_varint. destruct (Z.ltb_spec c 128); cbn [negb] in E.
  - right. exists c, bs. destruct (enc_varint_small 3 c) as [-> _]; [lia|]. split; [done|lia].
  - apply (varint_loop_inv 2 _ _ _ _ _ _ bs) in E as [E|(v & rest & -> & Hv)]; [by left| |done|lia|done|done|simpl length; lia].
    right. exists (v * 128 + (c - 128)), rest. change (128 ^ (Z.of_nat 2 + 1)) with 2097152 in Hv.
    split; [|lia]. change (enc_varint_n 3 ?v) with (if v <? 128 then [v] else (v mod 128 + 128) :: enc_varint_n 2 (v / 128)).
    destruct (Z.ltb_spec (v * 128 + (c - 128)) 128); [lia|].
    rewrite (Z.add_comm (v * 128)), Z.mod_add, Z.div_add, Z.mod_small, Z.div_small by lia.
    simpl. f_equal. lia.
Qed.

Lemma at_lookup bs i : at_ bs (Z.of_nat i) = match bs !! i with Some v => Ret v | None => Crash end.
Proof. unfold at_. rewrite decide_True by lia. by rewrite Nat2Z.id. Qed.

Lemma reads_at_ bs : reads (at_ bs) 0 bs.
Proof. intros i c Hi. rewrite Z.add_0_l, at_lookup. by rewrite Hi. Qed.

Lemma reads_rd b bs post :
  0 <= cpos b -> drop (Z.to_nat (cpos b)) (contents b) = bs ++ post -> buf_wf b ->
  reads (rd b) (cpos b) bs.
Proof.
  intros Hp Hd Hb i c Hi. rewrite <-(Z2Nat.id (cpos b)), <-Nat2Z.inj_add by done.
  apply rd_contents; [done|]. rewrite <-lookup_drop, Hd. by apply lookup_app_l_Some.
Qed.

Lemma reads_vibuf bs : reads (rd (vibuf bs (Z.of_nat (length bs)))) 0 bs.
Proof. intros i c Hi. unfold rd, vibuf; simpl. rewrite Z.add_0_l, decide_True by lia. by rewrite Nat2Z.id, Hi. Qed.

Lemma getMqttVarInt_enc v rest :
  wf_varint v -> let bs := enc_varint v ++ rest in let n := Z.of_nat (length bs) in
  ism_common_getMqttVarInt (vibuf bs n)
  = Ret (v, set_pos (vibuf bs n) (Z.of_nat (length (enc_varint v)))).
Proof.
  intros Hv bs n. unfold ism_common_getMqttVarInt. simpl cused; simpl cpos. rewrite Z.sub_0_r.
  unfold n, bs. rewrite read_varint_enc; auto using reads_vibuf.
Qed.

Lemma getMqttVarInt_inv bs r :
  Forall is_byte bs -> let n := Z.of_nat (length bs) in
  ism_common_getMqttVarInt (vibuf bs n) = r ->
  r = Ret (-1, vibuf bs n) \/ exists v rest, bs = enc_varint v ++ rest /\ wf_varint v.
Proof.
  intros Hby n E. unfold ism_common_getMqttVarInt in E. simpl cused in E; simpl cpos in E.
  rewrite Z.sub_0_r in E. destruct (read_varint _ _ _) eqn:R in E;
    (destruct (read_varint_inv _ _ bs _ Hby (reads_vibuf bs) R) as [?|?]; [|by right]);
    simplify_eq/=; by left.
Qed.

(** ** Writing *)

Lemma u8_lor_80 x : 0 <= x -> u8 (Z.lor x 0x80) = x mod 128 + 128.
Proof.
  intros Hx. unfold wrapu. rewrite <-(Z.land_ones _ 8), Z.land_lor_distr_l, Z.land_ones by lia.
  change (Z.land 128 (Z.ones 8)) with 128. change (2 ^ 8) with 256.
  pose proof (Z.mod_pos_bound x 256 ltac:(lia)) as Hc.
  assert (Z.lor (x mod 256) 128 = (x mod 256) mod 128 + 128) as ->.
  { apply Z.eqb_eq. apply (byte_cases (fun c => Z.lor c 128 =? c mod 128 + 128)); [done|exact Hc]. }
  f_equal. rewrite <-Znumtheory.Zmod_div_mod; [done|lia|lia|by exists 2].
Qed.

Lemma shiftr_7 x n : 0 <= n -> Z.shiftr x (n + 7) = Z.shiftr x n / 128.
Proof. intros. by rewrite <-Z.shiftr_shiftr, (Z.shiftr_div_pow2 _ 7) by lia. Qed.

(** A byte with and without the high bit. *)
Lemma bputchar_high mem x :
  alloc_total mem -> 0 <= x -> emits_grow mem (bputchar mem (Z.lor x 0x80)) [x mod 128 + 128].
Proof. intros Hm Hx. rewrite <-u8_lor_80 by done. by apply emits_grow_bputchar. Qed.

Lemma bputchar_byte mem x : alloc_total mem -> is_byte x -> emits_grow mem (bputchar mem x) [x].
Proof.
  intros Hm Hx. rewrite <-(wrapu_small 8 x) at 2 by (done || lia). by apply emits_grow_bputchar.
Qed.

Lemma bputchar_low7 mem v :
  alloc_total mem ->
  emits_grow mem (bputchar mem (Z.lor (Z.land v 0x7f) 0x80)) [v mod 128 + 128].
Proof.
  intros Hm. change 0x7f with (Z.ones 7). rewrite Z.land_ones by lia. change (2 ^ 7) with 128.
  rewrite <-(Z.mod_mod v 128) at 2 by lia. apply bputchar_high; [done|].
  apply Z.mod_pos_bound. lia.
Qed.

Lemma putMqttVarInt_emits mem v :
  alloc_total mem -> wf_varint v -> emits_grow mem (ism_common_putMqttVarInt mem v) (enc_varint v).
Proof.
  intros Hm Hv. unfold wf_varint in Hv. unfold enc_varint, ism_common_putMqttVarInt. cbn [enc_varint_n].
  change 21 with (14 + 7). rewrite shiftr_7 by lia. change 14 with (7 + 7). rewrite shiftr_7 by lia.
  rewrite (Z.shiftr_div_pow2 v 7) by lia. change (2 ^ 7) with 128.
  assert (Hd : forall x n, 0 <= x < 128 * n -> 0 <= x / 128 < n).
  { intros x n Hx. split; [apply Z.div_pos; lia|apply Z.div_lt_upper_bound; lia]. }
  assert (Hge : forall x n, 128 * n <= x -> n <= x / 128) by (intros; apply Z.div_le_lower_bound; lia).
  pose proof (Hd v 2097152 ltac:(lia)) as H1. pose proof (Hd _ 16384 H1) as H2. pose proof (Hd _ 128 H2) as H3.
  destruct (Z.gtb_spec v 268435455); [lia|]. destruct (Z.ltb_spec v 0); [lia|]. simpl orb. cbv iota.
  destruct (Z.leb_spec v 127); [rewrite (proj2 (Z.ltb_lt v 128)) by lia; apply bputchar_byte; unfold is_byte; auto; lia|].
  destruct (Z.ltb_spec v 128); [lia|].
  destruct (Z.leb_spec v 16383).
  { pose proof (Hd v 128 ltac:(lia)). rewrite (proj2 (Z.ltb_lt (v / 128) 128)) by lia.
    apply (emits_grow_bind mem _ _ [_] _ (bputchar_low7 mem v Hm)).
    apply bputchar_byte; unfold is_byte; auto; lia. }
  pose proof (Hge v 128 ltac:(lia)). destruct (Z.ltb_spec (v / 128) 128); [lia|].
  destruct (Z.leb_spec v 2097151).
  { pose proof (Hd (v / 128) 128 (Hd v 16384 ltac:(lia))).
    rewrite (proj2 (Z.ltb_lt (v / 128 / 128) 128)) by lia.
    apply (emits_grow_bind mem _ _ [_] _ (bputchar_low7 mem v Hm)).
    apply (emits_grow_bind mem _ _ [_]); [apply bputchar_high; [done|lia]|].
    apply bputchar_byte; unfold is_byte; auto; lia. }
  pose proof (Hge (v / 128) 128 (Hge v 16384 ltac:(lia))).
  destruct (Z.ltb_spec (v / 128 / 128) 128); [lia|].
  apply (emits_grow_bind mem _ _ [_] _ (bputchar_low7 mem v Hm)).
  apply (emits_grow_bind mem _ _ [_]); [apply bputchar_high; [done|lia]|].
  apply (emits_grow_bind mem _ _ [_]); [apply bputchar_high; [done|lia]|].
  apply bputchar_byte; unfold is_byte; auto; lia.
Qed.

(** C20. The reader of variable length integers answers a value exactly when the buffer
    starts with the value's shortest encoding, of one to four bytes, and then says
    how many bytes it used; on every other input it returns -1 and leaves the
    number of used bytes alone.  It reads nothing outside the buffer. *)
Theorem varint_exact bs used :
  Forall is_byte bs ->
  (exists v rest, wf_varint v /\ bs = enc_varint v ++ rest /\ (1 <= length (enc_varint v) <= 4)%nat
     /\ ism_common_getMqttVarIntExp bs (Z.of_nat (length bs)) used
         = Ret (v, Z.of_nat (length (enc_varint v))))
  \/ ((~ exists v rest, wf_varint v /\ bs = enc_varint v ++ rest)
      /\ ism_common_getMqttVarIntExp bs (Z.of_nat (length bs)) used = Ret (-1, used)).
Proof.
  intros Hby. unfold ism_common_getMqttVarIntExp.
  destruct (read_varint_inv _ _ bs _ Hby (reads_at_ bs) eq_refl) as [E|(v & rest & -> & Hv)].
  - right. split; [|by rewrite E]. intros (v & rest & Hv & ->).
    by rewrite read_varint_enc in E by auto using reads_at_.
  - left. exists v, rest. split; [done|]. split; [done|]. split; [apply (length_enc_varint 3)|].
    by rewrite read_varint_enc by auto using reads_at_.
Qed.

Example varint_exact_witness :
  exists v rest, [0x80; 0x01; 7] = enc_varint v ++ rest /\
  ism_common_getMqttVarIntExp [0x80; 0x01; 7] 3 9 = Ret (v, Z.of_nat (length (enc_varint v))).
Proof.
  destruct (varint_exact [0x80; 0x01; 7] 9 ltac:(is_bytes)) as [(v & rest & _ & E & _ & R)|[_ E]].
  - exists v, rest. split; [exact E|exact R].
  - vm_compute in E. discriminate E.
Defined.

(** C21. When every request for memory is met and the buffer is shorter than 2^30
    bytes, writing a value of the range of variable length integers appends its
    encoding, of at most four bytes, and reading at that place gives the value back
    and moves past it; a value outside of the range writes nothing.  (Without memory
    the bytes that do not fit are dropped without notice:
    [byte_dropped_without_memory].) *)
Theorem varint_roundtrip mem v b :
  alloc_total mem -> buf_wf b -> cused b + 20 <= 2 ^ 30 ->
  exists b', ism_common_putMqttVarInt mem v b = Ret b' /\ buf_wf b' /\
    if decide (wf_varint v) then
      cused b < cused b' <= cused b + 4 /\ contents b' = contents b ++ enc_varint v /\
      ism_common_getMqttVarInt (set_pos b' (cused b)) = Ret (v, set_pos b' (cused b'))
    else b' = b.
Proof.
  intros Hm Hb Hs. destruct (decide (wf_varint v)) as [Hv|Hv].
  - pose proof (length_enc_varint 3 v) as Hl. fold (enc_varint v) in Hl.
    destruct (putMqttVarInt_emits mem v Hm Hv b Hb ltac:(lia)) as (b' & E & Hb' & Hc & _ & Hu).
    exists b'. split; [done|]. split; [done|]. split; [lia|]. split; [done|].
    unfold ism_common_getMqttVarInt. simpl cused; simpl cpos.
    replace (cused b' - cused b) with (Z.of_nat (length (enc_varint v ++ []))) by (rewrite app_nil_r; lia).
    rewrite read_varint_enc; [|done|].
    + rewrite bind_ret. unfold set_pos; simpl. do 3 f_equal. lia.
    + pose proof (length_contents b Hb). destruct Hb as [_ ? _].
      apply (reads_rd (set_pos b' (cused b)) _ []); [simpl; lia| |destruct Hb'; by split].
      change (contents (set_pos b' (cused b))) with (contents b'). simpl cpos.
      rewrite Hc, drop_app_length' by lia. by rewrite !app_nil_r.
  - exists b. split; [|done]. unfold ism_common_putMqttVarInt, wf_varint in *.
    destruct (Z.gtb_spec v 268435455); [done|]. destruct (Z.ltb_spec v 0); [done|]. lia.
Qed.

Definition demo_mem : allocator := mk_allocator (fun _ => true) (fun _ => []).
Definition demo_buf : concat_alloc_t := mk_concat [0; 0; 0; 0] 4 1 0 false.

Lemma demo_mem_total : alloc_total demo_mem.
Proof. intros n. split; [done|constructor]. Qed.

Lemma demo_buf_wf : buf_wf demo_buf.
Proof. split; [done|simpl; lia|simpl; is_bytes]. Qed.

Example varint_roundtrip_witness :
  exists b', ism_common_putMqttVarInt demo_mem 300 demo_buf = Ret b' /\ contents b' = [0; 0xAC; 2].
Proof.
  destruct (varint_roundtrip demo_mem 300 demo_buf demo_mem_total demo_buf_wf ltac:(simpl; lia))
    as (b' & E & _ & H).
  exists b'. split; [exact E|]. destruct (decide (wf_varint 300)) as [_|N];
    [exact (proj1 (proj2 H))|destruct N; unfold wf_varint; lia].
Defined.

