(* ===== verification/MqttPropCorrect.v ===== *)
(** * MQTT properties: correctness

    The encoding of property values as a function, the theorems that the readers
    and writers of [MqttProp] implement it, and that the check accepts exactly the
    areas that are encodings of properties known to the context. *)

From stdpp Require Import sets.
From S2P Require Import Prelude Buffer MqttProp MqttVarInt.
#[local] Open Scope Z_scope.

(** ** Properties and their encoding *)

Inductive pval :=
  | PBool
  | PInt1 (v : Z)
  | PInt2 (v : Z)
  | PInt4 (v : Z)
  | PVarInt (v : Z)
  | PString (s : list Z)
  | PBytes (s : list Z)
  | PPair (name value : list Z).

Definition ptype (v : pval) : MqttPropType_e :=
  match v with
  | PBool => MPT_Boolean | PInt1 _ => MPT_Int1 | PInt2 _ => MPT_Int2 | PInt4 _ => MPT_Int4
  | PVarInt _ => MPT_VarInt | PString _ => MPT_String | PBytes _ => MPT_Bytes
  | PPair _ _ => MPT_NamePair
  end.

Definition mqtt_counted (s : list Z) : list Z := be_bytes 2 (Z.of_nat (length s)) ++ s.

Definition enc_val (v : pval) : list Z :=
  match v with
  | PBool => []
  | PInt1 v => [v]
  | PInt2 v => be_bytes 2 v
  | PInt4 v => be_bytes 4 v
  | PVarInt v => enc_varint v
  | PString s | PBytes s => mqtt_counted s
  | PPair n v => mqtt_counted n ++ mqtt_counted v
  end.

Definition wf_counted (s : list Z) : Prop := Forall is_byte s /\ Z.of_nat (length s) < 65536.

Definition wf_val (v : pval) : Prop :=
  match v with
  | PBool => True
  | PInt1 v => is_byte v
  | PInt2 v => 0 <= v < 65536
  | PInt4 v => 0 <= v < 2 ^ 32
  | PVarInt v => wf_varint v
  | PString s | PBytes s => wf_counted s
  | PPair n v => wf_counted n /\ wf_counted v
  end.

(** What the callback of the check is given: the bytes and the integer. *)
Definition val_data (v : pval) : list Z :=
  match v with PString s | PBytes s => s | _ => enc_val v end.

Definition val_int (v : pval) : Z :=
  match v with
  | PBool => 1
  | PInt1 v | PInt2 v | PInt4 v | PVarInt v => v
  | PString _ | PBytes _ => 0
  | PPair n _ => Z.of_nat (length n)
  end.

Lemma be2_val n : 0 <= n < 65536 -> exists h l, be_bytes 2 n = [h; l] /\ is_byte h /\ is_byte l /\ h * 256 + l = n.
Proof.
  intros Hn. pose proof (be_val_be_bytes 2 n) as E. pose proof (be_bytes_byte 2 n) as Hb.
  pose proof (length_be_bytes 2 n) as Hl. destruct (be_bytes 2 n) as [|h [|l [|]]]; try done.
  exists h, l. rewrite !Forall_cons in Hb. split; [done|]. split; [tauto|]. split; [tauto|].
  change (256 ^ Z.of_nat 2) with 65536 in E. rewrite Z.mod_small in E by done.
  rewrite <-E. unfold be_val. simpl. lia.
Qed.

Lemma be2_enc h l : is_byte h -> is_byte l -> be_bytes 2 (h * 256 + l) = [h; l].
Proof.
  unfold is_byte. intros Hh Hl. cbn [be_bytes]. unfold wrapu.
  rewrite !Z.shiftr_div_pow2 by lia. change (2 ^ (8 * Z.of_nat 1)) with 256.
  change (2 ^ (8 * Z.of_nat 0)) with 1. change (2 ^ 8) with 256.
  rewrite Z.div_1_r, Z.div_add_l, (Z.div_small l), Z.add_0_r, Z.mod_small by lia.
  rewrite Z.add_comm, Z.mod_add, Z.mod_small by lia. done.
Qed.

Lemma at_app pre c rest : at_ (pre ++ c :: rest) (Z.of_nat (length pre)) = Ret c.
Proof. rewrite at_lookup. by rewrite lookup_app_r, Nat.sub_diag by lia. Qed.

Lemma bigint16_bytes pre h l rest i :
  i = Z.of_nat (length pre) -> is_byte h -> is_byte l ->
  BIGINT16 (pre ++ h :: l :: rest) i = Ret (h * 256 + l).
Proof.
  intros -> Hh Hl. unfold BIGINT16. rewrite at_app, bind_ret.
  pose proof (at_app (pre ++ [h]) l rest) as E. rewrite <-app_assoc, length_app in E. simpl app in E.
  replace (Z.of_nat (length pre) + 1) with (Z.of_nat (length pre + length [h])) by (simpl; lia).
  rewrite E, bind_ret, (lor_shiftl 8); [done|lia|exact Hl].
Qed.

Lemma bigint16_bytes0 h l rest :
  is_byte h -> is_byte l -> BIGINT16 (h :: l :: rest) 0 = Ret (h * 256 + l).
Proof. by apply (bigint16_bytes []). Qed.

Lemma bigint16_enc pre n rest i :
  i = Z.of_nat (length pre) -> 0 <= n < 65536 -> BIGINT16 (pre ++ be_bytes 2 n ++ rest) i = Ret n.
Proof.
  intros Hi Hn. destruct (be2_val n Hn) as (h & l & -> & Hh & Hl & <-). by apply bigint16_bytes.
Qed.

Lemma bigint16_enc0 n rest : 0 <= n < 65536 -> BIGINT16 (be_bytes 2 n ++ rest) 0 = Ret n.
Proof. by apply (bigint16_enc []). Qed.

Lemma bigint32_bytes a b c d rest : BIGINT32 (a :: b :: c :: d :: rest) = Ret (i32 (be_val [a; b; c; d])).
Proof. reflexivity. Qed.

Lemma bigint32_enc n rest : BIGINT32 (be_bytes 4 n ++ rest) = Ret (i32 n).
Proof.
  change (be_bytes 4 n ++ rest) with (u8 (Z.shiftr n (8 * Z.of_nat 3)) :: u8 (Z.shiftr n (8 * Z.of_nat 2))
    :: u8 (Z.shiftr n (8 * Z.of_nat 1)) :: u8 (Z.shiftr n (8 * Z.of_nat 0)) :: rest).
  rewrite bigint32_bytes. change [_; _; _; _] with (be_bytes 4 n). rewrite be_val_be_bytes.
  f_equal. exact (wraps_wrapu 32 n).
Qed.

Lemma be4_enc a b c d : Forall is_byte [a; b; c; d] -> be_bytes 4 (be_val [a; b; c; d]) = [a; b; c; d].
Proof.
  rewrite !Forall_cons. unfold is_byte. intros (Ha & Hb & Hc & Hd & _).
  assert (E : be_val [a; b; c; d] = ((a * 256 + b) * 256 + c) * 256 + d) by (unfold be_val; simpl; lia).
  rewrite E. cbn [be_bytes]. unfold wrapu. rewrite !Z.shiftr_div_pow2 by lia.
  change (2 ^ (8 * Z.of_nat 3)) with (256 * 65536). change (2 ^ (8 * Z.of_nat 2)) with (256 * 256).
  change (2 ^ (8 * Z.of_nat 1)) with 256. change (2 ^ (8 * Z.of_nat 0)) with 1. change (2 ^ 8) with 256.
  change 65536 with (256 * 256). rewrite <-!Z.div_div, Z.div_1_r by lia.
  rewrite !Z.div_add_l, (Z.div_small d), Z.add_0_r, Z.div_add_l, (Z.div_small c), Z.add_0_r by lia.
  rewrite Z.div_add_l, (Z.div_small b), Z.add_0_r by lia.
  rewrite (Z.mod_small a) by lia.
  rewrite !(Z.add_comm (_ * 256)), !Z.mod_add, !Z.mod_small by lia. done.
Qed.

Lemma length_mqtt_counted s : length (mqtt_counted s) = (2 + length s)%nat.
Proof. unfold mqtt_counted. by rewrite length_app, length_be_bytes. Qed.

(** The switch of the check gives, for a value, what the callback is to see. *)
Definition check_sees (type : MqttPropType_e) (v : pval) (rest : list Z) : Prop :=
  exists value,
  check_data type (enc_val v ++ rest) (Z.of_nat (length (enc_val v ++ rest)))
  = Ret (inr (val_data v ++ rest, Z.of_nat (length (val_data v ++ rest)),
              Z.of_nat (length (val_data v)), value)) /\ u32 value = val_int v.

Lemma check_counted s rest : wf_counted s -> check_sees MPT_String (PString s) rest.
Proof.
  intros [Hs Hl]. exists 0. split; [|reflexivity]. cbn [check_data enc_val val_data].
  rewrite !length_app, length_mqtt_counted.
  destruct (Z.ltb_spec (Z.of_nat (2 + length s + length rest)) 2); [lia|].
  unfold mqtt_counted. rewrite <-app_assoc, bigint16_enc0, bind_ret by lia.
  rewrite drop_app_length' by by rewrite length_be_bytes. do 5 f_equal. lia.
Qed.

Lemma check_pair n s rest : wf_counted n -> wf_counted s -> check_sees MPT_NamePair (PPair n s) rest.
Proof.
  intros [Hn Hln] [Hs Hls]. exists (Z.of_nat (length n)). split; [|cbn [val_int]; wrap_small].
  cbn [check_data enc_val val_data]. rewrite !length_app, !length_mqtt_counted.
  destruct (Z.geb_spec (Z.of_nat (2 + length n + (2 + length s) + length rest)) 4); [|lia].
  assert (E : (mqtt_counted n ++ mqtt_counted s) ++ rest
              = (be_bytes 2 (Z.of_nat (length n)) ++ n) ++ be_bytes 2 (Z.of_nat (length s)) ++ s ++ rest).
  { unfold mqtt_counted. by rewrite <-!app_assoc. }
  assert (B0 : BIGINT16 ((mqtt_counted n ++ mqtt_counted s) ++ rest) 0 = Ret (Z.of_nat (length n))).
  { rewrite E, <-app_assoc. apply bigint16_enc0; lia. }
  rewrite B0, bind_ret. match goal with |- context [?a >? ?b] => destruct (Z.gtb_spec a b) end; [lia|].
  assert (B1 : BIGINT16 ((mqtt_counted n ++ mqtt_counted s) ++ rest) (Z.of_nat (length n) + 2)
               = Ret (Z.of_nat (length s))).
  { rewrite E. apply bigint16_enc; [rewrite length_app, length_be_bytes|]; lia. }
  rewrite B1, bind_ret. match goal with |- context [?a >? ?b] => destruct (Z.gtb_spec a b) end; [lia|].
  do 4 f_equal. lia.
Qed.

Lemma check_data_enc v rest : wf_val v -> check_sees (ptype v) v rest.
Proof.
  intros Hv. destruct v as [|v|v|v|v|s|s|n s]; simpl in Hv; cbn [ptype];
    [| | | | |exact (check_counted s rest Hv)|exact (check_counted s rest Hv)|
     apply check_pair; tauto];
    unfold check_sees; cbn [check_data enc_val val_data val_int]; rewrite !length_app.
  - eexists; split; reflexivity.
  - simpl length. destruct (Z.geb_spec (Z.of_nat (1 + length rest)) 1); [|lia].
    eexists. split; [reflexivity|]. unfold is_byte in Hv. wrap_small.
  - rewrite length_be_bytes. destruct (Z.geb_spec (Z.of_nat (2 + length rest)) 2); [|lia].
    rewrite bigint16_enc0, bind_ret by done. eexists. split; [reflexivity|]. wrap_small.
  - rewrite length_be_bytes. destruct (Z.geb_spec (Z.of_nat (4 + length rest)) 4); [|lia].
    rewrite bigint32_enc, bind_ret. eexists. split; [reflexivity|]. rewrite (wrapu_wraps 32). wrap_small.
  - rewrite <-length_app, getMqttVarInt_enc, bind_ret by done.
    unfold wf_varint in Hv. destruct (Z.ltb_spec v 0); [lia|]. eexists. split; [reflexivity|]. wrap_small.
Qed.

(** What the switch accepts is the encoding of a value. *)
Definition check_refuses (type : MqttPropType_e) (bs : list Z) : Prop :=
  exists r, check_data type bs (Z.of_nat (length bs)) = Ret r /\
  match r with
  | inl rc => rc = ISMRC_BadLength \/ rc = ISMRC_BadClientData
  | inr (_, len, datalen, _) => len < datalen
  end.

Definition splits (type : MqttPropType_e) (bs : list Z) : Prop :=
  exists v rest, ptype v = type /\ wf_val v /\ bs = enc_val v ++ rest.

(** A counted string is there, or the bytes are too few. *)
Lemma counted_cases bs h l :
  Forall is_byte (h :: l :: bs) -> h * 256 + l <= Z.of_nat (length bs) ->
  exists s rest, wf_counted s /\ h :: l :: bs = mqtt_counted s ++ rest
    /\ Z.of_nat (length s) = h * 256 + l /\ bs = s ++ rest.
Proof.
  rewrite !Forall_cons. intros (Hh & Hl & Hb) Hn. set (n := Z.to_nat (h * 256 + l)). unfold is_byte in *.
  exists (take n bs), (drop n bs).
  assert (El : Z.of_nat (length (take n bs)) = h * 256 + l) by (rewrite length_take; lia).
  split; [split; [by apply Forall_take|lia]|]. split; [|split; [done|by rewrite take_drop]].
  unfold mqtt_counted. rewrite El, be2_enc by (unfold is_byte; lia). simpl. by rewrite take_drop.
Qed.

Lemma splits_intro type v rest : ptype v = type -> wf_val v -> splits type (enc_val v ++ rest).
Proof. intros ? ?. exists v, rest. auto. Qed.

Lemma counted_data_cases type mk bs :
  type = MPT_String \/ type = MPT_Bytes ->
  (forall s, ptype (mk s) = type /\ enc_val (mk s) = mqtt_counted s /\ (wf_counted s -> wf_val (mk s))) ->
  Forall is_byte bs -> splits type bs \/ check_refuses type bs.
Proof.
  intros Ht Hmk Hby. unfold check_refuses.
  replace (check_data type) with (check_data MPT_String) by (destruct Ht; subst; done). cbn [check_data].
  destruct bs as [|h [|l bs]]; [right; exists (inl ISMRC_BadLength); auto..|].
  assert (Hb2 := Hby). rewrite !Forall_cons in Hb2. destruct Hb2 as (Hh & Hl & _).
  destruct (decide (h * 256 + l <= Z.of_nat (length bs))) as [Hn|Hn].
  - left. destruct (counted_cases bs h l Hby Hn) as (s & rest & Hs & -> & _).
    destruct (Hmk s) as (Ep & Ee & Hw). rewrite <-Ee. by apply splits_intro; auto.
  - right. simpl length. destruct (Z.ltb_spec (Z.of_nat (S (S (length bs)))) 2); [lia|].
    rewrite bigint16_bytes0, bind_ret by done. eexists. split; [done|]. simpl. lia.
Qed.

Lemma pair_data_cases bs :
  Forall is_byte bs -> splits MPT_NamePair bs \/ check_refuses MPT_NamePair bs.
Proof.
  intros Hby. unfold check_refuses. cbn [check_data].
  destruct (Z.geb_spec (Z.of_nat (length bs)) 4) as [H4|H4].
  2: { right. rewrite bind_ret. destruct (Z.gtb_spec 4 (Z.of_nat (length bs) - 4)); [|lia].
       exists (inl ISMRC_BadLength). auto. }
  destruct bs as [|h [|l bs]]; [simpl in H4; lia..|].
  assert (Hb2 := Hby). rewrite !Forall_cons in Hb2. destruct Hb2 as (Hh & Hl & Hb).
  rewrite bigint16_bytes0, bind_ret by done.
  destruct (Z.gtb_spec (h * 256 + l) (Z.of_nat (length (h :: l :: bs)) - 4)) as [Hn|Hn];
    [right; exists (inl ISMRC_BadLength); auto|].
  simpl length in *. destruct (counted_cases bs h l Hby ltac:(lia)) as (n & rest & Hwn & -> & Ln & Er).
  assert (Hlr := f_equal length Er). rewrite length_app in Hlr.
  rewrite Er, Forall_app in Hb. destruct Hb as [_ Hbr]. destruct rest as [|h2 [|l2 rest]]; [simpl in *; lia..|].
  assert (Hb2 := Hbr). rewrite !Forall_cons in Hb2. destruct Hb2 as (Hh2 & Hl2 & _).
  rewrite (bigint16_bytes (mqtt_counted n) h2 l2 rest), bind_ret by (rewrite ?length_mqtt_counted; done || lia).
  match goal with |- context [?a >? ?b] => destruct (Z.gtb_spec a b) end;
    [right; exists (inl ISMRC_BadLength); auto|].
  simpl length in *. destruct (counted_cases rest h2 l2 Hbr ltac:(lia)) as (s & rest2 & Hws & -> & _).
  left. rewrite app_assoc. by apply (splits_intro _ (PPair n s)).
Qed.

Lemma check_data_cases type bs : Forall is_byte bs -> splits type bs \/ check_refuses type bs.
Proof.
  intros Hby. destruct type.
  - right. exists (inl ISMRC_BadClientData). auto.
  - destruct bs as [|a bs]; [right; exists (inr ([], 0, 1, 0)); simpl; split; [done|lia]|].
    left. apply Forall_cons in Hby as [Ha _]. by apply (splits_intro _ (PInt1 a) bs).
  - destruct bs as [|h [|l bs]]; [right; eexists; split; [reflexivity|simpl; lia]..|].
    left. rewrite !Forall_cons in Hby. destruct Hby as (Hh & Hl & _).
    assert (E : h :: l :: bs = be_bytes 2 (h * 256 + l) ++ bs) by (by rewrite be2_enc).
    rewrite E. apply (splits_intro _ (PInt2 _)); [done|]. unfold is_byte in *. simpl. lia.
  - destruct bs as [|a [|b [|c [|d bs]]]]; [right; eexists; split; [reflexivity|simpl; lia]..|].
    left. change (a :: b :: c :: d :: bs) with ([a; b; c; d] ++ bs) in *. apply Forall_app in Hby as [Hby _].
    rewrite <-be4_enc by done. apply (splits_intro _ (PInt4 _)); [done|]. exact (be_val_range _ Hby).
  - apply (counted_data_cases _ PString); auto.
  - apply (counted_data_cases _ PBytes); auto.
  - by apply pair_data_cases.
  - left. by apply (splits_intro _ PBool bs).
  - unfold check_refuses. cbn [check_data].
    destruct (getMqttVarInt_inv bs _ Hby eq_refl) as [->|(v & rest & -> & Hv)].
    + right. exists (inl ISMRC_BadLength). auto.
    + left. by apply (splits_intro _ (PVarInt v)).
Qed.

(** ** Areas *)

Definition enc_prop (p : Z * pval) : list Z := p.1 :: enc_val p.2.
Definition enc_area (ps : list (Z * pval)) : list Z := concat (map enc_prop ps).

(** The context [ctx] knows the fields [known]. *)
Class PropContext (ctx : mqtt_prop_ctx_t) (known : Z -> option mqtt_prop_field_t) : Prop := {
  known_max : 0 <= max_id ctx;
  known_find id : 0 <= id <= max_id ctx -> find_field ctx id = Ret (known id)
}.

(** A field that may occur more than once. *)
Definition repeatable (fld : mqtt_prop_field_t) : bool := negb (Z.land (fld_valid fld) CPOI_MULTI =? 0).

(** The second test of the duplicate check decides nothing: the bits
    [CPOI_ALT_MULTI] include [CPOI_MULTI]. *)
Lemma dup_error_multi fld flags : dup_error (fld_valid fld) flags = negb (repeatable fld).
Proof.
  unfold dup_error, repeatable. rewrite negb_involutive.
  destruct (Z.eqb_spec (Z.land (fld_valid fld) CPOI_MULTI) 0) as [E|E]; [|done]. simpl andb.
  destruct (Z.eqb_spec (Z.land (fld_valid fld) CPOI_ALT_MULTI) CPOI_ALT_MULTI) as [F|F];
    [|apply orb_true_r].
  assert (Z.land (Z.land (fld_valid fld) CPOI_ALT_MULTI) CPOI_MULTI = 0) as G.
  { rewrite <-Z.land_assoc. exact E. }
  rewrite F in G. discriminate.
Qed.

Section Area.
Context {ctx : mqtt_prop_ctx_t} {known : Z -> option mqtt_prop_field_t} {HC : PropContext ctx known}.
Context (flags : Z).

(** A property of a known field that is valid in the packet. *)
Definition prop_ok (p : Z * pval) : Prop :=
  0 <= p.1 <= max_id ctx /\ p.1 < 256 /\ wf_val p.2 /\
  exists fld, known p.1 = Some fld /\ Z.land (fld_valid fld) flags <> 0 /\ fld_type fld = ptype p.2.

Definition may_repeat (id : Z) : Prop := exists fld, known id = Some fld /\ repeatable fld = true.

(** A valid area, after the ids [seen]: properties that are valid, without
    duplicates where these are not allowed. *)
Fixpoint area_ok (seen : list Z) (ps : list (Z * pval)) : Prop :=
  match ps with
  | [] => True
  | p :: ps => prop_ok p /\ (p.1 ∈ seen -> may_repeat p.1) /\ area_ok (p.1 :: seen) ps
  end.

Definition found_ok (foundtab : list bool) (seen : list Z) : Prop :=
  length foundtab = Z.to_nat (max_id ctx + 1) /\
  forall id, 0 <= id <= max_id ctx -> foundtab !! Z.to_nat id = Some (bool_decide (id ∈ seen)).

Lemma found_ok_start : found_ok (replicate (Z.to_nat (max_id ctx + 1)) false) [].
Proof.
  pose proof known_max. split; [apply length_replicate|]. intros id Hid.
  rewrite lookup_replicate_2 by lia. done.
Qed.

Lemma found_ok_add foundtab seen id :
  0 <= id <= max_id ctx -> found_ok foundtab seen ->
  found_ok (<[Z.to_nat id := true]> foundtab) (id :: seen).
Proof.
  intros Hid [Hl Hf]. split; [by rewrite length_insert|]. intros j Hj.
  destruct (decide (j = id)) as [->|Hne].
  - rewrite list_lookup_insert_eq by lia. f_equal. symmetry. apply bool_decide_eq_true. set_solver.
  - rewrite list_lookup_insert_ne by lia. rewrite Hf by done. f_equal.
    apply bool_decide_ext. set_solver.
Qed.

Context {U : Type} (check : option (U -> mqtt_prop_field_t -> list Z -> Z -> Z -> outcome (U * Z))).

(** What the callback makes of one property, and of an area. *)
Definition run_check (u : U) (fld : mqtt_prop_field_t) (v : pval) (rest : list Z) : outcome (U * Z) :=
  match check with
  | None => Ret (u, 0)
  | Some f => f u fld (val_data v ++ rest) (Z.of_nat (length (val_data v))) (val_int v)
  end.

Fixpoint run_checks (u : U) (ps : list (Z * pval)) : outcome (Z * U) :=
  match ps with
  | [] => Ret (0, u)
  | (id, v) :: ps =>
      match known id with
      | None => Ret (0, u)
      | Some fld => '(u, rc) ← run_check u fld v (enc_area ps);
                    if rc =? 0 then run_checks u ps else Ret (rc, u)
      end
  end.

Lemma check_loop_head fuel id bs foundtab u :
  is_byte id ->
  check_loop check (S fuel) ctx flags (id :: bs) (Z.of_nat (length (id :: bs))) foundtab u
  = if id >? max_id ctx then Ret (ISMRC_BadClientData, u)
    else match known id with
    | None => Ret (ISMRC_BadClientData, u)
    | Some fld =>
        if Z.land (fld_valid fld) flags =? 0 then Ret (ISMRC_BadClientData, u)
        else match foundtab !! Z.to_nat id with
        | None => Crash
        | Some found =>
            if found && negb (repeatable fld) then Ret (ISMRC_BadClientData, u)
            else
              d ← check_data (fld_type fld) bs (Z.of_nat (length bs));
              match d with
              | inl rc => Ret (rc, u)
              | inr (bufp, len, datalen, value) =>
                  if len <? datalen then Ret (ISMRC_BadLength, u)
                  else
                    '(u, rc) ← match check with
                      | None => Ret (u, 0)
                      | Some f => f u fld bufp datalen (u32 value)
                      end;
                    if negb (rc =? 0) then Ret (rc, u)
                    else check_loop check fuel ctx flags (drop (Z.to_nat datalen) bufp) (len - datalen)
                           (<[Z.to_nat id := true]> foundtab) u
              end
        end
    end.
Proof.
  intros Hid. unfold is_byte in Hid. cbn [check_loop].
  destruct (Z.eqb_spec (Z.of_nat (length (id :: bs))) 0) as [E|_]; [simpl in E; lia|].
  change (at_ (id :: bs) 0) with (@Ret Z id). rewrite bind_ret. change (drop 1 (id :: bs)) with bs.
  replace (Z.of_nat (length (id :: bs)) - 1) with (Z.of_nat (length bs)) by (simpl; lia).
  destruct (Z.gtb_spec id (max_id ctx)); [done|]. rewrite known_find, bind_ret by lia.
  destruct (known id) as [fld|]; [|done]. by rewrite dup_error_multi.
Qed.

(** The check runs the callback on each property of a valid area. *)
Lemma check_loop_ok ps fuel foundtab seen u :
  area_ok seen ps -> found_ok foundtab seen -> (length (enc_area ps) <= fuel)%nat ->
  check_loop check fuel ctx flags (enc_area ps) (Z.of_nat (length (enc_area ps))) foundtab u
  = run_checks u ps.
Proof.
  revert fuel foundtab seen u. induction ps as [|[id v] ps IH]; intros fuel foundtab seen u Hok Hf Hfu.
  - by destruct fuel.
  - destruct Hok as ((Hid & Hb & Hwf & fld & Hk & Hv & Ht) & Hrep & Hok). simpl fst in *; simpl snd in *.
    change (enc_area ((id, v) :: ps)) with (id :: enc_val v ++ enc_area ps) in *.
    simpl length in Hfu. destruct fuel as [|fuel]; [lia|].
    rewrite check_loop_head by (unfold is_byte; lia).
    destruct (Z.gtb_spec id (max_id ctx)); [lia|]. cbn [run_checks]. rewrite Hk.
    destruct (Z.eqb_spec (Z.land (fld_valid fld) flags) 0); [done|].
    rewrite (proj2 Hf) by done.
    assert (bool_decide (id ∈ seen) && negb (repeatable fld) = false) as ->.
    { case_bool_decide as Hin; [|done]. destruct (Hrep Hin) as (f & Hkf & Hr). simplify_eq. by rewrite Hr. }
    destruct (check_data_enc v (enc_area ps) Hwf) as (value & Ed & Ev).
    rewrite Ht, Ed, bind_ret, Ev. rewrite length_app in *.
    destruct (Z.ltb_spec (Z.of_nat (length (val_data v) + length (enc_area ps)))
                (Z.of_nat (length (val_data v)))); [lia|].
    unfold run_check. destruct (match check with None => _ | Some _ => _ end) as [[u' rc]| |]; [|done..].
    cbn [mbind outcome_bind]. destruct (rc =? 0); [|done]. simpl negb. cbv iota.
    rewrite Nat2Z.id, drop_app_length.
    replace (Z.of_nat (length (val_data v) + length (enc_area ps)) - Z.of_nat (length (val_data v)))
      with (Z.of_nat (length (enc_area ps))) by lia.
    apply (IH _ _ (id :: seen)); [done|by apply found_ok_add|lia].
Qed.

End Area.

Section Exact.
Context {ctx : mqtt_prop_ctx_t} {known : Z -> option mqtt_prop_field_t} {HC : PropContext ctx known}.
Context (flags : Z) {U : Type}.

Lemma run_checks_none ps (u : U) : run_checks (known := known) None u ps = Ret (0, u).
Proof. induction ps as [|[id v] ps IH]; simpl; [done|]. by destruct (known id). Qed.

Definition check_answer (bs : list Z) (seen : list Z) (u : U) (r : outcome (Z * U)) : Prop :=
  (r = Ret (0, u) /\ exists ps, area_ok (ctx := ctx) (known := known) flags seen ps /\ bs = enc_area ps)
  \/ r = Ret (ISMRC_BadClientData, u) \/ r = Ret (ISMRC_BadLength, u).

Lemma check_loop_inv bs fuel foundtab seen (u : U) :
  Forall is_byte bs -> found_ok (ctx := ctx) foundtab seen -> (length bs <= fuel)%nat ->
  check_answer bs seen u (check_loop None fuel ctx flags bs (Z.of_nat (length bs)) foundtab u).
Proof.
  unfold check_answer. revert bs foundtab seen. induction fuel as [|fuel IH]; intros bs foundtab seen Hby Hf Hfu;
    (destruct bs as [|id bs]; [left; split; [done|by exists []]|]); [simpl in Hfu; lia|].
  apply Forall_cons in Hby as [Hid Hby]. rewrite check_loop_head by done. unfold is_byte in Hid.
  destruct (Z.gtb_spec id (max_id ctx)); [auto|]. destruct (known id) as [fld|] eqn:Hk; [|auto].
  destruct (Z.eqb_spec (Z.land (fld_valid fld) flags) 0); [auto|].
  rewrite (proj2 Hf) by lia.
  destruct (bool_decide (id ∈ seen) && negb (repeatable fld)) eqn:Hd; [auto|].
  destruct (check_data_cases (fld_type fld) bs Hby) as [(v & rest & Ht & Hwf & ->)|(r & -> & Hr)].
  - destruct (check_data_enc v rest Hwf) as (value & Ed & Ev). rewrite <-Ht, Ed, bind_ret, length_app.
    destruct (Z.ltb_spec (Z.of_nat (length (val_data v) + length rest)) (Z.of_nat (length (val_data v)))); [lia|].
    cbn [mbind outcome_bind]. simpl negb. cbv iota beta. rewrite Nat2Z.id, drop_app_length.
    replace (Z.of_nat (length (val_data v) + length rest) - Z.of_nat (length (val_data v)))
      with (Z.of_nat (length rest)) by lia.
    apply Forall_app in Hby as [_ Hby]. simpl length in Hfu. rewrite length_app in Hfu.
    destruct (IH rest (<[Z.to_nat id := true]> foundtab) (id :: seen) Hby) as [(-> & ps & Hps & ->)|?];
      [apply found_ok_add; [lia|done]|lia| |by right].
    left. split; [done|]. exists ((id, v) :: ps). split; [|done]. split; [|split; [|done]].
    + split; [simpl; lia|]. split; [simpl; lia|]. split; [done|]. by exists fld.
    + intros Hin. exists fld. split; [done|]. simpl in Hin.
      rewrite bool_decide_eq_true_2 in Hd by done. by destruct (repeatable fld).
  - rewrite bind_ret. destruct r as [rc|[[[bufp len] datalen] value]].
    + right. destruct Hr as [->| ->]; auto.
    + rewrite (proj2 (Z.ltb_lt len datalen)) by done. auto.
Qed.

(** C18. The check of an area, without a callback, accepts exactly the areas that are
    the encoding of properties: each of a field that the context knows and that is
    valid in the packet, with a value of the type of the field, and only repeated
    where the field allows it.  It reads nothing outside the area, and what it does
    not accept it refuses with one of two codes. *)
Theorem check_exact bs (u : U) :
  Forall is_byte bs ->
  let r := ism_common_checkMqttPropFields None bs (Z.of_nat (length bs)) ctx flags u in
  (r = Ret (0, u) <-> exists ps, area_ok (ctx := ctx) (known := known) flags [] ps /\ bs = enc_area ps)
  /\ (r = Ret (0, u) \/ r = Ret (ISMRC_BadClientData, u) \/ r = Ret (ISMRC_BadLength, u)).
Proof.
  intros Hby r. pose proof (check_loop_inv bs (length bs) _ [] u Hby found_ok_start (le_n _)) as H.
  split; [split|].
  - intros E. destruct H as [[_ H]|[H|H]]; [done|..]; unfold r, ism_common_checkMqttPropFields in E;
      rewrite H in E; discriminate.
  - intros (ps & Hps & ->). unfold r, ism_common_checkMqttPropFields.
    rewrite (check_loop_ok (known := known) flags None ps _ _ [] u Hps found_ok_start (le_n _)).
    by rewrite run_checks_none.
  - destruct H as [[H _]|[H|H]]; auto.
Qed.

End Exact.

(** ** Searching a valid area *)

Section Search.
Context {ctx : mqtt_prop_ctx_t} {known : Z -> option mqtt_prop_field_t} {HC : PropContext ctx known}.

Definition typed (p : Z * pval) : Prop := exists flags, prop_ok (ctx := ctx) (known := known) flags p.

Definition passed (which : Z) (p : Z * pval) : Prop := p.1 <> which /\ ptype p.2 <> MPT_Bytes.

Section Loop.
Context {A : Type} (none : A) (data : MqttPropType_e -> bool -> list Z -> Z -> outcome (search_step A)).
Context (Hdata : forall v rest, wf_val v -> ptype v <> MPT_Bytes ->
  data (ptype v) false (enc_val v ++ rest) (Z.of_nat (length (enc_val v ++ rest)))
  = Ret (Skip (Z.of_nat (length (enc_val v))))).

Lemma search_loop_head fuel which id v rest :
  typed (id, v) ->
  search_loop (S fuel) ctx which none data (enc_prop (id, v) ++ rest)
    (Z.of_nat (length (enc_prop (id, v) ++ rest)))
  = (d ← data (ptype v) (id =? which) (enc_val v ++ rest) (Z.of_nat (length (enc_val v ++ rest)));
     match d with
     | Answer a => Ret a
     | Skip datalen =>
         if Z.of_nat (length (enc_val v ++ rest)) <? datalen then Ret none
         else search_loop fuel ctx which none data (drop (Z.to_nat datalen) (enc_val v ++ rest))
                (Z.of_nat (length (enc_val v ++ rest)) - datalen)
     end).
Proof.
  intros (flags & Hid & Hb & Hwf & fld & Hk & _ & Ht). simpl in Hid, Hk, Ht.
  change (enc_prop (id, v) ++ rest) with (id :: enc_val v ++ rest). cbn [search_loop].
  destruct (Z.eqb_spec (Z.of_nat (length (id :: enc_val v ++ rest))) 0) as [E|_]; [simpl in E; lia|].
  change (at_ (id :: enc_val v ++ rest) 0) with (@Ret Z id). rewrite bind_ret.
  change (drop 1 (id :: enc_val v ++ rest)) with (enc_val v ++ rest).
  replace (Z.of_nat (length (id :: enc_val v ++ rest)) - 1) with (Z.of_nat (length (enc_val v ++ rest)))
    by (simpl; lia).
  destruct (Z.gtb_spec id (max_id ctx)); [lia|]. by rewrite known_find, bind_ret, Hk, Ht by lia.
Qed.

(** A search passes over the properties before the one it looks for. *)
Lemma search_loop_passes fuel which ps rest :
  Forall typed ps -> Forall (passed which) ps ->
  search_loop (length ps + fuel) ctx which none data (enc_area ps ++ rest)
    (Z.of_nat (length (enc_area ps ++ rest)))
  = search_loop fuel ctx which none data rest (Z.of_nat (length rest)).
Proof.
  induction ps as [|[id v] ps IH]; intros Hty Hpa; [done|].
  apply Forall_cons in Hty as [Ht Hty]. apply Forall_cons in Hpa as [[Hne Hnb] Hpa]. simpl in Hne, Hnb.
  change (enc_area ((id, v) :: ps)) with (enc_prop (id, v) ++ enc_area ps). rewrite <-app_assoc.
  simpl Nat.add. rewrite search_loop_head by done. destruct Ht as (flags & _ & _ & Hwf & _). simpl in Hwf.
  rewrite (proj2 (Z.eqb_neq id which)), Hdata, bind_ret by done.
  rewrite !(length_app (enc_val v)).
  destruct (Z.ltb_spec (Z.of_nat (length (enc_val v) + length (enc_area ps ++ rest)))
              (Z.of_nat (length (enc_val v)))); [lia|].
  rewrite Nat2Z.id, drop_app_length, <-IH by done. f_equal. lia.
Qed.
End Loop.

(** The switches of the searches pass over a value that is not looked for. *)
Lemma varint_step_enc v rest :
  wf_varint v ->
  varint_step (enc_varint v ++ rest) (Z.of_nat (length (enc_varint v ++ rest)))
  = Ret (v, Z.of_nat (length (enc_varint v))).
Proof.
  intros Hv. unfold varint_step. pose proof (getMqttVarInt_enc v rest Hv) as E. cbv zeta in E.
  rewrite E. unfold wf_varint in Hv. clear E.
  assert (H1 : exists c cs, enc_varint v = c :: cs /\ is_byte c /\ (c < 128 -> v = c /\ cs = [])).
  { unfold enc_varint. cbn [enc_varint_n]. pose proof (Z.mod_pos_bound v 128 ltac:(lia)). unfold is_byte.
    destruct (Z.ltb_spec v 128); do 2 eexists; (split; [done|]); split; try split; auto; lia. }
  destruct H1 as (c & cs & -> & Hc & Hs). change (at_ ((c :: cs) ++ rest) 0) with (@Ret Z c).
  rewrite bind_ret, byte_high, byte_low by done. destruct (Z.ltb_spec c 128); cbn [negb].
  - destruct (Hs ltac:(done)) as [-> ->]. done.
  - rewrite bind_ret. rewrite wrapu_small by lia. done.
Qed.

Lemma name_pair_step_enc {A} n s rest (short : search_step A) (none : A) :
  wf_val (PPair n s) ->
  name_pair_step (enc_val (PPair n s) ++ rest) (Z.of_nat (length (enc_val (PPair n s) ++ rest))) short none
  = Ret (Skip (Z.of_nat (length (enc_val (PPair n s))))).
Proof.
  intros [[Hn Hln] [Hs Hls]]. unfold name_pair_step. cbn [enc_val].
  assert (E : (mqtt_counted n ++ mqtt_counted s) ++ rest
              = (be_bytes 2 (Z.of_nat (length n)) ++ n) ++ be_bytes 2 (Z.of_nat (length s)) ++ s ++ rest).
  { unfold mqtt_counted. by rewrite <-!app_assoc. }
  rewrite !length_app, !length_mqtt_counted.
  match goal with |- context [?a >=? 4] => destruct (Z.geb_spec a 4) end; [|lia].
  rewrite E. rewrite <-(app_assoc (be_bytes 2 (Z.of_nat (length n)))), bigint16_enc0, bind_ret by lia.
  match goal with |- context [?a >? ?b] => destruct (Z.gtb_spec a b) end; [lia|].
  rewrite (app_assoc (be_bytes 2 (Z.of_nat (length n)))).
  rewrite bigint16_enc, bind_ret by (rewrite ?length_app, ?length_be_bytes; lia). do 2 f_equal. lia.
Qed.

Lemma counted16_enc s rest :
  wf_counted s -> BIGINT16 (mqtt_counted s ++ rest) 0 = Ret (Z.of_nat (length s)).
Proof. intros [_ Hl]. unfold mqtt_counted. rewrite <-app_assoc. apply bigint16_enc0. lia. Qed.

Ltac search_case :=
  repeat match goal with
  | |- context [?a >=? ?b] => destruct (Z.geb_spec a b); [|rewrite ?length_app, ?length_be_bytes, ?length_mqtt_counted in *; simpl length in *; lia]
  end.

Lemma field_data_skip deflt v rest :
  wf_val v -> ptype v <> MPT_Bytes ->
  field_data (ptype v) false deflt (enc_val v ++ rest) (Z.of_nat (length (enc_val v ++ rest)))
  = Ret (Skip (Z.of_nat (length (enc_val v)))).
Proof.
  intros Hv Hb. destruct v as [|v|v|v|v|s|s|n s]; try done; cbn [ptype field_data].
  - cbn [enc_val]. pose proof (length_enc_varint 3 v). fold (enc_varint v) in *. rewrite length_app.
    search_case. rewrite <-length_app, varint_step_enc by done. done.
  - cbn [enc_val]. search_case. rewrite counted16_enc, bind_ret, length_mqtt_counted by done.
    do 2 f_equal. lia.
  - by apply name_pair_step_enc.
Qed.

Lemma string_data_skip v rest :
  wf_val v -> ptype v <> MPT_Bytes ->
  string_data (ptype v) false (enc_val v ++ rest) (Z.of_nat (length (enc_val v ++ rest)))
  = Ret (Skip (Z.of_nat (length (enc_val v)))).
Proof.
  intros Hv Hb. destruct v as [|v|v|v|v|s|s|n s]; try done; cbn [ptype string_data].
  - cbn [enc_val]. pose proof (length_enc_varint 3 v). fold (enc_varint v) in *. rewrite length_app.
    search_case. rewrite <-length_app, varint_step_enc by done. done.
  - cbn [enc_val]. search_case. rewrite counted16_enc, bind_ret, length_mqtt_counted by done.
    simpl andb. cbv iota. do 2 f_equal. lia.
  - by apply name_pair_step_enc.
Qed.

(** The values that [ism_common_getMqttPropField] answers with. *)
Definition is_integer (v : pval) : Prop :=
  match v with PBool | PInt1 _ | PInt2 _ | PInt4 _ | PVarInt _ => True | _ => False end.

Lemma field_data_here deflt v rest :
  wf_val v -> is_integer v ->
  field_data (ptype v) true deflt (enc_val v ++ rest) (Z.of_nat (length (enc_val v ++ rest)))
  = Ret (Answer (i32 (val_int v))).
Proof.
  intros Hv Hi. destruct v as [|v|v|v|v|s|s|n s]; try done; cbn [ptype field_data enc_val val_int andb]; simpl in Hv.
  - search_case. unfold is_byte in Hv. change (at_ ([v] ++ rest) 0) with (@Ret Z v).
    rewrite bind_ret, wraps_small by (simpl; lia). done.
  - search_case. rewrite bigint16_enc0, bind_ret, wraps_small by (simpl; lia). done.
  - search_case. by rewrite bigint32_enc.
  - pose proof (length_enc_varint 3 v). fold (enc_varint v) in *. rewrite length_app.
    search_case. by rewrite <-length_app, varint_step_enc, bind_ret by done.
Qed.

Lemma enc_area_app ps qs : enc_area (ps ++ qs) = enc_area ps ++ enc_area qs.
Proof. unfold enc_area. by rewrite map_app, concat_app. Qed.

Lemma length_enc_area ps : (length ps <= length (enc_area ps))%nat.
Proof.
  induction ps as [|p ps IH]; [done|]. change (enc_area (p :: ps)) with (enc_prop p ++ enc_area ps).
  rewrite length_app. simpl. lia.
Qed.

(** A search of an area, at its first property that is not passed over. *)
Lemma search_area {A} (none : A) data which ps id v qs :
  (forall v rest, wf_val v -> ptype v <> MPT_Bytes ->
     data (ptype v) false (enc_val v ++ rest) (Z.of_nat (length (enc_val v ++ rest)))
     = Ret (Skip (Z.of_nat (length (enc_val v))))) ->
  Forall typed (ps ++ (id, v) :: qs) -> Forall (passed which) ps ->
  let area := enc_area (ps ++ (id, v) :: qs) in
  let rest := enc_val v ++ enc_area qs in
  forall a, data (ptype v) (id =? which) rest (Z.of_nat (length rest)) = Ret (Answer a) ->
  search_loop (length area) ctx which none data area (Z.of_nat (length area)) = Ret a.
Proof.
  intros Hd Hty Hpa area rest a Ha. apply Forall_app in Hty as [Hty Hv]. apply Forall_cons in Hv as [Hv _].
  subst area. rewrite enc_area_app. pose proof (length_enc_area ps).
  set (tail := enc_area ((id, v) :: qs)).
  assert (exists k, length (enc_area ps ++ tail) = length ps + S k)%nat as [k Hk].
  { exists (length (enc_area ps ++ tail) - length ps - 1)%nat. rewrite length_app.
    change tail with (enc_prop (id, v) ++ enc_area qs). rewrite length_app. simpl. lia. }
  rewrite Hk at 1.
  rewrite (search_loop_passes none data Hd) by done.
  change tail with (enc_prop (id, v) ++ enc_area qs). rewrite search_loop_head by done.
  fold rest. by rewrite Ha, bind_ret.
Qed.

Lemma first_bytes (ps : list (Z * pval)) :
  ~ Forall (fun p => ptype p.2 <> MPT_Bytes) ps ->
  exists ps1 id v ps2, ps = ps1 ++ (id, v) :: ps2 /\ ptype v = MPT_Bytes
    /\ Forall (fun p => ptype p.2 <> MPT_Bytes) ps1.
Proof.
  induction ps as [|[id v] ps IH]; intros H; [by destruct H|].
  destruct (decide (ptype v = MPT_Bytes)) as [E|E]; [by exists [], id, v, ps|].
  destruct IH as (ps1 & j & w & ps2 & -> & Hw & H1); [by intros ?; apply H; constructor|].
  exists ((id, v) :: ps1), j, w, ps2. split; [done|]. split; [done|]. by constructor.
Qed.

Lemma search_area_absent {A} (none : A) data which ps :
  (forall v rest, wf_val v -> ptype v <> MPT_Bytes ->
     data (ptype v) false (enc_val v ++ rest) (Z.of_nat (length (enc_val v ++ rest)))
     = Ret (Skip (Z.of_nat (length (enc_val v))))) ->
  (forall here bs len, data MPT_Bytes here bs len = Ret (Answer none)) ->
  Forall typed ps -> Forall (fun p => p.1 <> which) ps ->
  search_loop (length (enc_area ps)) ctx which none data (enc_area ps) (Z.of_nat (length (enc_area ps)))
  = Ret none.
Proof.
  intros Hd Hb Hty Hne.
  destruct (decide (Forall (fun p => ptype p.2 <> MPT_Bytes) ps)) as [Hnb|Hnb].
  - pose proof (length_enc_area ps).
    replace (length (enc_area ps)) with (length ps + (length (enc_area ps) - length ps))%nat at 1 by lia.
    pose proof (search_loop_passes none data Hd (length (enc_area ps) - length ps) which ps []) as E.
    rewrite app_nil_r in E. rewrite E; [by destruct (length (enc_area ps) - length ps)%nat|done|].
    apply Forall_and. auto.
  - destruct (first_bytes ps Hnb) as (ps1 & j & w & ps2 & -> & Hw & H1).
    apply (search_area none data which ps1 j w ps2 Hd Hty).
    + apply Forall_app in Hne as [? _]. by apply Forall_and.
    + rewrite Hw. apply Hb.
Qed.

(** C23. In an area of well-formed properties, the integer property that is looked for
    is found and its value returned, as an [int]; a string is found with its length
    at the place where its bytes start.  The value is that of the first occurrence,
    and what comes before is passed over, unless it is a binary property.  Without
    an occurrence the default, or no string, is returned. *)
Theorem get_property which ps v qs deflt :
  Forall typed (ps ++ (which, v) :: qs) -> Forall (passed which) ps ->
  let area := enc_area (ps ++ (which, v) :: qs) in
  let len := Z.of_nat (length area) in
  (is_integer v -> ism_common_getMqttPropField area len which ctx deflt = Ret (i32 (val_int v)))
  /\ (forall s, v = PString s ->
       ism_common_getMqttPropString area len which ctx = Ret (Some (s ++ enc_area qs, Z.of_nat (length s))))
  /\ (forall which', Forall (fun p => p.1 <> which') (ps ++ (which, v) :: qs) ->
       ism_common_getMqttPropField area len which' ctx deflt = Ret deflt
       /\ ism_common_getMqttPropString area len which' ctx = Ret None).
Proof.
  intros Hty Hpa area len. assert (Hwf : wf_val v).
  { apply Forall_app in Hty as [_ Hv]. apply Forall_cons in Hv as [(f & _ & _ & Hv & _) _]. exact Hv. }
  split; [|split].
  - intros Hi. apply search_area; auto using field_data_skip.
    rewrite Z.eqb_refl. by apply field_data_here.
  - intros s ->. apply search_area; auto using string_data_skip.
    rewrite Z.eqb_refl. cbn [ptype string_data enc_val andb]. pose proof (length_mqtt_counted s).
    search_case. rewrite counted16_enc, bind_ret by done. search_case.
    unfold mqtt_counted. rewrite <-app_assoc, drop_app_length' by by rewrite length_be_bytes. done.
  - intros which' Hne. split; apply search_area_absent; auto using field_data_skip, string_data_skip.
Qed.

(** C39. A binary property ends both searches: what follows it is never found, whatever
    it is. *)
Theorem bytes_end_search which ps id s qs deflt :
  Forall typed (ps ++ (id, PBytes s) :: qs) -> Forall (passed which) ps ->
  let area := enc_area (ps ++ (id, PBytes s) :: qs) in
  let len := Z.of_nat (length area) in
  ism_common_getMqttPropField area len which ctx deflt = Ret deflt
  /\ ism_common_getMqttPropString area len which ctx = Ret None.
Proof.
  intros Hty Hpa area len. split; apply search_area; auto using field_data_skip, string_data_skip.
Qed.
End Search.

(** ** Writing an area *)

Section Write.
Context {ctx : mqtt_prop_ctx_t} {known : Z -> option mqtt_prop_field_t} {HC : PropContext ctx known}.
Context (mem : allocator) (Hmem : alloc_total mem).

(** A property is written by the function for its type. *)
Definition put_prop (p : Z * pval) (b : concat_alloc_t) : outcome (Z * concat_alloc_t) :=
  match p.2 with
  | PBool | PInt1 _ | PInt2 _ | PInt4 _ | PVarInt _ =>
      ism_common_putMqttPropField mem p.1 ctx (i32 (val_int p.2)) b
  | PString s | PBytes s => ism_common_putMqttPropString mem p.1 ctx s (Z.of_nat (length s)) b
  | PPair n s =>
      ism_common_putMqttPropNamePair mem p.1 ctx n (Z.of_nat (length n)) s (Z.of_nat (length s)) b
  end.

Fixpoint put_props (ps : list (Z * pval)) (b : concat_alloc_t) : outcome concat_alloc_t :=
  match ps with
  | [] => Ret b
  | p :: ps => '(rc, b) ← put_prop p b; if rc =? 0 then put_props ps b else Ret b
  end.

Lemma u8_shiftr_i32 n k : 0 <= k -> k + 8 <= 32 -> u8 (Z.shiftr (i32 n) k) = u8 (Z.shiftr n k).
Proof.
  intros Hk Hw. apply Z.bits_inj'. intros i Hi. unfold wrapu.
  destruct (Z.ltb_spec i 8).
  - rewrite !Z.mod_pow2_bits_low, !Z.shiftr_spec by lia.
    rewrite <-(Z.mod_pow2_bits_low (i32 n) 32), <-(Z.mod_pow2_bits_low n 32) by lia.
    f_equal. exact (wrapu_wraps 32 n).
  - by rewrite !Z.mod_pow2_bits_high by lia.
Qed.

Lemma be2_shift n : be_bytes 2 n = [u8 (Z.shiftr n 8); u8 n].
Proof. cbn [be_bytes]. by rewrite (Z.shiftr_0_r n : Z.shiftr n (8 * Z.of_nat 0) = n). Qed.

Lemma put_counted16_emits s :
  wf_counted s -> emits_grow mem (put_counted16 mem s (Z.of_nat (length s))) (mqtt_counted s).
Proof.
  intros [Hs Hl]. unfold mqtt_counted, put_counted16. rewrite be2_shift.
  apply (emits_grow_bind mem _ _ [_]); [by apply emits_grow_bputchar|].
  apply (emits_grow_bind mem _ _ [_]); [by apply emits_grow_bputchar|].
  destruct (Z.eqb_spec (Z.of_nat (length s)) 0).
  - destruct s; [apply emits_grow_nil|done].
  - by apply emits_grow_copyLen.
Qed.

(** [f] returns 0 and appends [bs]. *)
Definition emits0 (f : concat_alloc_t -> outcome (Z * concat_alloc_t)) (bs : list Z) : Prop :=
  exists g, (forall b, f b = b ← g b; Ret (0, b)) /\ emits_grow mem g bs.

Lemma emits0_bind f g bs cs :
  emits_grow mem f bs -> emits0 g cs -> emits0 (fun b => f b ≫= g) (bs ++ cs).
Proof.
  intros Hf (h & Eh & Hh). exists (fun b => f b ≫= h). split; [|by apply emits_grow_bind].
  intros b. destruct (f b); simpl; auto.
Qed.

Lemma emits0_ret : emits0 (fun b => Ret (0, b)) [].
Proof. exists Ret. split; [done|apply emits_grow_nil]. Qed.

Lemma emits0_ext f g bs : (forall b, f b = g b) -> emits0 g bs -> emits0 f bs.
Proof. intros E (h & Eh & Hh). exists h. split; [|done]. intros b. by rewrite E. Qed.

Lemma put_prop_emits flags p :
  prop_ok (ctx := ctx) (known := known) flags p -> emits0 (put_prop p) (enc_prop p).
Proof.
  destruct p as [id v]. intros (Hid & Hb & Hwf & fld & Hk & _ & Ht). simpl in *.
  change (enc_prop (id, v)) with (id :: enc_val v).
  assert (Hi : emits_grow mem (bputchar mem id) [id]) by (apply bputchar_byte; unfold is_byte; auto; lia).
  assert (Hf : find_field ctx id = Ret (Some fld)) by (rewrite known_find by done; by rewrite Hk).
  assert (Hn : forall v, 0 <= v < 2 ^ 31 -> i32 v = v) by (intros; wrap_small).
  assert (He : forall n k, 0 <= k -> k + 8 <= 32 ->
            emits_grow mem (bputchar mem (Z.shiftr (i32 n) k)) [u8 (Z.shiftr n k)]).
  { intros n k ? ?. rewrite <-u8_shiftr_i32 by done. by apply emits_grow_bputchar. }
  assert (H8 : forall n, emits_grow mem (bputchar mem (i32 n)) [u8 n]).
  { intros n. pose proof (He n 0 ltac:(lia) ltac:(lia)) as H. by rewrite !Z.shiftr_0_r in H. }
  destruct v as [|v|v|v|v|s|s|n s]; unfold put_prop; cbn [fst snd]; simpl in Hwf;
    unfold ism_common_putMqttPropField, ism_common_putMqttPropString, ism_common_putMqttPropNamePair;
    rewrite Hf; cbn [mbind outcome_bind]; rewrite Ht; cbn [ptype val_int enc_val];
    unfold c_len; rewrite ?(proj2 (Z.ltb_ge (Z.of_nat _) 0)) by lia; apply (emits0_bind _ _ [id] _ Hi).
  - apply emits0_ret.
  - replace [v] with [u8 v] by (f_equal; by apply wrapu_small). apply (emits0_bind _ _ [_] [] (H8 v)), emits0_ret.
  - rewrite be2_shift. apply (emits0_bind _ _ [_] [_]); [apply He; lia|].
    apply (emits0_bind _ _ [_] [] (H8 v)), emits0_ret.
  - change (be_bytes 4 v) with ([u8 (Z.shiftr v 24)] ++ [u8 (Z.shiftr v 16)] ++ be_bytes 2 v). rewrite be2_shift.
    apply (emits0_bind _ _ [_]); [apply He; lia|]. apply (emits0_bind _ _ [_]); [apply He; lia|].
    apply (emits0_bind _ _ [_] [_]); [apply He; lia|].
    apply (emits0_bind _ _ [_] [] (H8 v)), emits0_ret.
  - unfold wf_varint in Hwf. rewrite Hn by lia. rewrite <-(app_nil_r (enc_varint v)).
    apply emits0_bind; [by apply putMqttVarInt_emits|apply emits0_ret].
  - rewrite <-(app_nil_r (mqtt_counted s)). apply emits0_bind; [by apply put_counted16_emits|apply emits0_ret].
  - rewrite <-(app_nil_r (mqtt_counted s)). apply emits0_bind; [by apply put_counted16_emits|apply emits0_ret].
  - destruct Hwf as [Hwn Hws]. apply emits0_bind; [by apply put_counted16_emits|].
    rewrite <-(app_nil_r (mqtt_counted s)). apply emits0_bind; [by apply put_counted16_emits|apply emits0_ret].
Qed.

Lemma put_props_emits flags ps :
  Forall (prop_ok (ctx := ctx) (known := known) flags) ps -> emits_grow mem (put_props ps) (enc_area ps).
Proof.
  induction 1 as [|p ps Hp _ IH]; [apply emits_grow_nil|].
  destruct (put_prop_emits flags p Hp) as (g & Eg & Hg).
  apply (emits_grow_ext _ (fun b => g b ≫= put_props ps)).
  { intros b. cbn [put_props]. rewrite Eg. by destruct (g b). }
  by apply (emits_grow_bind mem _ _ (enc_prop p)).
Qed.

Lemma area_ok_props flags seen ps :
  area_ok (ctx := ctx) (known := known) flags seen ps -> Forall (prop_ok (ctx := ctx) (known := known) flags) ps.
Proof. revert seen. induction ps as [|p ps IH]; intros seen H; constructor; naive_solver. Qed.

(** A callback that keeps what it is given, and what it keeps of an area. *)
Definition keep_prop (seen : list (Z * list Z * Z)) (fld : mqtt_prop_field_t) (ptr : list Z) (len value : Z)
  : outcome (list (Z * list Z * Z) * Z) := Ret (seen ++ [(fld_id fld, take (Z.to_nat len) ptr, value)], 0).

Definition kept (p : Z * pval) : Z * list Z * Z :=
  (match known p.1 with Some fld => fld_id fld | None => 0 end, val_data p.2, val_int p.2).

Lemma keep_props flags ps u :
  Forall (prop_ok (ctx := ctx) (known := known) flags) ps ->
  run_checks (known := known) (Some keep_prop) u ps = Ret (0, u ++ map kept ps).
Proof.
  intros Hok. revert u. induction Hok as [|[id v] ps (_ & _ & _ & fld & Hk & _) _ IH];
    intros u; cbn [run_checks map]; [by rewrite app_nil_r|].
  simpl in Hk. rewrite Hk. unfold run_check, keep_prop. rewrite bind_ret. simpl Z.eqb. cbv iota.
  rewrite IH, Nat2Z.id, take_app_length, <-app_assoc. unfold kept at 2. simpl. by rewrite Hk.
Qed.

(** C19. When every request for memory is met, a list of properties that is valid for
    a packet, with an encoding shorter than 2^30 bytes, is written to an empty buffer
    as its encoding, and the check of the written area returns 0 and gives the
    callback the same properties, in order.  (Without memory the bytes that do not fit
    are dropped without notice: [byte_dropped_without_memory].) *)
Theorem properties_roundtrip flags ps b :
  area_ok (ctx := ctx) (known := known) flags [] ps -> buf_wf b -> cused b = 0 ->
  Z.of_nat (length (enc_area ps)) + 16 <= 2 ^ 30 ->
  exists b', put_props ps b = Ret b' /\ contents b' = enc_area ps /\
    ism_common_checkMqttPropFields (Some keep_prop) (contents b') (cused b') ctx flags []
    = Ret (0, map kept ps).
Proof.
  intros Hok Hb H0 Hs. assert (Hps := area_ok_props _ _ _ Hok).
  destruct (put_props_emits flags ps Hps b Hb ltac:(lia)) as (b' & E & Hb' & Hc & _ & Hu).
  exists b'. split; [done|]. rewrite Hu, H0, Z.add_0_l, Hc.
  assert (contents b = []) as ->. { apply length_zero_iff_nil. pose proof (length_contents b Hb). lia. }
  simpl app. split; [done|].
  unfold ism_common_checkMqttPropFields. rewrite (check_loop_ok flags _ ps _ _ [] [] Hok found_ok_start (le_n _)).
  by rewrite (keep_props flags).
Qed.
End Write.

(** ** The context made from a table *)

Fixpoint table_find (idtbl : list mqtt_prop_field_t) (id : Z) : option mqtt_prop_field_t :=
  match idtbl with
  | [] => None
  | fld :: idtbl => if fld_id fld =? id then Some fld else table_find idtbl id
  end.

(** A table of one version, with distinct ids that fit the array. *)
Definition table_ok (version : Z) (idtbl : list mqtt_prop_field_t) : Prop :=
  NoDup (map fld_id idtbl) /\
  Forall (fun fld => 0 < fld_id fld <= 127 /\ fld_version fld = version) idtbl.

Lemma scan_ids_ok version idtbl m :
  Forall (fun fld => 0 < fld_id fld <= 127 /\ fld_version fld = version) idtbl -> 0 <= m <= 127 ->
  exists m', foldl (fun '(max_id, more_count) tbl =>
           (if (fld_id tbl >? max_id) && (fld_version tbl >=? version) then fld_id tbl else max_id,
            if (fld_id tbl >? 127) && (fld_version tbl >=? version) then more_count + 1 else more_count))
        (m, 0) idtbl = (m', 0)
    /\ m <= m' <= 127 /\ Forall (fun fld => fld_id fld <= m') idtbl.
Proof.
  intros Hall. revert m. induction Hall as [|fld idtbl [Hid Hv] _ IH]; intros m Hm.
  - exists m. split; [done|]. split; [lia|constructor].
  - cbn [foldl]. destruct (Z.gtb_spec (fld_id fld) 127); [lia|]. simpl andb.
    destruct (Z.geb_spec (fld_version fld) version); [|lia]. rewrite andb_true_r.
    destruct (IH (if fld_id fld >? m then fld_id fld else m)) as (m' & -> & Hm' & Hf);
      [destruct (fld_id fld >? m); lia|].
    exists m'. split; [done|]. destruct (Z.gtb_spec (fld_id fld) m); (split; [lia|]); constructor; auto; lia.
Qed.

Lemma fill_fields_ok version array idtbl slots :
  NoDup (map fld_id idtbl) ->
  Forall (fun fld => 0 < fld_id fld <= array) idtbl ->
  array < Z.of_nat (length slots) ->
  Forall (fun fld => slots !! Z.to_nat (fld_id fld) = Some None) idtbl ->
  exists slots', fill_fields idtbl version array false 0 slots = Ret slots' /\ length slots' = length slots /\
    forall id, 0 <= id -> slots' !! Z.to_nat id
      = match table_find idtbl id with Some fld => Some (Some fld) | None => slots !! Z.to_nat id end.
Proof.
  revert slots. induction idtbl as [|fld idtbl IH]; intros slots Hnd Hid Hl Hfree; [by exists slots|].
  apply NoDup_cons in Hnd as [Hnin Hnd]. apply Forall_cons in Hid as [Hid Hids].
  apply Forall_cons in Hfree as [Hf Hfree]. cbn [fill_fields]. unfold fields_at, set_field.
  rewrite decide_True, Hf, bind_ret by lia. cbv iota.
  rewrite (proj2 (Z.leb_le (fld_id fld) array)), decide_True, bind_ret by lia.
  destruct (IH (<[Z.to_nat (fld_id fld) := Some fld]> slots)) as (slots' & E & El & Hs);
    [done|done|rewrite length_insert; lia| |].
  { apply Forall_forall. intros g Hg. rewrite list_lookup_insert_ne.
    - by apply (proj1 (Forall_forall _ _) Hfree).
    - intros E. apply Hnin. apply list_elem_of_fmap. exists g. split; [|done].
      apply (proj1 (Forall_forall _ _) Hids) in Hg. lia. }
  exists slots'. split; [done|]. rewrite length_insert in El. split; [done|].
  intros id H0. rewrite Hs by done. cbn [table_find].
  destruct (Z.eqb_spec (fld_id fld) id) as [<-|Hne].
  - rewrite list_lookup_insert_eq by lia.
    destruct (table_find idtbl (fld_id fld)) as [g|] eqn:Eg; [|done]. destruct Hnin.
    clear -Eg. induction idtbl as [|h idtbl IH]; [done|]. cbn [table_find map] in *.
    destruct (Z.eqb_spec (fld_id h) (fld_id fld)) as [->|]; [left|right; auto].
  - rewrite list_lookup_insert_ne by lia. done.
Qed.

Lemma context_of_table version idtbl :
  table_ok version idtbl ->
  exists ctx, ism_common_makeMqttPropCtx idtbl version = Ret ctx
    /\ PropContext ctx (table_find idtbl) /\ Forall (fun fld => fld_id fld <= max_id ctx) idtbl.
Proof.
  intros [Hnd Hall]. unfold ism_common_makeMqttPropCtx, scan_ids.
  destruct (scan_ids_ok version idtbl 0 Hall ltac:(lia)) as (m & -> & Hm & Hmax).
  destruct (Z.gtb_spec m 127); [lia|]. simpl negb.
  set (slots := replicate _ None).
  assert (Hlen : Z.of_nat (length slots) = 2 * (m + 1)) by (unfold slots; rewrite length_replicate; lia).
  destruct (fill_fields_ok version m idtbl slots Hnd) as (slots' & -> & El & Hs).
  - apply Forall_and in Hall as [Hid _]. clear -Hid Hmax. induction Hid; constructor; inversion Hmax; auto; lia.
  - lia.
  - apply Forall_forall. intros g Hg. unfold slots. apply lookup_replicate. split; [done|].
    apply (proj1 (Forall_forall _ _) Hmax) in Hg. lia.
  - rewrite bind_ret. eexists. split; [reflexivity|]. split; [|done]. split; [simpl; lia|].
    simpl. intros id Hid. unfold find_field, fields_at; simpl.
    rewrite (wrapu_small 32) by lia. rewrite (proj2 (Z.leb_le id m)), decide_True by lia.
    rewrite Hs by lia. destruct (table_find idtbl id); [done|].
    unfold slots. rewrite lookup_replicate_2 by lia. done.
Qed.

(** From a table of one version whose ids are distinct and at most 127, a context is
    made in which every id up to the largest one is found with its field, and the
    ids between them are not known. *)
Theorem make_context version idtbl :
  table_ok version idtbl ->
  exists ctx, ism_common_makeMqttPropCtx idtbl version = Ret ctx
    /\ PropContext ctx (table_find idtbl) /\ Forall (fun fld => fld_id fld <= max_id ctx) idtbl.
Proof. apply context_of_table. Qed.
