(* ===== verification/MqttPacket.v ===== *)
(** * MQTT packets

    Parts of server_protocol/src/mqtt.c: the table of the properties of MQTT version
    5, the callback that checks and stores them, and the parsing of the packets that
    acknowledge a publication.  Constants and types are in
    server_protocol/src/mqtt.h. *)

From S2P Require Import Prelude Buffer MqttProp Utf8.

(** ** Constants *)

Definition MPI_PayloadFormat : Z := 0x01.
Definition MPI_MsgExpire : Z := 0x02.
Definition MPI_ContentType : Z := 0x03.
Definition MPI_ReplyTopic : Z := 0x08.
Definition MPI_Correlation : Z := 0x09.
Definition MPI_SubID : Z := 0x0B.
Definition MPI_SessionExpire : Z := 0x11.
Definition MPI_ClientID : Z := 0x12.
Definition MPI_KeepAlive : Z := 0x13.
Definition MPI_AuthMethod : Z := 0x15.
Definition MPI_AuthData : Z := 0x16.
Definition MPI_RequestReason : Z := 0x17.
Definition MPI_WillDelay : Z := 0x18.
Definition MPI_RequestReplyInfo : Z := 0x19.
Definition MPI_ReplyInfo : Z := 0x1A.
Definition MPI_ServerReference : Z := 0x1C.
Definition MPI_Reason : Z := 0x1F.
Definition MPI_MaxReceive : Z := 0x21.
Definition MPI_MaxTopicAlias : Z := 0x22.
Definition MPI_TopicAlias : Z := 0x23.
Definition MPI_MaxQoS : Z := 0x24.
Definition MPI_RetainAvailable : Z := 0x25.
Definition MPI_UserProperty : Z := 0x26.
Definition MPI_MaxPacketSize : Z := 0x27.
Definition MPI_WildcardAvailable : Z := 0x28.
Definition MPI_SubIDAvailable : Z := 0x29.
Definition MPI_SharedAvailable : Z := 0x2A.

Definition CPOI_CONNECT : Z := 0x0001.
Definition CPOI_CONNACK : Z := 0x0002.
Definition CPOI_CONNECT_CONNACK : Z := 0x0003.
Definition CPOI_S_PUBLISH : Z := 0x10004.
Definition CPOI_C_PUBLISH : Z := 0x0008.
Definition CPOI_PUBLISH : Z := 0x000C.
Definition CPOI_PUBACK : Z := 0x0010.
Definition CPOI_PUBCOMP : Z := 0x0020.
Definition CPOI_SUBSCRIBE : Z := 0x0040.
Definition CPOI_SUBACK : Z := 0x0080.
Definition CPOI_UNSUBACK : Z := 0x0200.
Definition CPOI_S_DISCONNECT : Z := 0x0400.
Definition CPOI_C_DISCONNECT : Z := 0x0800.
Definition CPOI_DISCONNECT : Z := 0x0C00.
Definition CPOI_AUTH : Z := 0x1000.
Definition CPOI_WILLPROP : Z := 0x2000.
Definition CPOI_AUTH_CONN_ACK : Z := 0x1003.
Definition CPOI_ACK : Z := 0x1EB2.
Definition CPOI_USERPROPS : Z := 0x3FFF.

Definition mqtt_propFields : list mqtt_prop_field_t :=
  [ mk_field MPI_PayloadFormat     MPT_Int1     5 (Z.lor CPOI_PUBLISH CPOI_WILLPROP);
    mk_field MPI_MsgExpire         MPT_Int4     5 (Z.lor CPOI_PUBLISH CPOI_WILLPROP);
    mk_field MPI_ContentType       MPT_String   5 (Z.lor CPOI_PUBLISH CPOI_WILLPROP);
    mk_field MPI_ReplyTopic        MPT_String   5 (Z.lor CPOI_PUBLISH CPOI_WILLPROP);
    mk_field MPI_Correlation       MPT_Bytes    5 (Z.lor CPOI_PUBLISH CPOI_WILLPROP);
    mk_field MPI_SubID             MPT_VarInt   5 (Z.lor (Z.lor CPOI_S_PUBLISH CPOI_SUBSCRIBE) CPOI_ALT_MULTI);
    mk_field MPI_SessionExpire     MPT_Int4     5 (Z.lor (Z.lor CPOI_CONNECT CPOI_CONNACK) CPOI_C_DISCONNECT);
    mk_field MPI_ClientID          MPT_String   5 CPOI_CONNACK;
    mk_field MPI_KeepAlive         MPT_Int2     5 CPOI_CONNACK;
    mk_field MPI_AuthMethod        MPT_String   5 CPOI_AUTH_CONN_ACK;
    mk_field MPI_AuthData          MPT_Bytes    5 CPOI_AUTH_CONN_ACK;
    mk_field MPI_RequestReason     MPT_Int1     5 CPOI_CONNECT;
    mk_field MPI_WillDelay         MPT_Int4     5 CPOI_WILLPROP;
    mk_field MPI_RequestReplyInfo  MPT_Int1     5 CPOI_CONNECT;
    mk_field MPI_ReplyInfo         MPT_String   5 CPOI_CONNACK;
    mk_field MPI_ServerReference   MPT_String   5 (Z.lor CPOI_CONNACK CPOI_S_DISCONNECT);
    mk_field MPI_Reason            MPT_String   5 CPOI_ACK;
    mk_field MPI_MaxReceive        MPT_Int2     5 CPOI_CONNECT_CONNACK;
    mk_field MPI_MaxTopicAlias     MPT_Int2     5 CPOI_CONNECT_CONNACK;
    mk_field MPI_TopicAlias        MPT_Int2     5 CPOI_PUBLISH;
    mk_field MPI_MaxQoS            MPT_Int1     5 CPOI_CONNECT_CONNACK;
    mk_field MPI_RetainAvailable   MPT_Boolean  5 CPOI_CONNACK;
    mk_field MPI_UserProperty      MPT_NamePair 5 (Z.lor CPOI_USERPROPS CPOI_MULTI);
    mk_field MPI_MaxPacketSize     MPT_Int4     5 CPOI_CONNECT_CONNACK;
    mk_field MPI_WildcardAvailable MPT_Int1     5 CPOI_CONNACK;
    mk_field MPI_SubIDAvailable    MPT_Int1     5 CPOI_CONNACK;
    mk_field MPI_SharedAvailable   MPT_Int1     5 CPOI_CONNACK ].

Definition ISMRC_UnicodeNotValid : Z := 122.
Definition ISMRC_NotAuthorized : Z := 180.
Definition ISMRC_InvalidID : Z := 285.
Definition ISMRC_ProtocolError : Z := 297.

Definition MTYPE_MQTT_Text : Z := 0x12.

(** ** The message being parsed *)

(** The members of [mqttMsg_t] that the code modelled here uses.  [reason] holds the
    bytes from the pointer on. *)
Record mqttMsg_t := mk_msg {
  version : Z;
  msgtype : Z;
  rc : Z;
  msgid : Z;
  msgExpire : Z;
  expireTTL : Z;
  isMsgExpire : bool;
  isExpire : bool;
  msgfmt : Z;
  maxActive : Z;
  topic_alias : Z;
  will_delay : Z;
  request_reply_info : Z;
  debug_lvl : Z;
  mqtt_rc : Z;
  subID : Z;
  maxPacketSize : Z;
  reason : list Z;
  reason_len : Z
}.

(** What the callback assigns. *)
Inductive assignment :=
  | SetMsgfmt (v : Z) | SetMsgtype (v : Z) | SetMsgExpire (set : bool) (v : Z) | SetExpire (v : Z)
  | SetMaxActive (v : Z) | SetTopicAlias (v : Z) | SetMaxPacketSize (v : Z) | SetSubID (v : Z)
  | SetReplyInfo (v : Z) | SetDebugLvl (v : Z) | SetWillDelay (v : Z) | SetReason (p : list Z) (n : Z)
  | SetRc (v : Z) | SetMsgid (v : Z) | SetMqttRc (v : Z).

Definition assign (m : mqttMsg_t) (a : assignment) : mqttMsg_t :=
  let '(mk_msg ver ty rc id me ettl ime ie fmt act al wd rri dl mrc sid mps re rl) := m in
  match a with
  | SetMsgfmt v => mk_msg ver ty rc id me ettl ime ie (u8 v) act al wd rri dl mrc sid mps re rl
  | SetMsgtype v => mk_msg ver (u8 v) rc id me ettl ime ie fmt act al wd rri dl mrc sid mps re rl
  | SetMsgExpire s v => mk_msg ver ty rc id (u32 v) ettl s ie fmt act al wd rri dl mrc sid mps re rl
  | SetExpire v => mk_msg ver ty rc id me (u32 v) ime true fmt act al wd rri dl mrc sid mps re rl
  | SetMaxActive v => mk_msg ver ty rc id me ettl ime ie fmt (u16 v) al wd rri dl mrc sid mps re rl
  | SetTopicAlias v => mk_msg ver ty rc id me ettl ime ie fmt act (u16 v) wd rri dl mrc sid mps re rl
  | SetMaxPacketSize v => mk_msg ver ty rc id me ettl ime ie fmt act al wd rri dl mrc sid (u32 v) re rl
  | SetSubID v => mk_msg ver ty rc id me ettl ime ie fmt act al wd rri dl mrc (u32 v) mps re rl
  | SetReplyInfo v => mk_msg ver ty rc id me ettl ime ie fmt act al wd (u8 v) dl mrc sid mps re rl
  | SetDebugLvl v => mk_msg ver ty rc id me ettl ime ie fmt act al wd rri (u8 v) mrc sid mps re rl
  | SetWillDelay v => mk_msg ver ty rc id me ettl ime ie fmt act al (u32 v) rri dl mrc sid mps re rl
  | SetReason p n => mk_msg ver ty rc id me ettl ime ie fmt act al wd rri dl mrc sid mps p n
  | SetRc v => mk_msg ver ty (u32 v) id me ettl ime ie fmt act al wd rri dl mrc sid mps re rl
  | SetMsgid v => mk_msg ver ty rc (u32 v) me ettl ime ie fmt act al wd rri dl mrc sid mps re rl
  | SetMqttRc v => mk_msg ver ty rc id me ettl ime ie fmt act al wd rri dl (u8 v) sid mps re rl
  end.

(** ** Checking properties *)

(** The strings for the error message are not modelled. *)
Definition validateNamePair (ptr : list Z) (len : Z) : outcome Z :=
  namelen ← BIGINT16 ptr 0;
  valuelen ← BIGINT16 ptr (2 + namelen);
  n ← ism_common_validUTF8Restrict (drop 2 ptr) namelen UR_NoNull;
  if n <? 0 then Ret ISMRC_UnicodeNotValid
  else
    n ← ism_common_validUTF8 (drop (Z.to_nat (4 + namelen)) ptr) valuelen;
    if n <? 0 then Ret ISMRC_UnicodeNotValid else Ret 0.

(** The [switch] on [fld->id]. *)
Definition prop_value (id : Z) (ptr : list Z) (len value : Z) (mmsg : mqttMsg_t) : outcome (mqttMsg_t * Z) :=
  if id =? MPI_PayloadFormat then
    if value >? 1 then Ret (mmsg, ISMRC_ProtocolError)
    else
      let mmsg := assign mmsg (SetMsgfmt value) in
      Ret (if value =? 1 then assign mmsg (SetMsgtype MTYPE_MQTT_Text) else mmsg, 0)
  else if id =? MPI_MsgExpire then Ret (assign mmsg (SetMsgExpire (negb (value =? 0)) value), 0)
  else if id =? MPI_SessionExpire then Ret (assign mmsg (SetExpire value), 0)
  else if id =? MPI_MaxReceive then
    if value =? 0 then Ret (mmsg, ISMRC_ProtocolError)
    else Ret (assign mmsg (SetMaxActive (if value <? 64535 then value else 0)), 0)
  else if id =? MPI_MaxTopicAlias then Ret (assign mmsg (SetTopicAlias value), 0)
  else if id =? MPI_TopicAlias then Ret (assign mmsg (SetTopicAlias value), 0)
  else if id =? MPI_ReplyTopic then
    n ← ism_common_validUTF8Restrict ptr len (Z.lor UR_NoControl UR_NoWildcard);
    if n <? 0 then Ret (mmsg, ISMRC_ProtocolError) else Ret (mmsg, 0)
  else if id =? MPI_MaxPacketSize then
    if value =? 0 then Ret (mmsg, ISMRC_ProtocolError)
    else if value <? 64 then Ret (mmsg, ISMRC_Error)
    else Ret (assign mmsg (SetMaxPacketSize value), 0)
  else if id =? MPI_SubID then
    if value =? 0 then Ret (mmsg, ISMRC_ProtocolError) else Ret (assign mmsg (SetSubID value), 0)
  else if id =? MPI_RequestReplyInfo then
    if value >? 1 then Ret (mmsg, ISMRC_ProtocolError) else Ret (assign mmsg (SetReplyInfo value), 0)
  else if id =? MPI_RequestReason then
    if (value >? 1) && negb (value =? 9) then Ret (mmsg, ISMRC_ProtocolError)
    else Ret (assign mmsg (SetDebugLvl value), 0)
  else if id =? MPI_WillDelay then Ret (assign mmsg (SetWillDelay value), 0)
  else if id =? MPI_Reason then Ret (assign mmsg (SetReason ptr len), 0)
  else if (id =? MPI_AuthMethod) || (id =? MPI_AuthData) then Ret (mmsg, ISMRC_NotAuthorized)
  else Ret (mmsg, 0).

Definition mpropCheck (mmsg : mqttMsg_t) (fld : mqtt_prop_field_t) (ptr : list Z) (len value : Z)
  : outcome (mqttMsg_t * Z) :=
  bad ← (if decide (fld_type fld = MPT_String) then
           n ← ism_common_validUTF8Restrict ptr len (Z.lor UR_NoControl UR_NoNonchar); Ret (n <? 0)
         else Ret false);
  if bad : bool then Ret (mmsg, ISMRC_UnicodeNotValid)
  else if decide (fld_type fld = MPT_NamePair) then rc ← validateNamePair ptr len; Ret (mmsg, rc)
  else prop_value (fld_id fld) ptr len value mmsg.

(** ** Acknowledgements *)

Definition ISMRC_ServerTerminating : Z := 93.
Definition ISMRC_EndpointDisabled : Z := 94.
Definition ISMRC_Failure : Z := 101.
Definition ISMRC_ConnectTimedOut : Z := 160.
Definition ISMRC_BadClientID : Z := 166.
Definition ISMRC_ServerNotAvailable : Z := 167.
Definition ISMRC_MessagingNotAvailable : Z := 168.
Definition ISMRC_BadTopic : Z := 276.
Definition ISMRC_MsgTooBig : Z := 287.
Definition ISMRC_ClientIDReused : Z := 288.
Definition ISMRC_ProtocolVersion : Z := 293.
Definition ISMRC_ReceiveMaxExceeded : Z := 299.

Definition mapToIsmRc (mqttrc version : Z) : Z :=
  if mqttrc =? 0 then 0
  else if version >=? 5 then
    if mqttrc <? 128 then 0
    else if mqttrc =? 0x80 then ISMRC_Error
    else if mqttrc =? 0x81 then ISMRC_BadClientData
    else if mqttrc =? 0x82 then ISMRC_ProtocolError
    else if mqttrc =? 0x83 then ISMRC_Failure
    else if mqttrc =? 0x84 then ISMRC_ProtocolVersion
    else if mqttrc =? 0x85 then ISMRC_BadClientID
    else if mqttrc =? 0x86 then ISMRC_NotAuthorized
    else if mqttrc =? 0x87 then ISMRC_NotAuthorized
    else if mqttrc =? 0x88 then ISMRC_ServerNotAvailable
    else if mqttrc =? 0x89 then ISMRC_MessagingNotAvailable
    else if mqttrc =? 0x8B then ISMRC_ServerTerminating
    else if mqttrc =? 0x8E then ISMRC_ClientIDReused
    else if mqttrc =? 0x8D then ISMRC_ConnectTimedOut
    else if mqttrc =? 0x90 then ISMRC_BadTopic
    else if mqttrc =? 0x91 then ISMRC_Error
    else if mqttrc =? 0x92 then ISMRC_Error
    else if mqttrc =? 0x95 then ISMRC_MsgTooBig
    else if mqttrc =? 0x98 then ISMRC_EndpointDisabled
    else if mqttrc =? 0x93 then ISMRC_ReceiveMaxExceeded
    else ISMRC_Error
  else ISMRC_Error.

(** The properties of an acknowledgement, from [bp] on; returns what is left of the
    length. *)
Definition ack_props (ctx : mqtt_prop_ctx_t) (bp : list Z) (buflen cpoi : Z) (mmsg : mqttMsg_t)
  : outcome (mqttMsg_t * Z) :=
  c ← at_ bp 0;
  '(proplen, bp, buflen) ←
    (if c >=? 128 then Ret (c, drop 1 bp, buflen - 1)
     else
       '(proplen, vilen) ← ism_common_getMqttVarIntExp bp buflen 0;
       Ret (proplen, drop (Z.to_nat vilen) bp, buflen - vilen));
  if proplen =? 0 then Ret (mmsg, buflen)
  else
    mmsg ←
      (if (proplen <? 0) || (proplen >? buflen) then Ret (assign mmsg (SetRc ISMRC_BadLength))
       else
         '(rc, mmsg) ← ism_common_checkMqttPropFields (Some mpropCheck) bp proplen ctx cpoi mmsg;
         Ret (assign mmsg (SetRc rc)));
    Ret (mmsg, buflen - proplen).

Definition checkACK (ctx : mqtt_prop_ctx_t) (bp : list Z) (buflen cpoi : Z) (mmsg : mqttMsg_t)
  : outcome (mqttMsg_t * Z) :=
  if buflen =? 2 then
    id ← BIGINT16 bp 0;
    Ret (assign (assign (assign mmsg (SetMsgid id)) (SetMqttRc 0)) (SetRc 0), 0)
  else if (version mmsg >=? 5) && (buflen >=? 3) then
    id ← BIGINT16 bp 0;
    c ← at_ bp 2;
    let mmsg := assign (assign mmsg (SetMsgid id)) (SetMqttRc c) in
    let mmsg := assign mmsg (SetRc (mapToIsmRc (mqtt_rc mmsg) (version mmsg))) in
    if buflen - 3 =? 0 then Ret (mmsg, buflen - 3)
    else ack_props ctx (drop 3 bp) (buflen - 3) cpoi mmsg
  else Ret (assign mmsg (SetRc ISMRC_BadLength), buflen - 2).

Definition chkmsgID (mmsg : mqttMsg_t) : mqttMsg_t * Z :=
  let mmsg := if (rc mmsg =? 0) && ((msgid mmsg <? 1) || (msgid mmsg >? 65535))
              then assign mmsg (SetRc ISMRC_InvalidID) else mmsg in
  (mmsg, rc mmsg).

(** The length of a packet whose length without the fixed header is [buflen]. *)
Definition packetLength (buflen : Z) : Z :=
  let chklen := buflen + 2 in
  if buflen >=? 128 then
    let chklen := chklen + 1 in
    if buflen >=? 16384 then
      let chklen := chklen + 1 in
      if buflen >=? 2097152 then chklen + 1 else chklen
    else chklen
  else chklen.
