(* ===== verification/MqttPacketCorrect.v ===== *)
(** * MQTT packets: correctness

    The context of the MQTT version 5 properties, acknowledgements with properties,
    and instances of the theorems of [MqttPropCorrect] for that context. *)

From stdpp Require Import sets.
From S2P Require Import Prelude Buffer MqttProp MqttVarInt MqttPropCorrect Utf8 MqttPacket.
#[local] Open Scope Z_scope.

(** ** The context *)

#[global] Instance table_ok_dec v tbl : Decision (table_ok v tbl).
Proof. unfold table_ok. apply _. Defined.

Lemma mqtt_table_ok : table_ok 5 mqtt_propFields.
Proof. apply (bool_decide_unpack _). vm_compute. exact I. Qed.

Definition g_ctx5 : mqtt_prop_ctx_t :=
  match ism_common_makeMqttPropCtx mqtt_propFields 5 with Ret ctx => ctx | _ => mk_ctx 0 0 0 0 [] end.

Definition known5 : Z -> option mqtt_prop_field_t := table_find mqtt_propFields.

Lemma make_g_ctx5 : ism_common_makeMqttPropCtx mqtt_propFields 5 = Ret g_ctx5.
Proof. vm_compute. reflexivity. Qed.

#[global] Instance g_ctx5_knows : PropContext g_ctx5 known5.
Proof.
  destruct (context_of_table 5 mqtt_propFields mqtt_table_ok) as (ctx & E & H & _).
  rewrite make_g_ctx5 in E. apply ret_inj in E. rewrite E. exact H.
Qed.

Example make_context_witness :
  exists ctx, ism_common_makeMqttPropCtx mqtt_propFields 5 = Ret ctx /\ PropContext ctx known5
    /\ Forall (fun fld => fld_id fld <= max_id ctx) mqtt_propFields.
Proof. exact (make_context 5 mqtt_propFields mqtt_table_ok). Defined.

(** ** Acknowledgements *)

(** An acknowledgement of version 5: packet id, reason code, properties. *)
Definition enc_ack (id c : Z) (area : list Z) : list Z :=
  be_bytes 2 id ++ [c] ++ enc_varint (Z.of_nat (length area)) ++ area.

(** What is known of the message before the properties. *)
Definition ack_start (id c : Z) (m : mqttMsg_t) : mqttMsg_t :=
  assign (assign (assign m (SetMsgid id)) (SetMqttRc c)) (SetRc (mapToIsmRc c (version m))).

Lemma version_assign m a : version (assign m a) = version m.
Proof. by destruct m, a. Qed.

Lemma mqtt_rc_assign m c : is_byte c -> mqtt_rc (assign m (SetMqttRc c)) = c.
Proof. intros Hc. destruct m; simpl. by apply wrapu_small. Qed.

Lemma length_enc_ack id c area :
  Z.of_nat (length (enc_ack id c area))
  = 3 + Z.of_nat (length (enc_varint (Z.of_nat (length area)))) + Z.of_nat (length area).
Proof. unfold enc_ack. rewrite !length_app, length_be_bytes. simpl length. lia. Qed.

Lemma checkACK_props ctx id c area cpoi m :
  0 <= id < 65536 -> is_byte c -> 5 <= version m ->
  checkACK ctx (enc_ack id c area) (Z.of_nat (length (enc_ack id c area))) cpoi m
  = let props := enc_varint (Z.of_nat (length area)) ++ area in
    ack_props ctx props (Z.of_nat (length props)) cpoi (ack_start id c m).
Proof.
  intros Hid Hc Hv. pose proof (length_enc_ack id c area) as Hl.
  pose proof (length_enc_varint 3 (Z.of_nat (length area))) as Hp. fold (enc_varint (Z.of_nat (length area))) in Hp.
  unfold checkACK. destruct (Z.eqb_spec (Z.of_nat (length (enc_ack id c area))) 2); [lia|].
  destruct (Z.geb_spec (version m) 5); [|lia].
  destruct (Z.geb_spec (Z.of_nat (length (enc_ack id c area))) 3); [|lia]. simpl andb. cbv iota.
  destruct (Z.eqb_spec (Z.of_nat (length (enc_ack id c area)) - 3) 0); [lia|].
  set (props := enc_varint (Z.of_nat (length area)) ++ area) in *.
  assert (Ea : enc_ack id c area = be_bytes 2 id ++ c :: props) by done.
  assert (Ec : at_ (enc_ack id c area) 2 = Ret c).
  { rewrite Ea. pose proof (at_app (be_bytes 2 id) c props) as A. by rewrite length_be_bytes in A. }
  rewrite Ec. rewrite Ea at 1. rewrite bigint16_enc0, bind_ret, bind_ret by done.
  rewrite mqtt_rc_assign, version_assign, version_assign by done.
  assert (drop 3 (enc_ack id c area) = props) as ->.
  { rewrite Ea. change (c :: props) with ([c] ++ props). rewrite app_assoc.
    apply drop_app_length'. by rewrite length_app, length_be_bytes. }
  cbv zeta. f_equal. unfold props. rewrite length_app. lia.
Qed.

Section Ack.
Context {ctx : mqtt_prop_ctx_t} {known : Z -> option mqtt_prop_field_t} {HC : PropContext ctx known}.

(** C24. An acknowledgement of version 5 whose properties are valid and take fewer than
    128 bytes is parsed whole: the packet id and reason code are set and nothing of
    the packet is left.  Without properties the code kept for the message is that of
    the reason code; with properties they are given to the check one by one, and its
    code replaces that of the reason code. *)
Theorem ack_short cpoi id c ps m :
  0 <= id < 65536 -> is_byte c -> 5 <= version m ->
  area_ok (ctx := ctx) (known := known) cpoi [] ps -> Z.of_nat (length (enc_area ps)) < 128 ->
  let packet := enc_ack id c (enc_area ps) in
  checkACK ctx packet (Z.of_nat (length packet)) cpoi m
  = match ps with
    | [] => Ret (ack_start id c m, 0)
    | _ => '(rc, m) ← run_checks (known := known) (Some mpropCheck) (ack_start id c m) ps;
           Ret (assign m (SetRc rc), 0)
    end.
Proof.
  intros Hid Hc Hv Hok Hn. cbv zeta. rewrite checkACK_props by done. cbv zeta.
  set (area := enc_area ps) in *. set (n := Z.of_nat (length area)) in *.
  assert (enc_varint n = [n]) as -> by (apply (enc_varint_small 3); lia).
  unfold ack_props. change (at_ ([n] ++ area) 0) with (@Ret Z n). rewrite bind_ret.
  destruct (Z.geb_spec n 128); [lia|].
  pose proof (read_varint_enc (at_ ([n] ++ area)) 0 n area ltac:(unfold wf_varint; lia)) as R.
  rewrite (proj1 (enc_varint_small 3 n ltac:(lia)) : enc_varint n = [n]) in R.
  unfold ism_common_getMqttVarIntExp. rewrite R by apply reads_at_. repeat (rewrite bind_ret; cbv iota beta).
  change (drop (Z.to_nat (Z.of_nat (length [n]))) ([n] ++ area)) with area.
  replace (Z.of_nat (length ([n] ++ area)) - Z.of_nat (length [n])) with n by (simpl; lia).
  destruct ps as [|p ps]; [done|].
  assert (0 < n) by (unfold n, area; simpl; rewrite length_app; unfold enc_prop; simpl; lia).
  destruct (Z.eqb_spec n 0); [lia|]. destruct (Z.ltb_spec n 0); [lia|]. destruct (Z.gtb_spec n n); [lia|].
  simpl orb. cbv iota. unfold ism_common_checkMqttPropFields, n, area.
  rewrite (check_loop_ok cpoi (Some mpropCheck) (p :: ps) _ _ [] _ Hok found_ok_start (le_n _)).
  destruct (run_checks _ _ (p :: ps)) as [[rc m']| |]; [|done..]. cbn [mbind outcome_bind].
  do 2 f_equal. lia.
Qed.

(** C38. An acknowledgement with 128 bytes of properties or more is never parsed whole,
    whatever the properties are: the first byte of their length is taken for the
    length. *)
Theorem ack_long_misread cpoi id c area m :
  0 <= id < 65536 -> is_byte c -> 5 <= version m -> 128 <= Z.of_nat (length area) <= 268435455 ->
  let packet := enc_ack id c area in
  ~ exists m', checkACK ctx packet (Z.of_nat (length packet)) cpoi m = Ret (m', 0).
Proof.
  intros Hid Hc Hv Hn. cbv zeta. rewrite checkACK_props by done. cbv zeta.
  set (n := Z.of_nat (length area)) in *.
  assert (exists cs, enc_varint n = (n mod 128 + 128) :: cs /\ (1 <= length cs)%nat) as (cs & En & Hcs).
  { exists (enc_varint_n 2 (n / 128)). unfold enc_varint.
    change (enc_varint_n 3 n) with (if n <? 128 then [n] else (n mod 128 + 128) :: enc_varint_n 2 (n / 128)).
    destruct (Z.ltb_spec n 128); [lia|]. split; [done|]. apply length_enc_varint. }
  rewrite En. unfold ack_props. change (at_ (((n mod 128 + 128) :: cs) ++ area) 0) with (@Ret Z (n mod 128 + 128)).
  pose proof (Z.mod_pos_bound n 128 ltac:(lia)).
  rewrite bind_ret. destruct (Z.geb_spec (n mod 128 + 128) 128); [|lia]. rewrite bind_ret. cbv iota beta.
  destruct (Z.eqb_spec (n mod 128 + 128) 0); [lia|]. intros (m' & E).
  apply bind_ret_inv in E as (m1 & _ & E). apply ret_inj in E. injection E as _ E.
  rewrite length_app in E. simpl length in E. fold n in E.
  assert (n mod 128 + 128 <= n); [|lia].
  rewrite (Z.div_mod n 128) at 2 by lia. assert (1 <= n / 128) by (apply Z.div_le_lower_bound; lia). lia.
Qed.
End Ack.

(** ** Instances *)

Lemma max_id5 : max_id g_ctx5 = 0x2A.
Proof. vm_compute. reflexivity. Qed.

(** A property given by numerals. *)
Ltac concrete_prop :=
  match goal with |- prop_ok _ (?id, _) =>
    unfold prop_ok; rewrite max_id5; cbn [fst snd wf_val];
    split; [split; vm_compute; discriminate|]; split; [reflexivity|];
    split; [unfold wf_counted, wf_varint; repeat split; try is_bytes; simpl; lia|];
    eexists; split; [vm_compute; reflexivity|]; split; [vm_compute; discriminate|reflexivity]
  end.

Ltac concrete_area :=
  cbn [area_ok];
  repeat (split; [concrete_prop|split;
    [first [ intros H; exfalso; revert H; apply (bool_decide_unpack _); vm_compute; exact I
           | intros _; eexists; split; vm_compute; reflexivity ]|]]);
  exact I.

Definition demo_props : list (Z * pval) :=
  [(MPI_PayloadFormat, PInt1 1); (MPI_UserProperty, PPair [0x6B] [0x76]);
   (MPI_ContentType, PString [0x74; 0x78]); (MPI_UserProperty, PPair [0x6B] [])].

Lemma demo_props_ok : area_ok (ctx := g_ctx5) (known := known5) CPOI_PUBLISH [] demo_props.
Proof.
  unfold demo_props. concrete_area.
Qed.

Example check_exact_witness :
  ism_common_checkMqttPropFields None (enc_area demo_props) (Z.of_nat (length (enc_area demo_props)))
    g_ctx5 CPOI_PUBLISH tt = Ret (0, tt).
Proof.
  apply (check_exact (known := known5) CPOI_PUBLISH (enc_area demo_props) tt).
  - apply (bool_decide_unpack _). vm_compute. exact I.
  - exists demo_props. split; [exact demo_props_ok|reflexivity].
Defined.

Example properties_roundtrip_witness :
  exists b', put_props (ctx := g_ctx5) demo_mem demo_props (set_used demo_buf 0) = Ret b'
    /\ contents b' = enc_area demo_props.
Proof.
  destruct (properties_roundtrip (ctx := g_ctx5) (known := known5) demo_mem demo_mem_total CPOI_PUBLISH
              demo_props (set_used demo_buf 0) demo_props_ok) as (b' & E & Hc & _).
  - split; [reflexivity|vm_compute; split; discriminate|apply (bool_decide_unpack _); vm_compute; exact I].
  - reflexivity.
  - vm_compute. discriminate.
  - exists b'. split; [exact E|exact Hc].
Defined.

Lemma demo_typed : Forall (typed (ctx := g_ctx5) (known := known5)) demo_props.
Proof.
  eapply Forall_impl; [exact (area_ok_props CPOI_PUBLISH [] demo_props demo_props_ok)|].
  intros p Hp. by exists CPOI_PUBLISH.
Qed.

Example get_property_witness :
  let area := enc_area demo_props in
  ism_common_getMqttPropString area (Z.of_nat (length area)) MPI_ContentType g_ctx5
  = Ret (Some ([0x74; 0x78; 0x26; 0; 1; 0x6B; 0; 0], 2)).
Proof.
  destruct (get_property (ctx := g_ctx5) (known := known5) MPI_ContentType
              [(MPI_PayloadFormat, PInt1 1); (MPI_UserProperty, PPair [0x6B] [0x76])]
              (PString [0x74; 0x78]) [(MPI_UserProperty, PPair [0x6B] [])] 0) as (_ & H & _).
  - exact demo_typed.
  - repeat constructor; discriminate.
  - exact (H [0x74; 0x78] eq_refl).
Defined.

(** A correlation id hides the content type that follows it. *)
Definition hidden_props : list (Z * pval) :=
  [(MPI_Correlation, PBytes [1; 2]); (MPI_ContentType, PString [0x74])].

Lemma hidden_typed : Forall (typed (ctx := g_ctx5) (known := known5)) hidden_props.
Proof. unfold hidden_props. repeat constructor; exists CPOI_PUBLISH; concrete_prop. Qed.

Example bytes_end_search_witness :
  let area := enc_area hidden_props in
  ism_common_getMqttPropString area (Z.of_nat (length area)) MPI_ContentType g_ctx5 = Ret None.
Proof.
  destruct (bytes_end_search (ctx := g_ctx5) (known := known5) MPI_ContentType [] MPI_Correlation [1; 2]
              [(MPI_ContentType, PString [0x74])] 0 hidden_typed) as [_ H].
  - constructor.
  - exact H.
Defined.

Definition demo_msg : mqttMsg_t := mk_msg 5 0 0 0 0 0 false false 0 0 0 0 0 0 0 0 0 [] 0.

Definition reason_props : list (Z * pval) := [(MPI_Reason, PString [0x6F; 0x6B])].

Lemma reason_props_ok : area_ok (ctx := g_ctx5) (known := known5) CPOI_PUBACK [] reason_props.
Proof.
  unfold reason_props. concrete_area.
Qed.

Example ack_short_witness :
  exists m, checkACK g_ctx5 [1; 44; 0; 5; 0x1F; 0; 2; 0x6F; 0x6B] 9 CPOI_PUBACK demo_msg = Ret (m, 0)
    /\ msgid m = 300 /\ rc m = 0 /\ reason m = [0x6F; 0x6B].
Proof.
  pose proof (ack_short (ctx := g_ctx5) (known := known5) CPOI_PUBACK 300 0 reason_props demo_msg
                ltac:(lia) ltac:(unfold is_byte; lia) ltac:(simpl; lia) reason_props_ok
                ltac:(vm_compute; reflexivity)) as E.
  eexists. split; [exact E|]. vm_compute. repeat split; reflexivity.
Defined.

(** An acknowledgement that reports an error, once without properties and once with
    the reason string that explains the error: with it the error is forgotten. *)
Theorem ack_error_forgotten :
  (exists m, checkACK g_ctx5 [1; 44; 0x97; 0] 4 CPOI_PUBACK demo_msg = Ret (m, 0) /\ rc m <> 0) /\
  (exists m, checkACK g_ctx5 [1; 44; 0x97; 5; 0x1F; 0; 2; 0x6E; 0x6F] 9 CPOI_PUBACK demo_msg = Ret (m, 0)
    /\ mqtt_rc m = 0x97 /\ rc m = 0).
Proof.
  split; eexists.
  - split; [vm_compute; reflexivity|]. vm_compute. discriminate.
  - split; [vm_compute; reflexivity|]. vm_compute. auto.
Qed.

Example ack_long_misread_witness :
  let area := enc_area [(MPI_Reason, PString (replicate 200 0x6F))] in
  let packet := enc_ack 300 0 area in
  ~ exists m', checkACK g_ctx5 packet (Z.of_nat (length packet)) CPOI_PUBACK demo_msg = Ret (m', 0).
Proof.
  apply (ack_long_misread (ctx := g_ctx5) CPOI_PUBACK 300 0); [lia|unfold is_byte; lia|simpl; lia|].
  vm_compute. split; discriminate.
Defined.

(** Two subscription identifiers in a SUBSCRIBE packet are accepted, although the
    table only means to allow them in the PUBLISH packets of a server: the bits of
    [CPOI_ALT_MULTI] contain [CPOI_MULTI]. *)
Theorem subscribe_two_ids v w (u : unit) :
  wf_varint v -> wf_varint w ->
  let area := enc_area [(MPI_SubID, PVarInt v); (MPI_SubID, PVarInt w)] in
  ism_common_checkMqttPropFields None area (Z.of_nat (length area)) g_ctx5 CPOI_SUBSCRIBE u = Ret (0, u).
Proof.
  intros Hv Hw area. unfold ism_common_checkMqttPropFields, area.
  rewrite (check_loop_ok (known := known5) CPOI_SUBSCRIBE None [(MPI_SubID, PVarInt v); (MPI_SubID, PVarInt w)]
             _ _ [] u); [by rewrite run_checks_none| |apply found_ok_start|done].
  assert (Hp : forall x, wf_varint x -> prop_ok (ctx := g_ctx5) (known := known5) CPOI_SUBSCRIBE (MPI_SubID, PVarInt x)).
  { intros x Hx. unfold prop_ok. rewrite max_id5. cbn [fst snd]. split; [done|]. split; [done|]. split; [exact Hx|].
    eexists. split; [vm_compute; reflexivity|]. split; [vm_compute; discriminate|reflexivity]. }
  split; [by apply Hp|]. split; [intros H; by apply not_elem_of_nil in H|].
  split; [by apply Hp|]. split; [|done]. intros _. eexists. split; vm_compute; reflexivity.
Qed.

Example subscribe_two_ids_witness :
  ism_common_checkMqttPropFields None [0x0B; 1; 0x0B; 2] 4 g_ctx5 CPOI_SUBSCRIBE tt = Ret (0, tt).
Proof. exact (subscribe_two_ids 1 2 tt ltac:(unfold wf_varint; lia) ltac:(unfold wf_varint; lia)). Defined.

(** ** The length of a packet *)

Lemma packetLength_enc n :
  wf_varint n -> packetLength n = 1 + Z.of_nat (length (enc_varint n)) + n.
Proof.
  unfold wf_varint. intros Hn. unfold packetLength, enc_varint. cbn [enc_varint_n].
  assert (Hlt : forall x k, 0 <= x -> (x / 128 <? k) = (x <? 128 * k)).
  { intros x k Hx. pose proof (Z.div_mod x 128 ltac:(lia)). pose proof (Z.mod_pos_bound x 128 ltac:(lia)).
    destruct (Z.ltb_spec (x / 128) k), (Z.ltb_spec x (128 * k)); lia. }
  rewrite !Hlt by (try apply Z.div_pos; lia). change (128 * 128) with 16384. change (128 * 16384) with 2097152.
  destruct (Z.ltb_spec n 128), (Z.geb_spec n 128); try lia; [simpl; lia|].
  destruct (Z.ltb_spec n 16384), (Z.geb_spec n 16384); try lia; [simpl; lia|].
  destruct (Z.ltb_spec n 2097152), (Z.geb_spec n 2097152); try lia; simpl; lia.
Qed.
