(* ===== verification/MqttFrame.v ===== *)
(** * MQTT packets in WebSocket frames

    [ism_mqtt_wsbReceive] of server_protocol/src/mqtt.c: the frames that arrive need
    not be aligned with the MQTT packets in them, so the function keeps the end of a
    frame that is not a whole packet and puts the next frame behind it.  The calls to
    [ism_mqtt_receive] are recorded; the function does not look at what they return.
    Lengths are taken to fit an [int].  [mem n] says whether a request for [n] bytes
    is met; the function does not test for it and copies through the null pointer. *)

From S2P Require Import Prelude Buffer MqttProp MqttVarInt.

(** ** Model *)

Definition ISMRC_NotBinary : Z := 295.

(** The members of [ism_protobj_t] for the bytes that are kept.  [morebuf] is the
    allocated memory, of [morealloc] bytes. *)
Record protobj := mk_pobj {
  morelen : Z;
  morealloc : Z;
  morebuf : list Z
}.

(** A call of [ism_mqtt_receive]: the packet without its fixed header, and [kind]. *)
Definition call : Type := list Z * Z.

(** The result of reading the bytes of a length that follow the first. *)
Inductive header :=
  | HBad
  | HMore (buflen : Z)
  | HLen (len count buflen : Z) (bp : list Z).

Fixpoint length_loop (fuel : nat) (bp : list Z) (buflen count len multshift : Z) : outcome header :=
  match fuel with
  | O => Hang
  | S fuel =>
      let buflen := buflen - 1 in
      let count := count + 1 in
      if count >? 5 then Ret HBad
      else if buflen <? 0 then Ret (HMore (buflen + count))
      else
        c ← at_ bp 0;
        let bp := drop 1 bp in
        let len := len + Z.shiftl (Z.land c 0x7f) multshift in
        if negb (Z.land c 0x80 =? 0) then length_loop fuel bp buflen count len (multshift + 7)
        else if c =? 0 then Ret HBad
        else Ret (HLen len count buflen bp)
  end.

(** The loop ends at the latest with [count = 6]. *)
Definition length_fuel : nat := 4.

(** How the loop over the packets of a buffer ends: with an error, or with [buflen]
    bytes at [buf] to keep. *)
Inductive wsb_end := WBad | WKeep (buf : list Z) (buflen : Z).

Fixpoint wsb_loop (fuel : nat) (buf : list Z) (buflen : Z) (calls : list call)
  : outcome (wsb_end * list call) :=
  if buflen >=? 2 then
    match fuel with
    | O => Hang
    | S fuel =>
        kind ← at_ buf 0;
        len ← at_ buf 1;
        let buflen := buflen - 2 in
        let bp := drop 2 buf in
        h ← (if negb (Z.land len 0x80 =? 0) then length_loop length_fuel bp buflen 2 (Z.land len 0x7f) 7
             else Ret (HLen len 2 buflen bp));
        match h with
        | HBad => Ret (WBad, calls)
        | HMore buflen => Ret (WKeep buf buflen, calls)
        | HLen len count buflen _ =>
            if buflen <? len then Ret (WKeep buf (buflen + count), calls)
            else
              packet ← (if count + len <=? Z.of_nat (length buf)
                        then Ret (take (Z.to_nat len) (drop (Z.to_nat count) buf)) else Crash);
              wsb_loop fuel (drop (Z.to_nat (count + len)) buf) (buflen - len) (calls ++ [(packet, i8 kind)])
        end
    end
  else Ret (WKeep buf buflen, calls).

(** [memcpy(morebuf, buf, buflen)], after the reallocation when it is too small. *)
Definition save_bytes (mem : Z -> bool) (pobj : protobj) (buf : list Z) (buflen : Z) : outcome protobj :=
  pobj ← (if buflen >? morealloc pobj then
            if mem buflen then
              Ret (mk_pobj (morelen pobj) buflen
                     (morebuf pobj ++ replicate (Z.to_nat (buflen - morealloc pobj)) 0))
            else Crash
          else Ret pobj);
  if decide (buflen <= Z.of_nat (length buf) /\ buflen <= Z.of_nat (length (morebuf pobj))) then
    Ret (mk_pobj buflen (morealloc pobj) (take (Z.to_nat buflen) buf ++ drop (Z.to_nat buflen) (morebuf pobj)))
  else Crash.

Definition ism_mqtt_wsbReceive (mem : Z -> bool) (pobj : protobj) (buf : list Z) (buflen command : Z)
  : outcome (Z * protobj * list call) :=
  if negb (command =? 2) then Ret (ISMRC_NotBinary, pobj, [])
  else
    '(buf, buflen, pobj) ←
      (if negb (morelen pobj =? 0) then
         if (morelen pobj + buflen >? 32000) && negb (mem (morelen pobj + buflen)) then Crash
         else Ret (take (Z.to_nat (morelen pobj)) (morebuf pobj) ++ take (Z.to_nat buflen) buf,
                   buflen + morelen pobj, mk_pobj 0 (morealloc pobj) (morebuf pobj))
       else Ret (buf, buflen, pobj));
    '(e, calls) ← wsb_loop (length buf) buf buflen [];
    match e with
    | WBad => Ret (-1, pobj, calls)
    | WKeep buf buflen =>
        if buflen >? 0 then pobj ← save_bytes mem pobj buf buflen; Ret (0, pobj, calls)
        else Ret (0, pobj, calls)
    end.

(** Frames that arrive one after the other; a frame with an error ends it. *)
Fixpoint receive_frames (mem : Z -> bool) (pobj : protobj) (frames : list (list Z))
  : outcome (Z * protobj * list call) :=
  match frames with
  | [] => Ret (0, pobj, [])
  | f :: frames =>
      '(rc, pobj, calls) ← ism_mqtt_wsbReceive mem pobj f (Z.of_nat (length f)) 2;
      if rc =? 0 then
        '(rc, pobj, calls') ← receive_frames mem pobj frames; Ret (rc, pobj, calls ++ calls')
      else Ret (rc, pobj, calls)
  end.

(** ** Packets *)

Record packet := mk_packet { p_kind : Z; p_body : list Z }.

Definition enc_packet (p : packet) : list Z :=
  p_kind p :: enc_varint (Z.of_nat (length (p_body p))) ++ p_body p.

Definition wf_packet (p : packet) : Prop :=
  is_byte (p_kind p) /\ Forall is_byte (p_body p) /\ wf_varint (Z.of_nat (length (p_body p))).

Definition enc_stream (ps : list packet) : list Z := concat (map enc_packet ps).

Definition call_of (p : packet) : call := (p_body p, i8 (p_kind p)).

(** Bytes that stop inside a packet. *)
Definition inside (t : list Z) (p : packet) : Prop :=
  exists u, u <> [] /\ t ++ u = enc_packet p.

Lemma stream_split ps x y :
  x ++ y = enc_stream ps ->
  exists ps1 ps2 t, ps = ps1 ++ ps2 /\ x = enc_stream ps1 ++ t /\ t ++ y = enc_stream ps2
    /\ (t = [] \/ exists p ps3, ps2 = p :: ps3 /\ inside t p).
Proof.
  revert x. induction ps as [|p ps IH]; intros x E.
  - apply app_eq_nil in E as [-> ->]. exists [], [], []. auto.
  - change (enc_stream (p :: ps)) with (enc_packet p ++ enc_stream ps) in E.
    apply app_eq_app in E as (z & [[-> E]|[E ->]]).
    + destruct (IH z) as (ps1 & ps2 & t & -> & -> & Et & Ht); [by symmetry|].
      exists (p :: ps1), ps2, t. rewrite app_assoc. auto.
    + destruct (decide (z = [])) as [->|Hz].
      * exists [p], ps, []. rewrite app_nil_r in E. split; [done|]. rewrite app_nil_r.
        split; [unfold enc_stream; simpl; by rewrite app_nil_r|]. auto.
      * exists [], (p :: ps), x. split; [done|]. split; [done|].
        split; [change (enc_stream (p :: ps)) with (enc_packet p ++ enc_stream ps); by rewrite E, <-app_assoc|].
        right. exists p, ps. split; [done|]. by exists z.
Qed.

(** ** The length *)

(** One round of the loop. *)
Lemma length_loop_round fuel c bp count len ms :
  count < 5 -> 0 <= ms -> is_byte c ->
  length_loop (S fuel) (c :: bp) (Z.of_nat (length (c :: bp))) count len ms
  = if c <? 128 then
      if c =? 0 then Ret HBad else Ret (HLen (len + c * 2 ^ ms) (count + 1) (Z.of_nat (length bp)) bp)
    else length_loop fuel bp (Z.of_nat (length bp)) (count + 1) (len + (c - 128) * 2 ^ ms) (ms + 7).
Proof.
  intros Hn Hms Hc. cbn [length_loop]. destruct (Z.gtb_spec (count + 1) 5); [lia|].
  replace (Z.of_nat (length (c :: bp)) - 1) with (Z.of_nat (length bp)) by (simpl; lia).
  destruct (Z.ltb_spec (Z.of_nat (length bp)) 0); [lia|].
  change (at_ (c :: bp) 0) with (@Ret Z c). change (drop 1 (c :: bp)) with bp.
  rewrite bind_ret, byte_high, byte_low, Z.shiftl_mul_pow2 by done. by destruct (c <? 128).
Qed.

Lemma length_loop_enc n v rest count len ms :
  count = 4 - Z.of_nat n -> 0 <= ms -> 0 < v < 128 ^ (Z.of_nat n + 1) ->
  let bp := enc_varint_n n v ++ rest in
  length_loop (S (S n)) bp (Z.of_nat (length bp)) count len ms
  = Ret (HLen (len + v * 2 ^ ms) (count + Z.of_nat (length (enc_varint_n n v))) (Z.of_nat (length rest)) rest).
Proof.
  cbv zeta. revert v count len ms.
  assert (Hone : forall fuel v count len ms, count < 5 -> 0 <= ms -> 0 < v < 128 ->
            length_loop (S fuel) ([v] ++ rest) (Z.of_nat (length ([v] ++ rest))) count len ms
            = Ret (HLen (len + v * 2 ^ ms) (count + 1) (Z.of_nat (length rest)) rest)).
  { intros fuel v count len ms ? ? Hv. simpl app. rewrite length_loop_round by (try unfold is_byte; done || lia).
    rewrite (proj2 (Z.ltb_lt v 128)) by lia. destruct (Z.eqb_spec v 0); [lia|done]. }
  induction n as [|n IH]; intros v count len ms -> Hms Hv; cbn [enc_varint_n] in *;
    [|destruct (Z.ltb_spec v 128) as [Hs|Hs]].
  1: change (128 ^ (Z.of_nat 0 + 1)) with 128 in Hv.
  1,2: apply Hone; lia.
  rewrite pow128_succ in Hv. pose proof (Z.mod_pos_bound v 128 ltac:(lia)). rewrite <-app_comm_cons.
  rewrite length_loop_round by (try unfold is_byte; done || lia).
  destruct (Z.ltb_spec (v mod 128 + 128) 128); [lia|].
  rewrite (IH (v / 128)); [| lia | lia |].
  2: { split; [apply Z.div_str_pos; lia | apply Z.div_lt_upper_bound; lia]. }
  rewrite Z.pow_add_r by lia. f_equal. f_equal; [|simpl length; lia].
  rewrite (Z.div_mod v 128) at 3 by lia. change (2 ^ 7) with 128. ring.
Qed.

(** A length that is cut off: the buffer is to be kept from its start. *)
Lemma length_loop_cut n v t u count len ms :
  count = 4 - Z.of_nat n -> 0 <= ms -> 0 < v < 128 ^ (Z.of_nat n + 1) ->
  t ++ u = enc_varint_n n v -> u <> [] ->
  length_loop (S (S n)) t (Z.of_nat (length t)) count len ms = Ret (HMore (Z.of_nat (length t) + count)).
Proof.
  revert v t count len ms. induction n as [|n IH]; intros v t count len ms -> Hms Hv E Hu; destruct t as [|c t];
    try (cbn [length_loop]; destruct (Z.gtb_spec (4 - Z.of_nat 0 + 1) 5); [lia|]; simpl; do 2 f_equal; lia);
    try (cbn [length_loop]; destruct (Z.gtb_spec (4 - Z.of_nat (S n) + 1) 5); [lia|]; simpl; do 2 f_equal; lia);
    cbn [enc_varint_n] in E.
  - injection E as -> E. by apply app_eq_nil in E as [_ ->].
  - destruct (Z.ltb_spec v 128); [injection E as -> E; by apply app_eq_nil in E as [_ ->]|].
    injection E as -> E. rewrite pow128_succ in Hv. pose proof (Z.mod_pos_bound v 128 ltac:(lia)).
    rewrite length_loop_round by (try unfold is_byte; done || lia).
    destruct (Z.ltb_spec (v mod 128 + 128) 128); [lia|].
    rewrite (IH (v / 128)); [do 2 f_equal; simpl length; lia|lia|lia| |done|done].
    split; [apply Z.div_str_pos; lia | apply Z.div_lt_upper_bound; lia].
Qed.

(** ** The packets of a buffer *)

(** The header of a packet as the loop reads it. *)
Definition read_header (len : Z) (bp : list Z) : outcome header :=
  if negb (Z.land len 0x80 =? 0)
  then length_loop length_fuel bp (Z.of_nat (length bp)) 2 (Z.land len 0x7f) 7
  else Ret (HLen len 2 (Z.of_nat (length bp)) bp).

Lemma wsb_loop_head fuel kind len bp calls :
  let buf := kind :: len :: bp in
  wsb_loop (S fuel) buf (Z.of_nat (length buf)) calls
  = (h ← read_header len bp;
     match h with
     | HBad => Ret (WBad, calls)
     | HMore buflen => Ret (WKeep buf buflen, calls)
     | HLen len count buflen _ =>
         if buflen <? len then Ret (WKeep buf (buflen + count), calls)
         else
           packet ← (if count + len <=? Z.of_nat (length buf)
                     then Ret (take (Z.to_nat len) (drop (Z.to_nat count) buf)) else Crash);
           wsb_loop fuel (drop (Z.to_nat (count + len)) buf) (buflen - len) (calls ++ [(packet, i8 kind)])
     end).
Proof.
  cbv zeta. cbn [wsb_loop]. destruct (Z.geb_spec (Z.of_nat (length (kind :: len :: bp))) 2) as [_|H]; [|simpl in H; lia].
  change (at_ (kind :: len :: bp) 0) with (@Ret Z kind). change (at_ (kind :: len :: bp) 1) with (@Ret Z len).
  rewrite !bind_ret. unfold read_header. change (drop 2 (kind :: len :: bp)) with bp.
  replace (Z.of_nat (length (kind :: len :: bp)) - 2) with (Z.of_nat (length bp)) by (simpl; lia). done.
Qed.

(** The first byte of a length, and the others. *)
Lemma enc_varint_cases n :
  wf_varint n ->
  (n < 128 /\ enc_varint n = [n])
  \/ (128 <= n /\ enc_varint n = (n mod 128 + 128) :: enc_varint_n 2 (n / 128)
      /\ 0 < n / 128 < 128 ^ (Z.of_nat 2 + 1) /\ is_byte (n mod 128 + 128)
      /\ n mod 128 + n / 128 * 2 ^ 7 = n).
Proof.
  intros Hn. unfold wf_varint in Hn. unfold enc_varint.
  change (enc_varint_n 3 n) with (if n <? 128 then [n] else (n mod 128 + 128) :: enc_varint_n 2 (n / 128)).
  destruct (Z.ltb_spec n 128); [left; auto|right].
  pose proof (Z.mod_pos_bound n 128 ltac:(lia)). pose proof (Z.div_mod n 128 ltac:(lia)).
  split; [done|]. split; [done|]. split; [|split; [unfold is_byte; lia|change (2 ^ 7) with 128; lia]].
  change (128 ^ (Z.of_nat 2 + 1)) with 2097152.
  split; [apply Z.div_str_pos; lia|apply Z.div_lt_upper_bound; lia].
Qed.

Lemma read_header_whole n rest :
  wf_varint n -> exists c cs, enc_varint n = c :: cs /\
  read_header c (cs ++ rest) = Ret (HLen n (2 + Z.of_nat (length cs)) (Z.of_nat (length rest)) rest).
Proof.
  intros Hn. destruct (enc_varint_cases n Hn) as [[Hs E]|(Hs & E & Hd & Hb & Hm)]; rewrite E;
    do 2 eexists; (split; [done|]); unfold read_header.
  - unfold wf_varint in Hn. rewrite byte_high by (unfold is_byte; lia).
    by rewrite (proj2 (Z.ltb_lt n 128)) by lia.
  - rewrite byte_high, byte_low by done. pose proof (Z.mod_pos_bound n 128 ltac:(lia)).
    destruct (Z.ltb_spec (n mod 128 + 128) 128); [lia|]. cbn [negb]. unfold length_fuel.
    rewrite (length_loop_enc 2) by (done || lia). f_equal. f_equal. lia.
Qed.

Lemma read_header_cut n t u c cs :
  wf_varint n -> enc_varint n = c :: cs -> t ++ u = cs -> u <> [] ->
  read_header c t = Ret (HMore (Z.of_nat (length t) + 2)).
Proof.
  intros Hn E Et Hu. destruct (enc_varint_cases n Hn) as [[Hs E']|(Hs & E' & Hd & Hb & Hm)]; rewrite E' in E.
  - injection E as <- <-. by apply app_eq_nil in Et as [_ ->].
  - injection E as <- <-. unfold read_header. rewrite byte_high, byte_low by done.
    pose proof (Z.mod_pos_bound n 128 ltac:(lia)).
    destruct (Z.ltb_spec (n mod 128 + 128) 128); [lia|]. cbn [negb]. unfold length_fuel.
    by apply (length_loop_cut 2 (n / 128) t u).
Qed.

Lemma wsb_packet fuel p rest calls :
  wf_packet p ->
  wsb_loop (S fuel) (enc_packet p ++ rest) (Z.of_nat (length (enc_packet p ++ rest))) calls
  = wsb_loop fuel rest (Z.of_nat (length rest)) (calls ++ [call_of p]).
Proof.
  intros (Hk & Hb & Hn). destruct p as [kind body]. unfold enc_packet, call_of. simpl p_kind in *; simpl p_body in *.
  destruct (read_header_whole (Z.of_nat (length body)) (body ++ rest) Hn) as (c & cs & -> & Eh).
  change ((kind :: (c :: cs) ++ body) ++ rest) with (kind :: c :: (cs ++ body) ++ rest).
  rewrite <-app_assoc. rewrite wsb_loop_head, Eh, bind_ret. cbv iota.
  set (buf := kind :: c :: cs ++ body ++ rest).
  assert (Ebuf : buf = (kind :: c :: cs) ++ body ++ rest) by done.
  assert (Hl : length buf = (2 + length cs + length body + length rest)%nat).
  { unfold buf. simpl. rewrite !length_app. lia. }
  rewrite length_app. destruct (Z.ltb_spec (Z.of_nat (length body + length rest)) (Z.of_nat (length body))); [lia|].
  rewrite (proj2 (Z.leb_le (2 + Z.of_nat (length cs) + Z.of_nat (length body)) (Z.of_nat (length buf)))) by lia.
  rewrite bind_ret. assert (drop (Z.to_nat (2 + Z.of_nat (length cs))) buf = body ++ rest) as Ed.
  { rewrite Ebuf. apply drop_app_length'. simpl. lia. }
  rewrite Ed, Nat2Z.id, take_app_length. f_equal; [|lia].
  replace (Z.to_nat (2 + Z.of_nat (length cs) + Z.of_nat (length body)))
    with (Z.to_nat (2 + Z.of_nat (length cs)) + length body)%nat by lia.
  rewrite <-drop_drop, Ed. by apply drop_app_length.
Qed.

Lemma wsb_short fuel t calls :
  (length t < 2)%nat -> wsb_loop fuel t (Z.of_nat (length t)) calls = Ret (WKeep t (Z.of_nat (length t)), calls).
Proof. intros H. destruct fuel; cbn [wsb_loop]; destruct (Z.geb_spec (Z.of_nat (length t)) 2); (lia || done). Qed.

Lemma wsb_inside fuel t p calls :
  wf_packet p -> inside t p -> (length t <= fuel)%nat ->
  wsb_loop fuel t (Z.of_nat (length t)) calls = Ret (WKeep t (Z.of_nat (length t)), calls).
Proof.
  intros (_ & _ & Hn) (u & Hu & E) Hf. destruct t as [|kind [|c t]]; [by apply wsb_short; simpl; lia..|].
  destruct fuel as [|fuel]; [simpl in Hf; lia|]. rewrite wsb_loop_head.
  unfold enc_packet in E. set (body := p_body p) in *.
  destruct (read_header_whole (Z.of_nat (length body)) (drop 0 []) Hn) as (c' & cs & Ec & _).
  rewrite Ec in E. simpl app in E. injection E as -> -> E.
  apply app_eq_app in E as (z & [[-> E]|[-> ->]]).
  - destruct (read_header_whole (Z.of_nat (length body)) z Hn) as (c2 & cs2 & Ec2 & Eh).
    rewrite Ec in Ec2. injection Ec2 as <- <-. rewrite Eh, bind_ret. cbv iota.
    assert (length z < length body)%nat by (rewrite E, length_app; destruct u; [done|simpl; lia]).
    destruct (Z.ltb_spec (Z.of_nat (length z)) (Z.of_nat (length body))); [|lia].
    simpl length. rewrite length_app. do 3 f_equal. lia.
  - destruct (decide (z = [])) as [->|Hz].
    + rewrite app_nil_r in *. simpl in Hu.
      destruct (read_header_whole (Z.of_nat (length body)) [] Hn) as (c2 & cs2 & Ec2 & Eh).
      rewrite Ec in Ec2. injection Ec2 as <- <-. rewrite app_nil_r in Eh. rewrite Eh, bind_ret. cbv iota.
      destruct (Z.ltb_spec (Z.of_nat (length (@nil Z))) (Z.of_nat (length body))) as [_|H];
        [|destruct body; [done|simpl in H; lia]].
      simpl length. do 3 f_equal. lia.
    + rewrite (read_header_cut _ t z c' (t ++ z) Hn Ec eq_refl Hz), bind_ret. simpl length. do 3 f_equal. lia.
Qed.

(** A tail that is not a whole packet. *)
Definition partial (t : list Z) : Prop := t = [] \/ exists p, wf_packet p /\ inside t p.

Lemma wsb_stream ps fuel t calls :
  Forall wf_packet ps -> partial t ->
  (length (enc_stream ps ++ t) <= fuel)%nat ->
  wsb_loop fuel (enc_stream ps ++ t) (Z.of_nat (length (enc_stream ps ++ t))) calls
  = Ret (WKeep t (Z.of_nat (length t)), calls ++ map call_of ps).
Proof.
  intros Hps Ht. revert fuel calls. induction Hps as [|p ps Hp _ IH]; intros fuel calls Hf.
  - simpl in *. rewrite app_nil_r. destruct Ht as [->|(p & Hp & Hi)]; [by apply wsb_short; simpl; lia|].
    by apply (wsb_inside fuel t p).
  - change (enc_stream (p :: ps)) with (enc_packet p ++ enc_stream ps) in *. rewrite <-app_assoc in *.
    rewrite length_app in Hf. simpl in Hf. destruct fuel as [|fuel]; [lia|].
    rewrite wsb_packet, IH by (done || lia). by rewrite <-app_assoc.
Qed.

(** ** Frames *)

Record pobj_wf (pobj : protobj) : Prop := {
  pw_len : 0 <= morelen pobj <= morealloc pobj;
  pw_alloc : morealloc pobj = Z.of_nat (length (morebuf pobj))
}.

(** The bytes that are kept. *)
Definition saved (pobj : protobj) : list Z := take (Z.to_nat (morelen pobj)) (morebuf pobj).

Section Frames.
Context (mem : Z -> bool) (Hmem : forall n, mem n = true).

Lemma save_bytes_ok pobj t :
  pobj_wf pobj ->
  exists pobj', save_bytes mem pobj t (Z.of_nat (length t)) = Ret pobj' /\ pobj_wf pobj' /\ saved pobj' = t.
Proof.
  intros [Hl Ha]. unfold save_bytes. rewrite Hmem.
  set (q := if Z.of_nat (length t) >? morealloc pobj then _ else _).
  assert (exists q', q = Ret q' /\ morealloc q' = Z.of_nat (length (morebuf q'))
            /\ Z.of_nat (length t) <= morealloc q') as (q' & -> & Hq & Ht).
  { subst q. destruct (Z.gtb_spec (Z.of_nat (length t)) (morealloc pobj)).
    - eexists. split; [done|]. simpl. rewrite length_app, length_replicate. lia.
    - exists pobj. auto. }
  rewrite bind_ret, decide_True by lia. eexists. split; [done|]. rewrite Nat2Z.id, firstn_all.
  split; [split; simpl; [lia|rewrite length_app, length_drop; lia]|].
  unfold saved; simpl. by rewrite Nat2Z.id, take_app_length.
Qed.

(** One frame: behind what is kept it completes packets and leaves a tail. *)
Lemma wsb_frame pobj f ps t :
  pobj_wf pobj -> Forall wf_packet ps -> partial t -> saved pobj ++ f = enc_stream ps ++ t ->
  exists pobj', ism_mqtt_wsbReceive mem pobj f (Z.of_nat (length f)) 2 = Ret (0, pobj', map call_of ps)
    /\ pobj_wf pobj' /\ saved pobj' = t.
Proof.
  intros Hw Hps Ht E. unfold ism_mqtt_wsbReceive. simpl negb. cbv iota.
  set (start := if negb (morelen pobj =? 0) then _ else _).
  assert (exists q, start = Ret (saved pobj ++ f, Z.of_nat (length (saved pobj ++ f)), q)
            /\ pobj_wf q /\ morelen q = 0) as (q & -> & Hq & H0).
  { destruct Hw as [Hl Ha]. subst start. unfold saved. destruct (Z.eqb_spec (morelen pobj) 0) as [E0|Hne].
    - exists pobj. rewrite E0. simpl. split; [done|]. split; [by split|done].
    - cbn [negb]. rewrite Hmem, andb_false_r. rewrite Nat2Z.id, firstn_all.
      exists (mk_pobj 0 (morealloc pobj) (morebuf pobj)). split; [|split; [split; simpl; lia|done]].
      do 3 f_equal. rewrite length_app, length_take. lia. }
  rewrite bind_ret. cbv iota beta. rewrite E, wsb_stream, bind_ret by (done || lia). cbv iota beta.
  destruct (Z.gtb_spec (Z.of_nat (length t)) 0).
  - destruct (save_bytes_ok q t Hq) as (q' & -> & Hq' & Es). rewrite bind_ret. by exists q'.
  - destruct t; [|simpl in *; lia]. exists q. split; [done|]. split; [done|]. unfold saved. by rewrite H0.
Qed.

Lemma stream_partial ps1 ps2 t :
  Forall wf_packet (ps1 ++ ps2) -> (t = [] \/ exists p ps3, ps2 = p :: ps3 /\ inside t p) -> partial t.
Proof.
  intros Hw [->|(p & ps3 & -> & Hi)]; [by left|right]. exists p. split; [|done].
  apply Forall_app in Hw as [_ Hw]. by apply Forall_cons in Hw as [? _].
Qed.

Lemma frames_ok frames pobj ps y :
  pobj_wf pobj -> Forall wf_packet ps -> partial (saved pobj) ->
  saved pobj ++ concat frames ++ y = enc_stream ps ->
  exists ps1 ps2 pobj', ps = ps1 ++ ps2 /\ receive_frames mem pobj frames = Ret (0, pobj', map call_of ps1)
    /\ pobj_wf pobj' /\ partial (saved pobj') /\ saved pobj' ++ y = enc_stream ps2.
Proof.
  revert pobj ps. induction frames as [|f frames IH]; intros pobj ps Hw Hps Hp E.
  - exists [], ps, pobj. auto.
  - simpl concat in E. rewrite <-(app_assoc f), app_assoc in E.
    destruct (stream_split ps _ _ E) as (ps1 & ps2 & t & -> & E1 & E2 & Ht).
    assert (Ht' := stream_partial _ _ _ Hps Ht). apply Forall_app in Hps as [Hp1 Hp2].
    destruct (wsb_frame pobj f ps1 t Hw Hp1 Ht' E1) as (q & Er & Hq & Es). rewrite <-Es in E2, Ht'.
    destruct (IH q ps2 Hq Hp2 Ht' E2) as (ps3 & ps4 & r & -> & Er2 & Hr & Hrp & E3).
    exists (ps1 ++ ps3), ps4, r. rewrite app_assoc. split; [done|].
    cbn [receive_frames]. rewrite Er, bind_ret. simpl (0 =? 0). cbv iota beta.
    rewrite Er2, bind_ret, map_app. auto.
Qed.

(** Whole packets are not the beginning of one: the loop tells them apart. *)
Lemma whole_not_inside ps p :
  Forall wf_packet ps -> ps <> [] -> wf_packet p -> ~ inside (enc_stream ps) p.
Proof.
  intros Hps Hne Hp Hi.
  pose proof (wsb_inside _ _ p [] Hp Hi (le_n _)) as E1.
  pose proof (wsb_stream ps (length (enc_stream ps ++ [])) [] [] Hps ltac:(by left) (le_n _)) as E2.
  rewrite app_nil_r in E2. rewrite E1 in E2. apply ret_inj in E2. injection E2 as _ _ E2.
  by destruct ps.
Qed.

(** The frames when every request for memory is met. *)
Lemma frames_with_memory frames ps y :
  Forall wf_packet ps -> concat frames ++ y = enc_stream ps ->
  exists ps1 ps2 pobj',
    receive_frames mem (mk_pobj 0 0 []) frames = Ret (0, pobj', map call_of ps1)
    /\ ps = ps1 ++ ps2 /\ saved pobj' ++ y = enc_stream ps2
    /\ (saved pobj' = [] \/ exists p, inside (saved pobj') p)
    /\ (y = [] -> ps1 = ps /\ saved pobj' = []).
Proof.
  intros Hps E.
  destruct (frames_ok frames (mk_pobj 0 0 []) ps y) as (ps1 & ps2 & pobj' & -> & Er & Hw & Hp & E2);
    [split; simpl; done|done|by left|done|].
  exists ps1, ps2, pobj'. split; [done|]. split; [done|]. split; [done|].
  split; [destruct Hp as [?|(p & _ & ?)]; eauto|].
  intros ->. rewrite app_nil_r in E2.
  assert (saved pobj' = []) as Es; [|split; [|done]].
  - destruct Hp as [?|(p & Hwp & Hi)]; [done|]. destruct (decide (ps2 = [])) as [->|Hne]; [by rewrite E2|].
    apply Forall_app in Hps as [_ Hps2]. rewrite E2 in Hi. by destruct (whole_not_inside ps2 p Hps2 Hne Hwp Hi).
  - rewrite Es in E2. destruct ps2; [by rewrite app_nil_r|done].
Qed.
End Frames.

(** ** Requests that are not met *)

Section Memory.
Context (mem : Z -> bool).
#[local] Abbreviation always := (fun _ : Z => true).

(** A computation goes as with memory, or crashes for want of it. *)
Definition same_or_crash {A} (x y : outcome A) : Prop := x = y \/ (x = Crash /\ exists n, mem n = false).

Lemma soc_bind {A B} (x y : outcome A) (f g : A -> outcome B) :
  same_or_crash x y -> (forall a, same_or_crash (f a) (g a)) -> same_or_crash (x ≫= f) (y ≫= g).
Proof.
  intros [->|[-> Hn]] Hfg; [|by right]. destruct y as [a| |]; [apply Hfg|by left..].
Qed.

Lemma soc_refl {A} (x : outcome A) : same_or_crash x x.
Proof. by left. Qed.

Lemma save_bytes_soc pobj buf buflen : same_or_crash (save_bytes mem pobj buf buflen) (save_bytes always pobj buf buflen).
Proof.
  unfold save_bytes. apply soc_bind; [|intros; apply soc_refl].
  destruct (buflen >? morealloc pobj); [|apply soc_refl].
  destruct (mem buflen) eqn:E; [apply soc_refl|]. right. eauto.
Qed.

Lemma wsbReceive_soc pobj buf buflen command :
  same_or_crash (ism_mqtt_wsbReceive mem pobj buf buflen command) (ism_mqtt_wsbReceive always pobj buf buflen command).
Proof.
  unfold ism_mqtt_wsbReceive. destruct (negb (command =? 2)); [apply soc_refl|].
  apply soc_bind.
  - destruct (negb (morelen pobj =? 0)); [|apply soc_refl]. rewrite andb_false_r.
    destruct (mem (morelen pobj + buflen)) eqn:E; [rewrite andb_false_r; apply soc_refl|].
    destruct (morelen pobj + buflen >? 32000); [right; eauto|apply soc_refl].
  - intros [[b n] q]. apply soc_bind; [apply soc_refl|]. intros [[|b' n'] cs]; [apply soc_refl|].
    destruct (n' >? 0); [|apply soc_refl]. apply soc_bind; [apply save_bytes_soc|intros; apply soc_refl].
Qed.

Lemma receive_frames_soc frames pobj :
  same_or_crash (receive_frames mem pobj frames) (receive_frames always pobj frames).
Proof.
  revert pobj. induction frames as [|f frames IH]; intros pobj; [apply soc_refl|]. cbn [receive_frames].
  apply soc_bind; [apply wsbReceive_soc|]. intros [[rc q] cs]. destruct (rc =? 0); [|apply soc_refl].
  apply soc_bind; [apply IH|]. intros [[rc' q'] cs']. apply soc_refl.
Qed.
End Memory.

(** C5. However a stream of MQTT packets is cut into WebSocket frames, the packets are
    handed on whole and in order: after any number of frames those that have
    arrived completely have been handed on, and the bytes kept are the beginning of
    the next one, so that what comes after them is again a stream.  The one other
    outcome is that a request for memory to keep or join bytes was not met, and then
    the server crashes: the code copies through the null pointer.  (Lengths are taken
    to fit an [int].) *)
Theorem frames_refine_stream mem frames ps y :
  Forall wf_packet ps -> concat frames ++ y = enc_stream ps ->
  (exists ps1 ps2 pobj',
    receive_frames mem (mk_pobj 0 0 []) frames = Ret (0, pobj', map call_of ps1)
    /\ ps = ps1 ++ ps2 /\ saved pobj' ++ y = enc_stream ps2
    /\ (saved pobj' = [] \/ exists p, inside (saved pobj') p)
    /\ (y = [] -> ps1 = ps /\ saved pobj' = []))
  \/ (receive_frames mem (mk_pobj 0 0 []) frames = Crash /\ exists n, mem n = false).
Proof.
  intros Hps E. destruct (receive_frames_soc mem frames (mk_pobj 0 0 [])) as [->|Hc]; [left|by right].
  by apply frames_with_memory.
Qed.

(** A packet that is cut after its first byte, and no memory to keep the byte. *)
Theorem frame_without_memory_crashes :
  ism_mqtt_wsbReceive (fun _ => false) (mk_pobj 0 0 []) [0xC0] 1 2 = Crash.
Proof. reflexivity. Qed.

(** A PINGREQ and a PUBLISH in three frames that cut both. *)
Definition demo_frames : list (list Z) := [[0xC0]; [0; 0x30; 5; 0; 1]; [0x61; 7; 8]].

Example frames_refine_stream_witness :
  exists pobj', receive_frames (fun _ => true) (mk_pobj 0 0 []) demo_frames
    = Ret (0, pobj', [([], -64); ([0; 1; 0x61; 7; 8], 0x30)]).
Proof.
  destruct (frames_refine_stream (fun _ => true) demo_frames
              [mk_packet 0xC0 []; mk_packet 0x30 [0; 1; 0x61; 7; 8]] [])
    as [(ps1 & ps2 & pobj' & E & _ & _ & _ & H)|[_ [n [=]]]].
  - repeat apply Forall_cons_2; try apply Forall_nil_2;
      (split; [unfold is_byte; simpl; lia|split; [simpl; is_bytes|unfold wf_varint; simpl; lia]]).
  - reflexivity.
  - destruct (H eq_refl) as [-> _]. exists pobj'. exact E.
Defined.
