(* ===== verification/MqttReason.v ===== *)
(** * MQTT reason codes

    The tables of server_protocol/src/mqtt.c between the return codes of the server
    and the reason codes of MQTT version 5. *)

From S2P Require Import Prelude MqttProp MqttPacket.

(** ** Constants (server_protocol/src/mqtt.h, server_utils/include/ismrc.h) *)

Definition MQTTRC_OK : Z := 0x00.
Definition MQTTRC_QoS1 : Z := 0x01.
Definition MQTTRC_QoS2 : Z := 0x02.
Definition MQTTRC_KeepWill : Z := 0x04.
Definition MQTTRC_NoSubscription : Z := 0x10.
Definition MQTTRC_NoSubExisted : Z := 0x11.
Definition MQTTRC_ContinueAuth : Z := 0x18.
Definition MQTTRC_Reauthenticate : Z := 0x19.
Definition MQTTRC_UnspecifiedError : Z := 0x80.
Definition MQTTRC_MalformedPacket : Z := 0x81.
Definition MQTTRC_ProtocolError : Z := 0x82.
Definition MQTTRC_ImplError : Z := 0x83.
Definition MQTTRC_UnknownVersion : Z := 0x84.
Definition MQTTRC_IdentifierNotValid : Z := 0x85.
Definition MQTTRC_BadUserPassword : Z := 0x86.
Definition MQTTRC_NotAuthorized : Z := 0x87.
Definition MQTTRC_ServerUnavailable : Z := 0x88.
Definition MQTTRC_ServerBusy : Z := 0x89.
Definition MQTTRC_ServerBanned : Z := 0x8A.
Definition MQTTRC_ServerShutdown : Z := 0x8B.
Definition MQTTRC_BadAuthMethod : Z := 0x8C.
Definition MQTTRC_KeepAliveTimeout : Z := 0x8D.
Definition MQTTRC_SessionTakenOver : Z := 0x8E.
Definition MQTTRC_TopicFilterInvalid : Z := 0x8F.
Definition MQTTRC_TopicInvalid : Z := 0x90.
Definition MQTTRC_PacketIDInUse : Z := 0x91.
Definition MQTTRC_PacketIDNotFound : Z := 0x92.
Definition MQTTRC_ReceiveMaxExceeded : Z := 0x93.
Definition MQTTRC_TopicAliasInvalid : Z := 0x94.
Definition MQTTRC_PacketTooLarge : Z := 0x95.
Definition MQTTRC_MsgRateTooHigh : Z := 0x96.
Definition MQTTRC_QuotaExceeded : Z := 0x97.
Definition MQTTRC_AdminAction : Z := 0x98.
Definition MQTTRC_PayloadInvalid : Z := 0x99.
Definition MQTTRC_RetainNotSupported : Z := 0x9A.
Definition MQTTRC_QoSNotSupported : Z := 0x9B.
Definition MQTTRC_UseAnotherServer : Z := 0x9C.
Definition MQTTRC_ServerMoved : Z := 0x9D.
Definition MQTTRC_SharedNotSupported : Z := 0x9E.
Definition MQTTRC_ConnectRate : Z := 0x9F.
Definition MQTTRC_MaxConnectTime : Z := 0xA0.
Definition MQTTRC_SubIDNotSupported : Z := 0xA1.
Definition MQTTRC_WildcardNotSupported : Z := 0xA2.

Definition CRC_MinConnectRc : Z := 0.
Definition CRC_InvalidVersion : Z := 1.
Definition CRC_BadIdentifier : Z := 2.
Definition CRC_NotAvailable : Z := 3.
Definition CRC_BadUser : Z := 4.
Definition CRC_NotAuthorized : Z := 5.
Definition CRC_MaxConnectRc : Z := 6.

Definition ISMRC_ClientIDInUse : Z := 121.
Definition ISMRC_TooManyProdCons : Z := 154.
Definition ISMRC_InvalidValue : Z := 272.
Definition ISMRC_InvalidPayload : Z := 273.
Definition ISMRC_InvalidCommand : Z := 275.
Definition ISMRC_WillRequired : Z := 277.
Definition ISMRC_InvalidQoS : Z := 284.
Definition ISMRC_BadSysTopic : Z := 289.
Definition ISMRC_ShareMismatch : Z := 290.
Definition ISMRC_TopicAliasNotValid : Z := 298.

(** ** The tables *)

(** The label of a [case]. *)
Definition one_of (v : Z) (cases : list Z) : bool := existsb (Z.eqb v) cases.

Definition masks (l : list Z) : Z := foldr Z.lor 0 l.

(** The packets that may have a reason code.  The [break] that is missing after
    [MQTTRC_QoS2] is missing here. *)
Definition ism_mqtt_reasonCodeAllowed (rc : Z) : Z :=
  if rc =? MQTTRC_OK then
    masks [CPOI_CONNACK; CPOI_PUBACK; CPOI_PUBCOMP; CPOI_SUBACK; CPOI_UNSUBACK; CPOI_AUTH; CPOI_DISCONNECT; CPOI_AUTH]
  else if one_of rc [MQTTRC_QoS1; MQTTRC_QoS2; MQTTRC_KeepWill] then CPOI_DISCONNECT
  else if rc =? MQTTRC_NoSubscription then CPOI_PUBACK
  else if rc =? MQTTRC_NoSubExisted then CPOI_UNSUBACK
  else if one_of rc [MQTTRC_ContinueAuth; MQTTRC_Reauthenticate] then CPOI_AUTH
  else if rc =? MQTTRC_UnspecifiedError then
    masks [CPOI_CONNACK; CPOI_PUBACK; CPOI_PUBCOMP; CPOI_UNSUBACK; CPOI_AUTH]
  else if one_of rc [MQTTRC_MalformedPacket; MQTTRC_ProtocolError] then masks [CPOI_CONNACK; CPOI_DISCONNECT]
  else if rc =? MQTTRC_ImplError then masks [CPOI_CONNACK; CPOI_PUBACK; CPOI_PUBCOMP; CPOI_UNSUBACK; CPOI_AUTH]
  else if one_of rc [MQTTRC_UnknownVersion; MQTTRC_IdentifierNotValid; MQTTRC_BadUserPassword] then CPOI_CONNACK
  else if rc =? MQTTRC_NotAuthorized then
    masks [CPOI_CONNACK; CPOI_PUBACK; CPOI_SUBACK; CPOI_UNSUBACK; CPOI_DISCONNECT]
  else if rc =? MQTTRC_ServerUnavailable then CPOI_CONNACK
  else if rc =? MQTTRC_ServerBusy then masks [CPOI_CONNACK; CPOI_DISCONNECT]
  else if rc =? MQTTRC_ServerBanned then CPOI_CONNACK
  else if rc =? MQTTRC_ServerShutdown then CPOI_DISCONNECT
  else if rc =? MQTTRC_BadAuthMethod then masks [CPOI_CONNACK; CPOI_DISCONNECT]
  else if one_of rc [MQTTRC_KeepAliveTimeout; MQTTRC_SessionTakenOver] then CPOI_DISCONNECT
  else if rc =? MQTTRC_TopicFilterInvalid then masks [CPOI_SUBACK; CPOI_UNSUBACK; CPOI_DISCONNECT]
  else if rc =? MQTTRC_TopicInvalid then masks [CPOI_CONNACK; CPOI_PUBACK; CPOI_DISCONNECT]
  else if rc =? MQTTRC_PacketIDInUse then masks [CPOI_PUBACK; CPOI_SUBACK; CPOI_UNSUBACK]
  else if rc =? MQTTRC_PacketIDNotFound then CPOI_PUBCOMP
  else if one_of rc [MQTTRC_ReceiveMaxExceeded; MQTTRC_TopicAliasInvalid] then CPOI_DISCONNECT
  else if rc =? MQTTRC_PacketTooLarge then masks [CPOI_CONNACK; CPOI_DISCONNECT]
  else if rc =? MQTTRC_MsgRateTooHigh then CPOI_DISCONNECT
  else if rc =? MQTTRC_QuotaExceeded then masks [CPOI_CONNACK; CPOI_PUBACK; CPOI_SUBACK; CPOI_DISCONNECT]
  else if rc =? MQTTRC_AdminAction then CPOI_DISCONNECT
  else if rc =? MQTTRC_PayloadInvalid then masks [CPOI_CONNACK; CPOI_PUBACK; CPOI_DISCONNECT]
  else if one_of rc [MQTTRC_RetainNotSupported; MQTTRC_QoSNotSupported; MQTTRC_UseAnotherServer; MQTTRC_ServerMoved] then
    masks [CPOI_CONNACK; CPOI_DISCONNECT]
  else if rc =? MQTTRC_SharedNotSupported then masks [CPOI_SUBACK; CPOI_DISCONNECT]
  else if rc =? MQTTRC_ConnectRate then masks [CPOI_CONNACK; CPOI_DISCONNECT]
  else if rc =? MQTTRC_MaxConnectTime then CPOI_DISCONNECT
  else if one_of rc [MQTTRC_SubIDNotSupported; MQTTRC_WildcardNotSupported] then masks [CPOI_SUBACK; CPOI_DISCONNECT]
  else 0.

(** The [switch] of [mapToMqttRc]. *)
Definition reason_of (rc cp : Z) : Z :=
  if one_of rc [ISMRC_BadClientData; ISMRC_BadLength; ISMRC_InvalidValue; ISMRC_WillRequired] then MQTTRC_MalformedPacket
  else if rc =? ISMRC_InvalidPayload then MQTTRC_PayloadInvalid
  else if one_of rc [ISMRC_TooManyProdCons; ISMRC_ShareMismatch; ISMRC_Failure] then MQTTRC_ImplError
  else if rc =? ISMRC_ClientIDReused then MQTTRC_SessionTakenOver
  else if rc =? ISMRC_ServerTerminating then MQTTRC_ServerShutdown
  else if rc =? ISMRC_EndpointDisabled then MQTTRC_AdminAction
  else if rc =? MQTTRC_PacketIDInUse then MQTTRC_PacketIDInUse
  else if one_of rc [ISMRC_BadTopic; ISMRC_BadSysTopic] then
    if negb (Z.land cp (Z.lor CPOI_SUBACK CPOI_UNSUBACK) =? 0) then MQTTRC_TopicFilterInvalid
    else MQTTRC_TopicInvalid
  else if one_of rc [ISMRC_ProtocolError; ISMRC_UnicodeNotValid; ISMRC_InvalidCommand; ISMRC_InvalidQoS] then
    MQTTRC_ProtocolError
  else if rc =? ISMRC_ReceiveMaxExceeded then MQTTRC_ReceiveMaxExceeded
  else if rc =? ISMRC_TopicAliasNotValid then MQTTRC_TopicAliasInvalid
  else if rc =? CRC_InvalidVersion then MQTTRC_UnknownVersion
  else if rc =? CRC_BadIdentifier then MQTTRC_IdentifierNotValid
  else if rc =? CRC_NotAvailable then MQTTRC_ServerUnavailable
  else if rc =? CRC_BadUser then MQTTRC_BadUserPassword
  else if one_of rc [CRC_NotAuthorized; ISMRC_NotAuthorized; ISMRC_ClientIDInUse] then MQTTRC_NotAuthorized
  else MQTTRC_UnspecifiedError.

Definition mapToMqttRc (rc version cp : Z) : Z :=
  if rc =? 0 then 0
  else if version >=? 5 then
    let ret := reason_of rc cp in
    if Z.land (ism_mqtt_reasonCodeAllowed ret) cp =? 0 then MQTTRC_UnspecifiedError else ret
  else if (rc >? CRC_MinConnectRc) && (rc <=? CRC_MaxConnectRc) then rc
  else 0x80.

(** ** Errors stay errors *)

Lemma reason_of_range rc cp : 0x80 <= reason_of rc cp <= 0x99.
Proof.
  unfold reason_of. repeat match goal with |- context [if ?b then _ else _] => destruct b end;
    vm_compute; split; discriminate.
Qed.

Lemma mapToIsmRc_error c : 0x80 <= c <= 0x99 -> mapToIsmRc c 5 <> 0.
Proof.
  intros Hc. unfold mapToIsmRc. destruct (Z.eqb_spec c 0); [lia|]. change (5 >=? 5) with true. cbv iota.
  destruct (Z.ltb_spec c 128); [lia|].
  repeat match goal with |- context [if ?b then _ else _] => destruct b end; discriminate.
Qed.

(** C37. In MQTT version 5 a return code that is not zero is mapped to a reason code that
    is an error and, unless it is the unspecified error, allowed in the packet; read
    back by the other side it is again an error. *)
Theorem error_stays_error rc cp :
  rc <> 0 ->
  let c := mapToMqttRc rc 5 cp in
  0x80 <= c /\ (c = MQTTRC_UnspecifiedError \/ Z.land (ism_mqtt_reasonCodeAllowed c) cp <> 0)
  /\ mapToIsmRc c 5 <> 0.
Proof.
  intros Hrc c. unfold c, mapToMqttRc. destruct (Z.eqb_spec rc 0); [done|]. change (5 >=? 5) with true. cbv iota zeta.
  pose proof (reason_of_range rc cp) as Hr.
  destruct (Z.eqb_spec (Z.land (ism_mqtt_reasonCodeAllowed (reason_of rc cp)) cp) 0) as [E|E].
  - split; [done|]. split; [by left|]. by apply mapToIsmRc_error.
  - split; [lia|]. split; [by right|]. apply mapToIsmRc_error. lia.
Qed.

Example error_stays_error_witness :
  let c := mapToMqttRc ISMRC_BadTopic 5 CPOI_SUBACK in c = MQTTRC_TopicFilterInvalid /\ mapToIsmRc c 5 <> 0.
Proof.
  split; [reflexivity|]. exact (proj2 (proj2 (error_stays_error ISMRC_BadTopic CPOI_SUBACK ltac:(discriminate)))).
Defined.

(** The granted quality of service is not among the codes of a SUBACK. *)
Lemma granted_qos_not_allowed :
  Z.land (ism_mqtt_reasonCodeAllowed MQTTRC_QoS1) CPOI_SUBACK = 0
  /\ Z.land (ism_mqtt_reasonCodeAllowed MQTTRC_QoS2) CPOI_SUBACK = 0.
Proof. split; reflexivity. Qed.
