(* ===== verification/MsgExpiry.v ===== *)
(** * The expiry data of a queue

    server_engine/src/messageExpiry.c and messageExpiry.h: a queue keeps the number of
    its messages that expire, and an array of the ones that expire first, from which
    the reaper decides whether the queue needs a scan.  The theorems relate the array
    to the list of all messages of the queue that expire. *)

From Stdlib Require Import Sorted.
From stdpp Require Import sets.
From S2P Require Import Prelude.
#[local] Open Scope Z_scope.

(** ** Data *)

(** The order id of a message in its queue, and its node: for both, [None] is 0. *)
Record iemeBufferedMsgExpiryDetails_t {K : Type} := mk_details {
  orderId : option K;
  qnode : option K;
  Expiry : Z
}.
Arguments iemeBufferedMsgExpiryDetails_t K : clear implicits.
Arguments mk_details {K}.

Definition NUM_EARLIEST_MESSAGES : nat := 8.

Record iemeQueueExpiryData_t {K : Type} := mk_expiry_data {
  messagesWithExpiry : Z;
  messagesInArray : nat;
  earliestExpiryMessages : list (iemeBufferedMsgExpiryDetails_t K)
}.
Arguments iemeQueueExpiryData_t K : clear implicits.
Arguments mk_expiry_data {K}.

(** What a queue has of it: the data, once it is allocated, and whether the queue is
    in the list of the reaper.  The list is a set: adding an object that is in it and
    removing one that is not do nothing. *)
Record qexpiry_t {K : Type} := mk_qexpiry {
  QExpiryData : option (iemeQueueExpiryData_t K);
  onReaperList : bool
}.
Arguments qexpiry_t K : clear implicits.
Arguments mk_qexpiry {K}.

Section Expiry.
Context {K : Type} `{!EqDecision K}.
Implicit Types (d : iemeQueueExpiryData_t K) (m : iemeBufferedMsgExpiryDetails_t K).

#[global] Instance details_eq_dec : EqDecision (iemeBufferedMsgExpiryDetails_t K).
Proof. solve_decision. Defined.

Definition zero_details : iemeBufferedMsgExpiryDetails_t K := mk_details None None 0.

(** The memory of [calloc] *)
Definition new_expiry_data : iemeQueueExpiryData_t K :=
  mk_expiry_data 0 0 (replicate NUM_EARLIEST_MESSAGES zero_details).

(** ** The array *)

Section Array.
Context {A : Type}.

(** [memmove] of [num] entries inside an array, and the assignment of an entry. *)
Definition memmove (dst src num : nat) (a : list A) : outcome (list A) :=
  if (dst + num <=? length a)%nat && (src + num <=? length a)%nat
  then Ret (take dst a ++ take num (drop src a) ++ drop (dst + num) a) else Crash.

Definition store (i : nat) (x : A) (a : list A) : outcome (list A) :=
  if (i <? length a)%nat then Ret (<[i := x]> a) else Crash.

(** Copies the entries from [i] on down, if there is space for one, and assigns. *)
Definition insert_slot (i n : nat) (x : A) (a : list A) : outcome (list A) :=
  a ← (if (i <? NUM_EARLIEST_MESSAGES - 1)%nat then
         let lastCopyIdx := if (n <? NUM_EARLIEST_MESSAGES)%nat then (n - 1)%nat else (n - 2)%nat in
         memmove (i + 1) i (1 + (lastCopyIdx - i)) a
       else Ret a);
  store i x a.

(** Copies the entries after [i] up by one and assigns zero to the last. *)
Definition remove_slot (i n : nat) (zero : A) (a : list A) : outcome (list A) :=
  let numEntriesToCopy := (n - i - 1)%nat in
  a ← (if (0 <? numEntriesToCopy)%nat then memmove i (i + 1) numEntriesToCopy a else Ret a);
  store (n - 1) zero a.
End Array.

(** The first entry that expires later than [e], or the number of entries. *)
Fixpoint later_slot (e : Z) (es : list (iemeBufferedMsgExpiryDetails_t K)) : nat :=
  match es with
  | [] => O
  | x :: es => if e <? Expiry x then O else S (later_slot e es)
  end.

Definition ieme_addMessageExpiryDataInternal (q : qexpiry_t K) d m (alreadyInExpiryList : bool) :
    outcome (qexpiry_t K) :=
  let n := messagesInArray d in
  let a := earliestExpiryMessages d in
  let i := later_slot (Expiry m) (take n a) in
  '(a, n) ←
    (if (i <? n)%nat then
       a ← insert_slot i n m a;
       Ret (a, if (n <? NUM_EARLIEST_MESSAGES)%nat then S n else n)
     else if (n <? NUM_EARLIEST_MESSAGES)%nat && (Z.of_nat i =? messagesWithExpiry d) then
       a ← store i m a; Ret (a, S n)
     else Ret (a, n));
  Ret (mk_qexpiry (Some (mk_expiry_data (i64 (messagesWithExpiry d + 1)) n a))
         (if (messagesWithExpiry d =? 0) && negb alreadyInExpiryList then true else onReaperList q)).

(** The loop does not stop at the entry it removes. *)
Fixpoint remove_loop (fuel : nat) (id : option K) (i n : nat) (a : list (iemeBufferedMsgExpiryDetails_t K)) :
    outcome (nat * list (iemeBufferedMsgExpiryDetails_t K)) :=
  if (i <? n)%nat then
    match fuel with
    | O => Hang
    | S fuel =>
        match a !! i with
        | None => Crash
        | Some x =>
            if decide (id = orderId x) then
              a ← remove_slot i n zero_details a;
              remove_loop fuel id (S i) (n - 1) a
            else remove_loop fuel id (S i) n a
        end
    end
  else Ret (n, a).

Definition ieme_removeMessageExpiryDataInternal (q : qexpiry_t K) d (id : K) : outcome (qexpiry_t K) :=
  '(n, a) ← remove_loop (messagesInArray d) (Some id) 0 (messagesInArray d) (earliestExpiryMessages d);
  Ret (mk_qexpiry (Some (mk_expiry_data (i64 (messagesWithExpiry d - 1)) n a))
         (if messagesWithExpiry d =? 1 then false else onReaperList q)).

(** [mem] is whether an allocation succeeds, if there is one. *)
Definition ieme_checkQExpiryDataExists (mem : bool) (q : qexpiry_t K) : option (iemeQueueExpiryData_t K) :=
  match QExpiryData q with
  | Some d => Some d
  | None => if mem then Some new_expiry_data else None
  end.

Definition ieme_addMessageExpiryData (mem : bool) (q : qexpiry_t K) m : outcome (qexpiry_t K) :=
  match ieme_checkQExpiryDataExists mem q with
  | Some d => ieme_addMessageExpiryDataInternal q d m false
  | None => Ret (mk_qexpiry None true)
  end.

Definition ieme_addMessageExpiryPreLocked (q : qexpiry_t K) m (alreadyInExpiryList : bool) : outcome (qexpiry_t K) :=
  match QExpiryData q with
  | Some d => ieme_addMessageExpiryDataInternal q d m alreadyInExpiryList
  | None => Crash
  end.

Definition ieme_removeMessageExpiryData (mem : bool) (q : qexpiry_t K) (id : K) : outcome (qexpiry_t K) :=
  match ieme_checkQExpiryDataExists mem q with
  | Some d => ieme_removeMessageExpiryDataInternal q d id
  | None => Ret q
  end.

Definition ieme_freeQExpiryData (q : qexpiry_t K) : qexpiry_t K :=
  match QExpiryData q with
  | Some d => mk_qexpiry None (if messagesWithExpiry d >? 0 then false else onReaperList q)
  | None => mk_qexpiry None false
  end.

Definition ieme_clearQExpiryDataPreLocked (q : qexpiry_t K) : outcome (qexpiry_t K) :=
  match QExpiryData q with
  | Some _ => Ret (mk_qexpiry (Some new_expiry_data) (onReaperList q))
  | None => Crash
  end.

(** The test of [ieme_reapQExpiredMessages] and of the reaper: whether a queue is
    scanned at the time [nowExpire]. *)
Definition needs_reap (q : qexpiry_t K) (nowExpire : Z) : bool :=
  match QExpiryData q with
  | Some d =>
      (messagesWithExpiry d >? 0) &&
      ((messagesInArray d =? 0)%nat ||
       match earliestExpiryMessages d with
       | x :: _ => Expiry x <? nowExpire
       | [] => false
       end)
  | None => false
  end.

(** ** What the array holds *)

Definition in_array d : list (iemeBufferedMsgExpiryDetails_t K) :=
  take (messagesInArray d) (earliestExpiryMessages d).

Definition array_ok d : Prop :=
  length (earliestExpiryMessages d) = NUM_EARLIEST_MESSAGES /\ (messagesInArray d <= NUM_EARLIEST_MESSAGES)%nat.

Lemma length_in_array d : array_ok d -> length (in_array d) = messagesInArray d.
Proof. intros [L B]. unfold in_array. rewrite length_take. lia. Qed.

Lemma later_slot_le e es : (later_slot e es <= length es)%nat.
Proof. induction es; simpl; [lia|]. case_match; lia. Qed.

(** Facts about the eight entries, by trying all positions. *)
Ltac eight_entries :=
  unfold NUM_EARLIEST_MESSAGES in *;
  match goal with
  | L : length ?a = 8%nat, H : (?i < ?n <= _)%nat |- _ =>
      do 8 (destruct a as [|? a]; [done|]); destruct a; [|done];
      do 9 (destruct n as [|n];
            [do 8 (destruct i as [|i]; [try lia; eexists; repeat split; reflexivity|]); lia|]);
      lia
  end.

Lemma insert_entry {A} (a : list A) n i x :
  length a = NUM_EARLIEST_MESSAGES -> (i < n <= NUM_EARLIEST_MESSAGES)%nat ->
  exists a', insert_slot i n x a = Ret a' /\ length a' = NUM_EARLIEST_MESSAGES /\
    take (if (n <? NUM_EARLIEST_MESSAGES)%nat then S n else n) a' =
      take NUM_EARLIEST_MESSAGES (take i (take n a) ++ x :: drop i (take n a)).
Proof. intros L H. eight_entries. Qed.

Lemma remove_entry {A} (a : list A) n i z :
  length a = NUM_EARLIEST_MESSAGES -> (i < n <= NUM_EARLIEST_MESSAGES)%nat ->
  exists a', remove_slot i n z a = Ret a' /\ length a' = NUM_EARLIEST_MESSAGES /\
    take (n - 1) a' = take i (take n a) ++ drop (S i) (take n a).
Proof. intros L H. eight_entries. Qed.

(** What the add leaves in the array. *)
Definition after_add (es : list (iemeBufferedMsgExpiryDetails_t K)) (count : Z) m :=
  let i := later_slot (Expiry m) es in
  if (i <? length es)%nat then take NUM_EARLIEST_MESSAGES (take i es ++ m :: drop i es)
  else if (length es <? NUM_EARLIEST_MESSAGES)%nat && (Z.of_nat (length es) =? count) then es ++ [m] else es.

Lemma add_internal_spec q d m already :
  array_ok d ->
  exists d', ieme_addMessageExpiryDataInternal q d m already
     = Ret (mk_qexpiry (Some d') (if (messagesWithExpiry d =? 0) && negb already then true else onReaperList q)) /\
    array_ok d' /\ messagesWithExpiry d' = i64 (messagesWithExpiry d + 1) /\
    in_array d' = after_add (in_array d) (messagesWithExpiry d) m.
Proof.
  intros Hd. pose proof (length_in_array d Hd) as Hl. destruct Hd as [La Ln].
  unfold ieme_addMessageExpiryDataInternal, after_add. fold (in_array d).
  pose proof (later_slot_le (Expiry m) (in_array d)) as Hi. rewrite Hl in *.
  set (i := later_slot _ _) in *. destruct (Nat.ltb_spec i (messagesInArray d)).
  - destruct (insert_entry (earliestExpiryMessages d) (messagesInArray d) i m) as (a' & E & La' & Ta); [done..|].
    rewrite E, !bind_ret. eexists; split; [reflexivity|]. split; [|split]; [|done|exact Ta].
    split; [done|]. simpl. case_match; [|done].
    destruct (Nat.ltb_spec (messagesInArray d) NUM_EARLIEST_MESSAGES); [lia|done].
  - assert (i = messagesInArray d) as -> by lia.
    destruct (Nat.ltb_spec (messagesInArray d) NUM_EARLIEST_MESSAGES); simpl andb;
      [destruct (Z.of_nat (messagesInArray d) =? messagesWithExpiry d)|].
    + unfold store. rewrite La. destruct (Nat.ltb_spec (messagesInArray d) NUM_EARLIEST_MESSAGES); [|lia].
      rewrite !bind_ret. eexists; split; [reflexivity|]. split; [split; simpl; [by rewrite length_insert|lia]|].
      split; [done|]. unfold in_array. simpl messagesInArray. simpl earliestExpiryMessages.
      erewrite take_S_r by (apply list_lookup_insert_eq; lia). by rewrite take_insert_ge by lia.
    + by eexists.
    + by eexists.
Qed.

Definition without (id : K) (es : list (iemeBufferedMsgExpiryDetails_t K)) :=
  filter (fun x => orderId x <> Some id) es.

Lemma remove_loop_absent fuel id n a i :
  (n <= length a)%nat -> (n - i <= fuel)%nat -> Forall (fun x => orderId x <> id) (take n a) ->
  remove_loop fuel id i n a = Ret (n, a).
Proof.
  intros La. revert i. induction fuel as [|fuel IH]; intros i Hf Ha; simpl.
  - by destruct (Nat.ltb_spec i n); [lia|].
  - destruct (Nat.ltb_spec i n); [|done].
    destruct (lookup_lt_is_Some_2 a i) as [x Hx]; [lia|]. rewrite Hx.
    destruct (decide (id = orderId x)) as [->|_]; [|apply IH; [lia|done]].
    rewrite Forall_lookup in Ha. exfalso. apply (Ha i x); [|done]. by rewrite lookup_take_lt.
Qed.

Lemma remove_loop_spec fuel id n a i :
  length a = NUM_EARLIEST_MESSAGES -> (n <= NUM_EARLIEST_MESSAGES)%nat -> (n - i <= fuel)%nat ->
  NoDup (orderId <$> take n a) -> Forall (fun x => orderId x <> Some id) (take i (take n a)) ->
  exists n' a', remove_loop fuel (Some id) i n a = Ret (n', a') /\
    length a' = NUM_EARLIEST_MESSAGES /\ (n' <= NUM_EARLIEST_MESSAGES)%nat /\ take n' a' = without id (take n a).
Proof.
  intros La Hn. revert i. induction fuel as [|fuel IH]; intros i Hf Nd Ha; simpl.
  { destruct (Nat.ltb_spec i n); [lia|]. rewrite (take_ge (take n a)) in Ha by (rewrite length_take; lia).
    exists n, a. repeat split; [done..|]. symmetry. by apply filter_all. }
  destruct (Nat.ltb_spec i n); cycle 1.
  { rewrite (take_ge (take n a)) in Ha by (rewrite length_take; lia).
    exists n, a. repeat split; [done..|]. symmetry. by apply filter_all. }
  destruct (lookup_lt_is_Some_2 a i) as [x Hx]; [lia|]. rewrite Hx.
  assert (take n a !! i = Some x) as Hx' by (by rewrite lookup_take_lt).
  destruct (decide (Some id = orderId x)) as [E|Ne]; cycle 1.
  { apply IH; [lia|done|]. rewrite (take_S_r _ _ _ Hx'). apply Forall_app. naive_solver. }
  destruct (remove_entry a n i zero_details) as (a' & -> & La' & Ta); [done..|]. rewrite bind_ret.
  rewrite <-(take_drop_middle _ _ _ Hx') in Nd |- *. rewrite fmap_app, fmap_cons in Nd.
  apply NoDup_app in Nd as (_ & _ & (Nx & _)%NoDup_cons).
  assert (Forall (fun x => orderId x <> Some id) (drop (S i) (take n a))) as Hd.
  { apply Forall_forall. intros y Hy Ey. apply Nx. rewrite <-E, <-Ey. by apply list_elem_of_fmap_2. }
  rewrite remove_loop_absent; [|lia|lia|by rewrite Ta; apply Forall_app].
  eexists _, _; split; [reflexivity|]. split; [done|]. split; [lia|]. unfold without. rewrite Ta, filter_app, filter_cons.
  rewrite decide_False by (intros Ne; by apply Ne). by rewrite !filter_all.
Qed.

Lemma remove_internal_spec q d id :
  array_ok d -> NoDup (orderId <$> in_array d) ->
  exists d', ieme_removeMessageExpiryDataInternal q d id
     = Ret (mk_qexpiry (Some d') (if messagesWithExpiry d =? 1 then false else onReaperList q)) /\
    array_ok d' /\ messagesWithExpiry d' = i64 (messagesWithExpiry d - 1) /\
    in_array d' = without id (in_array d).
Proof.
  intros [La Ln] Nd. unfold ieme_removeMessageExpiryDataInternal.
  destruct (remove_loop_spec (messagesInArray d) id (messagesInArray d) (earliestExpiryMessages d) 0)
    as (n' & a' & -> & La' & Ln' & Ta); [done..|lia|done|done|].
  rewrite bind_ret. eexists; split; [reflexivity|]. by repeat split.
Qed.

(** ** The array and the messages that expire

    [L] lists the messages of the queue that expire.  The array has some of them, in
    order of expiry; when no message was missed ([exact]), the count is right and no
    message outside the array expires before one in it. *)
Definition sooner m m' : Prop := Expiry m <= Expiry m'.

Record tracked (exact : bool) d (L : list (iemeBufferedMsgExpiryDetails_t K)) : Prop := mk_tracked {
  tr_array : array_ok d;
  tr_sorted : StronglySorted sooner (in_array d);
  tr_sub : in_array d ⊆ L;
  tr_nodup : NoDup (orderId <$> in_array d);
  tr_count : exact = true -> messagesWithExpiry d = Z.of_nat (length L);
  tr_first : exact = true -> forall x y, x ∈ L -> x ∉ in_array d -> y ∈ in_array d -> sooner y x
}.

#[global] Instance tracked_proper exact d : Proper ((≡ₚ) ==> iff) (tracked exact d).
Proof.
  assert (forall L L', L ≡ₚ L' -> tracked exact d L -> tracked exact d L') as H.
  { intros L L' E []. split; try done.
    - intros x Hx. rewrite <-E. auto.
    - rewrite <-E. auto.
    - intros He x y. rewrite <-E. auto. }
  intros L L' E. split; apply H; done.
Qed.

Lemma new_tracked exact : tracked exact new_expiry_data [].
Proof.
  split; change (in_array new_expiry_data) with (@nil (iemeBufferedMsgExpiryDetails_t K)).
  - split; simpl; unfold NUM_EARLIEST_MESSAGES; lia.
  - constructor.
  - done.
  - constructor.
  - done.
  - intros _ x y H. by apply not_elem_of_nil in H.
Qed.

Lemma later_slot_before m es : Forall (fun x => sooner x m) (take (later_slot (Expiry m) es) es).
Proof.
  induction es as [|x es IH]; simpl; [done|]. destruct (Z.ltb_spec (Expiry m) (Expiry x)); [done|].
  constructor; [unfold sooner; lia|done].
Qed.

Lemma later_slot_after m es :
  StronglySorted sooner es -> Forall (sooner m) (drop (later_slot (Expiry m) es) es).
Proof.
  induction 1 as [|x es Hs IH Hx]; simpl; [done|]. destruct (Z.ltb_spec (Expiry m) (Expiry x)); [|done].
  constructor; [unfold sooner; lia|]. eapply Forall_impl; [exact Hx|]. unfold sooner; lia.
Qed.

Lemma StronglySorted_app_inv {A} (R : A -> A -> Prop) l k :
  StronglySorted R (l ++ k) <-> StronglySorted R l /\ StronglySorted R k /\ (forall x y, x ∈ l -> y ∈ k -> R x y).
Proof.
  induction l as [|x l IH]; simpl.
  - split; [intros H; repeat split; [constructor|done|set_solver]|tauto].
  - split.
    + intros [Hl F]%StronglySorted_inv. apply IH in Hl as (? & ? & ?). apply Forall_app in F as [? F].
      rewrite Forall_forall in F. split; [by constructor|]. split; [done|]. set_solver.
    + intros ([? ?]%StronglySorted_inv & ? & Hlk). constructor; [apply IH; set_solver|].
      apply Forall_app. split; [done|]. apply Forall_forall. set_solver.
Qed.

Lemma inserted_sorted m es :
  StronglySorted sooner es ->
  StronglySorted sooner (take (later_slot (Expiry m) es) es ++ m :: drop (later_slot (Expiry m) es) es).
Proof.
  intros Hs. pose proof (later_slot_before m es) as Hb. pose proof (later_slot_after m es Hs) as Ha.
  rewrite Forall_forall in Hb, Ha. set (i := later_slot _ _) in *.
  rewrite <-(take_drop i es) in Hs. apply StronglySorted_app_inv in Hs as (H1 & H2 & H3).
  apply StronglySorted_app_inv. split; [done|]. split; [constructor; [done|by apply Forall_forall]|].
  intros x y Hx [->|Hy]%elem_of_cons; auto.
Qed.

Lemma inserted_perm {A} i (m : A) es : take i es ++ m :: drop i es ≡ₚ m :: es.
Proof. by rewrite <-Permutation_middle, take_drop. Qed.

(** A part of a list without duplicates that is as long as the list is all of it. *)
Lemma all_of_it {A B} (f : A -> B) (l k : list A) x :
  NoDup (f <$> l) -> l ⊆ k -> length l = length k -> x ∈ k -> x ∈ l.
Proof.
  intros Nd Hs Hl Hx. apply NoDup_fmap_1 in Nd. apply NoDup_submseteq in Hs; [|done].
  apply submseteq_length_Permutation in Hs; [by rewrite Hs|lia].
Qed.

Lemma added_cases es count m :
  let es' := after_add es count m in
  let full := take (later_slot (Expiry m) es) es ++ m :: drop (later_slot (Expiry m) es) es in
  (later_slot (Expiry m) es < length es)%nat /\ es' = take NUM_EARLIEST_MESSAGES full \/
  later_slot (Expiry m) es = length es /\ es' = full /\ Z.of_nat (length es) = count \/
  later_slot (Expiry m) es = length es /\ es' = es /\
    ((length es >= NUM_EARLIEST_MESSAGES)%nat \/ Z.of_nat (length es) <> count).
Proof.
  simpl. unfold after_add. pose proof (later_slot_le (Expiry m) es) as Hle.
  destruct (Nat.ltb_spec (later_slot (Expiry m) es) (length es)); [by left|].
  assert (later_slot (Expiry m) es = length es) as -> by lia. rewrite (take_ge es), (drop_ge es) by done.
  destruct (Nat.ltb_spec (length es) NUM_EARLIEST_MESSAGES), (Z.eqb_spec (Z.of_nat (length es)) count); simpl.
  - right; left. auto.
  - right; right. auto.
  - right; right. auto.
  - right; right. auto.
Qed.

Lemma added_sub es count m : after_add es count m ⊆ m :: es.
Proof.
  intros x Hx. destruct (added_cases es count m) as [[_ E]|[(_ & E & _)|(_ & E & _)]]; rewrite E in Hx.
  - apply elem_of_take in Hx as (j & Hj & _). apply list_elem_of_lookup_2 in Hj.
    by rewrite inserted_perm in Hj.
  - by rewrite inserted_perm in Hx.
  - by right.
Qed.

Lemma added_nodup es count m :
  NoDup (orderId <$> es) -> orderId m ∉ orderId <$> es -> NoDup (orderId <$> after_add es count m).
Proof.
  intros Nd Hm. assert (NoDup (orderId <$> m :: es)) as Nd' by (rewrite fmap_cons; by constructor).
  destruct (added_cases es count m) as [[_ ->]|[(_ & -> & _)|(_ & -> & _)]]; [| |done].
  - rewrite <-inserted_perm in Nd'. eapply sublist_NoDup; [exact Nd'|].
    apply fmap_sublist, sublist_take.
  - by rewrite inserted_perm.
Qed.

Lemma added_sorted es count m : StronglySorted sooner es -> StronglySorted sooner (after_add es count m).
Proof.
  intros Hs. pose proof (inserted_sorted m es Hs) as Hi.
  destruct (added_cases es count m) as [[_ ->]|[(_ & -> & _)|(_ & -> & _)]]; [|done..].
  rewrite <-(take_drop NUM_EARLIEST_MESSAGES) in Hi. by apply StronglySorted_app_inv in Hi as [? _].
Qed.

Lemma added_first es L m x y :
  StronglySorted sooner es -> (length es <= NUM_EARLIEST_MESSAGES)%nat -> es ⊆ L -> NoDup (orderId <$> es) ->
  (forall x y, x ∈ L -> x ∉ es -> y ∈ es -> sooner y x) ->
  x ∈ m :: L -> x ∉ after_add es (Z.of_nat (length L)) m -> y ∈ after_add es (Z.of_nat (length L)) m -> sooner y x.
Proof.
  intros Hs Hn Hsub Nd Hf Hx Hxn Hy. pose proof (inserted_sorted m es Hs) as Hi.
  pose proof (later_slot_after m es Hs) as Ha. pose proof (later_slot_before m es) as Hb.
  rewrite Forall_forall in Ha, Hb.
  destruct (added_cases es (Z.of_nat (length L)) m) as [[Hlt E]|[(Hlt & E & Hc)|(Hlt & E & _)]]; rewrite E in Hxn, Hy; clear E.
  - destruct (decide (x ∈ take (later_slot (Expiry m) es) es ++ m :: drop (later_slot (Expiry m) es) es)) as [Hin|Hout].
    + rewrite <-(take_drop NUM_EARLIEST_MESSAGES) in Hi. apply StronglySorted_app_inv in Hi as (_ & _ & Hi).
      apply Hi; [done|]. rewrite <-(take_drop NUM_EARLIEST_MESSAGES) in Hin. set_solver.
    + rewrite inserted_perm in Hout. assert (x ∈ L /\ x ∉ es) as [? ?] by set_solver.
      apply elem_of_take in Hy as (j & Hj%list_elem_of_lookup_2 & _). rewrite inserted_perm in Hj.
      apply elem_of_cons in Hj as [->|?]; [|by apply Hf].
      destruct (lookup_lt_is_Some_2 es _ Hlt) as [z Hz]. unfold sooner. transitivity (Expiry z).
      * apply Ha. apply list_elem_of_lookup_2 with O. by rewrite lookup_drop, Nat.add_0_r.
      * apply Hf; [done..|]. by eapply list_elem_of_lookup_2.
  - rewrite inserted_perm in Hxn, Hy. exfalso. apply Hxn. apply elem_of_cons in Hx as [->|Hx]; [by left|].
    right. apply (all_of_it orderId es L); [done..|lia|done].
  - rewrite Hlt, take_ge in Hb by done. apply elem_of_cons in Hx as [->|Hx]; auto.
Qed.

Lemma length_others id x L :
  NoDup (orderId <$> L) -> x ∈ L -> orderId x = Some id -> length L = S (length (without id L)).
Proof.
  intros Nd Hx Ex. apply list_elem_of_split in Hx as (l1 & l2 & ->). unfold without.
  rewrite fmap_app, fmap_cons in Nd. apply NoDup_app in Nd as (_ & N1 & N2). apply NoDup_cons in N2 as [N2 _].
  rewrite filter_app, filter_cons, decide_False by (intros H; by apply H).
  rewrite !filter_all; [rewrite !length_app; simpl; lia| |].
  - apply Forall_forall. intros y Hy Ey. apply N2. rewrite Ex, <-Ey. by apply list_elem_of_fmap_2.
  - apply Forall_forall. intros y Hy Ey. apply (N1 (Some id)); [|rewrite <-Ex; left].
    rewrite <-Ey. by apply list_elem_of_fmap_2.
Qed.

Lemma StronglySorted_filter {A} (R : A -> A -> Prop) (P : A -> Prop) `{!forall x, Decision (P x)} l :
  StronglySorted R l -> StronglySorted R (filter P l).
Proof.
  induction 1 as [|x l Hl IH Hx]; [constructor|]. rewrite filter_cons. case_decide; [|done].
  constructor; [done|]. rewrite Forall_forall in Hx |- *. intros y [_ Hy]%list_elem_of_filter. auto.
Qed.

Lemma add_tracked exact q d m already L :
  tracked exact d L -> orderId m ∉ orderId <$> L -> Z.of_nat (length L) < 2 ^ 63 - 1 ->
  exists d', ieme_addMessageExpiryDataInternal q d m already
     = Ret (mk_qexpiry (Some d') (if (messagesWithExpiry d =? 0) && negb already then true else onReaperList q)) /\
    tracked exact d' (m :: L).
Proof.
  intros [Ta Ts Tu Tn Tc Tf] Hm Hl. destruct (add_internal_spec q d m already Ta) as (d' & -> & Ta' & Ec & Ei).
  exists d'. split; [done|]. split; rewrite ?Ei.
  - done.
  - by apply added_sorted.
  - intros x Hx%added_sub. set_solver.
  - apply added_nodup; [done|]. intros (x & Ex & Hx)%list_elem_of_fmap. apply Hm. rewrite Ex.
    apply list_elem_of_fmap_2. auto.
  - intros He. rewrite Ec, Tc by done. simpl length. rewrite wraps_small by (simpl Z.sub; lia). lia.
  - intros He x y. rewrite Tc by done. intros Hx Hxn Hy. eapply added_first; eauto.
    rewrite length_in_array by done. by destruct Ta.
Qed.

Lemma remove_tracked exact q d id x L :
  tracked exact d L -> NoDup (orderId <$> L) -> x ∈ L -> orderId x = Some id -> Z.of_nat (length L) < 2 ^ 63 ->
  exists d', ieme_removeMessageExpiryDataInternal q d id
     = Ret (mk_qexpiry (Some d') (if messagesWithExpiry d =? 1 then false else onReaperList q)) /\
    tracked exact d' (without id L).
Proof.
  intros [Ta Ts Tu Tn Tc Tf] Nd Hx Ex Hl.
  destruct (remove_internal_spec q d id Ta Tn) as (d' & -> & Ta' & Ec & Ei).
  pose proof (length_others id x L Nd Hx Ex) as Hlo.
  exists d'. split; [done|]. split; rewrite ?Ei.
  - done.
  - by apply StronglySorted_filter.
  - intros y Hy. unfold without in *. apply list_elem_of_filter in Hy as [? ?]. apply list_elem_of_filter. auto.
  - eapply sublist_NoDup; [exact Tn|]. apply fmap_sublist, sublist_filter.
  - intros He. rewrite Ec, Tc by done. rewrite wraps_small by (simpl Z.sub; lia). lia.
  - intros He y z [Hy1 Hy2]%list_elem_of_filter Hy3 [_ Hz]%list_elem_of_filter. apply Tf; [done..| |done].
    intros Hin. apply Hy3. apply list_elem_of_filter. auto.
Qed.

(** ** The queue's view *)

(** When no message was missed, a queue with messages that expire is in the list of
    the reaper. *)
Definition tracks (exact : bool) (q : qexpiry_t K) L : Prop :=
  match QExpiryData q with
  | Some d => tracked exact d L
  | None => exact = true -> L = []
  end /\ (exact = true -> L <> [] -> onReaperList q = true).

#[global] Instance tracks_proper exact q : Proper ((≡ₚ) ==> iff) (tracks exact q).
Proof.
  intros L L' E. unfold tracks. assert (L = [] <-> L' = []) as EL.
  { split; intros ->; [by apply Permutation_nil_l in E|by apply Permutation_nil_r in E]. }
  destruct (QExpiryData q) as [d|]; [pose proof (tracked_proper exact d L L' E)|]; tauto.
Qed.

Lemma add_tracks exact mem q m L :
  tracks exact q L -> orderId m ∉ orderId <$> L -> Z.of_nat (length L) < 2 ^ 63 - 1 ->
  exists q', ieme_addMessageExpiryData mem q m = Ret q' /\
    tracks (exact && (mem || bool_decide (is_Some (QExpiryData q)))) q' (m :: L).
Proof.
  intros [T Hr] Hm Hl. unfold ieme_addMessageExpiryData, ieme_checkQExpiryDataExists.
  destruct (QExpiryData q) as [d|] eqn:Ed; [|destruct mem].
  - destruct (add_tracked exact q d m false L T Hm Hl) as (d' & -> & T'). eexists; split; [reflexivity|].
    rewrite bool_decide_true, orb_true_r, andb_true_r by done. split; [done|]. simpl. intros He _.
    destruct (Z.eqb_spec (messagesWithExpiry d) 0) as [|Hz]; [done|]. apply Hr; [done|].
    intros ->. apply Hz. destruct T. auto.
  - simpl. rewrite andb_true_r. destruct (add_tracked exact q new_expiry_data m false L) as (d' & -> & T');
      [|done..|eexists; split; [reflexivity|]; by split].
    destruct exact; [rewrite T by done; apply new_tracked|].
    destruct (new_tracked false). split; try done. intros x Hx. by apply not_elem_of_nil in Hx.
  - simpl. rewrite andb_false_r. by eexists.
Qed.

Lemma remove_tracks exact mem q id x L :
  tracks exact q L -> NoDup (orderId <$> L) -> x ∈ L -> orderId x = Some id -> Z.of_nat (length L) < 2 ^ 63 ->
  exists q', ieme_removeMessageExpiryData mem q id = Ret q' /\ tracks exact q' (without id L).
Proof.
  intros [T Hr] Nd Hx Ex Hl. unfold ieme_removeMessageExpiryData, ieme_checkQExpiryDataExists.
  pose proof (length_others id x L Nd Hx Ex) as Hlo.
  destruct (QExpiryData q) as [d|] eqn:Ed.
  - destruct (remove_tracked exact q d id x L) as (d' & -> & T'); [done..|]. eexists; split; [reflexivity|].
    split; [done|]. simpl. intros He Hn. destruct (Z.eqb_spec (messagesWithExpiry d) 1) as [E|].
    + exfalso. apply Hn, length_zero_iff_nil. destruct T. rewrite tr_count0 in E by done. lia.
    + apply Hr; [done|]. intros ->. by apply not_elem_of_nil in Hx.
  - destruct exact; [rewrite T in Hx by done; by apply not_elem_of_nil in Hx|]. destruct mem.
    + destruct (remove_internal_spec q new_expiry_data id) as (d' & -> & Ta & _ & Ei);
        [by destruct (new_tracked false)..|].
      change (without id (in_array new_expiry_data)) with (@nil (iemeBufferedMsgExpiryDetails_t K)) in Ei.
      eexists; split; [reflexivity|]. split; [|done]. simpl.
      split; rewrite ?Ei; [done|constructor|intros y Hy; by apply not_elem_of_nil in Hy|constructor|done..].
    + eexists; split; [reflexivity|]. split; [|done]. by rewrite Ed.
Qed.

(** A message that has expired makes the queue be scanned. *)
Lemma expired_needs_reap q L x now :
  tracks true q L -> x ∈ L -> Expiry x < now -> needs_reap q now = true.
Proof.
  intros [T _] Hx Hn. unfold needs_reap. destruct (QExpiryData q) as [d|]; cycle 1.
  { rewrite T in Hx by done. by apply not_elem_of_nil in Hx. }
  destruct T as [Ta Ts Tu Tn Tc Tf]. rewrite Tc by done.
  assert (0 < length L)%nat as Hlen by (destruct L; [by apply not_elem_of_nil in Hx|simpl; lia]).
  destruct (Z.gtb_spec (Z.of_nat (length L)) 0); [|lia]. simpl. apply orb_true_iff.
  pose proof (length_in_array d Ta) as El. unfold in_array in *.
  destruct (messagesInArray d) as [|n]; [by left|right].
  destruct (earliestExpiryMessages d) as [|y a]; [done|]. apply Z.ltb_lt.
  enough (sooner y x) by (unfold sooner in *; lia). simpl in Ts, Tf.
  apply StronglySorted_inv in Ts as [_ Ts]. rewrite Forall_forall in Ts.
  destruct (decide (x ∈ y :: take n a)) as [[->|Hin]%elem_of_cons|Hout];
    [unfold sooner; lia|by apply Ts|]. apply Tf; [done..|left].
Qed.

(** ** Taking the first entries *)

(** [es] are the entries that are left of the array. *)
Record pending (exact : bool) (count : Z) (es L : list (iemeBufferedMsgExpiryDetails_t K)) : Prop := {
  pe_sorted : StronglySorted sooner es;
  pe_sub : es ⊆ L;
  pe_nodup : NoDup (orderId <$> es);
  pe_count : exact = true -> count = Z.of_nat (length L);
  pe_first : exact = true -> forall x y, x ∈ L -> x ∉ es -> y ∈ es -> sooner y x
}.

Lemma tracked_pending exact d L :
  tracked exact d L <-> array_ok d /\ pending exact (messagesWithExpiry d) (in_array d) L.
Proof. split; [intros []; split; [done|by split]|intros [? []]; by split]. Qed.

Lemma pending_next exact count x es L n :
  pending exact count (x :: es) L -> NoDup (orderId <$> L) -> orderId x = Some n -> Z.of_nat (length L) < 2 ^ 63 ->
  pending exact (i64 (count - 1)) es (without n L).
Proof.
  intros [Ps Pu Pn Pc Pf] Nd Ex Hl. assert (x ∈ L) as Hx by (apply Pu; left).
  pose proof (length_others n x L Nd Hx Ex). apply StronglySorted_inv in Ps as [Ps _].
  rewrite fmap_cons in Pn. apply NoDup_cons in Pn as [Hn Pn]. split.
  - done.
  - intros y Hy. apply list_elem_of_filter. split; [|apply Pu; by right].
    intros Ey. apply Hn. rewrite Ex, <-Ey. by apply list_elem_of_fmap_2.
  - done.
  - intros He. rewrite Pc by done. rewrite wraps_small by (simpl Z.sub; lia). lia.
  - intros He y z [Hy1 Hy2]%list_elem_of_filter Hy3 Hz. apply Pf; [done..| |by right].
    intros [->|?]%elem_of_cons; done.
Qed.

(** When the first entry is not due, nothing is. *)
Lemma pending_not_due count x es L now y :
  pending true count (x :: es) L -> now < Expiry x -> y ∈ L -> now < Expiry y.
Proof.
  intros [Ps _ _ _ Pf] Hx Hy. enough (sooner x y) by (unfold sooner in *; lia).
  destruct (decide (y ∈ x :: es)) as [[->|Hin]%elem_of_cons|Hout]; [unfold sooner; lia| |by apply Pf; [..|left]].
  apply StronglySorted_inv in Ps as [_ Ps]. rewrite Forall_forall in Ps. auto.
Qed.
End Expiry.
