(* ===== verification/SimpQueue.v ===== *)
(** * The simple queue

    server_engine/src/simpQ.c, with the types of simpQInternal.h: a queue is a chain
    of pages of nodes, with a get cursor [head], a put cursor [tail], an end marker
    in the last node of each page, and a next page that is added ahead of its use.
    The operations are modelled as they run under their locks (the put lock, the
    waiter's lock for the getter, the expiry lock), one at a time; WaiterStatus models
    the waiter's lock. *)

From stdpp Require Import gmap.
From S2P Require Import Prelude MsgExpiry.
#[local] Open Scope Z_scope.

(** ** Data *)

(** The message pointer of a node: null, one of the two marks, or a message. *)
Inductive msg_t {M : Type} := MESSAGE_STATUS_EMPTY | MESSAGE_STATUS_ENDPAGE | MESSAGE_STATUS_REMOVED | Msg (m : M).
Arguments msg_t M : clear implicits.

Record iesqQNode_t {M : Type} := mk_node { msgFlags : Z; msg : msg_t M }.
Arguments iesqQNode_t M : clear implicits.
Arguments mk_node {M}.

(** [cursor_clear] is not used by the simple queue. *)
Inductive ieqNextPageStatus_t := unfinished | failed | repairing | completed.

(** [nodes] has [nodesInPage + 1] entries, the last of which is the end marker; the
    number after them, from which the page is found, is not repeated here. *)
Record iesqQNodePage_t {M : Type} := mk_page {
  nextStatus : ieqNextPageStatus_t;
  next : option nat;
  nodesInPage : nat;
  nodes : list (iesqQNode_t M)
}.
Arguments iesqQNodePage_t M : clear implicits.
Arguments mk_page {M}.

(** A pointer to a node is a page and an index. *)
Abbreviation node_ptr := (nat * nat)%type.

(** What a queue asks of the rest of the engine: [iem_recordMessageUsage],
    [iem_releaseMessage], [ism_engine_deliverMessage] with the flags of the node,
    [ism_engine_deliverStatus] and [ietr_softLogAdd]. *)
Inductive engine_call {M : Type} :=
  | recordMessageUsage (m : M)
  | releaseMessage (m : M)
  | deliverMessage (m : M) (msgFlags : Z)
  | deliverStatus (rc : Z)
  | softLogAdd (m : M) (retained : bool).
Arguments engine_call M : clear implicits.

Record counts_t := mk_counts {
  enqueueCount : Z; dequeueCount : Z; qavoidCount : Z; bufferedMsgsHWM : Z;
  rejectedMsgs : Z; discardedMsgs : Z; expiredMsgs : Z
}.

(** Pages live at the addresses of [heap], and a page that was freed is not there any
    more.  [allocs] is the number of allocations so far, the address of the next one.
    [calls] are the calls made, the latest last. *)
Record iesqQueue_t {M : Type} := mk_queue {
  heap : gmap nat (iesqQNodePage_t M);
  allocs : nat;
  head : node_ptr;
  headPage : nat;
  tail : node_ptr;
  bufferedMsgs : Z;
  counts : counts_t;
  ReportedQueueFull : bool;
  informOnEmpty : bool;
  expiry : qexpiry_t node_ptr;
  calls : list (engine_call M)
}.
Arguments iesqQueue_t M : clear implicits.
Arguments mk_queue {M}.

Section Updates.
Context {M : Type}.
Implicit Types (Q : iesqQueue_t M).

Definition set_heap h Q : iesqQueue_t M := mk_queue h (allocs Q) (head Q) (headPage Q) (tail Q) (bufferedMsgs Q)
  (counts Q) (ReportedQueueFull Q) (informOnEmpty Q) (expiry Q) (calls Q).
Definition inc_allocs Q : iesqQueue_t M := mk_queue (heap Q) (S (allocs Q)) (head Q) (headPage Q) (tail Q) (bufferedMsgs Q)
  (counts Q) (ReportedQueueFull Q) (informOnEmpty Q) (expiry Q) (calls Q).
Definition set_head p n Q : iesqQueue_t M := mk_queue (heap Q) (allocs Q) n p (tail Q) (bufferedMsgs Q)
  (counts Q) (ReportedQueueFull Q) (informOnEmpty Q) (expiry Q) (calls Q).
Definition set_tail n Q : iesqQueue_t M := mk_queue (heap Q) (allocs Q) (head Q) (headPage Q) n (bufferedMsgs Q)
  (counts Q) (ReportedQueueFull Q) (informOnEmpty Q) (expiry Q) (calls Q).
Definition set_buffered b Q : iesqQueue_t M := mk_queue (heap Q) (allocs Q) (head Q) (headPage Q) (tail Q) b
  (counts Q) (ReportedQueueFull Q) (informOnEmpty Q) (expiry Q) (calls Q).
Definition set_counts c Q : iesqQueue_t M := mk_queue (heap Q) (allocs Q) (head Q) (headPage Q) (tail Q) (bufferedMsgs Q)
  c (ReportedQueueFull Q) (informOnEmpty Q) (expiry Q) (calls Q).
Definition set_reported b Q : iesqQueue_t M := mk_queue (heap Q) (allocs Q) (head Q) (headPage Q) (tail Q) (bufferedMsgs Q)
  (counts Q) b (informOnEmpty Q) (expiry Q) (calls Q).
Definition set_inform b Q : iesqQueue_t M := mk_queue (heap Q) (allocs Q) (head Q) (headPage Q) (tail Q) (bufferedMsgs Q)
  (counts Q) (ReportedQueueFull Q) b (expiry Q) (calls Q).
Definition set_expiry x Q : iesqQueue_t M := mk_queue (heap Q) (allocs Q) (head Q) (headPage Q) (tail Q) (bufferedMsgs Q)
  (counts Q) (ReportedQueueFull Q) (informOnEmpty Q) x (calls Q).
Definition emit c Q : iesqQueue_t M := mk_queue (heap Q) (allocs Q) (head Q) (headPage Q) (tail Q) (bufferedMsgs Q)
  (counts Q) (ReportedQueueFull Q) (informOnEmpty Q) (expiry Q) (calls Q ++ [c]).

(** The counters are unsigned 64-bit numbers. *)
Definition add_enqueue c := mk_counts (u64 (enqueueCount c + 1)) (dequeueCount c) (qavoidCount c) (bufferedMsgsHWM c)
  (rejectedMsgs c) (discardedMsgs c) (expiredMsgs c).
Definition add_dequeue c := mk_counts (enqueueCount c) (u64 (dequeueCount c + 1)) (qavoidCount c) (bufferedMsgsHWM c)
  (rejectedMsgs c) (discardedMsgs c) (expiredMsgs c).
Definition add_qavoid c := mk_counts (enqueueCount c) (dequeueCount c) (u64 (qavoidCount c + 1)) (bufferedMsgsHWM c)
  (rejectedMsgs c) (discardedMsgs c) (expiredMsgs c).
Definition set_hwm v c := mk_counts (enqueueCount c) (dequeueCount c) (qavoidCount c) v
  (rejectedMsgs c) (discardedMsgs c) (expiredMsgs c).
Definition add_rejected c := mk_counts (enqueueCount c) (dequeueCount c) (qavoidCount c) (bufferedMsgsHWM c)
  (u64 (rejectedMsgs c + 1)) (discardedMsgs c) (expiredMsgs c).
Definition add_discarded n c := mk_counts (enqueueCount c) (dequeueCount c) (qavoidCount c) (bufferedMsgsHWM c)
  (rejectedMsgs c) (u64 (discardedMsgs c + n)) (expiredMsgs c).
Definition add_expired c := mk_counts (enqueueCount c) (dequeueCount c) (qavoidCount c) (bufferedMsgsHWM c)
  (rejectedMsgs c) (discardedMsgs c) (u64 (expiredMsgs c + 1)).

Definition get_page Q (p : nat) : outcome (iesqQNodePage_t M) :=
  match heap Q !! p with Some pg => Ret pg | None => Crash end.

Definition read_node Q (n : node_ptr) : outcome (iesqQNode_t M) :=
  pg ← get_page Q n.1; match nodes pg !! n.2 with Some nd => Ret nd | None => Crash end.

Definition set_page Q (p : nat) (pg : iesqQNodePage_t M) : iesqQueue_t M := set_heap (<[p := pg]> (heap Q)) Q.

Definition set_node Q (n : node_ptr) (nd : iesqQNode_t M) : outcome (iesqQueue_t M) :=
  pg ← get_page Q n.1;
  if (n.2 <? length (nodes pg))%nat
  then Ret (set_page Q n.1 (mk_page (nextStatus pg) (next pg) (nodesInPage pg) (<[n.2 := nd]> (nodes pg))))
  else Crash.

Definition set_nextStatus Q p st : outcome (iesqQueue_t M) :=
  pg ← get_page Q p; Ret (set_page Q p (mk_page st (next pg) (nodesInPage pg) (nodes pg))).
Definition set_next Q p nx : outcome (iesqQueue_t M) :=
  pg ← get_page Q p; Ret (set_page Q p (mk_page (nextStatus pg) nx (nodesInPage pg) (nodes pg))).

(** [iere_freeStruct] of a page *)
Definition free_page Q p : outcome (iesqQueue_t M) :=
  _ ← get_page Q p; Ret (set_heap (delete p (heap Q)) Q).

(** The atomic decrement of the number of messages, and the assertion on what it was
    before, which is kept in an [int32_t]. *)
Definition dec_buffered Q : outcome (iesqQueue_t M) :=
  if i32 (bufferedMsgs Q) >? 0 then Ret (set_buffered (u64 (bufferedMsgs Q - 1)) Q) else Crash.

Definition is_endpage (nd : iesqQNode_t M) : bool :=
  match msg nd with MESSAGE_STATUS_ENDPAGE => true | _ => false end.
End Updates.

(** ** Pages *)

Definition iesqPAGESIZE_SMALL : nat := 8.
Definition iesqPAGESIZE_DEFAULT : nat := 32.
Definition iesqPAGESIZE_HIGHCAPACITY : nat := 8.
Definition ieqNUMSUBS_HIGH_CAPACITY_THRESHOLD : Z := 10000.

(** The number of subscriptions is a global of the server. *)
Definition iesq_choosePageSize (totalSubsCount : Z) : nat :=
  if totalSubsCount >? ieqNUMSUBS_HIGH_CAPACITY_THRESHOLD then iesqPAGESIZE_HIGHCAPACITY
  else iesqPAGESIZE_DEFAULT.

Definition ISMRC_DestinationFull : Z := 14.
Definition ISMRC_SendNotAllowed : Z := 211.

Definition ismMESSAGE_FLAGS_NONE : Z := 0x00.
Definition ismMESSAGE_FLAGS_RETAINED : Z := 0x01.

Inductive iepiMaxMsgBehavior_t := RejectNewMessages | DiscardOldMessages.

Record iepiPolicyInfo_t := mk_policy {
  maxMessageCount : Z;
  maxMsgBehavior : iepiMaxMsgBehavior_t;
  allowSend : bool
}.

Inductive ieqExpiryReapRC_t := ieqExpiryReapRC_OK | ieqExpiryReapRC_NoExpiryLock | ieqExpiryReapRC_RemoveQ.

Section Queue.

(** Messages, with the expiry time of their header; 0 is none. *)
Context {M : Type} (Header_Expiry : M -> Z).
Implicit Types (Q : iesqQueue_t M) (m : M) (n : node_ptr).

(** Whether the n-th allocation succeeds, and the global number of subscriptions. *)
Context (mem : nat -> bool) (totalSubsCount : Z).

Definition empty_node : iesqQNode_t M := mk_node 0 MESSAGE_STATUS_EMPTY.
Definition end_node : iesqQNode_t M := mk_node 0 MESSAGE_STATUS_ENDPAGE.

(** The memory of [calloc], with the end marker. *)
Definition fresh_page (nodesInPage : nat) : iesqQNodePage_t M :=
  mk_page unfinished None nodesInPage (replicate nodesInPage empty_node ++ [end_node]).

Definition iesq_createNewPage Q (nodesInPage : nat) : option nat * iesqQueue_t M :=
  if mem (allocs Q)
  then (Some (allocs Q), inc_allocs (set_page Q (allocs Q) (fresh_page nodesInPage)))
  else (None, inc_allocs Q).

(** From the first page on; [None] is [ISMRC_AllocateError]. *)
Definition iesq_createQ (n : nat) : outcome (option (iesqQueue_t M)) :=
  let Q := mk_queue ∅ n (0%nat, 0%nat) 0 (0%nat, 0%nat) 0 (mk_counts 0 0 0 0 0 0 0) false false (mk_qexpiry None false) [] in
  match iesq_createNewPage Q iesqPAGESIZE_SMALL with
  | (None, _) => Ret None
  | (Some p, Q) =>
      Q ← set_nextStatus (set_tail (p, 0%nat) (set_head p (p, 0%nat) Q)) p failed;
      Ret (Some Q)
  end.

(** The page is the one the pointer is into; the assertion that this is its end
    marker is part of it. *)
Definition iesq_getPageFromEnd Q n : outcome nat :=
  nd ← read_node Q n; if is_endpage nd then Ret n.1 else Crash.

(** Without another thread nobody adds the page that the loop waits for. *)
Definition iesq_moveToNewPage Q (endMsg : node_ptr) : outcome (option nat * iesqQueue_t M) :=
  currpage ← iesq_getPageFromEnd Q endMsg;
  pg ← get_page Q currpage;
  match next pg with
  | Some p => Ret (Some p, Q)
  | None =>
      match nextStatus pg with
      | failed =>
          Q ← set_nextStatus Q currpage repairing;
          match iesq_createNewPage Q (iesq_choosePageSize totalSubsCount) with
          | (Some newpage, Q) =>
              Q ← set_next Q currpage (Some newpage);
              Q ← set_nextStatus Q currpage unfinished;
              Ret (Some newpage, Q)
          | (None, Q) =>
              Q ← set_nextStatus Q currpage failed;
              Ret (None, Q)
          end
      | _ => Hang
      end
  end.

Definition iesq_appendPage Q (currPage : nat) : outcome (iesqQueue_t M) :=
  match iesq_createNewPage Q (iesq_choosePageSize totalSubsCount) with
  | (None, Q) =>
      pg ← get_page Q currPage;
      match nextStatus pg with
      | unfinished => set_nextStatus Q currPage failed
      | _ => Crash
      end
  | (Some newPage, Q) => set_next Q currPage (Some newPage)
  end.

(** ** Expiry data *)

(** The functions of messageExpiry.c allocate when the queue has no data yet. *)
Definition alloc_expiry Q : iesqQueue_t M :=
  match QExpiryData (expiry Q) with Some _ => Q | None => inc_allocs Q end.

Definition add_expiry Q n m : outcome (iesqQueue_t M) :=
  x ← ieme_addMessageExpiryData (mem (allocs Q)) (expiry Q) (mk_details (Some n) (Some n) (Header_Expiry m));
  Ret (set_expiry x (alloc_expiry Q)).

Definition remove_expiry Q n : outcome (iesqQueue_t M) :=
  x ← ieme_removeMessageExpiryData (mem (allocs Q)) (expiry Q) n;
  Ret (set_expiry x (alloc_expiry Q)).

(** ** Getting *)

(** Moves [head] past its node, freeing the page when it was the last one; [false]
    when the next page is not complete. *)
Definition advance_head Q : outcome (bool * iesqQueue_t M) :=
  let newHead := ((head Q).1, S (head Q).2) in
  nd ← read_node Q newHead;
  if is_endpage nd then
    let currpage := headPage Q in
    pg ← get_page Q currpage;
    match nextStatus pg with
    | completed =>
        match next pg with
        | None => Crash
        | Some nx => Q ← free_page (set_head nx (nx, 0%nat) Q) currpage; Ret (true, Q)
        end
    | _ => Ret (false, Q)
    end
  else Ret (true, set_head (headPage Q) newHead Q).

Fixpoint iesq_scanGetCursor (fuel : nat) Q : outcome (iesqQueue_t M) :=
  nd ← read_node Q (head Q);
  match msg nd with
  | MESSAGE_STATUS_REMOVED =>
      match fuel with
      | O => Hang
      | S fuel => '(moved, Q) ← advance_head Q;
                  if moved : bool then iesq_scanGetCursor fuel Q else Ret Q
      end
  | _ => Ret Q
  end.

(** The message with the flags of its node. *)
Fixpoint iesq_getMessage (fuel : nat) Q : outcome (option (M * Z) * iesqQueue_t M) :=
  nd ← read_node Q (head Q);
  let nodeExpiryOId := head Q in
  match msg nd with
  | MESSAGE_STATUS_EMPTY => Ret (None, Q)
  | msg =>
      '(moved, Q) ← advance_head Q;
      if moved : bool then
        match msg with
        | Msg m =>
            Q ← (if negb (Header_Expiry m =? 0) then remove_expiry Q nodeExpiryOId else Ret Q);
            Q ← dec_buffered Q;
            Ret (Some (m, msgFlags nd), Q)
        | MESSAGE_STATUS_REMOVED => match fuel with O => Hang | S fuel => iesq_getMessage fuel Q end
        | _ => Crash
        end
      else Ret (None, Q)
  end.

(** [(uint64_t)(maxMessageCount * 0.95)], which is exact below [2 ^ 49] *)
Definition survivors (maxMessageCount : Z) : Z := maxMessageCount * 95 / 100.

Fixpoint reclaim_loop (fuel : nat) (target : Z) (removedMsgs : Z) Q : outcome (Z * iesqQueue_t M) :=
  if bufferedMsgs Q >? target then
    match fuel with
    | O => Hang
    | S f =>
        '(m, Q) ← iesq_getMessage fuel Q;
        match m with
        | Some (m, _) => reclaim_loop f target (removedMsgs + 1) (emit (releaseMessage m) Q)
        | None => Ret (removedMsgs, Q)
        end
    end
  else Ret (removedMsgs, Q).

(** [gotLock]: the result of [iews_tryLockForReclaimSpace], or that the caller has it. *)
Definition iesq_reclaimSpace (fuel : nat) (gotLock : bool) (max : Z) Q : outcome (iesqQueue_t M) :=
  if gotLock then
    '(removedMsgs, Q) ← reclaim_loop fuel (1 + survivors max) 0 Q;
    Ret (if removedMsgs >? 0 then set_counts (add_discarded removedMsgs (counts Q)) Q else Q)
  else Ret Q.

Fixpoint iesq_drainQ (fuel : nat) Q : outcome (iesqQueue_t M) :=
  match fuel with
  | O => Hang
  | S f =>
      '(m, Q) ← iesq_getMessage fuel Q;
      match m with
      | Some (m, _) => iesq_drainQ f (emit (releaseMessage m) (set_counts (add_discarded 1 (counts Q)) Q))
      | None => Ret Q
      end
  end.

(** [wanted]: the number of messages that the consumer takes before it disables its
    waiter, whose status moves as in WaiterStatus; 0 when it is not enabled. *)
Fixpoint getter_loop (fuel : nat) (wanted : nat) Q : outcome (iesqQueue_t M) :=
  match wanted with
  | O => Ret Q
  | S wanted =>
      '(m, Q) ← iesq_getMessage fuel Q;
      match m with
      | Some (m, fl) =>
          getter_loop fuel wanted (emit (deliverMessage m fl) (set_counts (add_dequeue (counts Q)) Q))
      | None =>
          let Q := if informOnEmpty Q then emit (deliverStatus ISMRC_NoMsgAvail) (set_inform false Q) else Q in
          Ret (set_reported false Q)
      end
  end.

Definition iesq_checkWaiters (fuel : nat) (wanted : nat) Q : outcome (iesqQueue_t M) :=
  if bufferedMsgs Q =? 0 then Ret Q else getter_loop fuel wanted Q.

(** ** Expiring *)

Definition iesq_expireNode Q n : outcome (iesqQueue_t M) :=
  nd ← read_node Q n;
  match msg nd with
  | Msg m =>
      Q ← set_node (emit (releaseMessage m) Q) n (mk_node (msgFlags nd) MESSAGE_STATUS_REMOVED);
      Q ← dec_buffered Q;
      Ret (set_counts (add_expired (counts Q)) Q)
  | _ => Crash
  end.

Fixpoint expiry_scan_loop (fuel : nat) (nowExpire : Z) (currNode : node_ptr) Q : outcome (iesqQueue_t M) :=
  nd ← read_node Q currNode;
  match fuel with
  | O => Hang
  | S fuel =>
      match msg nd with
      | MESSAGE_STATUS_EMPTY => Ret Q
      | MESSAGE_STATUS_ENDPAGE =>
          currpage ← iesq_getPageFromEnd Q currNode;
          pg ← get_page Q currpage;
          match nextStatus pg with
          | completed =>
              '(nextPage, Q) ← iesq_moveToNewPage Q currNode;
              match nextPage with
              | Some nextPage => expiry_scan_loop fuel nowExpire (nextPage, 0%nat) Q
              | None => Crash
              end
          | _ => Ret Q
          end
      | MESSAGE_STATUS_REMOVED => expiry_scan_loop fuel nowExpire (currNode.1, S currNode.2) Q
      | Msg m =>
          let msgExpiry := Header_Expiry m in
          Q ← (if negb (msgExpiry =? 0) then
                 if msgExpiry <? nowExpire then iesq_expireNode Q currNode
                 else
                   x ← ieme_addMessageExpiryPreLocked (expiry Q) (mk_details (Some currNode) (Some currNode) msgExpiry) true;
                   Ret (set_expiry x Q)
               else Ret Q);
          expiry_scan_loop fuel nowExpire (currNode.1, S currNode.2) Q
      end
  end.

Definition iesq_fullExpiryScan (fuel : nat) Q (nowExpire : Z) : outcome (iesqQueue_t M) :=
  x ← ieme_clearQExpiryDataPreLocked (expiry Q);
  let Q := set_expiry x Q in
  expiry_scan_loop fuel nowExpire (head Q) Q.

(** The loop over the array: [es] are the entries from [i] on.  Gives [reapComplete],
    and the number of entries and of messages that are left. *)
Fixpoint reap_array (nowExpire : Z) (es : list (iemeBufferedMsgExpiryDetails_t node_ptr)) (i : nat)
    (d : iemeQueueExpiryData_t node_ptr) Q : outcome (bool * iemeQueueExpiryData_t node_ptr * iesqQueue_t M) :=
  match es with
  | [] => Ret (false, d, Q)
  | x :: es =>
      if Expiry x >? nowExpire then
        if (0 <? i)%nat then
          let left := (messagesInArray d - i)%nat in
          a ← memmove 0 i left (earliestExpiryMessages d);
          Ret (true, mk_expiry_data (messagesWithExpiry d) left a, Q)
        else Ret (true, d, Q)
      else
        match qnode x with
        | None => Crash
        | Some n =>
            Q ← iesq_expireNode Q n;
            let d := mk_expiry_data (i64 (messagesWithExpiry d - 1)) (messagesInArray d) (earliestExpiryMessages d) in
            if (messagesInArray d =? S i)%nat then
              Ret (messagesWithExpiry d =? 0, mk_expiry_data (messagesWithExpiry d) 0 (earliestExpiryMessages d), Q)
            else reap_array nowExpire es (S i) d Q
        end
  end.

Definition set_data Q (d : iemeQueueExpiryData_t node_ptr) : iesqQueue_t M :=
  set_expiry (mk_qexpiry (Some d) (onReaperList (expiry Q))) Q.

Definition iesq_reapExpiredMsgs (fuel : nat) Q (nowExpire : Z) (forcefullscan expiryListLocked : bool)
    (gotWaiterLock gotExpiryLock : bool) : outcome (ieqExpiryReapRC_t * iesqQueue_t M) :=
  if negb gotWaiterLock then Ret (ieqExpiryReapRC_OK, Q)
  else
    match QExpiryData (expiry Q) with
    | None => Crash
    | Some d =>
        if negb gotExpiryLock then Ret (ieqExpiryReapRC_NoExpiryLock, Q)
        else
          '(reapComplete, Q) ←
            (if forcefullscan then Ret (false, Q)
             else '(reapComplete, d, Q) ← reap_array nowExpire (in_array d) 0 d Q; Ret (reapComplete, set_data Q d));
          Q ← (if reapComplete : bool then Ret Q else iesq_fullExpiryScan fuel Q nowExpire);
          match QExpiryData (expiry Q) with
          | None => Crash
          | Some d =>
              let '(rc, Q) :=
                if messagesWithExpiry d =? 0 then
                  if expiryListLocked then (ieqExpiryReapRC_RemoveQ, Q)
                  else (ieqExpiryReapRC_OK, set_expiry (mk_qexpiry (Some d) false) Q)
                else (ieqExpiryReapRC_OK, Q) in
              Q ← iesq_scanGetCursor fuel Q;
              Ret (rc, Q)
          end
    end.

(** [ieme_reapQExpiredMessages], for a simple queue *)
Definition reapQExpiredMessages (fuel : nat) Q (nowExpire : Z) (gotWaiterLock gotExpiryLock : bool) :
    outcome (iesqQueue_t M) :=
  if needs_reap (expiry Q) nowExpire then
    '(_, Q) ← iesq_reapExpiredMsgs fuel Q nowExpire false false gotWaiterLock gotExpiryLock; Ret Q
  else Ret Q.

(** ** Putting *)

(** What runs under the put lock: takes the node of the put cursor and moves the cursor
    on.  Gives the page it moved to, if it did. *)
Definition reserve_node Q : outcome (Z * option nat * iesqQueue_t M) :=
  let pNode := tail Q in
  let after := (pNode.1, S pNode.2) in
  nd ← read_node Q after;
  '(rc, nextPage, Q) ←
    (if is_endpage nd then
       currpage ← iesq_getPageFromEnd Q after;
       '(nextPage, Q) ← iesq_moveToNewPage Q after;
       match nextPage with
       | None => Ret (ISMRC_AllocateError, None, Q)
       | Some np => Q ← set_nextStatus (set_tail (np, 0%nat) Q) currpage completed; Ret (OK, Some np, Q)
       end
     else Ret (OK, None, set_tail after Q));
  if negb (rc =? OK) then Ret (rc, None, Q)
  else
    nd ← read_node Q pNode;
    match msg nd with
    | MESSAGE_STATUS_EMPTY => Ret (OK, nextPage, set_counts (add_enqueue (counts Q)) Q)
    | _ => Crash
    end.

(** From the put lock to the message in its node; [inherit] is
    [IEQ_MSGTYPE_INHERIT], without which a failed put releases the message. *)
Definition put_node Q m (flags : Z) (inherit : bool) : outcome (Z * iesqQueue_t M) :=
  let pNode := tail Q in
  '(rc, nextPage, Q) ← reserve_node Q;
  if negb (rc =? OK) then Ret (rc, if inherit then Q else emit (releaseMessage m) Q)
  else
    Q ← match nextPage with Some np => iesq_appendPage Q np | None => Ret Q end;
    Q ← set_node Q pNode (mk_node flags MESSAGE_STATUS_EMPTY);
    let Q := set_buffered (u64 (bufferedMsgs Q + 1)) Q in
    let putDepth := i32 (bufferedMsgs Q) in
    Q ← (if negb (Header_Expiry m =? 0) then add_expiry Q pNode m else Ret Q);
    Q ← set_node Q pNode (mk_node flags (Msg m));
    Ret (OK, if u64 putDepth >? bufferedMsgsHWM (counts Q) then set_counts (set_hwm (u64 putDepth) (counts Q)) Q else Q).

(** What the consumer, the locks, the clock and the transaction do during a put. *)
Record turn_t := mk_turn {
  wanted : nat;
  waiterLock : bool;
  expiryLock : bool;
  now : Z;
  inTran : option Z
}.

(** [iesq_putToWaitingGetter]; [None] is [ISMRC_NoAvailWaiter]. *)
Definition iesq_putToWaitingGetter (fuel : nat) Q m (flags : Z) (wanted : nat) : outcome (option (iesqQueue_t M)) :=
  match wanted with
  | O => Ret None
  | S wanted =>
      let Q := emit (deliverMessage m flags) (set_counts (add_qavoid (counts Q)) Q) in
      Q ← (if bufferedMsgs Q >? 0 then iesq_checkWaiters fuel wanted Q else Ret Q);
      Ret (Some Q)
  end.

(** After the message is in its node: deliver, reap, reclaim. *)
Definition after_put (fuel : nat) (policy : iepiPolicyInfo_t) (t : turn_t) Q : outcome (iesqQueue_t M) :=
  Q ← iesq_checkWaiters fuel (wanted t) Q;
  if bufferedMsgs Q >=? maxMessageCount policy then
    Q ← reapQExpiredMessages fuel Q (now t) (waiterLock t) (expiryLock t);
    match maxMsgBehavior policy with
    | DiscardOldMessages =>
        if bufferedMsgs Q >? maxMessageCount policy
        then iesq_reclaimSpace fuel (waiterLock t) (maxMessageCount policy) Q else Ret Q
    | RejectNewMessages => Ret Q
    end
  else Ret Q.

Definition is_full (policy : iepiPolicyInfo_t) Q : bool :=
  (maxMessageCount policy >? 0) && (bufferedMsgs Q >=? maxMessageCount policy).

(** [inTran] is the result of adding to the soft log of a transaction, if the put is in
    one. *)
Definition iesq_putMessage (fuel : nat) (policy : iepiPolicyInfo_t) (t : turn_t) (retained inherit : bool) m Q :
    outcome (Z * iesqQueue_t M) :=
  let full := is_full policy Q in
  let Q := if full then set_reported true Q else Q in
  if full && (match maxMsgBehavior policy with RejectNewMessages => true | DiscardOldMessages => false end) then
    Ret (ISMRC_DestinationFull, set_counts (add_rejected (counts Q)) Q)
  else if negb (allowSend policy) then Ret (ISMRC_SendNotAllowed, Q)
  else
    let flags := if retained then Z.lor ismMESSAGE_FLAGS_NONE ismMESSAGE_FLAGS_RETAINED else ismMESSAGE_FLAGS_NONE in
    let Q := if inherit then Q else emit (recordMessageUsage m) Q in
    match inTran t with
    | Some rc => Ret (rc, emit (softLogAdd m retained) Q)
    | None =>
        direct ← (if bufferedMsgs Q =? 0 then iesq_putToWaitingGetter fuel Q m flags (wanted t) else Ret None);
        match direct with
        | Some Q => Ret (OK, Q)
        | None =>
            '(rc, Q) ← put_node Q m flags inherit;
            if rc =? OK then Q ← after_put fuel policy t Q; Ret (OK, Q) else Ret (rc, Q)
        end
    end.

(** ** Committing *)

(** The phases of a transaction that a put of a simple queue is registered for; any
    other fails an assertion. *)
Inductive ietrReplayPhase_t :=
  | NoPhase | Commit | MemoryCommit | PostCommit | Rollback | MemoryRollback | PostRollback
  | Cleanup | JobCallback | SavepointRollback.

(** The entry of the soft log is the message with its options and
    [bSavepointRolledback], which is given back with [SkippedPutCount]. *)
Definition iesq_SLEReplayPut (fuel : nat) (policy : iepiPolicyInfo_t) (t : turn_t) (Phase : ietrReplayPhase_t)
    (retained bSavepointRolledback : bool) m (SkippedPutCount : Z) Q : outcome (bool * Z * iesqQueue_t M) :=
  match Phase with
  | PostCommit =>
      if negb bSavepointRolledback then
        '(rc, Q) ← iesq_putMessage fuel policy (mk_turn (wanted t) (waiterLock t) (expiryLock t) (now t) None) retained true m Q;
        if negb (rc =? OK) then Ret (bSavepointRolledback, u32 (SkippedPutCount + 1), emit (releaseMessage m) Q)
        else Ret (bSavepointRolledback, SkippedPutCount, Q)
      else Ret (bSavepointRolledback, SkippedPutCount, Q)
  | Rollback =>
      Ret (bSavepointRolledback, SkippedPutCount, if negb bSavepointRolledback then emit (releaseMessage m) Q else Q)
  | SavepointRollback => Ret (true, SkippedPutCount, emit (releaseMessage m) Q)
  | _ => Crash
  end.

(** ** Deleting *)

(** The loop of [iesq_completeDeletion]; null pointers are [None]. *)
Fixpoint delete_loop (fuel : nat) (headPage : option nat) (head : option node_ptr) Q : outcome (iesqQueue_t M) :=
  match headPage with
  | None => Ret Q
  | Some hp =>
      match fuel with
      | O => Hang
      | S fuel =>
          pg ← get_page Q hp;
          match head with
          | Some temp =>
              let moved := (temp.1, S temp.2) in
              nd ← read_node Q temp;
              nd' ← read_node Q moved;
              let '(pageToFree, headPage, head) :=
                if is_endpage nd' then (Some hp, next pg, (fun p => (p, 0%nat)) <$> next pg)
                else (None, Some hp, Some moved) in
              Q ← match msg nd with
                  | MESSAGE_STATUS_EMPTY | MESSAGE_STATUS_REMOVED => Ret Q
                  | MESSAGE_STATUS_ENDPAGE => Crash
                  | Msg m => Ret (emit (releaseMessage m) Q)
                  end;
              Q ← match pageToFree with Some p => free_page Q p | None => Ret Q end;
              delete_loop fuel headPage head Q
          | None =>
              Q ← free_page Q hp;
              delete_loop fuel (next pg) ((fun p => (p, 0%nat)) <$> next pg) Q
          end
      end
  end.

(** What [iesq_completeDeletion] does to the pages, the messages and the expiry data. *)
Definition iesq_completeDeletion (fuel : nat) Q : outcome (iesqQueue_t M) :=
  let Q := set_expiry (ieme_freeQExpiryData (expiry Q)) Q in
  delete_loop fuel (Some (headPage Q)) (Some (head Q)) Q.
End Queue.
