(* ===== verification/SimpQueuePages.v ===== *)
(** * The chain of pages of a simple queue

    The invariant of the pages: the completed pages from the head page on, the page
    with the put cursor, and the page that was added ahead, which are all the pages
    there are; and the slots from the get cursor to the put cursor, which are what the
    queue holds.  The lemmas say what the cursors see and how slots come and go. *)

From stdpp Require Import gmap.
From S2P Require Import Prelude MsgExpiry SimpQueue.
#[local] Open Scope Z_scope.

(** A slot: the pointer to a node and what is in it. *)
Abbreviation slot M := (node_ptr * iesqQNode_t M)%type.

Section Pages.
Context {M : Type}.
Implicit Types (Q : iesqQueue_t M) (n : node_ptr) (nd : iesqQNode_t M) (ns filled : list (iesqQNode_t M)).
Implicit Types (ps : list (nat * list (iesqQNode_t M))).

(** ** The layout *)

(** The page after the completed pages [ps] begin, when the put cursor is in [t]. *)
Definition next_of ps (t : nat) : nat := match ps with [] => t | (a, _) :: _ => a end.

Fixpoint full_pages ps (t : nat) : list (nat * iesqQNodePage_t M) :=
  match ps with
  | [] => []
  | (a, ns) :: ps => (a, mk_page completed (Some (next_of ps t)) (length ns) (ns ++ [end_node])) :: full_pages ps t
  end.

(** The page of the put cursor, with [k] empty nodes, and the page added ahead with
    its size. *)
Definition tail_page filled (k : nat) (spare : option (nat * nat)) : iesqQNodePage_t M :=
  mk_page (if spare then unfinished else failed) (fst <$> spare) (length filled + k)
    (filled ++ replicate k empty_node ++ [end_node]).

Definition spare_pages (spare : option (nat * nat)) : list (nat * iesqQNodePage_t M) :=
  match spare with Some (s, size) => [(s, fresh_page size)] | None => [] end.

Definition layout ps t filled k spare : list (nat * iesqQNodePage_t M) :=
  full_pages ps t ++ (t, tail_page filled k spare) :: spare_pages spare.

Definition slots_from (i a : nat) ns : list (slot M) := imap (fun j nd => ((a, i + j)%nat, nd)) ns.

Fixpoint all_slots ps (t : nat) filled : list (slot M) :=
  match ps with
  | [] => slots_from 0 t filled
  | (a, ns) :: ps => slots_from 0 a ns ++ all_slots ps t filled
  end.

Definition is_filled nd : Prop :=
  match msg nd with Msg _ | MESSAGE_STATUS_REMOVED => True | _ => False end.

Definition cursor_ok (i : nat) ps filled : Prop :=
  match ps with [] => (i <= length filled)%nat | (_, ns) :: _ => (i < length ns)%nat end.

(** [live]: the slots from the get cursor to the put cursor. *)
Inductive pages Q (live : list (slot M)) : Prop := Pages ps t filled k spare i :
  heap Q = list_to_map (layout ps t filled k spare) ->
  NoDup (layout ps t filled k spare).*1 ->
  Forall (fun a => a < allocs Q)%nat (layout ps t filled k spare).*1 ->
  headPage Q = next_of ps t ->
  head Q = (next_of ps t, i) ->
  tail Q = (t, length filled) ->
  (0 < k)%nat -> (forall s size, spare = Some (s, size) -> (0 < size)%nat) ->
  Forall (fun p => p.2 <> [] /\ Forall is_filled p.2) ps -> Forall is_filled filled ->
  cursor_ok i ps filled ->
  live = drop i (all_slots ps t filled) ->
  pages Q live.

(** ** Slots *)

Lemma length_slots_from i a ns : length (slots_from i a ns) = length ns.
Proof. apply length_imap. Qed.

Lemma slots_from_lookup i a ns j : slots_from i a ns !! j = (fun nd => ((a, i + j)%nat, nd)) <$> ns !! j.
Proof. unfold slots_from. by rewrite list_lookup_imap. Qed.

Lemma slots_from_app i a ns ns' :
  slots_from i a (ns ++ ns') = slots_from i a ns ++ slots_from (i + length ns) a ns'.
Proof.
  unfold slots_from. rewrite imap_app. f_equal. apply imap_ext. intros j x _. simpl. do 2 f_equal. lia.
Qed.

Lemma all_slots_tail ps t filled nd :
  all_slots ps t (filled ++ [nd]) = all_slots ps t filled ++ [((t, length filled), nd)].
Proof.
  induction ps as [|[a ns] ps IH]; simpl; [|by rewrite IH, app_assoc].
  rewrite slots_from_app. simpl. unfold slots_from at 2. simpl. by rewrite Nat.add_0_r.
Qed.

Lemma all_slots_new_page ps t filled s : all_slots (ps ++ [(t, filled)]) s [] = all_slots ps t filled.
Proof. induction ps as [|[a ns] ps IH]; simpl; [apply app_nil_r|by rewrite IH]. Qed.

(** The pointer to the j-th slot; after the last one comes the put cursor. *)
Definition ptr_at (live : list (slot M)) (tl : node_ptr) (j : nat) : node_ptr :=
  match live !! j with Some s => s.1 | None => tl end.

Lemma ptr_at_first ps t filled :
  Forall (fun p => p.2 <> [] /\ Forall is_filled p.2) ps ->
  ptr_at (all_slots ps t filled) (t, length filled) 0 = (next_of ps t, 0%nat).
Proof.
  intros H. unfold ptr_at. destruct ps as [|[a ns] ps]; simpl.
  - rewrite slots_from_lookup. by destruct filled.
  - apply Forall_cons in H as [[Hn _] _]. simpl in Hn. destruct ns as [|nd ns]; [done|].
    rewrite lookup_app_l by (rewrite length_slots_from; simpl; lia). by rewrite slots_from_lookup.
Qed.

(** The slot after a slot: the next node, or the first node of the next page. *)
Lemma slot_next ps t filled j a x nd :
  Forall (fun p => p.2 <> [] /\ Forall is_filled p.2) ps ->
  all_slots ps t filled !! j = Some ((a, x), nd) ->
  (exists ps1 ns ps2, ps = ps1 ++ (a, ns) :: ps2 /\ ns !! x = Some nd /\
     ptr_at (all_slots ps t filled) (t, length filled) (S j) =
       if (S x <? length ns)%nat then (a, S x) else (next_of ps2 t, 0%nat)) \/
  (a = t /\ filled !! x = Some nd /\ ptr_at (all_slots ps t filled) (t, length filled) (S j) = (t, S x)).
Proof.
  revert j. induction ps as [|[a0 ns0] ps IH]; intros j Hne Hj; simpl in *.
  - right. rewrite slots_from_lookup in Hj. apply fmap_Some in Hj as (nd' & Hj & [= -> -> ->]).
    split; [done|]. split; [done|]. unfold ptr_at. rewrite slots_from_lookup.
    destruct (filled !! S j) eqn:E; [done|]. simpl. apply lookup_ge_None in E. apply lookup_lt_Some in Hj. f_equal; lia.
  - apply Forall_cons in Hne as [[Hn0 _] Hne]. simpl in Hn0.
    destruct (decide (j < length ns0)%nat) as [Hlt|Hge].
    + left. exists [], ns0, ps. rewrite lookup_app_l in Hj by (by rewrite length_slots_from).
      rewrite slots_from_lookup in Hj. apply fmap_Some in Hj as (nd' & Hj & [= -> -> ->]).
      split; [done|]. split; [done|]. simpl Nat.add. unfold ptr_at.
      destruct (Nat.ltb_spec (S j) (length ns0)).
      * rewrite lookup_app_l, slots_from_lookup by (by rewrite length_slots_from).
        destruct (lookup_lt_is_Some_2 ns0 (S j)) as [y ->]; [done|]. done.
      * rewrite lookup_app_r by (by rewrite length_slots_from). rewrite length_slots_from.
        replace (S j - length ns0)%nat with 0%nat by lia. by apply ptr_at_first.
    + rewrite lookup_app_r in Hj by (rewrite length_slots_from; lia). rewrite length_slots_from in Hj.
      assert (forall tl, ptr_at (slots_from 0 a0 ns0 ++ all_slots ps t filled) tl (S j) =
                ptr_at (all_slots ps t filled) tl (S (j - length ns0))) as E.
      { intros tl. unfold ptr_at. rewrite lookup_app_r by (rewrite length_slots_from; lia).
        rewrite length_slots_from. by replace (S j - length ns0)%nat with (S (j - length ns0)) by lia. }
      rewrite E. destruct (IH _ Hne Hj) as [(ps1 & ns & ps2 & -> & Hx & Hp)|Ht]; [left|by right].
      by exists ((a0, ns0) :: ps1), ns, ps2.
Qed.

(** ** The heap *)

Lemma full_pages_app ps1 ps2 t : full_pages (ps1 ++ ps2) t = full_pages ps1 (next_of ps2 t) ++ full_pages ps2 t.
Proof.
  induction ps1 as [|[a ns] ps1 IH]; simpl; [done|]. rewrite IH. do 3 f_equal. by destruct ps1 as [|[]].
Qed.

Lemma lookup_layout (l : list (nat * iesqQNodePage_t M)) l1 a pg l2 :
  NoDup l.*1 -> l = l1 ++ (a, pg) :: l2 -> (list_to_map l : gmap nat _) !! a = Some pg.
Proof. intros Nd ->. apply elem_of_list_to_map_1; [done|]. apply elem_of_app. right. left. Qed.

Lemma update_layout l1 a (pg pg' : iesqQNodePage_t M) l2 :
  NoDup (l1 ++ (a, pg) :: l2).*1 ->
  (list_to_map (l1 ++ (a, pg') :: l2) : gmap nat _) = <[a := pg']> (list_to_map (l1 ++ (a, pg) :: l2)).
Proof.
  intros Nd. rewrite !list_to_map_app. simpl. rewrite fmap_app, fmap_cons in Nd. simpl in Nd.
  apply NoDup_app in Nd as (_ & Hd & _). assert ((list_to_map l1 : gmap nat (iesqQNodePage_t M)) !! a = None) as Hn.
  { apply not_elem_of_list_to_map_1. intros Ha. apply (Hd a Ha). left. }
  rewrite <-!insert_union_r by done. by rewrite insert_insert_eq.
Qed.

Lemma read_node_in Q a x pg nd : heap Q !! a = Some pg -> nodes pg !! x = Some nd -> read_node Q (a, x) = Ret nd.
Proof. intros Ha Hx. unfold read_node, get_page. simpl. rewrite Ha. simpl. by rewrite Hx. Qed.

Lemma layout_full ps1 a ns ps2 t filled k spare :
  layout (ps1 ++ (a, ns) :: ps2) t filled k spare =
    full_pages ps1 a ++ (a, mk_page completed (Some (next_of ps2 t)) (length ns) (ns ++ [end_node]))
      :: layout ps2 t filled k spare.
Proof. unfold layout. rewrite full_pages_app, <-app_assoc. done. Qed.

Lemma heap_full Q ps1 a ns ps2 t filled k spare :
  heap Q = list_to_map (layout (ps1 ++ (a, ns) :: ps2) t filled k spare) ->
  NoDup (layout (ps1 ++ (a, ns) :: ps2) t filled k spare).*1 ->
  heap Q !! a = Some (mk_page completed (Some (next_of ps2 t)) (length ns) (ns ++ [end_node])).
Proof. intros -> Nd. eapply lookup_layout; [done|]. apply layout_full. Qed.

Lemma heap_tail Q ps t filled k spare :
  heap Q = list_to_map (layout ps t filled k spare) -> NoDup (layout ps t filled k spare).*1 ->
  heap Q !! t = Some (tail_page filled k spare).
Proof. intros -> Nd. by eapply lookup_layout. Qed.

Lemma tail_page_filled filled k spare x nd : filled !! x = Some nd -> nodes (tail_page filled k spare) !! x = Some nd.
Proof. intros H. simpl. by rewrite lookup_app_l by (by eapply lookup_lt_Some). Qed.

Lemma tail_page_empty filled k spare : (0 < k)%nat -> nodes (tail_page filled k spare) !! length filled = Some empty_node.
Proof. intros H. simpl. rewrite lookup_app_r, Nat.sub_diag by done. by destruct k; [lia|]. Qed.

Lemma filled_not_end nd : is_filled nd -> is_endpage nd = false.
Proof. unfold is_filled, is_endpage. by destruct (msg nd). Qed.

(** The node after a filled one. *)
Lemma tail_after filled k spare x :
  Forall is_filled filled -> (0 < k)%nat -> (x < length filled)%nat ->
  exists nd, nodes (tail_page filled k spare) !! S x = Some nd /\ is_endpage nd = false.
Proof.
  intros Hf Hk Hx. destruct (filled !! S x) as [y|] eqn:E.
  - exists y. split; [by apply tail_page_filled|]. rewrite Forall_lookup in Hf. by eapply filled_not_end, Hf.
  - exists empty_node. split; [|done]. apply lookup_ge_None in E. replace (S x) with (length filled) by lia.
    by apply tail_page_empty.
Qed.

Lemma full_after ns x :
  Forall is_filled ns -> (x < length ns)%nat ->
  exists nd, (ns ++ [end_node]) !! S x = Some nd /\ is_endpage nd = negb (S x <? length ns)%nat /\
    (is_endpage nd = true -> nd = end_node).
Proof.
  intros Hf Hx. destruct (Nat.ltb_spec (S x) (length ns)).
  - destruct (lookup_lt_is_Some_2 ns (S x)) as [y Hy]; [done|]. exists y. rewrite lookup_app_l by done.
    rewrite Forall_lookup in Hf. assert (is_endpage y = false) as -> by (by eapply filled_not_end, Hf). done.
  - exists end_node. rewrite lookup_app_r by done. by replace (S x - length ns)%nat with 0%nat by lia.
Qed.

Lemma ptr_at_drop l tl i j : ptr_at (drop i l) tl j = ptr_at l tl (i + j).
Proof. unfold ptr_at. by rewrite lookup_drop. Qed.

Lemma pages_tail Q live : pages Q live -> read_node Q (tail Q) = Ret empty_node.
Proof.
  intros [ps t filled k spare i Hh Nd _ _ _ Ht Hk _ _ _ _ _]. rewrite Ht.
  eapply read_node_in; [by eapply heap_tail|by apply tail_page_empty].
Qed.

Lemma pages_head Q live : pages Q live -> head Q = ptr_at live (tail Q) 0 /\ headPage Q = (head Q).1.
Proof.
  intros [ps t filled k spare i Hh Nd _ Hhp Hhd Ht Hk _ Hps _ Hi ->]. rewrite ptr_at_drop, Nat.add_0_r, Hhp, Hhd, Ht.
  split; [|done]. unfold ptr_at. destruct ps as [|[a ns] ps]; simpl in *.
  - rewrite slots_from_lookup. destruct (filled !! i) eqn:E; [done|]. simpl. apply lookup_ge_None in E. f_equal; lia.
  - rewrite lookup_app_l, slots_from_lookup by (by rewrite length_slots_from).
    destruct (lookup_lt_is_Some_2 ns i Hi) as [y ->]. done.
Qed.

(** What the get cursor and the scans see at a slot and after it. *)
Lemma pages_next Q live j a x nd :
  pages Q live -> live !! j = Some ((a, x), nd) ->
  read_node Q (a, x) = Ret nd /\ is_filled nd /\
  (ptr_at live (tail Q) (S j) = (a, S x) /\ (exists nd', read_node Q (a, S x) = Ret nd' /\ is_endpage nd' = false) \/
   read_node Q (a, S x) = Ret end_node /\
   exists pg a', heap Q !! a = Some pg /\ nextStatus pg = completed /\ next pg = Some a' /\
     ptr_at live (tail Q) (S j) = (a', 0%nat)).
Proof.
  intros [ps t filled k spare i Hh Nd _ _ _ Ht Hk _ Hps Hf _ ->] Hj. rewrite lookup_drop in Hj.
  rewrite ptr_at_drop, <-plus_n_Sm, Ht.
  destruct (slot_next _ _ _ _ _ _ _ Hps Hj) as [(ps1 & ns & ps2 & -> & Hx & ->)|(-> & Hx & ->)].
  - pose proof (heap_full _ _ _ _ _ _ _ _ _ Hh Nd) as Ha.
    apply Forall_app in Hps as [_ [[_ Hns] _]%Forall_cons]. simpl in Hns. pose proof (lookup_lt_Some _ _ _ Hx) as Hlt.
    split; [eapply read_node_in; [exact Ha|]; simpl; by rewrite lookup_app_l|].
    split; [rewrite Forall_lookup in Hns; by eapply Hns|].
    destruct (full_after ns x Hns Hlt) as (nd' & Hnd & He & Hend). apply (read_node_in _ _ _ _ _ Ha) in Hnd.
    destruct (S x <? length ns)%nat; [left|right].
    + split; [done|]. by exists nd'.
    + split; [by rewrite Hnd, Hend|by eexists _, _].
  - pose proof (heap_tail _ _ _ _ _ _ Hh Nd) as Ha. pose proof (lookup_lt_Some _ _ _ Hx) as Hlt.
    split; [eapply read_node_in; [exact Ha|]; by apply tail_page_filled|].
    split; [rewrite Forall_lookup in Hf; by eapply Hf|]. left. split; [done|].
    destruct (tail_after filled k spare x Hf Hk Hlt) as (nd' & Hnd & He).
    exists nd'. split; [by eapply read_node_in|done].
Qed.

(** ** The get cursor moves *)

Lemma set_heap_same Q : set_heap (heap Q) Q = Q.
Proof. by destruct Q. Qed.

Lemma drop_cons_inv {A} i (l : list A) x l' : x :: l' = drop i l -> l !! i = Some x /\ l' = drop (S i) l.
Proof.
  intros H. assert (l !! i = Some x) as Hx by (by rewrite <-(Nat.add_0_r i), <-lookup_drop, <-H).
  split; [done|]. erewrite drop_S in H by done. by injection H.
Qed.

Lemma pages_advance Q s live :
  pages Q (s :: live) ->
  exists h p n, advance_head Q = Ret (true, set_heap h (set_head p n Q)) /\
    pages (set_heap h (set_head p n Q)) live.
Proof.
  intros [ps t filled k spare i Eh Nd Ha Ehp Ehd Et Hk Hsp Hps Hf Hi Hl].
  apply drop_cons_inv in Hl as [Hl0 Hl]. unfold advance_head. rewrite Ehp, Ehd. cbn [fst snd].
  destruct ps as [|[a ns] ps]; simpl next_of in *; simpl in Hi, Hl0.
  - rewrite slots_from_lookup in Hl0. apply fmap_Some in Hl0 as (nd & Hx%lookup_lt_Some & _).
    destruct (tail_after filled k spare i Hf Hk Hx) as (nd' & Hn & He).
    erewrite read_node_in by (done || by eapply heap_tail). rewrite bind_ret, He.
    exists (heap Q), t, (t, S i). split; [by destruct Q|].
    by eapply (Pages _ _ [] t filled k spare (S i)).
  - pose proof (heap_full Q [] a ns ps t filled k spare Eh Nd) as Hpg.
    pose proof Hps as [[_ Hns] Hps']%Forall_cons. simpl in Hns.
    destruct (full_after ns i Hns Hi) as (nd' & Hn & He & _).
    erewrite read_node_in by (done || exact Hpg). rewrite bind_ret, He.
    destruct (Nat.ltb_spec (S i) (length ns)); simpl negb; cbv iota.
    + exists (heap Q), a, (a, S i). split; [by destruct Q|].
      by eapply (Pages _ _ ((a, ns) :: ps) t filled k spare (S i)).
    + unfold get_page, free_page. rewrite Hpg. cbn [mbind outcome_bind nextStatus next].
      unfold get_page. simpl heap. rewrite Hpg. cbn [mbind outcome_bind].
      exists (delete a (heap Q)), (next_of ps t), (next_of ps t, 0%nat). split; [done|].
      change (layout ((a, ns) :: ps) t filled k spare) with
        ((a, mk_page completed (Some (next_of ps t)) (length ns) (ns ++ [end_node])) :: layout ps t filled k spare) in *.
      apply NoDup_cons in Nd as [Na Nd]. apply Forall_cons in Ha as [_ Ha].
      eapply (Pages _ _ ps t filled k spare 0); try done.
      * simpl heap. rewrite Eh. simpl. apply delete_insert_id. by apply not_elem_of_list_to_map_1.
      * simpl. destruct ps as [|[a' ns'] ps]; [simpl; lia|]. apply Forall_cons in Hps' as [[Hne _] _].
        simpl in *. destruct ns'; [done|simpl; lia].
      * rewrite Hl. simpl. rewrite drop_app, drop_ge, length_slots_from by (rewrite length_slots_from; lia).
        by replace (S i - length ns)%nat with 0%nat by lia.
Qed.

(** ** A node in a slot changes *)

Lemma slots_from_insert i a ns x nd : slots_from i a (<[x := nd]> ns) = <[x := ((a, i + x)%nat, nd)]> (slots_from i a ns).
Proof.
  apply list_eq. intros j. rewrite slots_from_lookup. destruct (decide (x = j)) as [->|Hn].
  - destruct (decide (j < length ns)%nat).
    + by rewrite !list_lookup_insert_eq by (rewrite ?length_slots_from; done).
    + by rewrite !lookup_ge_None_2 by (rewrite ?length_insert, ?length_slots_from; lia).
  - by rewrite !list_lookup_insert_ne, slots_from_lookup by done.
Qed.

Lemma slot_set ps t filled j a x nd nd' :
  all_slots ps t filled !! j = Some ((a, x), nd) ->
  (exists ps1 ns ps2, ps = ps1 ++ (a, ns) :: ps2 /\ (x < length ns)%nat /\
     all_slots (ps1 ++ (a, <[x := nd']> ns) :: ps2) t filled = <[j := ((a, x), nd')]> (all_slots ps t filled)) \/
  (a = t /\ (x < length filled)%nat /\
     all_slots ps t (<[x := nd']> filled) = <[j := ((a, x), nd')]> (all_slots ps t filled)).
Proof.
  revert j. induction ps as [|[a0 ns0] ps IH]; intros j Hj; simpl in *.
  - right. rewrite slots_from_lookup in Hj. apply fmap_Some in Hj as (y & Hy%lookup_lt_Some & [= -> -> ->]).
    by rewrite slots_from_insert.
  - destruct (decide (j < length ns0)%nat) as [Hlt|Hge].
    + left. exists [], ns0, ps. rewrite lookup_app_l in Hj by (by rewrite length_slots_from).
      rewrite slots_from_lookup in Hj. apply fmap_Some in Hj as (y & _ & [= -> -> ->]). split; [done|]. split; [done|].
      simpl. by rewrite slots_from_insert, insert_app_l by (by rewrite length_slots_from).
    + rewrite lookup_app_r in Hj by (rewrite length_slots_from; lia). rewrite length_slots_from in Hj.
      assert (forall y, <[j := y]> (slots_from 0 a0 ns0 ++ all_slots ps t filled) =
                slots_from 0 a0 ns0 ++ <[(j - length ns0)%nat := y]> (all_slots ps t filled)) as E.
      { intros y. rewrite insert_app_r_alt by (rewrite length_slots_from; lia). by rewrite length_slots_from. }
      destruct (IH _ Hj) as [(ps1 & ns & ps2 & -> & Hx & Es)|(-> & Hx & Es)]; [left|right].
      * exists ((a0, ns0) :: ps1), ns, ps2. simpl. by rewrite E, Es.
      * by rewrite E, Es.
Qed.

Lemma layout_keys ps t filled k spare : (layout ps t filled k spare).*1 = ps.*1 ++ t :: (spare_pages spare).*1.
Proof.
  unfold layout. rewrite fmap_app, fmap_cons. f_equal.
  induction ps as [|[a ns] ps IH]; [done|]. cbn [full_pages]. by rewrite !fmap_cons, IH.
Qed.

Lemma drop_insert_eq {A} i j (x : A) l : drop i (<[(i + j)%nat := x]> l) = <[j := x]> (drop i l).
Proof. rewrite drop_insert_ge by lia. by replace (i + j - i)%nat with j by lia. Qed.

Lemma pages_set Q live j a x nd nd' :
  pages Q live -> live !! j = Some ((a, x), nd) -> is_filled nd' ->
  exists h, set_node Q (a, x) nd' = Ret (set_heap h Q) /\ pages (set_heap h Q) (<[j := ((a, x), nd')]> live).
Proof.
  intros [ps t filled k spare i Eh Nd Ha Ehp Ehd Et Hk Hsp Hps Hf Hi ->] Hj Hnd. rewrite lookup_drop in Hj.
  unfold set_node, get_page. cbn [fst snd].
  destruct (slot_set _ _ _ _ _ _ _ nd' Hj) as [(ps1 & ns & ps2 & -> & Hx & Es)|(-> & Hx & Es)].
  - rewrite (heap_full _ _ _ _ _ _ _ _ _ Eh Nd). cbn [mbind outcome_bind nodes nextStatus next nodesInPage].
    destruct (Nat.ltb_spec x (length (ns ++ [end_node]))) as [_|?]; [|rewrite length_app in *; lia].
    eexists; split; [reflexivity|]. rewrite insert_app_l by done.
    eapply (Pages _ _ (ps1 ++ (a, <[x := nd']> ns) :: ps2) t filled k spare i); try done.
    + cbn [heap set_heap]. rewrite Eh, !layout_full, length_insert. symmetry. apply update_layout.
      by rewrite layout_full in Nd.
    + rewrite layout_keys, fmap_app in *. done.
    + rewrite layout_keys, fmap_app in *. done.
    + simpl. rewrite Ehp. by destruct ps1 as [|[]].
    + simpl. rewrite Ehd. by destruct ps1 as [|[]].
    + apply Forall_app in Hps as [? [[Hne ?] ?]%Forall_cons]. apply Forall_app; split; [done|].
      constructor; [|done]. simpl in *. split; [by destruct ns, x|by apply Forall_insert].
    + destruct ps1 as [|[]]; [|done]. simpl in *. by rewrite length_insert.
    + by rewrite Es, drop_insert_eq.
  - rewrite (heap_tail _ _ _ _ _ _ Eh Nd). cbn [mbind outcome_bind nodes tail_page nextStatus next nodesInPage].
    destruct (Nat.ltb_spec x (length (filled ++ replicate k empty_node ++ [end_node]))) as [_|?];
      [|rewrite length_app in *; lia].
    eexists; split; [reflexivity|]. rewrite insert_app_l by done.
    eapply (Pages _ _ ps t (<[x := nd']> filled) k spare i); try done.
    + cbn [heap set_heap]. rewrite Eh. unfold layout. symmetry.
      replace (mk_page _ _ _ _) with (tail_page (<[x := nd']> filled) k spare)
        by (unfold tail_page; by rewrite length_insert).
      by apply update_layout.
    + rewrite layout_keys in *. done.
    + rewrite layout_keys in *. done.
    + simpl. by rewrite length_insert.
    + by apply Forall_insert.
    + destruct ps; [|done]. simpl in *. by rewrite length_insert.
    + by rewrite Es, drop_insert_eq.
Qed.

Lemma slots_from_ptr_nodup i a ns : NoDup (slots_from i a ns).*1.
Proof.
  apply NoDup_alt. intros j1 j2 p H1 H2. rewrite list_lookup_fmap, slots_from_lookup in H1, H2.
  destruct (ns !! j1), (ns !! j2); simplify_eq/=. lia.
Qed.

Lemma all_slots_page ps t filled p : p ∈ (all_slots ps t filled).*1 -> p.1 ∈ ps.*1 ++ [t].
Proof.
  assert (forall i a ns, p ∈ (slots_from i a ns).*1 -> p.1 = a) as H.
  { intros i a ns Hp. apply list_elem_of_fmap in Hp as (s & -> & (j & Hj)%list_elem_of_lookup).
    rewrite slots_from_lookup in Hj. by apply fmap_Some in Hj as (? & _ & ->). }
  induction ps as [|[a ns] ps IH]; cbn [all_slots].
  - intros Hp. rewrite (H _ _ _ Hp). by apply list_elem_of_singleton.
  - rewrite fmap_app. intros [Hp|Hp]%elem_of_app; [rewrite (H _ _ _ Hp); left|right; by apply IH].
Qed.

Lemma all_slots_nodup ps t filled : NoDup (ps.*1 ++ [t]) -> NoDup (all_slots ps t filled).*1.
Proof.
  induction ps as [|[a ns] ps IH]; cbn [all_slots]; intros Nd; [apply slots_from_ptr_nodup|].
  apply NoDup_cons in Nd as [Na Nd]. rewrite fmap_app. apply NoDup_app.
  split; [apply slots_from_ptr_nodup|]. split; [|by apply IH].
  intros p Hp Hp'. apply all_slots_page in Hp'. apply Na. simpl.
  apply (all_slots_page [] a ns) in Hp. apply list_elem_of_singleton in Hp. by rewrite <-Hp.
Qed.

Lemma pages_nodup Q live : pages Q live -> NoDup live.*1 /\ tail Q ∉ live.*1 /\ Forall (fun s => is_filled s.2) live.
Proof.
  intros P. split; [|split].
  - destruct P as [ps t filled k spare i _ Nd _ _ _ _ _ _ _ _ _ ->]. rewrite layout_keys, cons_middle, app_assoc in Nd.
    apply NoDup_app in Nd as [Nd _]. apply (all_slots_nodup ps t filled) in Nd.
    rewrite <-(take_drop i (all_slots ps t filled)), fmap_app in Nd. by apply NoDup_app in Nd as (_ & _ & ?).
  - destruct P as [ps t filled k spare i _ Nd _ _ _ -> _ _ _ _ _ ->]. rewrite layout_keys, cons_middle, app_assoc in Nd.
    apply NoDup_app in Nd as [Nd _]. apply (all_slots_nodup ps t (filled ++ [end_node])) in Nd.
    rewrite all_slots_tail, fmap_app in Nd. apply NoDup_app in Nd as (_ & Nd & _). intros Hin.
    apply (Nd (t, length filled)); [|left]. rewrite <-(take_drop i (all_slots ps t filled)), fmap_app.
    apply elem_of_app. by right.
  - apply Forall_lookup. intros j [[a x] nd] Hj. by destruct (pages_next _ _ _ _ _ _ P Hj) as (_ & ? & _).
Qed.
End Pages.
