(* ===== verification/SimpQueuePut.v ===== *)
(** * The put cursor of a simple queue

    [reserve_node] and [iesq_appendPage] against the invariant of SimpQueuePages: the
    put cursor takes a node, or fails for lack of memory, and in both cases leaves the
    chain of pages in order. *)

From stdpp Require Import gmap.
From S2P Require Import Prelude MsgExpiry SimpQueue SimpQueuePages.
#[local] Open Scope Z_scope.

Section Put.
Context {M : Type} (mem : nat -> bool) (totalSubsCount : Z).
Implicit Types (Q : iesqQueue_t M) (n : node_ptr) (nd : iesqQNode_t M) (filled : list (iesqQNode_t M)).

(** Everything but the pages. *)
Definition rest Q := (bufferedMsgs Q, counts Q, ReportedQueueFull Q, informOnEmpty Q, expiry Q, calls Q).

Definition holds Q (l : list (nat * iesqQNodePage_t M)) : Prop :=
  heap Q = list_to_map l /\ NoDup l.*1 /\ Forall (fun a => a < allocs Q)%nat l.*1.

Lemma page_size_pos : (0 < iesq_choosePageSize totalSubsCount)%nat.
Proof. unfold iesq_choosePageSize. case_match; vm_compute; lia. Qed.

Lemma holds_get Q l l1 a pg l2 : holds Q l -> l = l1 ++ (a, pg) :: l2 -> get_page Q a = Ret pg.
Proof.
  intros (Hh & Nd & _) El. unfold get_page. rewrite Hh. by erewrite lookup_layout.
Qed.

Lemma holds_set Q l1 a pg pg' l2 :
  holds Q (l1 ++ (a, pg) :: l2) -> holds (set_page Q a pg') (l1 ++ (a, pg') :: l2).
Proof.
  intros (Hh & Nd & Ha). split; [|by rewrite fmap_app, fmap_cons in *].
  cbn [heap set_page set_heap]. rewrite Hh. symmetry. by apply update_layout.
Qed.

Lemma holds_alloc Q l pg : holds Q l -> holds (inc_allocs (set_page Q (allocs Q) pg)) (l ++ [(allocs Q, pg)]).
Proof.
  intros (Hh & Nd & Ha). assert (allocs Q ∉ l.*1) as Hn.
  { intros Hin. rewrite Forall_forall in Ha. apply Ha in Hin. lia. }
  split; [|split].
  - cbn [heap set_page set_heap inc_allocs]. rewrite Hh, list_to_map_app. cbn [list_to_map foldr].
    assert ((list_to_map l : gmap nat (iesqQNodePage_t M)) !! allocs Q = None) by (by apply not_elem_of_list_to_map_1).
    unfold list_to_map at 2. cbn [foldr uncurry]. rewrite <-insert_union_r by done. by rewrite map_union_empty.
  - rewrite fmap_app. apply NoDup_app. split; [done|]. split; [|apply NoDup_singleton].
    intros a H ->%list_elem_of_singleton. done.
  - rewrite fmap_app. apply Forall_app. split; [|constructor; [simpl; lia|constructor]].
    eapply Forall_impl; [exact Ha|]. simpl. lia.
Qed.

Lemma holds_inc Q l : holds Q l -> holds (inc_allocs Q) l.
Proof. intros (Hh & Nd & Ha). split; [done|]. split; [done|]. eapply Forall_impl; [exact Ha|]. simpl. lia. Qed.

(** The state of the pages only depends on some fields. *)
Definition same_cursors Q Q' : Prop := head Q' = head Q /\ headPage Q' = headPage Q /\ tail Q' = tail Q.

Lemma move_spec Q l1 t filled spare l2 :
  (forall s size, spare = Some (s, size) -> (0 < size)%nat) -> l2 = spare_pages spare ->
  holds Q (l1 ++ (t, tail_page filled 1 spare) :: l2) ->
  (exists s size Q', iesq_moveToNewPage mem totalSubsCount Q (t, S (length filled)) = Ret (Some s, Q') /\
     holds Q' (l1 ++ (t, tail_page filled 1 (Some (s, size))) :: [(s, fresh_page size)]) /\ (0 < size)%nat /\
     same_cursors Q Q' /\ rest Q' = rest Q /\ (allocs Q <= allocs Q')%nat) \/
  (exists Q', iesq_moveToNewPage mem totalSubsCount Q (t, S (length filled)) = Ret (None, Q') /\
     holds Q' (l1 ++ (t, tail_page filled 1 spare) :: l2) /\ mem (allocs Q) = false /\
     same_cursors Q Q' /\ rest Q' = rest Q /\ (allocs Q <= allocs Q')%nat).
Proof.
  intros Hs -> Hh. pose proof (holds_get _ _ _ _ _ _ Hh eq_refl) as Hg.
  assert (read_node Q (t, S (length filled)) = Ret end_node) as Hend.
  { unfold read_node. simpl fst. rewrite Hg, bind_ret. simpl nodes. simpl snd.
    rewrite lookup_app_r by lia. by replace (S (length filled) - length filled)%nat with 1%nat by lia. }
  unfold iesq_moveToNewPage, iesq_getPageFromEnd. rewrite Hend. cbn [mbind outcome_bind is_endpage end_node msg fst].
  rewrite Hg. cbn [mbind outcome_bind].
  destruct spare as [[s size]|]; cbn [next nextStatus tail_page fmap option_fmap option_map fst].
  - left. exists s, size, Q. split; [done|]. split; [done|]. split; [by eapply Hs|]. done.
  - unfold set_nextStatus, set_next. rewrite Hg. cbn [mbind outcome_bind]. unfold iesq_createNewPage.
    apply (holds_set _ _ _ _ (mk_page repairing None (length filled + 1) (nodes (tail_page filled 1 None)))) in Hh.
    cbn [next nextStatus tail_page fmap option_fmap option_map fst nodes nodesInPage] in *.
    set (Q1 := set_page Q t _) in *. change (allocs Q1) with (allocs Q).
    destruct (mem (allocs Q)) eqn:Em; [left|right].
    + apply (holds_alloc _ _ (fresh_page (iesq_choosePageSize totalSubsCount))) in Hh. rewrite <-app_assoc in Hh.
      change (allocs Q1) with (allocs Q) in Hh. simpl app in Hh.
      set (Q2 := inc_allocs _) in *. rewrite (holds_get _ _ _ _ _ _ Hh eq_refl).
      cbn [mbind outcome_bind next nextStatus nodes nodesInPage].
      eapply holds_set in Hh. erewrite (holds_get (set_page Q2 _ _)) by (done || exact Hh).
      cbn [mbind outcome_bind next nextStatus nodes nodesInPage]. eapply holds_set in Hh.
      eexists _, _, _. split; [reflexivity|]. split; [exact Hh|].
      split; [apply page_size_pos|]. repeat split. simpl. lia.
    + apply holds_inc in Hh. rewrite (holds_get _ _ _ _ _ _ Hh eq_refl).
      cbn [mbind outcome_bind next nextStatus nodes nodesInPage]. eapply holds_set in Hh.
      eexists. split; [reflexivity|]. split; [exact Hh|]. repeat split. simpl. lia.
Qed.

Lemma append_spec Q l s size :
  holds Q (l ++ [(s, fresh_page size)]) -> 
  exists spare Q', iesq_appendPage mem totalSubsCount Q s = Ret Q' /\
    holds Q' (l ++ (s, tail_page [] size spare) :: spare_pages spare) /\
    (forall s' size', spare = Some (s', size') -> (0 < size')%nat) /\
    same_cursors Q Q' /\ rest Q' = rest Q /\ (allocs Q <= allocs Q')%nat.
Proof.
  intros Hh. unfold iesq_appendPage, iesq_createNewPage, set_next, set_nextStatus. destruct (mem (allocs Q)).
  - apply (holds_alloc _ _ (fresh_page (iesq_choosePageSize totalSubsCount))) in Hh. rewrite <-app_assoc in Hh.
    simpl app in Hh. rewrite (holds_get _ _ _ _ _ _ Hh eq_refl). cbn [mbind outcome_bind].
    exists (Some (allocs Q, iesq_choosePageSize totalSubsCount)). eexists. split; [reflexivity|].
    eapply holds_set in Hh. split; [exact Hh|]. split; [intros ? ? [= <- <-]; apply page_size_pos|].
    repeat split. simpl. lia.
  - apply holds_inc in Hh. rewrite (holds_get _ _ _ _ _ _ Hh eq_refl). cbn [mbind outcome_bind nextStatus fresh_page].
    exists None. eexists. split; [reflexivity|]. eapply holds_set in Hh. split; [exact Hh|]. repeat split; [done|]. simpl. lia.
Qed.

(** The node [n] was taken: what is put into it comes after the slots [live]. *)
Definition reserved Q live n : Prop :=
  forall nd, exists h, set_node Q n nd = Ret (set_heap h Q) /\ (is_filled nd -> pages (set_heap h Q) (live ++ [(n, nd)])).

Lemma insert_at_length {A} (l : list A) x y k : <[length l := y]> (l ++ x :: k) = (l ++ [y]) ++ k.
Proof. rewrite insert_app_r_alt by done. rewrite Nat.sub_diag. simpl. by rewrite <-app_assoc. Qed.

Lemma all_slots_length ps t filled i :
  cursor_ok i ps filled -> (i <= length (@all_slots M ps t filled))%nat.
Proof.
  destruct ps as [|[a ns] ps]; simpl; [by rewrite length_slots_from|]. rewrite length_app, length_slots_from. lia.
Qed.

Lemma holds_page_eq filled k (spare : option (nat * nat)) nd :
  mk_page (if spare then unfinished else failed) (fst <$> spare) (length filled + S k)
    (<[length filled := nd]> (filled ++ replicate (S k) empty_node ++ [end_node])) = tail_page (filled ++ [nd]) k spare.
Proof.
  simpl replicate. simpl app. rewrite insert_at_length. unfold tail_page. f_equal. rewrite length_app. simpl. lia.
Qed.

Lemma reserved_here Q ps t filled k spare i :
  holds Q (layout ps t filled (S (S k)) spare) -> (forall s size, spare = Some (s, size) -> (0 < size)%nat) ->
  headPage Q = next_of ps t -> head Q = (next_of ps t, i) -> tail Q = (t, S (length filled)) ->
  Forall (fun p => p.2 <> [] /\ Forall is_filled p.2) ps -> Forall is_filled filled -> cursor_ok i ps filled ->
  reserved Q (drop i (all_slots ps t filled)) (t, length filled).
Proof.
  intros Hh Hs Ehp Ehd Et Hps Hf Hi nd. unfold set_node. simpl fst. rewrite (holds_get _ _ _ _ _ _ Hh eq_refl).
  cbn [mbind outcome_bind nodes tail_page snd nextStatus next nodesInPage].
  destruct (Nat.ltb_spec (length filled) (length (filled ++ replicate (S (S k)) empty_node ++ [end_node]))) as [_|Hl];
    [|rewrite !length_app in Hl; simpl in Hl; lia].
  rewrite (holds_page_eq filled (S k) spare nd).
  eexists; split; [reflexivity|]. intros Hnd.
  pose proof (holds_set _ _ _ _ (tail_page (filled ++ [nd]) (S k) spare) _ Hh) as (H1 & H2 & H3).
  eapply (Pages _ _ ps t (filled ++ [nd]) (S k) spare i); try done.
  - rewrite length_app, Nat.add_1_r. done.
  - lia.
  - apply Forall_app; auto.
  - destruct ps as [|[a ns] ps]; simpl in *; rewrite ?length_app; lia.
  - rewrite all_slots_tail, drop_app_le by (by apply all_slots_length). done.
Qed.

(** The node that was taken is the last of its page. *)
Lemma reserved_next Q ps t filled s size spare i :
  holds Q (full_pages ps t ++ (t, mk_page completed (Some s) (length filled + 1) (filled ++ replicate 1 empty_node ++ [end_node]))
             :: (s, tail_page [] size spare) :: spare_pages spare) ->
  (0 < size)%nat -> (forall s size, spare = Some (s, size) -> (0 < size)%nat) ->
  headPage Q = next_of ps t -> head Q = (next_of ps t, i) -> tail Q = (s, 0%nat) ->
  Forall (fun p => p.2 <> [] /\ Forall is_filled p.2) ps -> Forall is_filled filled -> cursor_ok i ps filled ->
  reserved Q (drop i (all_slots ps t filled)) (t, length filled).
Proof.
  intros Hh Hz Hs Ehp Ehd Et Hps Hf Hi nd. unfold set_node. simpl fst. rewrite (holds_get _ _ _ _ _ _ Hh eq_refl).
  cbn [mbind outcome_bind nodes snd nextStatus next nodesInPage].
  destruct (Nat.ltb_spec (length filled) (length (filled ++ replicate 1 empty_node ++ [end_node]))) as [_|Hl];
    [|rewrite !length_app in Hl; simpl in Hl; lia].
  simpl replicate. simpl app. rewrite insert_at_length.
  eexists; split; [reflexivity|]. intros Hnd.
  eapply holds_set in Hh. change [@end_node M] with ([] ++ [@end_node M]) in Hh.
  assert (full_pages ps t ++ [(t, mk_page completed (Some s) (length filled + 1) ((filled ++ [nd]) ++ [end_node]))] =
            full_pages (ps ++ [(t, filled ++ [nd])]) s) as El.
  { rewrite full_pages_app. simpl. by rewrite length_app. }
  destruct Hh as (H1 & H2 & H3).
  rewrite (cons_middle _ (full_pages ps t)), app_assoc in H1, H2, H3.
  simpl app in H1, H2, H3. rewrite El in H1, H2, H3.
  eapply (Pages _ _ (ps ++ [(t, filled ++ [nd])]) s [] size spare i); try done.
  - etransitivity; [exact Ehp|]. by destruct ps as [|[]].
  - etransitivity; [exact Ehd|]. by destruct ps as [|[]].
  - apply Forall_app. split; [done|]. constructor; [|done]. simpl. split; [by destruct filled|apply Forall_app; auto].
  - destruct ps as [|[a ns] ps]; simpl in *; rewrite ?length_app; simpl; lia.
  - rewrite all_slots_new_page, all_slots_tail, drop_app_le by (by apply all_slots_length). done.
Qed.

Lemma same_cursors_trans Q1 Q2 Q3 : same_cursors Q1 Q2 -> same_cursors Q2 Q3 -> same_cursors Q1 Q3.
Proof. unfold same_cursors. intuition congruence. Qed.

Definition finished_page filled (s : nat) : iesqQNodePage_t M :=
  mk_page completed (Some s) (length filled + 1) (filled ++ replicate 1 empty_node ++ [end_node]).

Lemma reserve_next Q ps t filled s size i c :
  holds Q (full_pages ps t ++ (t, tail_page filled 1 (Some (s, size))) :: [(s, fresh_page size)]) -> (0 < size)%nat ->
  headPage Q = next_of ps t -> head Q = (next_of ps t, i) ->
  Forall (fun p => p.2 <> [] /\ Forall is_filled p.2) ps -> Forall is_filled filled -> cursor_ok i ps filled ->
  let Q1 := set_page (set_tail (s, 0%nat) Q) t (finished_page filled s) in
  read_node Q1 (t, length filled) = Ret empty_node /\
  exists Q2, iesq_appendPage mem totalSubsCount (set_counts c Q1) s = Ret Q2 /\
    reserved Q2 (drop i (all_slots ps t filled)) (t, length filled) /\
    rest Q2 = rest (set_counts c Q) /\ (allocs Q <= allocs Q2)%nat.
Proof.
  intros Hh Hz Ehp Ehd Hps Hf Hi Q1.
  assert (holds (set_tail (s, 0%nat) Q) (full_pages ps t ++ (t, tail_page filled 1 (Some (s, size))) :: [(s, fresh_page size)]))
    as Hh1 by exact Hh.
  apply (holds_set _ _ _ _ (finished_page filled s)) in Hh1. fold Q1 in Hh1. split.
  - unfold read_node. simpl fst. rewrite (holds_get _ _ _ _ _ _ Hh1 eq_refl). cbn [mbind outcome_bind nodes finished_page snd].
    by rewrite lookup_app_r, Nat.sub_diag by done.
  - assert (holds (set_counts c Q1) ((full_pages ps t ++ [(t, finished_page filled s)]) ++ [(s, fresh_page size)])) as Hh2
      by (rewrite <-app_assoc; exact Hh1).
    apply append_spec in Hh2 as (spare & Q2 & Ea & Hh2 & Hs & (Ch & Chp & Ct) & Er & Hal).
    exists Q2. split; [exact Ea|]. split; [|split; [exact Er|exact Hal]].
    rewrite <-app_assoc in Hh2. eapply reserved_next; [exact Hh2| |exact Hs|..]; try done.
    + etransitivity; [exact Chp|exact Ehp].
    + etransitivity; [exact Ch|exact Ehd].
Qed.

Lemma put_cursor Q live :
  pages Q live ->
  (exists Q', reserve_node mem totalSubsCount Q = Ret (ISMRC_AllocateError, None, Q') /\ mem (allocs Q) = false /\
     pages Q' live /\ rest Q' = rest Q) \/
  (exists np Q1 Q2, reserve_node mem totalSubsCount Q = Ret (OK, np, Q1) /\
     match np with Some p => iesq_appendPage mem totalSubsCount Q1 p | None => Ret Q1 end = Ret Q2 /\
     reserved Q2 live (tail Q) /\ rest Q2 = rest (set_counts (add_enqueue (counts Q)) Q) /\
     (allocs Q <= allocs Q2)%nat).
Proof.
  intros P. pose proof (pages_tail _ _ P) as Htl.
  destruct P as [ps t filled k spare i Eh Nd Ha Ehp Ehd Et Hk Hsp Hps Hf Hi ->].
  assert (holds Q (layout ps t filled k spare)) as Hh by done. unfold layout in Hh.
  pose proof (holds_get _ _ _ _ _ _ Hh eq_refl) as Hg. unfold reserve_node. rewrite Et in *. cbn [fst snd].
  destruct k as [|[|k]]; [lia| |].
  - assert (read_node Q (t, S (length filled)) = Ret end_node) as Hend.
    { unfold read_node. simpl fst. rewrite Hg, bind_ret. simpl nodes. simpl snd.
      rewrite lookup_app_r by lia. by replace (S (length filled) - length filled)%nat with 1%nat by lia. }
    unfold iesq_getPageFromEnd. rewrite Hend. cbn [mbind outcome_bind is_endpage end_node msg fst].
    destruct (move_spec Q _ t filled spare _ Hsp eq_refl Hh)
      as [(s & size & Q' & -> & Hh' & Hz & (Ch & Chp & _) & Er & Hal)|(Q' & -> & Hh' & Hm & (Ch & Chp & Ct) & Er & Hal)];
      cbn [mbind outcome_bind]; [right|left].
    + unfold set_nextStatus. change (get_page (set_tail (s, 0%nat) Q') t) with (get_page Q' t).
      rewrite (holds_get _ _ _ _ _ _ Hh' eq_refl). cbn [mbind outcome_bind].
      change (negb (OK =? OK)) with false. cbv iota.
      destruct (reserve_next Q' ps t filled s size i (add_enqueue (counts Q)) Hh' Hz) as (Hn & Q2 & Eap & Hr & Er2 & Hal2);
        [congruence..|done|done|done|].
      unfold finished_page in Hn, Eap. cbn [nextStatus next nodes nodesInPage tail_page fmap option_fmap option_map fst].
      rewrite Hn. cbn [mbind outcome_bind empty_node msg]. unfold rest in Er. injection Er as E1 E2 E3 E4 E5 E6.
      eexists _, _, Q2. split; [reflexivity|]. cbv iota. cbn [counts set_page set_heap set_tail]. rewrite E2.
      split; [exact Eap|]. split; [exact Hr|]. split; [|lia].
      rewrite Er2. unfold rest. simpl. by rewrite E1, E3, E4, E5, E6.
    + change (negb (ISMRC_AllocateError =? OK)) with true. cbv iota. exists Q'. split; [done|]. split; [done|].
      split; [|done]. destruct Hh' as (H1 & H2 & H3).
      eapply (Pages _ _ ps t filled 1 spare i); try done; congruence.
  - right. destruct (nodes (tail_page filled (S (S k)) spare) !! S (length filled)) as [nd|] eqn:E; cycle 1.
    { apply lookup_ge_None in E. simpl in E. rewrite length_app in E. simpl in E. lia. }
    assert (nd = empty_node) as ->.
    { simpl in E. rewrite lookup_app_r in E by lia. replace (S (length filled) - length filled)%nat with 1%nat in E by lia.
      by injection E. }
    erewrite read_node_in; [|by eapply heap_tail|exact E]. cbn [mbind outcome_bind is_endpage empty_node msg].
    change (negb (OK =? OK)) with false. cbv iota.
    change (read_node (set_tail (t, S (length filled)) Q) (t, length filled)) with (read_node Q (t, length filled)).
    rewrite Htl. cbn [mbind outcome_bind empty_node msg]. eexists None, _, _. split; [reflexivity|].
    split; [reflexivity|]. split; [|done]. by eapply (reserved_here _ ps t filled k spare i).
Qed.
End Put.
