(* ===== verification/SimpQueueOps.v ===== *)
(** * The operations of a simple queue on its messages

    The invariant of the whole queue (pages, number of messages, expiry data) and what
    getting, putting, expiring and reclaiming do to the slots. *)

From stdpp Require Import gmap.
From S2P Require Import Prelude MsgExpiry SimpQueue SimpQueuePages SimpQueuePut.
#[local] Open Scope Z_scope.

Section Ops.
Context {M : Type} (Header_Expiry : M -> Z) (mem : nat -> bool) (totalSubsCount : Z).
Implicit Types (Q : iesqQueue_t M) (n : node_ptr) (nd : iesqQNode_t M) (live : list (slot M)) (m : M).

(** The messages in slots, with their flags, and the details of those that expire. *)
Definition message (s : slot M) : option (M * Z) :=
  match msg s.2 with Msg m => Some (m, msgFlags s.2) | _ => None end.

Definition details_of n m : iemeBufferedMsgExpiryDetails_t node_ptr := mk_details (Some n) (Some n) (Header_Expiry m).

Definition expires (s : slot M) : option (iemeBufferedMsgExpiryDetails_t node_ptr) :=
  match msg s.2 with
  | Msg m => if Header_Expiry m =? 0 then None else Some (details_of s.1 m)
  | _ => None
  end.

Definition messages live : list (M * Z) := omap message live.
Definition expiring live : list (iemeBufferedMsgExpiryDetails_t node_ptr) := omap expires live.

(** [exact]: no message that expires was missed by the expiry data. *)
Record queue_ok (exact : bool) Q live : Prop := {
  ok_pages : pages Q live;
  ok_count : bufferedMsgs Q = Z.of_nat (length (messages live));
  ok_expiry : tracks exact (expiry Q) (expiring live)
}.

(** What getting does not touch. *)
Definition side Q := (counts Q, ReportedQueueFull Q, informOnEmpty Q, calls Q).

Lemma messages_cons s live :
  messages (s :: live) = match message s with Some x => x :: messages live | None => messages live end.
Proof. done. Qed.

Lemma expiring_cons s live :
  expiring (s :: live) = match expires s with Some x => x :: expiring live | None => expiring live end.
Proof. done. Qed.

Lemma messages_app live live' : messages (live ++ live') = messages live ++ messages live'.
Proof. apply omap_app. Qed.

Lemma expiring_app live live' : expiring (live ++ live') = expiring live ++ expiring live'.
Proof. apply omap_app. Qed.

Lemma expiring_length live : (length (expiring live) <= length (messages live))%nat.
Proof.
  induction live as [|[n nd] live IH]; [done|]. rewrite messages_cons, expiring_cons.
  unfold expires, message. destruct (msg _); [done..|]. destruct (Header_Expiry m =? 0); simpl; lia.
Qed.

Lemma expiring_id live x : x ∈ expiring live -> exists n, orderId x = Some n /\ qnode x = Some n /\ n ∈ live.*1.
Proof.
  intros (s & Hs & Hx)%list_elem_of_omap. exists s.1. unfold expires in Hx.
  destruct (msg s.2); simplify_eq. case_match; simplify_eq/=. split; [done|]. split; [done|]. by apply list_elem_of_fmap_2.
Qed.

Lemma expiring_nodup live : NoDup live.*1 -> NoDup (orderId <$> expiring live).
Proof.
  induction live as [|s live IH]; intros Nd; [constructor|]. apply NoDup_cons in Nd as [Hs Nd].
  rewrite expiring_cons. destruct (expires s) as [d|] eqn:E; [|by apply IH].
  rewrite fmap_cons. constructor; [|by apply IH]. intros (x & Ex & Hx)%list_elem_of_fmap.
  apply expiring_id in Hx as (n & En & _ & Hn). apply Hs. unfold expires in E.
  destruct (msg s.2); simplify_eq. case_match; simplify_eq/=. rewrite En in Ex. by simplify_eq.
Qed.

(** What the pages do not depend on. *)
Lemma pages_ext Q Q' live :
  heap Q' = heap Q -> head Q' = head Q -> headPage Q' = headPage Q -> tail Q' = tail Q -> (allocs Q <= allocs Q')%nat ->
  pages Q live -> pages Q' live.
Proof.
  intros E1 E2 E3 E4 Hle [ps t filled k spare i Eh Nd Ha Ehp Ehd Et Hk Hsp Hps Hf Hi Hl].
  eapply (Pages _ _ ps t filled k spare i); try done; try congruence.
  eapply Forall_impl; [exact Ha|]. simpl. lia.
Qed.

Lemma others_first (d : iemeBufferedMsgExpiryDetails_t node_ptr) n L :
  orderId d = Some n -> NoDup (orderId <$> d :: L) -> without n (d :: L) = L.
Proof.
  intros Hd [Hn _]%NoDup_cons. unfold without. rewrite filter_cons_False by (intros H; by apply H).
  apply filter_all, Forall_forall. intros x Hx E. apply Hn. rewrite Hd, <-E. by apply list_elem_of_fmap_2.
Qed.

Lemma remove_expiry_spec exact Q n m L :
  tracks exact (expiry Q) (details_of n m :: L) -> NoDup (orderId <$> details_of n m :: L) ->
  Z.of_nat (length L) < 2 ^ 63 - 1 ->
  exists x Q', remove_expiry mem Q n = Ret (set_expiry x Q') /\ tracks exact x L /\ (Q' = Q \/ Q' = inc_allocs Q).
Proof.
  intros T Nd Hl. unfold remove_expiry.
  destruct (remove_tracks exact (mem (allocs Q)) (expiry Q) n (details_of n m) _ T Nd) as (x & -> & Tx);
    [left|done|simpl length; lia|].
  rewrite (others_first (details_of n m) n L eq_refl Nd) in Tx. exists x, (alloc_expiry Q). split; [done|]. split; [done|].
  unfold alloc_expiry. case_match; auto.
Qed.

(** ** Getting *)

Definition small live : Prop := Z.of_nat (length (messages live)) < 2 ^ 31 - 1.

Lemma dec_buffered_spec Q k :
  bufferedMsgs Q = Z.of_nat (S k) -> Z.of_nat (S k) < 2 ^ 31 -> dec_buffered Q = Ret (set_buffered (Z.of_nat k) Q).
Proof.
  intros E Hk. unfold dec_buffered. rewrite E, wraps_small by (simpl Z.sub; lia).
  destruct (Z.gtb_spec (Z.of_nat (S k)) 0); [|lia]. do 2 f_equal. rewrite wrapu_small by lia. lia.
Qed.

(** The first slot goes; the rest of the queue stays. *)
Lemma take_slot exact Q n nd live :
  queue_ok exact Q ((n, nd) :: live) -> small ((n, nd) :: live) ->
  head Q = n /\ read_node Q n = Ret nd /\
  exists Q1, advance_head Q = Ret (true, Q1) /\ side Q1 = side Q /\ bufferedMsgs Q1 = bufferedMsgs Q /\ pages Q1 live /\
    match msg nd with
    | Msg m => exists Q2 Q3, (if negb (Header_Expiry m =? 0) then remove_expiry mem Q1 n else Ret Q1) = Ret Q2 /\
                 dec_buffered Q2 = Ret Q3 /\ queue_ok exact Q3 live /\ side Q3 = side Q
    | MESSAGE_STATUS_REMOVED => queue_ok exact Q1 live
    | _ => False
    end.
Proof.
  intros [P C T] Hs. pose proof (pages_head _ _ P) as [Hh _]. destruct n as [a x].
  destruct (pages_next _ _ 0 a x nd P eq_refl) as (Hn & Hf & _). split; [done|]. split; [done|].
  pose proof (pages_nodup _ _ P) as (Nd & _ & _). pose proof (expiring_nodup _ Nd) as Nx.
  destruct (pages_advance _ _ _ P) as (h & p & n & -> & P1).
  set (Q1 := set_heap h (set_head p n Q)) in *. exists Q1. do 4 (split; [done|]).
  assert (expiry Q1 = expiry Q) as Ex by done. assert (bufferedMsgs Q1 = bufferedMsgs Q) as Eb by done.
  assert (side Q1 = side Q) as Es by done. clearbody Q1. unfold small in Hs.
  rewrite messages_cons, expiring_cons in *. unfold message, expires in *. cbn [snd fst] in *.
  unfold is_filled in Hf. destruct (msg nd) as [| | |m]; [done..| |].
  - split; [done|congruence|congruence].
  - cbn [length] in *. destruct (Z.eqb_spec (Header_Expiry m) 0); cbn [negb].
    + exists Q1, (set_buffered (Z.of_nat (length (messages live))) Q1). split; [done|].
      split; [apply dec_buffered_spec; [congruence|lia]|]. split; [split; [by apply (pages_ext Q1)|done|by rewrite <-Ex in T]|done].
    + pose proof (expiring_length live). rewrite <-Ex in T.
      destruct (remove_expiry_spec exact Q1 (a, x) m _ T Nx) as (y & Q1' & -> & Ty & Hq); [lia|].
      exists (set_expiry y Q1'), (set_buffered (Z.of_nat (length (messages live))) (set_expiry y Q1')). split; [done|].
      split; [apply dec_buffered_spec; [by destruct Hq as [-> | ->]; simpl; rewrite Eb|lia]|].
      split; [split; [|done|done]|by destruct Hq as [-> | ->]].
      apply (pages_ext Q1); [by destruct Hq as [-> | ->]..|destruct Hq as [-> | ->]; simpl; lia|done].
Qed.

Lemma empty_slot Q : pages Q [] -> read_node Q (head Q) = Ret empty_node.
Proof. intros P. pose proof (pages_head _ _ P) as [-> _]. unfold ptr_at. simpl. by eapply pages_tail. Qed.

Lemma small_cons s live : small (s :: live) -> small live.
Proof. unfold small. rewrite messages_cons. destruct (message s); simpl; lia. Qed.

Lemma get_spec exact live : forall fuel Q,
  queue_ok exact Q live -> small live -> (length live <= fuel)%nat ->
  match messages live with
  | [] => exists Q', iesq_getMessage Header_Expiry mem fuel Q = Ret (None, Q') /\ queue_ok exact Q' [] /\ side Q' = side Q
  | x :: q => exists Q' live', iesq_getMessage Header_Expiry mem fuel Q = Ret (Some x, Q') /\
      queue_ok exact Q' live' /\ messages live' = q /\ side Q' = side Q /\ (length live' < length live)%nat
  end.
Proof.
  induction live as [|[n nd] live IH]; intros fuel Q Hok Hs Hf.
  - exists Q. split; [|done]. destruct Hok as [P _ _]. pose proof (empty_slot Q P) as Hn.
    destruct fuel; cbn [iesq_getMessage]; rewrite Hn; done.
  - destruct (take_slot _ _ _ _ _ Hok Hs) as (Hh & Hn & Q1 & Ea & Es & _ & _ & Hm).
    destruct fuel as [|fuel]; [simpl in Hf; lia|]. cbn [iesq_getMessage]. rewrite Hh, Hn. cbn [mbind outcome_bind].
    rewrite messages_cons. unfold message. cbn [snd]. destruct (msg nd) as [| | |m]; [done..| |].
    + rewrite Ea. cbn [mbind outcome_bind]. apply small_cons in Hs. simpl in Hf.
      specialize (IH fuel Q1 Hm Hs ltac:(lia)). destruct (messages live) as [|x q].
      * destruct IH as (Q' & -> & ? & E). exists Q'. by rewrite E.
      * destruct IH as (Q' & live' & -> & ? & ? & E & ?). exists Q', live'. rewrite E. do 4 (split; [done|]). simpl. lia.
    + rewrite Ea. cbn [mbind outcome_bind]. destruct Hm as (Q2 & Q3 & -> & E3 & H3 & Es3). cbn [mbind outcome_bind].
      rewrite E3. cbn [mbind outcome_bind]. exists Q3, live. do 4 (split; [done|]). simpl. lia.
Qed.

Lemma scan_cursor_spec exact live : forall fuel Q,
  queue_ok exact Q live -> small live -> (length live <= fuel)%nat ->
  exists Q' live', iesq_scanGetCursor fuel Q = Ret Q' /\ queue_ok exact Q' live' /\ messages live' = messages live /\
    expiring live' = expiring live /\ side Q' = side Q /\ (length live' <= length live)%nat.
Proof.
  induction live as [|[n nd] live IH]; intros fuel Q Hok Hs Hf.
  - exists Q, []. split; [|done]. destruct Hok as [P _ _]. pose proof (empty_slot Q P) as Hn.
    destruct fuel; cbn [iesq_scanGetCursor]; rewrite Hn; done.
  - destruct (take_slot _ _ _ _ _ Hok Hs) as (Hh & Hn & Q1 & Ea & Es & _ & _ & Hm).
    destruct fuel as [|fuel]; [simpl in Hf; lia|]. cbn [iesq_scanGetCursor]. rewrite Hh, Hn. cbn [mbind outcome_bind].
    destruct (msg nd) as [| | |m] eqn:Em; [done..| |].
    + rewrite Ea. cbn [mbind outcome_bind]. apply small_cons in Hs. simpl in Hf.
      destruct (IH fuel Q1 Hm Hs ltac:(lia)) as (Q' & live' & -> & ? & Ec & Ex & E & Hl).
      exists Q', live'. rewrite E, Ec, Ex, messages_cons, expiring_cons. unfold message, expires. cbn [snd]. rewrite Em.
      do 5 (split; [done|]). simpl. lia.
    + by exists Q, ((n, nd) :: live).
Qed.

(** ** Putting *)

Lemma set_node_again Q n nd nd' h h' Q' :
  set_node Q n nd = Ret (set_heap h Q) -> set_node Q n nd' = Ret (set_heap h' Q) -> heap Q' = h ->
  set_node Q' n nd' = Ret (set_heap h' Q').
Proof.
  unfold set_node, get_page. intros H1 H2 E. rewrite E. destruct (heap Q !! n.1) as [pg|] eqn:Ep; [|done].
  cbn [mbind outcome_bind] in *. destruct (Nat.ltb_spec n.2 (length (nodes pg))) as [Hl|]; [|done].
  unfold set_page in *. apply ret_inj in H1, H2. assert (h = heap (set_heap h Q)) as Eh by done. rewrite <-H1 in Eh.
  assert (h' = heap (set_heap h' Q)) as Eh' by done. rewrite <-H2 in Eh'. cbn [heap set_heap] in Eh, Eh'.
  rewrite Eh, lookup_insert_eq. cbn [nodes nextStatus next nodesInPage mbind outcome_bind]. rewrite length_insert.
  destruct (Nat.ltb_spec n.2 (length (nodes pg))); [|lia]. f_equal.
  rewrite E, Eh, Eh', insert_insert_eq, list_insert_insert_eq. done.
Qed.

Lemma add_expiry_spec exact Q n m L :
  tracks exact (expiry Q) L -> orderId (details_of n m) ∉ orderId <$> L -> Z.of_nat (length L) < 2 ^ 63 - 1 ->
  exists x Q' exact', add_expiry Header_Expiry mem Q n m = Ret (set_expiry x Q') /\
    tracks exact' x (details_of n m :: L) /\ (Q' = Q \/ Q' = inc_allocs Q) /\
    (exact' = exact \/ exists a, mem a = false).
Proof.
  intros T Hn Hl. unfold add_expiry. fold (details_of n m).
  destruct (add_tracks exact (mem (allocs Q)) (expiry Q) (details_of n m) L T Hn Hl) as (x & -> & Tx).
  exists x, (alloc_expiry Q). eexists. split; [done|]. split; [exact Tx|]. split.
  - unfold alloc_expiry. case_match; auto.
  - destruct (mem (allocs Q)) eqn:Em; [left; by rewrite andb_true_r|right; by exists (allocs Q)].
Qed.

(** What adding the expiry data leaves alone. *)
Definition only_expiry Q Q' : Prop :=
  heap Q' = heap Q /\ head Q' = head Q /\ headPage Q' = headPage Q /\ tail Q' = tail Q /\ (allocs Q <= allocs Q')%nat /\
  bufferedMsgs Q' = bufferedMsgs Q /\ side Q' = side Q.

Lemma add_expiry_or_not exact Q n m live flags :
  tracks exact (expiry Q) (expiring live) -> n ∉ live.*1 -> small live ->
  exists Q' exact', (if negb (Header_Expiry m =? 0) then add_expiry Header_Expiry mem Q n m else Ret Q) = Ret Q' /\
    tracks exact' (expiry Q') (expiring live ++ expiring [(n, mk_node flags (Msg m))]) /\
    (exact' = exact \/ exists a, mem a = false) /\ only_expiry Q Q'.
Proof.
  intros T Hn Hs. 
  assert (expiring [(n, mk_node flags (Msg m))] = if Header_Expiry m =? 0 then [] else [details_of n m]) as ->
    by (unfold expiring, expires; simpl; by destruct (_ =? _)).
  destruct (Z.eqb_spec (Header_Expiry m) 0); cbn [negb].
  - exists Q, exact. rewrite app_nil_r. do 2 (split; [done|]). split; [by left|]. by repeat split.
  - destruct (add_expiry_spec exact Q n m (expiring live) T) as (x & Q' & exact' & -> & Tx & Hq & He).
    + intros (y & Ey & (k & Ek & _ & Hk)%expiring_id)%list_elem_of_fmap. rewrite Ek in Ey. by injection Ey as <-.
    + unfold small in Hs. pose proof (expiring_length live). lia.
    + exists (set_expiry x Q'), exact'. split; [done|].
      split; [by rewrite (Permutation_app_comm (expiring live))|]. split; [done|].
      destruct Hq as [-> | ->]; repeat split; simpl; lia.
Qed.

Lemma set_hwm_if (b : bool) v (Q : iesqQueue_t M) :
  (if b then set_counts (set_hwm v (counts Q)) Q else Q) =
    set_counts (set_hwm (if b then v else bufferedMsgsHWM (counts Q)) (counts Q)) Q.
Proof. destruct b; [done|]. by destruct Q as [? ? ? ? ? ? [] ? ? ? ?]. Qed.

(** A put adds a slot at the end, or finds no memory and changes nothing. *)
Lemma put_slot_spec exact Q live m flags inherit :
  queue_ok exact Q live -> small live ->
  (exists Q', put_node Header_Expiry mem totalSubsCount Q m flags inherit = Ret (ISMRC_AllocateError, Q') /\
     mem (allocs Q) = false /\ queue_ok exact Q' live /\
     side Q' = side (if inherit then Q else emit (releaseMessage m) Q)) \/
  (exists Q' exact' n hwm, put_node Header_Expiry mem totalSubsCount Q m flags inherit = Ret (OK, Q') /\
     queue_ok exact' Q' (live ++ [(n, mk_node flags (Msg m))]) /\ (exact' = exact \/ exists a, mem a = false) /\
     side Q' = side (set_counts (set_hwm hwm (add_enqueue (counts Q))) Q)).
Proof.
  intros [P C T] Hs. pose proof (pages_nodup _ _ P) as (_ & Htl & _). unfold put_node.
  destruct (put_cursor mem totalSubsCount Q live P) as
    [(Q' & -> & Hm & P' & Er)|(np & Q1 & Q2 & -> & Eap & Hr & Er & Hal)]; cbn [mbind outcome_bind]; [left|right].
  - change (negb (ISMRC_AllocateError =? OK)) with true. cbv iota. unfold rest in Er. injection Er as E1 E2 E3 E4 E5 E6.
    eexists. split; [reflexivity|]. split; [done|].
    split; [|destruct inherit; unfold side; simpl; congruence].
    split; [destruct inherit; [done|by apply (pages_ext Q')]|destruct inherit; simpl; congruence|].
    destruct inherit; simpl; by rewrite E5.
  - change (negb (OK =? OK)) with false. cbv iota. rewrite Eap. cbn [mbind outcome_bind].
    destruct (Hr (mk_node flags MESSAGE_STATUS_EMPTY)) as (h1 & Es1 & _).
    destruct (Hr (mk_node flags (Msg m))) as (h2 & Es2 & P2). specialize (P2 I).
    rewrite Es1. cbn [mbind outcome_bind]. unfold rest in Er. injection Er as E1 E2 E3 E4 E5 E6.
    set (Q3 := set_buffered _ (set_heap h1 Q2)).
    assert (bufferedMsgs Q3 = Z.of_nat (S (length (messages live)))) as Eb.
    { simpl. rewrite E1, C. unfold small in Hs. rewrite wrapu_small by lia. lia. }
    destruct (add_expiry_or_not exact Q3 (tail Q) m live flags) as (Q4 & exact' & -> & T4 & Hex & (H1 & H2 & H3 & H4 & H5 & H6 & H7));
      [by simpl; rewrite E5|done|done|]. cbn [mbind outcome_bind].
    rewrite (set_node_again Q2 (tail Q) _ _ h1 h2 Q4 Es1 Es2) by (by rewrite H1).
    cbn [mbind outcome_bind]. rewrite set_hwm_if. eexists _, exact', (tail Q), _. split; [reflexivity|].
    split; [|split; [done|]]; cycle 1.
    { injection H7 as F1 F2 F3 F4. unfold side. simpl in *. by rewrite F1, E2, F2, E3, F3, E4, F4, E6. }
    split.
    + by apply (pages_ext (set_heap h2 Q2)).
    + rewrite messages_app, length_app. etransitivity; [exact H6|]. rewrite Eb. simpl. lia.
    + rewrite expiring_app. exact T4.
Qed.

(** ** Expiring *)

(** What expiring the messages [ms], in this order, does beside. *)
Definition expired_side Q Q' (ms : list (M * Z)) : Prop :=
  ReportedQueueFull Q' = ReportedQueueFull Q /\ informOnEmpty Q' = informOnEmpty Q /\
  calls Q' = calls Q ++ (releaseMessage <$> ms.*1) /\ counts Q' = Nat.iter (length ms) add_expired (counts Q).

Lemma expired_side_refl Q Q' : side Q' = side Q -> expired_side Q Q' [].
Proof. intros [= E1 E2 E3 E4]. unfold expired_side. simpl. rewrite app_nil_r. auto. Qed.

Lemma expired_side_trans Q1 Q2 Q3 ms ms' :
  expired_side Q1 Q2 ms -> expired_side Q2 Q3 ms' -> expired_side Q1 Q3 (ms ++ ms').
Proof.
  intros (A1 & A2 & A3 & A4) (B1 & B2 & B3 & B4). unfold expired_side.
  rewrite !fmap_app, length_app, B1, B2, B3, B4, A1, A2, A3, A4, <-app_assoc. repeat split.
  rewrite Nat.add_comm. by rewrite Nat.iter_add.
Qed.

Definition is_expired (now : Z) (x : M * Z) : Prop := Header_Expiry x.1 <> 0 /\ Header_Expiry x.1 <= now.

Definition removed nd : iesqQNode_t M := mk_node (msgFlags nd) MESSAGE_STATUS_REMOVED.

Lemma expire_spec Q l1 n nd m l2 :
  pages Q (l1 ++ (n, nd) :: l2) -> msg nd = Msg m ->
  bufferedMsgs Q = Z.of_nat (length (messages (l1 ++ (n, nd) :: l2))) -> small (l1 ++ (n, nd) :: l2) ->
  exists Q', iesq_expireNode Q n = Ret Q' /\ pages Q' (l1 ++ (n, removed nd) :: l2) /\
    bufferedMsgs Q' = Z.of_nat (length (messages (l1 ++ (n, removed nd) :: l2))) /\
    expiry Q' = expiry Q /\ tail Q' = tail Q /\ head Q' = head Q /\ expired_side Q Q' [(m, msgFlags nd)].
Proof.
  intros P Em C Hs. destruct n as [a x].
  assert ((l1 ++ ((a, x), nd) :: l2) !! length l1 = Some ((a, x), nd)) as Hj by (by apply list_lookup_middle).
  destruct (pages_next _ _ _ _ _ _ P Hj) as (Hn & _ & _). unfold iesq_expireNode. rewrite Hn. cbn [mbind outcome_bind].
  rewrite Em. fold (removed nd).
  assert (pages (emit (releaseMessage m) Q) (l1 ++ ((a, x), nd) :: l2)) as P1 by (by apply (pages_ext Q)).
  destruct (pages_set _ _ _ _ _ _ (removed nd) P1 Hj I) as (h & -> & P2). cbn [mbind outcome_bind].
  rewrite insert_app_r_alt, Nat.sub_diag in P2 by done. cbn [insert list_insert] in P2.
  rewrite !messages_app, !length_app, !messages_cons in *. unfold small in Hs.
  rewrite messages_app, messages_cons, length_app in Hs. unfold message in *. cbn [snd msg removed] in *. rewrite Em in *.
  cbn [length] in *. erewrite dec_buffered_spec; [|simpl; rewrite C; f_equal; apply Nat.add_succ_r|lia].
  cbn [mbind outcome_bind]. eexists. split; [reflexivity|].
  split; [by apply (pages_ext _ _ _) with (6 := P2)|]. by repeat split.
Qed.

(** The node after a slot is the next slot, or leads there. *)
Lemma scan_on Q live j a x nd fuel nowExpire :
  pages Q live -> live !! j = Some ((a, x), nd) ->
  exists fuel', (fuel <= fuel')%nat /\
    expiry_scan_loop Header_Expiry mem totalSubsCount (S fuel) nowExpire (a, S x) Q =
      expiry_scan_loop Header_Expiry mem totalSubsCount fuel' nowExpire (ptr_at live (tail Q) (S j)) Q.
Proof.
  intros P Hj. destruct (pages_next _ _ _ _ _ _ P Hj) as (_ & _ & [(-> & _)|(Hn & pg & a' & Hpg & Hst & Hnx & ->)]).
  - exists (S fuel). split; [lia|done].
  - exists fuel. split; [done|]. cbn [expiry_scan_loop]. unfold iesq_getPageFromEnd, iesq_moveToNewPage, iesq_getPageFromEnd.
    rewrite Hn. cbn [mbind outcome_bind end_node msg is_endpage fst]. unfold get_page. rewrite Hpg.
    cbn [mbind outcome_bind]. rewrite Hst. by rewrite Hnx.
Qed.

Definition stays (nowExpire : Z) (x : M * Z) : Prop := ~ (Header_Expiry x.1 <> 0 /\ Header_Expiry x.1 < nowExpire).

(** The state during the scan: the slots [dn] have been seen. *)
Record scanning Q dn todo : Prop := {
  sc_pages : pages Q (dn ++ todo);
  sc_count : bufferedMsgs Q = Z.of_nat (length (messages (dn ++ todo)));
  sc_expiry : exists d, QExpiryData (expiry Q) = Some d /\ tracked true d (expiring dn)
}.

Lemma scanning_on Q dn n nd todo d :
  pages Q (dn ++ (n, nd) :: todo) -> bufferedMsgs Q = Z.of_nat (length (messages (dn ++ (n, nd) :: todo))) ->
  QExpiryData (expiry Q) = Some d -> tracked true d (expiring dn ++ option_list (expires (n, nd))) ->
  scanning Q (dn ++ [(n, nd)]) todo.
Proof.
  intros P C Ed Td. split; [by rewrite <-app_assoc..|]. exists d. split; [done|]. rewrite expiring_app, expiring_cons.
  by destruct (expires (n, nd)).
Qed.

(** What a slot contributes to the messages that stay and to those that go. *)
Lemma slot_kept now n nd :
  (forall x, message (n, nd) = Some x -> stays now x) ->
  messages [(n, nd)] = filter (stays now) (messages [(n, nd)]) /\ [] = filter (fun x => ~ stays now x) (messages [(n, nd)]).
Proof.
  intros H. rewrite messages_cons. destruct (message (n, nd)) as [x|]; [|done]. specialize (H x eq_refl).
  rewrite filter_cons_True by done. rewrite filter_cons_False by (intros Hn; by apply Hn). done.
Qed.

Lemma slot_removed now n nd x :
  message (n, nd) = Some x -> ~ stays now x ->
  messages [(n, removed nd)] = filter (stays now) (messages [(n, nd)]) /\
  [x] = filter (fun x => ~ stays now x) (messages [(n, nd)]).
Proof. intros E H. rewrite !messages_cons, E. by rewrite filter_cons_False, filter_cons_True by done. Qed.

Definition scan_action Q n nd (nowExpire : Z) : outcome (iesqQueue_t M) :=
  match msg nd with
  | Msg m =>
      if negb (Header_Expiry m =? 0) then
        if Header_Expiry m <? nowExpire then iesq_expireNode Q n
        else x ← ieme_addMessageExpiryPreLocked (expiry Q) (details_of n m) true; Ret (set_expiry x Q)
      else Ret Q
  | _ => Ret Q
  end.

(** One slot of the scan. *)
Lemma scan_slot Q dn n nd todo nowExpire :
  scanning Q dn ((n, nd) :: todo) -> small (dn ++ (n, nd) :: todo) ->
  exists Q' nd' ms, scan_action Q n nd nowExpire = Ret Q' /\
    scanning Q' (dn ++ [(n, nd')]) todo /\ onReaperList (expiry Q') = onReaperList (expiry Q) /\
    tail Q' = tail Q /\ head Q' = head Q /\ expired_side Q Q' ms /\
    (messages [(n, nd')] = filter (stays nowExpire) (messages [(n, nd)]) /\
     ms = filter (fun x => ~ stays nowExpire x) (messages [(n, nd)])).
Proof.
  intros [P C (d & Ed & Td)] Hs. destruct (pages_nodup _ _ P) as (Nd & _ & Hf).
  rewrite fmap_app in Nd. apply NoDup_app in Nd as (_ & Nd & _). apply Forall_app in Hf as [_ [Hf _]%Forall_cons].
  pose proof (slot_kept nowExpire n nd) as Hk. pose proof (slot_removed nowExpire n nd) as Hr.
  unfold scan_action, message in *. cbn [snd] in *. unfold is_filled in Hf.
  assert (option_list (expires (n, nd)) = [] -> scanning Q (dn ++ [(n, nd)]) todo) as Hsame.
  { intros E. apply (scanning_on _ _ _ _ _ d); [done..|]. by rewrite E, app_nil_r. }
  unfold expires in Hsame. cbn [snd] in *. destruct (msg nd) as [| | |m] eqn:Em; [done..| |].
  - exists Q, nd, []. split; [done|]. split; [by apply Hsame|]. do 3 (split; [done|]).
    split; [by apply expired_side_refl|]. by apply Hk.
  - destruct (Z.eqb_spec (Header_Expiry m) 0); cbn [negb]; [|destruct (Z.ltb_spec (Header_Expiry m) nowExpire)].
    + exists Q, nd, []. split; [done|]. split; [by apply Hsame|]. do 3 (split; [done|]).
      split; [by apply expired_side_refl|]. apply Hk. intros ? [= <-]. unfold stays. simpl. lia.
    + destruct (expire_spec Q dn n nd m todo P Em C Hs) as (Q' & -> & P' & C' & Ex & Et & Eh & Es).
      exists Q', (removed nd), [(m, msgFlags nd)]. split; [done|].
      split; [apply (scanning_on _ _ _ _ _ d); [done|done|congruence|]; unfold expires; simpl; by rewrite app_nil_r|].
      rewrite Ex. do 4 (split; [done|]). apply Hr; [done|]. unfold stays. simpl. lia.
    + unfold ieme_addMessageExpiryPreLocked. rewrite Ed.
      destruct (add_tracked true (expiry Q) d (details_of n m) true (expiring dn) Td) as (d' & -> & Td').
      * intros (y & Ey & (k & Ek & _ & Hk')%expiring_id)%list_elem_of_fmap. rewrite Ek in Ey. injection Ey as <-.
        apply (Nd n Hk'). left.
      * unfold small in Hs. rewrite messages_app, length_app in Hs. pose proof (expiring_length dn). lia.
      * rewrite andb_false_r. cbn [mbind outcome_bind]. eexists _, nd, []. split; [reflexivity|].
        split; [apply (scanning_on _ _ _ _ _ d'); [by apply (pages_ext Q)|done|done|]|].
        { unfold expires. cbn [snd fst]. rewrite Em. destruct (Z.eqb_spec (Header_Expiry m) 0); [done|].
          by rewrite (Permutation_app_comm (expiring dn)). }
        do 3 (split; [done|]). split; [by apply expired_side_refl|]. apply Hk. intros ? [= <-]. unfold stays. simpl. lia.
Qed.

Lemma scan_loop_unfold fuel nowExpire n nd Q :
  read_node Q n = Ret nd -> is_filled nd ->
  expiry_scan_loop Header_Expiry mem totalSubsCount (S fuel) nowExpire n Q =
    (Q ← scan_action Q n nd nowExpire; expiry_scan_loop Header_Expiry mem totalSubsCount fuel nowExpire (n.1, S n.2) Q).
Proof.
  intros Hn Hf. cbn [expiry_scan_loop]. rewrite Hn. cbn [mbind outcome_bind]. unfold is_filled in Hf. unfold scan_action.
  destruct (msg nd); done.
Qed.

Lemma small_middle dn n nd nd' todo :
  (length (messages [(n, nd')]) <= length (messages [(n, nd)]))%nat -> small (dn ++ (n, nd) :: todo) ->
  small ((dn ++ [(n, nd')]) ++ todo).
Proof.
  unfold small. rewrite <-app_assoc. change ([(n, nd')] ++ todo) with ((n, nd') :: todo).
  rewrite !messages_app, !length_app, !messages_cons. unfold message. cbn [snd].
  destruct (msg nd), (msg nd'); simpl; lia.
Qed.

(** The whole scan. *)
Lemma scan_loop_spec nowExpire todo : forall dn Q fuel,
  scanning Q dn todo -> small (dn ++ todo) -> (2 * length todo + 1 <= fuel)%nat ->
  exists Q' todo' ms,
    expiry_scan_loop Header_Expiry mem totalSubsCount fuel nowExpire (ptr_at (dn ++ todo) (tail Q) (length dn)) Q = Ret Q' /\
    scanning Q' (dn ++ todo') [] /\ onReaperList (expiry Q') = onReaperList (expiry Q) /\ expired_side Q Q' ms /\
    messages todo' = filter (stays nowExpire) (messages todo) /\ ms = filter (fun x => ~ stays nowExpire x) (messages todo) /\
    length todo' = length todo.
Proof.
  induction todo as [|[n nd] todo IH]; intros dn Q fuel Hsc Hs Hfu.
  - exists Q, [], []. rewrite !app_nil_r in *. unfold ptr_at. rewrite lookup_ge_None_2 by done.
    destruct fuel; [lia|]. cbn [expiry_scan_loop]. destruct Hsc as [P C T]. rewrite app_nil_r in *. erewrite pages_tail by done.
    split; [done|]. split; [split; by rewrite ?app_nil_r|]. split; [done|]. split; [by apply expired_side_refl|]. done.
  - destruct (scan_slot Q dn n nd todo nowExpire Hsc Hs) as (Q1 & nd1 & ms1 & Ea & Hsc1 & El & Et & _ & Es & Ec1 & Em1).
    assert ((dn ++ (n, nd) :: todo) !! length dn = Some (n, nd)) as Hj by (by apply list_lookup_middle).
    assert (ptr_at (dn ++ (n, nd) :: todo) (tail Q) (length dn) = n) as -> by (unfold ptr_at; by rewrite Hj).
    destruct n as [a x]. destruct (pages_next _ _ _ _ _ _ (sc_pages _ _ _ Hsc) Hj) as (Hn & Hf & _).
    destruct fuel as [|[|fuel]]; [simpl in Hfu; lia..|]. rewrite (scan_loop_unfold _ _ _ nd) by done. rewrite Ea.
    cbn [mbind outcome_bind fst snd].
    assert (((dn ++ [((a, x), nd1)]) ++ todo) !! length dn = Some ((a, x), nd1)) as Hj1.
    { rewrite <-app_assoc. by apply list_lookup_middle. }
    destruct (scan_on Q1 _ _ _ _ _ fuel nowExpire (sc_pages _ _ _ Hsc1) Hj1) as (fuel' & Hle & ->).
    replace (S (length dn)) with (length (dn ++ [((a, x), nd1)])) by (rewrite length_app; simpl; lia).
    destruct (IH (dn ++ [((a, x), nd1)]) Q1 fuel' Hsc1) as (Q' & todo' & ms & E & Hsc' & El' & Es' & Ec' & Em' & Hl').
    + apply (small_middle dn (a, x) nd); [|done]. rewrite Ec1. apply length_filter.
    + simpl in Hfu. lia.
    + exists Q', (((a, x), nd1) :: todo'), (ms1 ++ ms). split; [exact E|].
      split; [by rewrite <-app_assoc in Hsc'|]. split; [congruence|].
      split; [by eapply expired_side_trans|].
      change (((a, x), nd1) :: todo') with ([((a, x), nd1)] ++ todo').
      change (((a, x), nd) :: todo) with ([((a, x), nd)] ++ todo).
      rewrite !messages_app, !filter_app, Ec1, Ec', Em1, Em'. simpl. by rewrite Hl'.
Qed.

(** ** The array of the expiry data *)

(** A message of the expiry data is in a slot; removing it there. *)
Lemma expiring_slot live x :
  x ∈ expiring live ->
  exists l1 n nd l2 m, live = l1 ++ (n, nd) :: l2 /\ msg nd = Msg m /\ x = details_of n m /\ Header_Expiry m <> 0.
Proof.
  intros ([n nd] & Hs & Hx)%list_elem_of_omap. apply list_elem_of_split in Hs as (l1 & l2 & ->).
  unfold expires in Hx. cbn [snd fst] in Hx. destruct (msg nd) as [| | |m] eqn:Em; simplify_eq.
  destruct (Z.eqb_spec (Header_Expiry m) 0); simplify_eq. by exists l1, n, nd, l2, m.
Qed.

Lemma expiring_removed l1 n nd l2 m :
  NoDup (l1 ++ (n, nd) :: l2).*1 -> msg nd = Msg m -> Header_Expiry m <> 0 ->
  expiring (l1 ++ (n, removed nd) :: l2) = without n (expiring (l1 ++ (n, nd) :: l2)).
Proof.
  intros Nd Em Hz. pose proof (expiring_nodup _ Nd) as Nx. rewrite !expiring_app, !expiring_cons in *.
  unfold expires in *. cbn [snd fst msg removed] in *. rewrite Em in *. destruct (Z.eqb_spec (Header_Expiry m) 0); [done|].
  rewrite fmap_app, fmap_cons in Nx. apply NoDup_app in Nx as (_ & N1 & [N2 _]%NoDup_cons).
  unfold without. rewrite filter_app, filter_cons_False by (intros H; by apply H).
  rewrite !filter_all; [done| |].
  - apply Forall_forall. intros y Hy Ey. apply N2. simpl orderId. rewrite <-Ey. by apply list_elem_of_fmap_2.
  - apply Forall_forall. intros y Hy Ey. apply (N1 (Some n)); [|left]. rewrite <-Ey. by apply list_elem_of_fmap_2.
Qed.

(** What expiring does to the messages: [ms] go, the others stay in order. *)
Record reaped (nowExpire : Z) live live' (ms : list (M * Z)) : Prop := {
  re_sub : messages live' `sublist_of` messages live;
  re_perm : messages live ≡ₚ messages live' ++ ms;
  re_due : Forall (is_expired nowExpire) ms;
  re_length : length live' = length live
}.

Lemma reaped_refl nowExpire live : reaped nowExpire live live [].
Proof. split; [done|by rewrite app_nil_r|done|done]. Qed.

Lemma reaped_trans nowExpire live1 live2 live3 ms ms' :
  reaped nowExpire live1 live2 ms -> reaped nowExpire live2 live3 ms' -> reaped nowExpire live1 live3 (ms ++ ms').
Proof.
  intros [S1 P1 D1 L1] [S2 P2 D2 L2]. split; [by etransitivity| |by apply Forall_app|congruence].
  rewrite P1, P2, <-app_assoc. by rewrite (Permutation_app_comm ms' ms).
Qed.

Lemma reaped_small nowExpire live live' ms : reaped nowExpire live live' ms -> small live -> small live'.
Proof. intros [_ P _ _]. unfold small. rewrite P, length_app. lia. Qed.

Lemma reaped_one nowExpire l1 n nd l2 m :
  msg nd = Msg m -> Header_Expiry m <> 0 -> Header_Expiry m <= nowExpire ->
  reaped nowExpire (l1 ++ (n, nd) :: l2) (l1 ++ (n, removed nd) :: l2) [(m, msgFlags nd)].
Proof.
  intros Em Hz Hn. split.
  - rewrite !messages_app, !messages_cons. unfold message. cbn [snd msg removed]. rewrite Em.
    apply sublist_app; [done|]. by apply sublist_cons.
  - rewrite !messages_app, !messages_cons. unfold message. cbn [snd msg removed]. rewrite Em.
    rewrite <-app_assoc. by rewrite (Permutation_app_comm _ [_]).
  - constructor; [|done]. by split.
  - by rewrite !length_app.
Qed.

(** The pages and the number of messages, without the expiry data. *)
Definition pages_ok Q live : Prop := pages Q live /\ bufferedMsgs Q = Z.of_nat (length (messages live)).

(** The entries left from the i-th on, moved to the front. *)
Lemma moved_entries (d : iemeQueueExpiryData_t node_ptr) i es :
  array_ok d -> (i + length es)%nat = messagesInArray d -> drop i (in_array d) = es ->
  exists a, memmove 0 i (messagesInArray d - i) (earliestExpiryMessages d) = Ret a /\
    array_ok (mk_expiry_data (messagesWithExpiry d) (messagesInArray d - i) a) /\
    in_array (mk_expiry_data (messagesWithExpiry d) (messagesInArray d - i) a) = es.
Proof.
  intros [La Ln] Hl He. unfold memmove, array_ok, in_array in *. cbn [messagesInArray earliestExpiryMessages].
  destruct (Nat.leb_spec (0 + (messagesInArray d - i)) (length (earliestExpiryMessages d))); [|lia].
  destruct (Nat.leb_spec (i + (messagesInArray d - i)) (length (earliestExpiryMessages d))); [|lia].
  eexists. split; [reflexivity|]. rewrite <-He, skipn_firstn_comm.
  assert (length (take (messagesInArray d - i) (drop i (earliestExpiryMessages d))) = messagesInArray d - i)%nat as Lt
    by (rewrite length_take, length_drop; lia).
  split; [split; [|lia]|].
  - simpl. rewrite length_app, Lt, length_drop. lia.
  - simpl. by rewrite take_app_length' by done.
Qed.

Lemma reap_array_spec exact nowExpire es : forall i d Q live,
  pages_ok Q live -> small live -> array_ok d -> (i + length es)%nat = messagesInArray d -> drop i (in_array d) = es ->
  pending exact (messagesWithExpiry d) es (expiring live) ->
  exists b d' Q' live' ms, reap_array nowExpire es i d Q = Ret (b, d', Q') /\ pages_ok Q' live' /\
    expiry Q' = expiry Q /\ expired_side Q Q' ms /\ reaped nowExpire live live' ms /\
    (b = true -> tracked exact d' (expiring live') /\
       (exact = true -> forall x, x ∈ expiring live' -> nowExpire < Expiry x)).
Proof.
  induction es as [|x es IH]; intros i d Q live [P C] Hs Ha Hi Hd Hp; cbn [reap_array].
  { exists false, d, Q, live, []. split; [done|]. split; [done|]. split; [done|].
    split; [by apply expired_side_refl|]. by split; [apply reaped_refl|]. }
  destruct (Z.gtb_spec (Expiry x) nowExpire) as [Hgt|Hle].
  { exists true. assert (exact = true -> forall y, y ∈ expiring live -> nowExpire < Expiry y) as Hnd.
    { intros ->. intros y. by apply (pending_not_due _ _ _ _ _ _ Hp). }
    destruct (Nat.ltb_spec 0 i).
    - destruct (moved_entries d i (x :: es) Ha Hi Hd) as (a & -> & Ha' & Hin). cbn [mbind outcome_bind].
      eexists _, Q, live, []. split; [reflexivity|]. do 2 (split; [done|]). split; [by apply expired_side_refl|].
      split; [apply reaped_refl|]. intros _. split; [|done]. apply tracked_pending. split; [done|]. by rewrite Hin.
    - assert (i = 0%nat) as -> by lia. exists d, Q, live, []. split; [done|]. do 2 (split; [done|]).
      split; [by apply expired_side_refl|]. split; [apply reaped_refl|]. intros _. split; [|done].
      apply tracked_pending. split; [done|]. rewrite drop_0 in Hd. by rewrite Hd. }
  destruct (expiring_slot live x) as (l1 & n & nd & l2 & m & -> & Em & -> & Hz); [apply (pe_sub _ _ _ _ Hp); left|].
  cbn [qnode details_of]. simpl Expiry in Hle. destruct (pages_nodup _ _ P) as (Nd & _ & _).
  destruct (expire_spec Q l1 n nd m l2 P Em C Hs) as (Q1 & -> & P1 & C1 & Ex & _ & _ & Es). cbn [mbind outcome_bind].
  pose proof (reaped_one nowExpire l1 n nd l2 m Em Hz Hle) as Hr.
  eapply (pending_next _ _ _ _ _ n) in Hp; [|by apply expiring_nodup|done|unfold small in Hs;
    pose proof (expiring_length (l1 ++ (n, nd) :: l2)); lia].
  rewrite <-(expiring_removed l1 n nd l2 m) in Hp by done. cbn [messagesInArray messagesWithExpiry earliestExpiryMessages].
  destruct (Nat.eqb_spec (messagesInArray d) (S i)) as [El|El].
  - assert (es = []) as -> by (apply length_zero_iff_nil; simpl in Hi; lia).
    eexists _, _, Q1, _, _. split; [reflexivity|]. split; [done|]. do 2 (split; [done|]). split; [exact Hr|].
    intros Hb%Z.eqb_eq. split.
    + apply tracked_pending. split; [destruct Ha; split; simpl; [done|lia]|]. exact Hp.
    + intros He y Hy. destruct Hp as [_ _ _ Pc _]. rewrite Pc in Hb by done. destruct (expiring _); [|done].
      by apply not_elem_of_nil in Hy.
  - destruct (IH (S i) (mk_expiry_data (i64 (messagesWithExpiry d - 1)) (messagesInArray d) (earliestExpiryMessages d)) Q1
      (l1 ++ (n, removed nd) :: l2)) as (b & d' & Q' & live' & ms & -> & Hpo & Ex' & Es' & Hr' & Hb); try done.
    + by eapply reaped_small.
    + simpl in *. lia.
    + change (in_array (mk_expiry_data _ _ _)) with (in_array d). rewrite <-(Nat.add_1_r i), <-drop_drop, Hd. done.
    + exists b, d', Q', live', ([(m, msgFlags nd)] ++ ms). split; [done|]. split; [done|]. split; [congruence|].
      split; [by eapply expired_side_trans|]. split; [by eapply reaped_trans|done].
Qed.

(** The messages that expire, seen from the messages and from the expiry data. *)
Lemma expiring_content live x : x ∈ expiring live -> exists y, y ∈ messages live /\ Header_Expiry y.1 = Expiry x /\ Expiry x <> 0.
Proof.
  intros (l1 & n & nd & l2 & m & -> & Em & -> & Hz)%expiring_slot. exists (m, msgFlags nd). split; [|done].
  rewrite messages_app, messages_cons. unfold message. cbn [snd]. rewrite Em. apply elem_of_app. right. left.
Qed.

Lemma content_expiring live y : y ∈ messages live -> Header_Expiry y.1 <> 0 ->
  exists x, x ∈ expiring live /\ Header_Expiry y.1 = Expiry x.
Proof.
  intros ([n nd] & Hs & Hy)%list_elem_of_omap Hz. unfold message in Hy. cbn [snd] in Hy.
  destruct (msg nd) as [| | |m] eqn:Em; simplify_eq/=. exists (details_of n m). split; [|done].
  apply list_elem_of_omap. exists (n, nd). split; [done|]. unfold expires. cbn [snd fst]. rewrite Em.
  by destruct (Z.eqb_spec (Header_Expiry m) 0).
Qed.

Definition due_later (nowExpire : Z) live : Prop := forall x, x ∈ expiring live -> nowExpire <= Expiry x.

Lemma full_scan_spec Q live d fuel nowExpire :
  pages_ok Q live -> small live -> QExpiryData (expiry Q) = Some d -> (2 * length live + 1 <= fuel)%nat ->
  exists Q' live' d' ms, iesq_fullExpiryScan Header_Expiry mem totalSubsCount fuel Q nowExpire = Ret Q' /\
    pages_ok Q' live' /\ QExpiryData (expiry Q') = Some d' /\ tracked true d' (expiring live') /\
    onReaperList (expiry Q') = onReaperList (expiry Q) /\ expired_side Q Q' ms /\ reaped nowExpire live live' ms /\
    due_later nowExpire live'.
Proof.
  intros [P C] Hs Ed Hf. unfold iesq_fullExpiryScan, ieme_clearQExpiryDataPreLocked. rewrite Ed. cbn [mbind outcome_bind].
  set (Q1 := set_expiry _ Q). pose proof (pages_head _ _ P) as [Hh _].
  destruct (scan_loop_spec nowExpire live [] Q1 fuel) as (Q' & live' & ms & E & [P' C' T'] & El & Es & Ec & Em & Hl);
    [|done|done|].
  { split; [by apply (pages_ext Q)|done|]. exists new_expiry_data. split; [done|]. apply new_tracked. }
  simpl app in *. rewrite app_nil_r in *. change (head Q1) with (head Q). rewrite Hh.
  change (tail Q1) with (tail Q) in E. simpl length in E. rewrite E. destruct T' as (d' & Ed' & T').
  exists Q', live', d', ms. do 6 (split; [done|]). split; [split|].
  - rewrite Ec. apply sublist_filter.
  - rewrite Ec, Em. symmetry. apply filter_app_complement.
  - rewrite Em. apply Forall_forall. intros x [Hk _]%list_elem_of_filter. unfold stays, is_expired in *. lia.
  - done.
  - intros x Hx. apply expiring_content in Hx as (y & Hy & Ey & Hz). rewrite Ec in Hy.
    apply list_elem_of_filter in Hy as [Hk _]. unfold stays in Hk. lia.
Qed.

(** ** Reaping *)

Definition reaped_list (nowExpire : Z) (q q' ms : list (M * Z)) : Prop :=
  q' `sublist_of` q /\ q ≡ₚ q' ++ ms /\ Forall (is_expired nowExpire) ms.

Lemma reaped_list_of nowExpire live live' ms :
  reaped nowExpire live live' ms -> reaped_list nowExpire (messages live) (messages live') ms.
Proof. by intros []. Qed.

Lemma reaped_expiring nowExpire live live' ms : reaped nowExpire live live' ms -> expiring live' <> [] -> expiring live <> [].
Proof.
  intros [Hs _ _ _] Hn. destruct (expiring live') as [|x l] eqn:E; [done|].
  destruct (expiring_content live' x) as (y & Hy & Ey & Hz); [rewrite E; left|].
  destruct (content_expiring live y) as (x' & Hx' & _); [by eapply elem_of_sublist|congruence|].
  intros E'. rewrite E' in Hx'. by apply not_elem_of_nil in Hx'.
Qed.

Lemma tracked_weaken exact (d : iemeQueueExpiryData_t node_ptr) L : tracked true d L -> tracked exact d L.
Proof. intros []. split; auto. Qed.

(** The two ways to reap: from the array, and by a scan. *)
Lemma reap_messages exact Q live d fuel nowExpire (forcefullscan : bool) :
  queue_ok exact Q live -> small live -> QExpiryData (expiry Q) = Some d -> (2 * length live + 1 <= fuel)%nat ->
  exists Q' live' d' ms,
    ('(reapComplete, Q) ←
       (if forcefullscan then Ret (false, Q)
        else '(reapComplete, d, Q) ← reap_array nowExpire (in_array d) 0 d Q; Ret (reapComplete, set_data Q d));
     (if reapComplete : bool then Ret Q
      else iesq_fullExpiryScan Header_Expiry mem totalSubsCount fuel Q nowExpire)) = Ret Q' /\
    pages_ok Q' live' /\ QExpiryData (expiry Q') = Some d' /\ tracked exact d' (expiring live') /\
    onReaperList (expiry Q') = onReaperList (expiry Q) /\ expired_side Q Q' ms /\ reaped nowExpire live live' ms /\
    (exact = true -> due_later nowExpire live').
Proof.
  intros [P C [T Hr]] Hs Ed Hf. rewrite Ed in T. destruct forcefullscan; cbn [mbind outcome_bind].
  - destruct (full_scan_spec Q live d fuel nowExpire) as (Q' & live' & d' & ms & -> & Hpo & Ed' & T' & El & Es & Hre & Hdu);
      [done..|]. exists Q', live', d', ms. do 3 (split; [done|]). split; [by apply tracked_weaken|]. auto.
  - apply tracked_pending in T as [Ta Tp]. pose proof (length_in_array d Ta) as Li.
    destruct (reap_array_spec exact nowExpire (in_array d) 0 d Q live) as (b & d1 & Q1 & live1 & ms1 & -> & Hpo & Ex & Es & Hre & Hb);
      [done..|]. cbn [mbind outcome_bind]. destruct b.
    + destruct (Hb eq_refl) as [T1 Hdu]. exists (set_data Q1 d1), live1, d1, ms1. split; [done|].
      split; [destruct Hpo; split; [by apply (pages_ext Q1)|done]|]. split; [done|]. split; [done|].
      split; [simpl; by rewrite Ex|]. split; [done|]. split; [done|]. intros He x Hx. specialize (Hdu He x Hx). lia.
    + destruct (full_scan_spec (set_data Q1 d1) live1 d1 fuel nowExpire)
        as (Q' & live' & d' & ms & -> & Hpo' & Ed' & T' & El & Es' & Hre' & Hdu).
      * destruct Hpo; split; [by apply (pages_ext Q1)|done].
      * by eapply reaped_small.
      * done.
      * destruct Hre. lia.
      * exists Q', live', d', (ms1 ++ ms). do 3 (split; [done|]). split; [by apply tracked_weaken|].
        split; [rewrite El; simpl; by rewrite Ex|]. split; [by eapply (expired_side_trans Q (set_data Q1 d1))|].
        split; [by eapply reaped_trans|done].
Qed.

Lemma reap_spec exact Q live d fuel nowExpire (forcefullscan expiryListLocked wl el : bool) :
  queue_ok exact Q live -> small live -> QExpiryData (expiry Q) = Some d -> (2 * length live + 1 <= fuel)%nat ->
  exists rc Q' live' ms,
    iesq_reapExpiredMsgs Header_Expiry mem totalSubsCount fuel Q nowExpire forcefullscan expiryListLocked wl el = Ret (rc, Q') /\
    queue_ok exact Q' live' /\ expired_side Q Q' ms /\ reaped_list nowExpire (messages live) (messages live') ms /\
    (wl = true -> el = true -> exact = true -> due_later nowExpire live') /\ (length live' <= length live)%nat.
Proof.
  intros Hok Hs Ed Hf. pose proof Hok as [_ _ [_ Hr]]. unfold iesq_reapExpiredMsgs. destruct wl; cbn [negb]; cycle 1.
  { eexists _, Q, live, []. split; [reflexivity|]. split; [done|]. split; [by apply expired_side_refl|].
    split; [apply reaped_list_of, reaped_refl|done]. }
  rewrite Ed. destruct el; cbn [negb]; cycle 1.
  { eexists _, Q, live, []. split; [reflexivity|]. split; [done|]. split; [by apply expired_side_refl|].
    split; [apply reaped_list_of, reaped_refl|done]. }
  destruct (reap_messages exact Q live d fuel nowExpire forcefullscan Hok Hs Ed Hf)
    as (Q1 & live1 & d1 & ms & E & [P1 C1] & Ed1 & T1 & El & Es & Hre & Hdu).
  apply bind_ret_inv in E as ([b Q0] & -> & E). cbn [mbind outcome_bind]. cbv iota beta in E |- *. rewrite E.
  cbn [mbind outcome_bind]. rewrite Ed1.
  assert (exists rc Q2, (if messagesWithExpiry d1 =? 0 then
            if expiryListLocked then (ieqExpiryReapRC_RemoveQ, Q1)
            else (ieqExpiryReapRC_OK, set_expiry (mk_qexpiry (Some d1) false) Q1)
          else (ieqExpiryReapRC_OK, Q1)) = (rc, Q2) /\ queue_ok exact Q2 live1 /\ side Q2 = side Q1) as (rc & Q2 & -> & Hok2 & Es2).
  { assert (queue_ok exact Q1 live1) as Hok1.
    { split; [done|done|]. split; [by rewrite Ed1|]. intros He Hn. rewrite El. apply Hr; [done|]. by eapply reaped_expiring. }
    destruct (Z.eqb_spec (messagesWithExpiry d1) 0) as [Ez|]; [destruct expiryListLocked|]; [by eexists _, _| |by eexists _, _].
    eexists _, _. split; [reflexivity|]. split; [|done]. split; [by apply (pages_ext Q1)|done|]. split; [done|].
    intros He Hn. exfalso. apply Hn, length_zero_iff_nil. destruct T1. rewrite tr_count in Ez by done. lia. }
  destruct (scan_cursor_spec exact live1 fuel Q2 Hok2) as (Q' & live' & -> & Hok' & Ec & Ex & Es' & Hl).
  { by eapply reaped_small. }
  { destruct Hre. lia. }
  cbn [mbind outcome_bind]. eexists _, Q', live', ms. split; [reflexivity|]. split; [done|].
  split; [rewrite <-(app_nil_r ms); eapply expired_side_trans; [exact Es|apply expired_side_refl; congruence]|].
  split; [rewrite Ec; by apply reaped_list_of|]. split; [|destruct Hre; lia].
  intros _ _ He x Hx. rewrite Ex in Hx. by apply Hdu.
Qed.
End Ops.
