(* ===== verification/SimpQueueCorrect.v ===== *)
(** * The simple queue is a queue

    The operations of simpQ.c as operations on the list of the messages that are in the
    queue: first in, first out, with what is delivered, released and discarded, for
    every behaviour of the memory. *)

From stdpp Require Import gmap.
From S2P Require Import Prelude MsgExpiry SimpQueue SimpQueuePages SimpQueuePut SimpQueueOps.
#[local] Open Scope Z_scope.

Section Correct.
Context {M : Type} (Header_Expiry : M -> Z) (mem : nat -> bool) (totalSubsCount : Z).
Implicit Types (Q : iesqQueue_t M) (m : M) (q : list (M * Z)) (k : nat).

(** The queue [Q] has the messages [q], oldest first, in at most [k] nodes.  Its expiry
    data covers all of them unless an allocation failed. *)
Definition queue Q q k : Prop :=
  exists exact live, queue_ok Header_Expiry exact Q live /\ messages live = q /\ (length live <= k)%nat /\
    (exact = true \/ exists a, mem a = false).

(** The fuel that operations on a queue of [k] nodes need. *)
Definition enough (fuel k : nat) : Prop := (2 * k + 3 <= fuel)%nat.

Definition bounded q : Prop := Z.of_nat (length q) < 2 ^ 31 - 2.

Lemma bounded_small q live : messages live = q -> bounded q -> small live.
Proof. intros <- H. unfold bounded, small in *. lia. Qed.

Lemma queue_count Q q k : queue Q q k -> bufferedMsgs Q = Z.of_nat (length q).
Proof. by intros (exact & live & [_ C _] & <- & _). Qed.

(** Changing what the pages and the expiry data do not depend on. *)
Lemma queue_ext Q Q' q k :
  heap Q' = heap Q -> head Q' = head Q -> headPage Q' = headPage Q -> tail Q' = tail Q -> allocs Q' = allocs Q ->
  bufferedMsgs Q' = bufferedMsgs Q -> expiry Q' = expiry Q -> queue Q q k -> queue Q' q k.
Proof.
  intros E1 E2 E3 E4 E5 E6 E7 (exact & live & [P C T] & Hc & He). exists exact, live. split; [|done].
  split; [apply (pages_ext Q); try done; lia|congruence|by rewrite E7].
Qed.

(** ** Creating *)

Lemma create_queue n :
  if mem n then exists Q, iesq_createQ mem n = Ret (Some Q) /\ queue Q [] 0 /\ calls Q = []
  else iesq_createQ (M := M) mem n = Ret None.
Proof.
  unfold iesq_createQ, iesq_createNewPage. cbn [allocs]. destruct (mem n); [|done].
  unfold set_nextStatus, get_page. cbn [heap set_tail set_head inc_allocs set_page set_heap].
  rewrite lookup_insert_eq. cbn [mbind outcome_bind]. eexists. split; [reflexivity|]. split; [|done].
  exists true, []. split; [|by split; [|split; [|left]]]. split; [|done|by split].
  eapply (Pages _ _ [] n [] 8 None 0); try done.
  - cbn [heap set_page set_heap set_tail set_head inc_allocs]. by rewrite insert_insert_eq.
  - apply NoDup_singleton.
  - simpl. constructor; [lia|constructor].
  - lia.
  - simpl. lia.
Qed.

(** ** Getting *)

Lemma get_queue Q q k fuel :
  queue Q q k -> bounded q -> enough fuel k ->
  match q with
  | [] => exists Q', iesq_getMessage Header_Expiry mem fuel Q = Ret (None, Q') /\ queue Q' [] 0 /\ side Q' = side Q
  | x :: q => exists Q', iesq_getMessage Header_Expiry mem fuel Q = Ret (Some x, Q') /\
                queue Q' q (k - 1) /\ side Q' = side Q /\ (0 < k)%nat
  end.
Proof.
  intros (exact & live & Hok & <- & Hl & He) Hb Hf. pose proof (bounded_small _ live eq_refl Hb) as Hs.
  unfold enough in Hf. pose proof (get_spec Header_Expiry mem exact live fuel Q Hok Hs ltac:(lia)) as H.
  destruct (messages live) as [|x q].
  - destruct H as (Q' & -> & Hok' & Es). exists Q'. split; [done|]. split; [|done]. exists exact, []. simpl. auto with lia.
  - destruct H as (Q' & live' & -> & Hok' & Ec & Es & Hl'). exists Q'. split; [done|].
    split; [|split; [done|lia]]. exists exact, live'. do 2 (split; [done|]). split; [lia|done].
Qed.

(** ** Discarding *)

(** What releasing the messages [ms] adds to the calls. *)
Definition released (ms : list (M * Z)) : list (engine_call M) := releaseMessage <$> ms.*1.

Lemma reclaim_queue target : forall fuel k Q q rm,
  queue Q q k -> bounded q -> 0 <= target -> enough fuel k ->
  exists Q', let d := (length q - Z.to_nat target)%nat in
    reclaim_loop Header_Expiry mem fuel target rm Q = Ret (rm + Z.of_nat d, Q') /\ queue Q' (drop d q) k /\
    calls Q' = calls Q ++ released (take d q) /\ counts Q' = counts Q /\
    ReportedQueueFull Q' = ReportedQueueFull Q /\ informOnEmpty Q' = informOnEmpty Q.
Proof.
  induction fuel as [|fuel IH]; intros k Q q rm Hq Hb Ht Hf; [unfold enough in Hf; lia|].
  cbn zeta. cbn [reclaim_loop]. rewrite (queue_count _ _ _ Hq).
  destruct (Z.gtb_spec (Z.of_nat (length q)) target) as [Hgt|Hle]; cycle 1.
  { replace (length q - Z.to_nat target)%nat with 0%nat by lia. exists Q. rewrite Z.add_0_r. simpl.
    unfold released. simpl. by rewrite app_nil_r. }
  pose proof (get_queue Q q k (S fuel) Hq Hb Hf) as H. destruct q as [|[m fl] q]; [simpl in Hgt; lia|].
  destruct H as (Q1 & -> & Hq1 & Es & Hk). cbn [mbind outcome_bind]. injection Es as E1 E2 E3 E4.
  destruct (IH (k - 1)%nat (emit (releaseMessage m) Q1) q (rm + 1)) as (Q' & E & Hq' & Ec & Eo & Er & Ei).
  - by apply (queue_ext Q1).
  - unfold bounded in *. simpl in Hb. lia.
  - done.
  - unfold enough in *. lia.
  - cbn zeta in *. exists Q'. simpl length in *.
    replace (S (length q) - Z.to_nat target)%nat with (S (length q - Z.to_nat target)) by lia.
    rewrite E. split; [do 2 f_equal; lia|]. split.
    { destruct Hq' as (ex & live & ? & ? & ? & ?). exists ex, live. do 2 (split; [done|]). split; [lia|done]. }
    rewrite Ec, Eo, Er, Ei. cbn [calls counts ReportedQueueFull informOnEmpty emit take]. rewrite E1, E2, E3, E4.
    split; [|done]. unfold released. rewrite <-app_assoc. done.
Qed.

Lemma queue_mono Q q k k' : queue Q q k -> (k <= k')%nat -> queue Q q k'.
Proof. intros (ex & live & ? & ? & ? & ?) Hk. exists ex, live. do 2 (split; [done|]). split; [lia|done]. Qed.

Lemma bounded_cons x q : bounded (x :: q) -> bounded q.
Proof. unfold bounded. simpl. lia. Qed.

Lemma drain_queue : forall fuel k Q q,
  queue Q q k -> bounded q -> enough fuel k ->
  exists Q', iesq_drainQ Header_Expiry mem fuel Q = Ret Q' /\ queue Q' [] 0 /\ calls Q' = calls Q ++ released q.
Proof.
  induction fuel as [|fuel IH]; intros k Q q Hq Hb Hf; [unfold enough in Hf; lia|]. cbn [iesq_drainQ].
  pose proof (get_queue Q q k (S fuel) Hq Hb Hf) as H. destruct q as [|[m fl] q].
  - destruct H as (Q1 & -> & Hq1 & [= _ _ _ E]). exists Q1. unfold released. simpl. by rewrite app_nil_r.
  - destruct H as (Q1 & -> & Hq1 & [= E1 _ _ E] & Hk). cbn [mbind outcome_bind].
    destruct (IH (k - 1)%nat (emit (releaseMessage m) (set_counts (add_discarded 1 (counts Q1)) Q1)) q) as (Q' & -> & Hq' & Ec).
    + by apply (queue_ext Q1).
    + by eapply bounded_cons.
    + unfold enough in *. lia.
    + exists Q'. do 2 (split; [done|]). rewrite Ec. simpl. rewrite E, <-app_assoc. done.
Qed.

(** ** Delivering *)

Definition deliveries (ms : list (M * Z)) : list (engine_call M) := (fun x => deliverMessage x.1 x.2) <$> ms.

(** The status that a consumer asked for, when it wants more messages than there are. *)
Definition empty_status (inform : bool) q (wanted : nat) : list (engine_call M) :=
  if inform && (length q <? wanted)%nat then [deliverStatus ISMRC_NoMsgAvail] else [].

Lemma check_queue wanted : forall k Q q fuel,
  queue Q q k -> bounded q -> enough fuel k ->
  exists Q', getter_loop Header_Expiry mem fuel wanted Q = Ret Q' /\ queue Q' (drop wanted q) k /\
    calls Q' = calls Q ++ deliveries (take wanted q) ++ empty_status (informOnEmpty Q) q wanted.
Proof.
  induction wanted as [|wanted IH]; intros k Q q fuel Hq Hb Hf; cbn [getter_loop].
  { exists Q. unfold empty_status. rewrite drop_0, andb_false_r. simpl. by rewrite app_nil_r. }
  pose proof (get_queue Q q k fuel Hq Hb Hf) as H. destruct q as [|[m fl] q].
  - destruct H as (Q1 & -> & Hq1 & [= E1 E2 E3 E4]). cbn [mbind outcome_bind]. unfold empty_status. simpl.
    eexists. split; [reflexivity|]. rewrite E3, andb_true_r.
    destruct (informOnEmpty Q); simpl; rewrite E4, ?app_nil_r; (split; [|done]);
      (eapply queue_mono; [by apply (queue_ext Q1)|lia]).
  - destruct H as (Q1 & -> & Hq1 & [= E1 E2 E3 E4] & Hk). cbn [mbind outcome_bind].
    destruct (IH (k - 1)%nat (emit (deliverMessage m fl) (set_counts (add_dequeue (counts Q1)) Q1)) q fuel) as (Q' & -> & Hq' & Ec).
    + by apply (queue_ext Q1).
    + by eapply bounded_cons.
    + unfold enough in *. lia.
    + exists Q'. split; [done|]. split; [eapply queue_mono; [exact Hq'|lia]|]. rewrite Ec. unfold empty_status. simpl.
      rewrite E3, E4, <-app_assoc. done.
Qed.

Lemma check_waiters_queue wanted k Q q fuel :
  queue Q q k -> bounded q -> enough fuel k -> q <> [] ->
  exists Q', iesq_checkWaiters Header_Expiry mem fuel wanted Q = Ret Q' /\ queue Q' (drop wanted q) k /\
    calls Q' = calls Q ++ deliveries (take wanted q) ++ empty_status (informOnEmpty Q) q wanted.
Proof.
  intros Hq Hb Hf Hn. unfold iesq_checkWaiters. rewrite (queue_count _ _ _ Hq).
  destruct (Z.eqb_spec (Z.of_nat (length q)) 0); [destruct q; [done|simpl in *; lia]|]. by apply check_queue.
Qed.

(** ** Reaping *)

Definition memory_ok : Prop := forall a, mem a = true.

(** No message is past its time. *)
Definition fresh (nowExpire : Z) q : Prop := Forall (fun x => Header_Expiry x.1 = 0 \/ nowExpire <= Header_Expiry x.1) q.

Lemma due_fresh nowExpire live : due_later Header_Expiry nowExpire live -> fresh nowExpire (messages live).
Proof.
  intros Hd. apply Forall_forall. intros y Hy. destruct (decide (Header_Expiry y.1 = 0)) as [|Hz]; [by left|right].
  destruct (content_expiring Header_Expiry live y Hy Hz) as (x & Hx & ->). by apply Hd.
Qed.

Lemma reap_queue Q q k d fuel nowExpire (forcefullscan expiryListLocked wl el : bool) :
  queue Q q k -> bounded q -> enough fuel k -> QExpiryData (expiry Q) = Some d ->
  exists rc Q' q' ms,
    iesq_reapExpiredMsgs Header_Expiry mem totalSubsCount fuel Q nowExpire forcefullscan expiryListLocked wl el = Ret (rc, Q') /\
    queue Q' q' k /\ reaped_list Header_Expiry nowExpire q q' ms /\ calls Q' = calls Q ++ released ms /\
    (memory_ok -> wl = true -> el = true -> fresh nowExpire q').
Proof.
  intros (exact & live & Hok & <- & Hl & He) Hb Hf Ed. pose proof (bounded_small _ live eq_refl Hb) as Hs.
  unfold enough in Hf.
  destruct (reap_spec Header_Expiry mem totalSubsCount exact Q live d fuel nowExpire forcefullscan expiryListLocked wl el)
    as (rc & Q' & live' & ms & -> & Hok' & (_ & _ & Ec & _) & Hr & Hdu & Hl'); [done..|lia|].
  exists rc, Q', (messages live'), ms. split; [done|].
  split; [exists exact, live'; do 2 (split; [done|]); split; [lia|done]|]. split; [done|]. split; [done|].
  intros Hm Hwl Hel. apply due_fresh, Hdu; [done..|]. destruct He as [|[a Ha]]; [done|]. by rewrite Hm in Ha.
Qed.

Lemma reap_if_needed Q q k fuel nowExpire (wl el : bool) :
  queue Q q k -> bounded q -> enough fuel k ->
  exists Q' q' ms, reapQExpiredMessages Header_Expiry mem totalSubsCount fuel Q nowExpire wl el = Ret Q' /\
    queue Q' q' k /\ reaped_list Header_Expiry nowExpire q q' ms /\ calls Q' = calls Q ++ released ms /\
    (memory_ok -> wl = true -> el = true -> fresh nowExpire q').
Proof.
  intros Hq Hb Hf. unfold reapQExpiredMessages. destruct (needs_reap (expiry Q) nowExpire) eqn:En.
  - assert (exists d, QExpiryData (expiry Q) = Some d) as [d Ed].
    { unfold needs_reap in En. destruct (QExpiryData (expiry Q)) as [d|]; [by exists d|done]. }
    destruct (reap_queue Q q k d fuel nowExpire false false wl el) as (rc & Q' & q' & ms & -> & H); [done..|].
    by exists Q', q', ms.
  - exists Q, q, []. split; [done|]. split; [done|]. split; [by repeat split; [|rewrite app_nil_r|]|].
    split; [by rewrite app_nil_r|]. intros Hm _ _. destruct Hq as (exact & live & [_ _ T] & <- & _ & He).
    apply due_fresh. intros x Hx. destruct (decide (nowExpire <= Expiry x)) as [|Hlt]; [done|].
    destruct He as [-> |[a Ha]]; [|by rewrite Hm in Ha].
    rewrite (expired_needs_reap _ _ x nowExpire T Hx) in En by lia. done.
Qed.

(** ** Putting *)

(** How many of [n] messages are discarded, oldest first, for the limit. *)
Definition excess (policy : iepiPolicyInfo_t) (t : turn_t) (n : nat) : nat :=
  match maxMsgBehavior policy with
  | RejectNewMessages => 0%nat
  | DiscardOldMessages =>
      if (Z.of_nat n >? maxMessageCount policy) && waiterLock t
      then (n - Z.to_nat (1 + survivors (maxMessageCount policy)))%nat else 0%nat
  end.

(** The messages [q] after a put become [q'], and those that are [gone] are released:
    the expired ones, and the oldest when there are too many. *)
Definition trimmed (policy : iepiPolicyInfo_t) (t : turn_t) q q' (gone : list (M * Z)) : Prop :=
  if Z.of_nat (length q) >=? maxMessageCount policy then
    exists q1 ms, reaped_list Header_Expiry (now t) q q1 ms /\
      (memory_ok -> waiterLock t = true -> expiryLock t = true -> fresh (now t) q1) /\
      q' = drop (excess policy t (length q1)) q1 /\ gone = ms ++ take (excess policy t (length q1)) q1
  else q' = q /\ gone = [].

Lemma survivors_nonneg n : 0 <= n -> 0 <= survivors n.
Proof. intros H. unfold survivors. apply Z.div_pos; lia. Qed.

Lemma reaped_bounded nowExpire q q' ms : reaped_list Header_Expiry nowExpire q q' ms -> bounded q -> bounded q'.
Proof. intros (_ & P & _). unfold bounded. rewrite P, length_app. lia. Qed.

Lemma reclaim_space_queue policy t Q q k fuel :
  queue Q q k -> bounded q -> enough fuel k -> 0 <= maxMessageCount policy ->
  exists Q', match maxMsgBehavior policy with
             | DiscardOldMessages =>
                 if bufferedMsgs Q >? maxMessageCount policy
                 then iesq_reclaimSpace Header_Expiry mem fuel (waiterLock t) (maxMessageCount policy) Q else Ret Q
             | RejectNewMessages => Ret Q
             end = Ret Q' /\
    queue Q' (drop (excess policy t (length q)) q) k /\ calls Q' = calls Q ++ released (take (excess policy t (length q)) q).
Proof.
  intros Hq Hb Hf Hm. unfold excess. rewrite (queue_count _ _ _ Hq).
  assert (exists Q', @Ret (iesqQueue_t M) Q = Ret Q' /\ queue Q' (drop 0 q) k /\ calls Q' = calls Q ++ released (take 0 q)) as H0.
  { exists Q. rewrite drop_0. split; [done|]. split; [done|]. by rewrite app_nil_r. }
  destruct (maxMsgBehavior policy); [done|]. destruct (Z.of_nat (length q) >? maxMessageCount policy); [|done].
  unfold iesq_reclaimSpace. destruct (waiterLock t); [|done]. cbn [andb].
  pose proof (survivors_nonneg _ Hm). destruct (reclaim_queue (1 + survivors (maxMessageCount policy)) fuel k Q q 0)
    as (Q' & -> & Hq' & Ec & _); [done|done|lia|done|]. cbn [mbind outcome_bind]. eexists. split; [reflexivity|].
  case_match; [|done]. split; [by apply (queue_ext Q')|done].
Qed.

Lemma after_put_queue policy t Q q k fuel :
  queue Q q k -> bounded q -> enough fuel k -> 0 <= maxMessageCount policy -> q <> [] ->
  exists Q' q' gone, after_put Header_Expiry mem totalSubsCount fuel policy t Q = Ret Q' /\ queue Q' q' k /\
    trimmed policy t (drop (wanted t) q) q' gone /\
    calls Q' = calls Q ++ deliveries (take (wanted t) q) ++ empty_status (informOnEmpty Q) q (wanted t) ++ released gone.
Proof.
  intros Hq Hb Hf Hm Hn. unfold after_put, trimmed.
  destruct (check_waiters_queue (wanted t) k Q q fuel) as (Q1 & -> & Hq1 & Ec1); [done..|]. cbn [mbind outcome_bind].
  rewrite (queue_count _ _ _ Hq1). destruct (_ >=? _); cycle 1.
  { exists Q1, (drop (wanted t) q), []. do 3 (split; [done|]). by rewrite app_nil_r. }
  assert (bounded (drop (wanted t) q)) as Hb1 by (unfold bounded in *; rewrite length_drop; lia).
  destruct (reap_if_needed Q1 _ k fuel (now t) (waiterLock t) (expiryLock t) Hq1 Hb1 Hf) as (Q2 & q2 & ms & -> & Hq2 & Hr & Ec2 & Hfr).
  cbn [mbind outcome_bind]. pose proof (reaped_bounded _ _ _ _ Hr Hb1) as Hb2.
  destruct (reclaim_space_queue policy t Q2 q2 k fuel Hq2 Hb2 Hf Hm) as (Q3 & -> & Hq3 & Ec3).
  exists Q3. eexists _, _. split; [done|]. split; [exact Hq3|]. split; [by exists q2, ms|].
  rewrite Ec3, Ec2, Ec1. unfold released. rewrite !fmap_app, <-!app_assoc. done.
Qed.

(** The outcomes of a put on a queue with the messages [q]: the return code, the
    messages after it, and the calls it made. *)
Definition rejects (policy : iepiPolicyInfo_t) q : bool :=
  (maxMessageCount policy >? 0) && (Z.of_nat (length q) >=? maxMessageCount policy) &&
  match maxMsgBehavior policy with RejectNewMessages => true | DiscardOldMessages => false end.

Definition put_flags (retained : bool) : Z := if retained then ismMESSAGE_FLAGS_RETAINED else ismMESSAGE_FLAGS_NONE.

Definition usage (inherit : bool) m : list (engine_call M) := if inherit then [] else [recordMessageUsage m].

Inductive queue_put (policy : iepiPolicyInfo_t) (t : turn_t) (retained inherit inform : bool) m q : Z -> list (M * Z) -> list (engine_call M) -> Prop :=
  | put_full : rejects policy q = true -> queue_put policy t retained inherit inform m q ISMRC_DestinationFull q []
  | put_not_allowed : rejects policy q = false -> allowSend policy = false ->
      queue_put policy t retained inherit inform m q ISMRC_SendNotAllowed q []
  | put_in_tran rc : rejects policy q = false -> allowSend policy = true -> inTran t = Some rc ->
      queue_put policy t retained inherit inform m q rc q (usage inherit m ++ [softLogAdd m retained])
  | put_direct : rejects policy q = false -> allowSend policy = true -> inTran t = None ->
      q = [] -> wanted t <> 0%nat ->
      queue_put policy t retained inherit inform m q OK [] (usage inherit m ++ [deliverMessage m (put_flags retained)])
  | put_no_memory a : rejects policy q = false -> allowSend policy = true -> inTran t = None ->
      ~ (q = [] /\ wanted t <> 0%nat) -> mem a = false ->
      queue_put policy t retained inherit inform m q ISMRC_AllocateError q
        (usage inherit m ++ if inherit then [] else [releaseMessage m])
  | put_queued q' gone : rejects policy q = false -> allowSend policy = true -> inTran t = None ->
      ~ (q = [] /\ wanted t <> 0%nat) ->
      let all := q ++ [(m, put_flags retained)] in
      trimmed policy t (drop (wanted t) all) q' gone ->
      queue_put policy t retained inherit inform m q OK q'
        (usage inherit m ++ deliveries (take (wanted t) all) ++ empty_status inform all (wanted t) ++ released gone).

(** Room for one more message. *)
Definition room q : Prop := Z.of_nat (length q) < 2 ^ 31 - 3.

(** The message goes into a node, and the queue is tended. *)
Lemma queued_put policy t Q q k fuel m flags inherit :
  queue Q q k -> room q -> enough fuel (S k) -> 0 <= maxMessageCount policy ->
  exists rc Q', ('(rc, Q) ← put_node Header_Expiry mem totalSubsCount Q m flags inherit;
     if rc =? OK then Q ← after_put Header_Expiry mem totalSubsCount fuel policy t Q; Ret (OK, Q) else Ret (rc, Q)) = Ret (rc, Q') /\
    ((rc = ISMRC_AllocateError /\ (exists a, mem a = false) /\ queue Q' q (S k) /\
        calls Q' = calls Q ++ if inherit then [] else [releaseMessage m]) \/
     (exists q' gone, let all := q ++ [(m, flags)] in
        rc = OK /\ queue Q' q' (S k) /\ trimmed policy t (drop (wanted t) all) q' gone /\
        calls Q' = calls Q ++ deliveries (take (wanted t) all) ++ empty_status (informOnEmpty Q) all (wanted t) ++ released gone)).
Proof.
  intros (exact & live & Hok & <- & Hl & He) Hb Hf Hm.
  assert (small live) as Hs by (unfold room, small in *; lia).
  destruct (put_slot_spec Header_Expiry mem totalSubsCount exact Q live m flags inherit Hok Hs)
    as [(Q1 & -> & Ha & Hok1 & [= _ _ _ Ec])|(Q1 & exact' & n & hwm & -> & Hok1 & He' & [= E1 E2 E3 Ec])]; cbn [mbind outcome_bind].
  - change (ISMRC_AllocateError =? OK) with false. cbv iota. eexists _, Q1. split; [reflexivity|]. left. split; [done|].
    split; [by eexists|]. split; [exists exact, live; do 2 (split; [done|]); split; [lia|done]|].
    rewrite Ec. destruct inherit; simpl; by rewrite ?app_nil_r.
  - change (OK =? OK) with true. cbv iota.
    destruct (after_put_queue policy t Q1 (messages live ++ [(m, flags)]) (S k) fuel) as (Q' & q' & gone & -> & Hq' & Ht & Ec').
    + exists exact', (live ++ [(n, mk_node flags (Msg m))]). split; [done|]. split; [by rewrite messages_app|].
      rewrite length_app. split; [simpl; lia|]. destruct He' as [-> |Hm']; auto.
    + unfold bounded, room in *. rewrite length_app. simpl. lia.
    + done.
    + done.
    + by destruct (messages live).
    + cbn [mbind outcome_bind]. eexists _, Q'. split; [reflexivity|]. right. exists q', gone. cbn zeta. do 3 (split; [done|]).
      rewrite Ec', Ec. unfold empty_status. by rewrite E3.
Qed.

Lemma put_queue policy t retained inherit m Q q k fuel :
  queue Q q k -> room q -> enough fuel (S k) -> 0 <= maxMessageCount policy ->
  exists rc Q' q' cs,
    iesq_putMessage Header_Expiry mem totalSubsCount fuel policy t retained inherit m Q = Ret (rc, Q') /\
    queue_put policy t retained inherit (informOnEmpty Q) m q rc q' cs /\ queue Q' q' (S k) /\ calls Q' = calls Q ++ cs.
Proof.
  intros Hq Hb Hf Hm. unfold iesq_putMessage, is_full. rewrite (queue_count _ _ _ Hq).
  pose proof (queue_mono _ _ _ (S k) Hq ltac:(lia)) as HqS.
  set (full := (maxMessageCount policy >? 0) && _) in *. set (Q1 := if full then set_reported true Q else Q).
  assert (queue Q1 q k /\ queue Q1 q (S k) /\ calls Q1 = calls Q /\ informOnEmpty Q1 = informOnEmpty Q /\
          bufferedMsgs Q1 = bufferedMsgs Q) as (Hq1 & HqS1 & Ec1 & Ei1 & Eb1).
  { unfold Q1. destruct full; [|done]. do 2 (split; [by apply (queue_ext Q)|]). done. }
  clearbody Q1. destruct (full && _) eqn:Er.
  { eexists _, _, q, []. split; [reflexivity|]. split; [by apply put_full|]. split; [by apply (queue_ext Q1)|].
    by rewrite app_nil_r. }
  destruct (allowSend policy) eqn:Es; cbn [negb]; cycle 1.
  { eexists _, _, q, []. split; [reflexivity|]. split; [by apply put_not_allowed|]. split; [done|]. by rewrite app_nil_r. }
  change (if retained then Z.lor ismMESSAGE_FLAGS_NONE ismMESSAGE_FLAGS_RETAINED else ismMESSAGE_FLAGS_NONE)
    with (put_flags retained). set (Q2 := if inherit then Q1 else _).
  assert (queue Q2 q k /\ queue Q2 q (S k) /\ calls Q2 = calls Q ++ usage inherit m /\ informOnEmpty Q2 = informOnEmpty Q /\
          bufferedMsgs Q2 = bufferedMsgs Q) as (Hq2 & HqS2 & Ec2 & Ei2 & Eb2).
  { unfold Q2. destruct inherit; simpl; rewrite ?app_nil_r, Ec1; [done|]. do 2 (split; [by apply (queue_ext Q1)|]). done. }
  clearbody Q2. destruct (inTran t) as [rc|] eqn:Et.
  { eexists rc, _, q, _. split; [reflexivity|]. split; [by apply put_in_tran|]. split; [by apply (queue_ext Q2)|].
    simpl. by rewrite Ec2, <-app_assoc. }
  rewrite (queue_count _ _ _ Hq2).
  assert (exists direct, (if Z.of_nat (length q) =? 0 then
      iesq_putToWaitingGetter Header_Expiry mem fuel Q2 m (put_flags retained) (wanted t) else Ret None) = Ret direct /\
    match direct with
    | Some Q' => (q = [] /\ wanted t <> 0%nat) /\ queue Q' [] (S k) /\ calls Q' = calls Q2 ++ [deliverMessage m (put_flags retained)]
    | None => ~ (q = [] /\ wanted t <> 0%nat)
    end) as (direct & -> & Hd).
  { destruct (Z.eqb_spec (Z.of_nat (length q)) 0) as [El|El]; cycle 1.
    { exists None. split; [done|]. intros [-> _]. done. }
    unfold iesq_putToWaitingGetter. destruct (wanted t) as [|w]; [exists None; split; [done|]; by intros []|].
    assert (q = []) as -> by (by destruct q). change (bufferedMsgs (emit _ _)) with (bufferedMsgs Q2).
    rewrite (queue_count _ _ _ Hq2). cbn [length Z.of_nat Z.gtb Z.compare mbind outcome_bind].
    eexists. split; [reflexivity|]. split; [done|]. split; [by apply (queue_ext Q2)|done]. }
  cbn [mbind outcome_bind]. destruct direct as [Q'|].
  { destruct Hd as ([-> Hw] & Hq' & Ec'). eexists _, Q', [], _. split; [reflexivity|]. split; [by apply put_direct|].
    split; [done|]. by rewrite Ec', Ec2, <-app_assoc. }
  destruct (queued_put policy t Q2 q k fuel m (put_flags retained) inherit Hq2 Hb Hf Hm)
    as (rc & Q' & -> & [(-> & (a & Ha) & Hq' & Ec')|(q' & gone & -> & Hq' & Ht & Ec')]).
  - eexists _, Q', q, _. split; [reflexivity|]. split; [by eapply put_no_memory|]. split; [done|].
    by rewrite Ec', Ec2, <-app_assoc.
  - eexists _, Q', q', _. split; [reflexivity|]. split; [by eapply put_queued|]. split; [done|].
    rewrite Ec', Ec2, <-app_assoc. unfold empty_status. by rewrite Ei2.
Qed.

(** ** Committing *)

(** A put that was part of a transaction is done at the commit; if it fails then, its
    use of the message is released and the put is counted as skipped. *)
Theorem commit_puts policy t retained m skipped Q q k fuel :
  queue Q q k -> room q -> enough fuel (S k) -> 0 <= maxMessageCount policy ->
  exists skipped' Q' q' rc cs,
    iesq_SLEReplayPut Header_Expiry mem totalSubsCount fuel policy t PostCommit retained false m skipped Q =
      Ret (false, skipped', Q') /\ queue Q' q' (S k) /\
    queue_put policy (mk_turn (wanted t) (waiterLock t) (expiryLock t) (now t) None) retained true (informOnEmpty Q) m q rc q' cs /\
    if rc =? OK then skipped' = skipped /\ calls Q' = calls Q ++ cs
    else q' = q /\ skipped' = u32 (skipped + 1) /\ calls Q' = calls Q ++ [releaseMessage m].
Proof.
  intros Hq Hr Hf Hm. unfold iesq_SLEReplayPut. cbn [negb].
  set (t' := mk_turn _ _ _ _ _). destruct (put_queue policy t' retained true m Q q k fuel Hq Hr Hf Hm)
    as (rc & Q' & q' & cs & -> & Hp & Hq' & Ec). cbn [mbind outcome_bind].
  destruct (Z.eqb_spec rc OK) as [->|Hn]; cbn [negb].
  - by eexists _, Q', q', OK, cs.
  - eexists _, _, q', rc, cs. split; [reflexivity|]. split; [by apply (queue_ext Q')|]. split; [exact Hp|].
    destruct (Z.eqb_spec rc OK); [done|]. assert (q' = q /\ cs = []) as [-> ->] by (destruct Hp; done).
    simpl. rewrite Ec, app_nil_r. done.
Qed.

(** ** Sequences of operations *)

Inductive op :=
  | Put (policy : iepiPolicyInfo_t) (t : turn_t) (retained inherit : bool) (m : M)
  | CheckWaiters (wanted : nat)
  | Reap (nowExpire : Z) (gotWaiterLock gotExpiryLock : bool)
  | Reclaim (gotLock : bool) (maxMessageCount : Z)
  | Drain.

Definition run_op (fuel : nat) (o : op) Q : outcome (Z * iesqQueue_t M) :=
  match o with
  | Put policy t retained inherit m => iesq_putMessage Header_Expiry mem totalSubsCount fuel policy t retained inherit m Q
  | CheckWaiters wanted => Q ← iesq_checkWaiters Header_Expiry mem fuel wanted Q; Ret (OK, Q)
  | Reap nowExpire wl el => Q ← reapQExpiredMessages Header_Expiry mem totalSubsCount fuel Q nowExpire wl el; Ret (OK, Q)
  | Reclaim gotLock max => Q ← iesq_reclaimSpace Header_Expiry mem fuel gotLock max Q; Ret (OK, Q)
  | Drain => Q ← iesq_drainQ Header_Expiry mem fuel Q; Ret (OK, Q)
  end.

Fixpoint run_ops (fuel : nat) (ops : list op) Q : outcome (list Z * iesqQueue_t M) :=
  match ops with
  | [] => Ret ([], Q)
  | o :: ops => '(rc, Q) ← run_op fuel o Q; '(rcs, Q) ← run_ops fuel ops Q; Ret (rc :: rcs, Q)
  end.

(** What an operation does to a list of messages: its return code, the messages after
    it, and its calls. *)
Inductive op_spec : op -> list (M * Z) -> Z -> list (M * Z) -> list (engine_call M) -> Prop :=
  | spec_put policy t retained inherit inform m q rc q' cs :
      queue_put policy t retained inherit inform m q rc q' cs -> op_spec (Put policy t retained inherit m) q rc q' cs
  | spec_check wanted (inform : bool) q :
      op_spec (CheckWaiters wanted) q OK (drop wanted q)
        (if decide (q = []) then [] else deliveries (take wanted q) ++ empty_status inform q wanted)
  | spec_reap nowExpire wl el q q' ms :
      reaped_list Header_Expiry nowExpire q q' ms ->
      (memory_ok -> wl = true -> el = true -> fresh nowExpire q') ->
      op_spec (Reap nowExpire wl el) q OK q' (released ms)
  | spec_reclaim (gotLock : bool) max q d :
      d = (if gotLock then length q - Z.to_nat (1 + survivors max) else 0)%nat ->
      op_spec (Reclaim gotLock max) q OK (drop d q) (released (take d q))
  | spec_drain q : op_spec Drain q OK [] (released q).

Inductive ops_spec : list op -> list (M * Z) -> list Z -> list (M * Z) -> list (engine_call M) -> Prop :=
  | spec_nil q : ops_spec [] q [] q []
  | spec_cons o ops q rc q1 cs rcs q2 cs' :
      op_spec o q rc q1 cs -> ops_spec ops q1 rcs q2 cs' -> ops_spec (o :: ops) q (rc :: rcs) q2 (cs ++ cs').

(** Limits are unsigned. *)
Definition op_ok (o : op) : Prop :=
  match o with
  | Put policy _ _ _ _ => 0 <= maxMessageCount policy
  | Reclaim _ max => 0 <= max
  | _ => True
  end.

Lemma op_refines o Q q k fuel :
  op_ok o -> queue Q q k -> room q -> enough fuel (S k) ->
  exists rc Q' q' cs, run_op fuel o Q = Ret (rc, Q') /\ op_spec o q rc q' cs /\ queue Q' q' (S k) /\ calls Q' = calls Q ++ cs.
Proof.
  intros Ho Hq Hr Hf. assert (bounded q) as Hb by (unfold room, bounded in *; lia).
  assert (enough fuel k) as Hf' by (unfold enough in *; lia).
  destruct o as [policy t retained inherit m|wanted|nowExpire wl el|gotLock max|]; simpl in Ho |- *.
  - destruct (put_queue policy t retained inherit m Q q k fuel Hq Hr Hf Ho) as (rc & Q' & q' & cs & -> & Hp & Hq' & Ec).
    exists rc, Q', q', cs. split; [done|]. split; [by econstructor|done].
  - destruct (decide (q = [])) as [->|Hn].
    + unfold iesq_checkWaiters. rewrite (queue_count _ _ _ Hq). cbn [mbind outcome_bind length Z.of_nat Z.eqb].
      eexists _, Q, [], []. split; [reflexivity|]. split; [|split; [eapply queue_mono; [eassumption|lia]|by rewrite app_nil_r]].
      rewrite <-(drop_nil wanted) at 2. apply (spec_check wanted false []).
    + destruct (check_waiters_queue wanted k Q q fuel) as (Q' & -> & Hq' & Ec); [done..|]. cbn [mbind outcome_bind].
      eexists _, Q', _, _. split; [reflexivity|]. split; [apply (spec_check wanted (informOnEmpty Q))|].
      rewrite decide_False by done. split; [eapply queue_mono; [eassumption|lia]|done].
  - destruct (reap_if_needed Q q k fuel nowExpire wl el) as (Q' & q' & ms & -> & Hq' & Hre & Ec & Hfr); [done..|].
    cbn [mbind outcome_bind]. eexists _, Q', q', _. split; [reflexivity|]. split; [by econstructor|].
    split; [eapply queue_mono; [eassumption|lia]|done].
  - unfold iesq_reclaimSpace. destruct gotLock.
    + pose proof (survivors_nonneg _ Ho).
      destruct (reclaim_queue (1 + survivors max) fuel k Q q 0) as (Q' & -> & Hq' & Ec & _); [done|done|lia|done|].
      cbn [mbind outcome_bind]. eexists _, _, _, _. split; [reflexivity|]. split; [by apply (spec_reclaim true max)|].
      case_match; (split; [apply (queue_mono _ _ k); [by apply (queue_ext Q')|lia]|done]).
    + cbn [mbind outcome_bind]. eexists _, _, _, _. split; [reflexivity|]. split; [by apply (spec_reclaim false max)|].
      rewrite drop_0. split; [eapply queue_mono; [eassumption|lia]|]. by rewrite app_nil_r.
  - destruct (drain_queue fuel k Q q) as (Q' & -> & Hq' & Ec); [done..|]. cbn [mbind outcome_bind].
    eexists _, Q', _, _. split; [reflexivity|]. split; [constructor|]. split; [eapply queue_mono; [eassumption|lia]|done].
Qed.

(** An operation adds at most one message. *)
Lemma trimmed_length policy t q q' gone : trimmed policy t q q' gone -> (length q' <= length q)%nat.
Proof.
  unfold trimmed. case_match; [|by intros [-> _]]. intros (q1 & ms & (_ & P & _) & _ & -> & _).
  rewrite P, length_app, length_drop. lia.
Qed.

Lemma op_spec_length o q rc q' cs : op_spec o q rc q' cs -> (length q' <= S (length q))%nat.
Proof.
  destruct 1 as [policy t retained inherit inform m q rc q' cs Hp|wanted inform q|nowExpire wl el q q' ms (_ & P & _) _|gotLock max q d _|q];
    rewrite ?length_drop; simpl; try lia;
    [|apply Permutation_length in P; rewrite length_app in P; lia].
  destruct Hp; simpl; try lia. etransitivity; [by eapply trimmed_length|]. subst all.
  rewrite length_drop, length_app. simpl. lia.
Qed.

Lemma ops_refine ops : forall Q q k fuel,
  Forall op_ok ops -> queue Q q k -> Z.of_nat (length q + length ops) < 2 ^ 31 - 3 -> enough fuel (k + length ops) ->
  exists rcs Q' q' cs, run_ops fuel ops Q = Ret (rcs, Q') /\ ops_spec ops q rcs q' cs /\ queue Q' q' (k + length ops) /\
    calls Q' = calls Q ++ cs.
Proof.
  induction ops as [|o ops IH]; intros Q q k fuel Ho Hq Hr Hf; simpl in *.
  - exists [], Q, q, []. split; [done|]. split; [constructor|]. split; [eapply queue_mono; [eassumption|lia]|by rewrite app_nil_r].
  - apply Forall_cons in Ho as [Ho Hos].
    destruct (op_refines o Q q k fuel Ho Hq) as (rc & Q1 & q1 & cs & -> & Hsp & Hq1 & Ec).
    { unfold room. lia. } { unfold enough in *. lia. }
    pose proof (op_spec_length _ _ _ _ _ Hsp). cbn [mbind outcome_bind].
    destruct (IH Q1 q1 (S k) fuel) as (rcs & Q' & q' & cs' & -> & Hsp' & Hq' & Ec'); [done|done|lia|unfold enough in *; lia|].
    cbn [mbind outcome_bind]. eexists _, Q', q', _. split; [reflexivity|]. split; [by econstructor|].
    split; [eapply queue_mono; [eassumption|lia]|]. by rewrite Ec', Ec, <-app_assoc.
Qed.

(** C15. A simple queue is a queue.  Whatever is done with a new queue, in which order
    and with whatever memory, in fewer than 2^31 - 3 operations: every operation
    returns, with fuel for two steps per operation, the return codes and the calls to
    the rest of the engine are the ones of a first-in first-out list of messages, and
    the messages in the pages are that list.  Puts are refused when the queue is full
    or not open, handed to a waiting consumer when the queue is empty, appended
    otherwise, or fail for lack of memory and change nothing.  Only expired messages
    are thrown away and, with [DiscardOldMessages], when there are more messages than
    the limit, the oldest down to one more than 95 percent of it.  A limit of 0, which
    is documented as unlimited, is unlimited for the refusal only: with
    [DiscardOldMessages] a put then leaves no message but the newest. *)
Theorem simple_queue_refines n ops fuel :
  mem n = true -> Forall op_ok ops -> Z.of_nat (length ops) < 2 ^ 31 - 3 -> (2 * length ops + 3 <= fuel)%nat ->
  exists Q0 rcs Q q, iesq_createQ mem n = Ret (Some Q0) /\ run_ops fuel ops Q0 = Ret (rcs, Q) /\
    ops_spec ops [] rcs q (calls Q) /\ queue Q q (length ops).
Proof.
  intros Hm Ho Hl Hf. pose proof (create_queue n) as H. rewrite Hm in H. destruct H as (Q0 & E0 & Hq0 & Ec0).
  destruct (ops_refine ops Q0 [] 0 fuel Ho Hq0) as (rcs & Q & q & cs & E & Hsp & Hq & Ec); [done|done|].
  exists Q0, rcs, Q, q. rewrite Ec0 in Ec. simpl in Ec. rewrite Ec. done.
Qed.

(** C16. When the memory holds, reaping a queue at a time removes every message that
    expired before it and no message that expires later or never, releases what it
    removes, and keeps the order of the rest, whether it goes by the array of the
    earliest messages or scans the pages. *)
Theorem reap_removes_expired Q q k d fuel nowExpire (forcefullscan expiryListLocked : bool) :
  queue Q q k -> bounded q -> (2 * k + 3 <= fuel)%nat -> QExpiryData (expiry Q) = Some d -> (forall a, mem a = true) ->
  exists rc Q' q' ms,
    iesq_reapExpiredMsgs Header_Expiry mem totalSubsCount fuel Q nowExpire forcefullscan expiryListLocked true true = Ret (rc, Q') /\
    queue Q' q' k /\ q' `sublist_of` q /\ q ≡ₚ q' ++ ms /\ calls Q' = calls Q ++ released ms /\
    Forall (fun x => Header_Expiry x.1 <> 0 /\ Header_Expiry x.1 <= nowExpire) ms /\
    Forall (fun x => Header_Expiry x.1 = 0 \/ nowExpire <= Header_Expiry x.1) q'.
Proof.
  intros Hq Hb Hf Ed Hm. destruct (reap_queue Q q k d fuel nowExpire forcefullscan expiryListLocked true true Hq Hb Hf Ed)
    as (rc & Q' & q' & ms & E & Hq' & (Hs & Hp & Hx) & Ec & Hfr).
  exists rc, Q', q', ms. do 6 (split; [done|]). by apply Hfr.
Qed.
End Correct.
