(* ===== verification/SimpQueueDelete.v ===== *)
(** * Deleting a simple queue

    The loop of [iesq_completeDeletion] frees every page of the chain, the one added
    ahead included, and releases every message that is still in the queue. *)

From stdpp Require Import gmap.
From S2P Require Import Prelude MsgExpiry SimpQueue SimpQueuePages SimpQueuePut SimpQueueOps SimpQueueCorrect.
#[local] Open Scope Z_scope.

Section Delete.
Context {M : Type}.
Implicit Types (Q : iesqQueue_t M) (pg : iesqQNodePage_t M) (l : list (nat * iesqQNodePage_t M)).

Definition node_msg (nd : iesqQNode_t M) : option M := match msg nd with Msg m => Some m | _ => None end.

(** Pages that lead from one to the next, each with nodes before its end marker. *)
Fixpoint linked_pages l : Prop :=
  match l with
  | [] => True
  | (a, pg) :: l =>
      next pg = fst <$> hd_error l /\
      (exists body, nodes pg = body ++ [end_node] /\ body <> [] /\ Forall (fun nd => is_endpage nd = false) body) /\ linked_pages l
  end.

(** What is left from the i-th node of the first page on, and how many nodes. *)
Definition left_over (i : nat) pg l : list M := omap node_msg (drop i (nodes pg)) ++ mjoin ((fun p => omap node_msg (nodes p.2)) <$> l).
Definition node_count l : nat := sum_list ((fun p => length (nodes p.2)) <$> l).

(** The message of the node that is passed is released. *)
Lemma release_node Q l nd :
  holds Q l -> is_endpage nd = false ->
  exists Qr, match msg nd with
             | MESSAGE_STATUS_ENDPAGE => Crash
             | Msg m => Ret (emit (releaseMessage m) Q)
             | _ => Ret Q
             end = Ret Qr /\ holds Qr l /\ expiry Qr = expiry Q /\
    calls Qr = calls Q ++ (releaseMessage <$> option_list (node_msg nd)).
Proof.
  intros Hh He. unfold is_endpage, node_msg in *.
  destruct (msg nd); [exists Q|done|exists Q|eexists]; (split; [reflexivity|]); simpl; rewrite ?app_nil_r; done.
Qed.

Lemma delete_loop_spec fuel : forall a pg l i Q,
  holds Q ((a, pg) :: l) -> linked_pages ((a, pg) :: l) -> (S i < length (nodes pg))%nat ->
  (length (nodes pg) + node_count l <= fuel + i)%nat ->
  exists Q', delete_loop fuel (Some a) (Some (a, i)) Q = Ret Q' /\ heap Q' = ∅ /\ expiry Q' = expiry Q /\
    calls Q' = calls Q ++ (releaseMessage <$> left_over i pg l).
Proof.
  induction fuel as [|fuel IH]; intros a pg l i Q Hh Hl Hi Hf; [lia|]. cbn [delete_loop].
  pose proof (holds_get _ _ [] _ _ _ Hh eq_refl) as Hg. rewrite Hg. cbn [mbind outcome_bind].
  destruct Hl as (Hnx & (body & Hb & Hne & Hnd) & Hl). rewrite Hb, length_app in Hi, Hf. simpl in Hi, Hf.
  assert (heap Q !! a = Some pg) as Ha by (unfold get_page in Hg; destruct (heap Q !! a); [by injection Hg as ->|done]).
  destruct (lookup_lt_is_Some_2 body i) as [nd Hni]; [lia|].
  assert (nodes pg !! i = Some nd) as Hnp by (rewrite Hb; by rewrite lookup_app_l by lia).
  rewrite (read_node_in Q a i pg nd Ha Hnp). cbn [mbind outcome_bind fst snd].
  assert (is_endpage nd = false) as He by (rewrite Forall_lookup in Hnd; by eapply Hnd).
  destruct (release_node Q ((a, pg) :: l) nd Hh He) as (Qr & Er & Hr & Exr & Ecr).
  assert (left_over i pg l = option_list (node_msg nd) ++ left_over (S i) pg l) as Elo.
  { unfold left_over. erewrite (drop_S (nodes pg)) by done. cbn [omap list_omap]. destruct (node_msg nd); done. }
  destruct (decide (S i < length body)%nat) as [Hlt|Hge].
  - destruct (lookup_lt_is_Some_2 body (S i) Hlt) as [nd' Hni'].
    rewrite (read_node_in Q a (S i) pg nd' Ha) by (rewrite Hb; by rewrite lookup_app_l).
    cbn [mbind outcome_bind]. assert (is_endpage nd' = false) as -> by (rewrite Forall_lookup in Hnd; by eapply Hnd).
    rewrite Er. cbn [mbind outcome_bind].
    destruct (IH a pg l (S i) Qr Hr) as (Q' & -> & Eh & Ex & Ec); [by split; [|split; [exists body|]]| | |].
    + rewrite Hb, length_app. simpl. lia.
    + rewrite Hb, length_app. simpl. lia.
    + exists Q'. do 2 (split; [done|]). split; [congruence|]. rewrite Ec, Ecr, Elo, fmap_app, <-app_assoc. done.
  - assert (S i = length body) as Ei by lia.
    rewrite (read_node_in Q a (S i) pg end_node Ha) by (rewrite Hb, Ei; by rewrite lookup_app_r, Nat.sub_diag by done).
    cbn [mbind outcome_bind is_endpage end_node msg]. rewrite Er. cbn [mbind outcome_bind]. unfold free_page.
    rewrite (holds_get _ _ [] _ _ _ Hr eq_refl). cbn [mbind outcome_bind].
    destruct Hr as (Hrh & Nd & Hra). apply NoDup_cons in Nd as [Na Nd]. apply Forall_cons in Hra as [_ Hra].
    assert (delete a (heap Qr) = list_to_map l) as Ed.
    { rewrite Hrh. simpl. apply delete_insert_id. by apply not_elem_of_list_to_map_1. }
    rewrite Ed, Hnx. destruct l as [|[a' pg'] l]; cbn [hd_error fmap option_fmap option_map fst].
    + exists (set_heap (list_to_map []) Qr). split; [by destruct fuel|]. do 2 (split; [done|]). simpl. rewrite Ecr, Elo.
      unfold left_over. rewrite Hb, Ei, drop_app_length. simpl. by rewrite app_nil_r.
    + pose proof Hl as (_ & (body' & Hb' & Hne' & _) & _).
      destruct (IH a' pg' l 0%nat (set_heap (list_to_map ((a', pg') :: l)) Qr)) as (Q' & -> & Eh & Ex & Ec); [done|done| | |].
      * rewrite Hb', length_app. destruct body'; [done|simpl; lia].
      * change (node_count ((a', pg') :: l)) with (length (nodes pg') + node_count l)%nat in Hf. lia.
      * exists Q'. do 2 (split; [done|]). split; [by rewrite Ex|]. rewrite Ec, Elo. simpl calls. rewrite Ecr, fmap_app, <-app_assoc.
        unfold left_over. rewrite Hb, Ei, drop_app_length. done.
Qed.

(** ** The pages of a queue *)

Lemma filled_body ns : Forall is_filled ns -> Forall (fun nd => is_endpage (M := M) nd = false) ns.
Proof. intros H. eapply Forall_impl; [exact H|]. apply filled_not_end. Qed.

Lemma empty_body k : Forall (fun nd => is_endpage (M := M) nd = false) (replicate k empty_node).
Proof. by apply Forall_replicate. Qed.

Lemma layout_linked ps t filled k spare :
  Forall (fun p => p.2 <> [] /\ Forall is_filled p.2) ps -> Forall is_filled filled -> (0 < k)%nat ->
  (forall s size, spare = Some (s, size) -> (0 < size)%nat) ->
  linked_pages (layout ps t filled k spare).
Proof.
  intros Hps Hf Hk Hsp. unfold layout. induction Hps as [|[a ns] ps [Hne Hns] Hps IH].
  - simpl. split; [by destruct spare as [[]|]|]. split.
    { exists (filled ++ replicate k empty_node). split; [by rewrite <-app_assoc|].
      split; [by destruct filled, k; [lia|..]|]. apply Forall_app. split; [by apply filled_body|apply empty_body]. }
    destruct spare as [[s size]|]; [|done]. simpl. split; [done|]. split; [|done].
    exists (replicate size empty_node). split; [done|]. split; [|apply empty_body].
    specialize (Hsp s size eq_refl). destruct size; [lia|done].
  - simpl. split; [by destruct ps as [|[]]|]. split; [|done].
    exists ns. split; [done|]. split; [done|by apply filled_body].
Qed.

Lemma messages_slots i a ns : (messages (slots_from i a ns)).*1 = omap node_msg ns.
Proof.
  revert i. induction ns as [|nd ns IH]; intros i; [done|].
  assert (slots_from i a (nd :: ns) = ((a, i), nd) :: slots_from (S i) a ns) as ->.
  { unfold slots_from. simpl. f_equal; [by rewrite Nat.add_0_r|]. apply imap_ext. intros. simpl. do 2 f_equal. lia. }
  rewrite messages_cons. unfold message. cbn [snd omap list_omap]. unfold node_msg at 1.
  destruct (msg nd); rewrite ?fmap_cons, IH; done.
Qed.

Lemma drop_slots j i a (ns : list (iesqQNode_t M)) : drop j (slots_from i a ns) = slots_from (i + j) a (drop j ns).
Proof.
  apply list_eq. intros x. rewrite lookup_drop, !slots_from_lookup, lookup_drop.
  by rewrite (Nat.add_assoc i j x).
Qed.

Lemma omap_empty k : omap node_msg (replicate k empty_node ++ [end_node]) = [].
Proof. induction k; done. Qed.

Lemma spare_messages spare : mjoin ((fun p => omap node_msg (nodes p.2)) <$> spare_pages spare) = [].
Proof. destruct spare as [[s size]|]; [|done]. simpl. by rewrite omap_empty. Qed.

(** The messages of the pages are the messages of the slots. *)
Lemma layout_messages ps t filled k spare :
  mjoin ((fun p => omap node_msg (nodes p.2)) <$> layout ps t filled k spare) = (messages (all_slots ps t filled)).*1.
Proof.
  unfold layout. induction ps as [|[a ns] ps IH]; cbn [all_slots full_pages].
  - etransitivity; [apply (f_equal2 app eq_refl (spare_messages spare))|].
    cbn [snd nodes tail_page]. by rewrite messages_slots, omap_app, omap_empty, !app_nil_r.
  - rewrite messages_app, (fmap_app fst), messages_slots, <-IH. cbn [app fmap list_fmap mjoin list_join snd nodes].
    rewrite omap_app. by rewrite app_nil_r.
Qed.

(** From the get cursor on. *)
Lemma layout_left ps t filled k spare i a pg l :
  layout ps t filled k spare = (a, pg) :: l -> cursor_ok i ps filled ->
  left_over i pg l = (messages (drop i (all_slots ps t filled))).*1.
Proof.
  intros El Hi. unfold left_over. destruct ps as [|[a0 ns] ps].
  - injection El as <- <- <-. cbn [all_slots cursor_ok] in *.
    rewrite drop_slots, messages_slots, spare_messages. cbn [nodes tail_page]. rewrite drop_app_le by done.
    by rewrite omap_app, omap_empty, !app_nil_r.
  - pose proof (layout_messages ps t filled k spare) as Hm. injection El as <- <- <-. cbn [all_slots cursor_ok] in *.
    rewrite drop_app_le by (rewrite length_slots_from; lia). rewrite drop_slots, messages_app, (fmap_app fst), messages_slots, <-Hm.
    cbn [nodes]. rewrite drop_app_le by lia. rewrite omap_app. by rewrite app_nil_r.
Qed.
End Delete.

Section Deletion.
Context {M : Type} (Header_Expiry : M -> Z) (mem : nat -> bool).

(** C17. Deleting a queue ends, and leaves nothing behind: every page is freed, the one
    that was added ahead included, no page is freed twice or read after it was freed,
    and every message that was in the queue is released once, oldest first. *)
Theorem deletion_frees_all (Q : iesqQueue_t M) q k :
  queue Header_Expiry mem Q q k ->
  exists enough, forall fuel, (enough <= fuel)%nat ->
    exists Q', iesq_completeDeletion fuel Q = Ret Q' /\ heap Q' = ∅ /\ QExpiryData (expiry Q') = None /\
      calls Q' = calls Q ++ (releaseMessage <$> q.*1).
Proof.
  intros (exact & live & [P _ _] & <- & _). pose proof P as [ps t filled k' spare i Eh Nd Ha Ehp Ehd _ Hk Hsp Hps Hf Hi ->].
  pose proof (layout_linked ps t filled k' spare Hps Hf Hk Hsp) as Hl.
  destruct (layout ps t filled k' spare) as [|[a pg] l] eqn:El; [by destruct ps as [|[]]|].
  assert (a = next_of ps t) as Ea by (destruct ps as [|[]]; by injection El).
  exists (length (nodes pg) + node_count l)%nat. intros fuel Hfu. unfold iesq_completeDeletion.
  set (Q1 := set_expiry _ Q). change (headPage Q1) with (headPage Q). change (head Q1) with (head Q). rewrite Ehp, Ehd, <-Ea.
  destruct (delete_loop_spec fuel a pg l i Q1) as (Q' & E & Eh' & Ex' & Ec); [done|done| |lia|].
  { destruct ps as [|[a0 ns] ps]; injection El as <- <- <-; simpl in *; rewrite !length_app; simpl; [|lia].
    rewrite length_replicate. lia. }
  exists Q'. split; [exact E|]. split; [done|]. split; [by rewrite Ex'; unfold Q1, ieme_freeQExpiryData; simpl; case_match|].
  rewrite Ec. by rewrite (layout_left ps t filled k' spare i a pg l).
Qed.
End Deletion.
