(* ===== verification/SimpQueueExamples.v ===== *)
(** * Simple queues at work

    Concrete queues: the theorems of SimpQueueCorrect and SimpQueueDelete at an input,
    and two behaviours of the code that are not what it means to do. *)

From stdpp Require Import gmap.
From S2P Require Import Prelude MsgExpiry SimpQueue SimpQueuePages SimpQueuePut SimpQueueOps SimpQueueCorrect SimpQueueDelete.
#[local] Open Scope Z_scope.

(** Messages are numbers; those above 100 expire at that time. *)
Definition sample_expiry (m : Z) : Z := if m >? 100 then m else 0.
Definition no_limit : iepiPolicyInfo_t := mk_policy 0 RejectNewMessages true.
Definition quiet : turn_t := mk_turn 0 true true 0 None.

Abbreviation sample_put m := (Put no_limit quiet false false m).
Abbreviation always := (fun _ : nat => true).

Lemma simple_queue_refines_witness :
  exists Q0 rcs Q q, iesq_createQ always 0 = Ret (Some Q0) /\
    run_ops sample_expiry always 0 20 [sample_put 1; sample_put 150; sample_put 2; CheckWaiters 1; Reap 200 true true; Drain] Q0
      = Ret (rcs, Q) /\
    ops_spec sample_expiry always
      [sample_put 1; sample_put 150; sample_put 2; CheckWaiters 1; Reap 200 true true; Drain] [] rcs q (calls Q) /\
    queue sample_expiry always Q q 6.
Proof.
  apply (simple_queue_refines sample_expiry always 0 0
    [sample_put 1; sample_put 150; sample_put 2; CheckWaiters 1; Reap 200 true true; Drain] 20);
    [reflexivity| |reflexivity|simpl; lia].
  repeat constructor; simpl; lia.
Defined.

(** A queue with ten messages, in two pages, of which three expire. *)
Definition sample_ops : list (@op Z) :=
  [sample_put 1; sample_put 150; sample_put 2; sample_put 300; sample_put 3; sample_put 4; sample_put 5; sample_put 6;
   sample_put 160; sample_put 7].

Definition sample_queue : outcome (iesqQueue_t Z) :=
  Q ← iesq_createQ always 0;
  match Q with
  | Some Q => '(_, Q) ← run_ops sample_expiry always 0 23 sample_ops Q; Ret Q
  | None => Crash
  end.

Lemma sample_queue_ok :
  exists Q q d, sample_queue = Ret Q /\ queue sample_expiry always Q q 10 /\ bounded q /\ QExpiryData (expiry Q) = Some d.
Proof.
  pose proof (create_queue sample_expiry always 0) as (Q0 & E0 & Hq0 & _).
  destruct (ops_refine sample_expiry always 0 sample_ops Q0 [] 0 23) as (rcs & Q & q & cs & E & _ & Hq & _);
    [repeat constructor; simpl; lia|done|done|unfold enough; simpl; lia|].
  assert (sample_queue = Ret Q) as EQ by (unfold sample_queue; rewrite E0; cbn [mbind outcome_bind]; by rewrite E).
  exists Q, q. destruct (QExpiryData (expiry Q)) as [d|] eqn:Ed.
  - exists d. split; [done|]. split; [exact Hq|]. split; [|done]. unfold bounded. rewrite <-(queue_count _ _ _ _ _ Hq).
    assert ((Q ← sample_queue; Ret (bufferedMsgs Q)) = Ret 10) as H by (vm_compute; reflexivity).
    rewrite EQ in H. apply ret_inj in H. rewrite H. lia.
  - assert ((Q ← sample_queue; Ret (bool_decide (QExpiryData (expiry Q) = None))) = Ret false) as H by (vm_compute; reflexivity).
    rewrite EQ in H. apply ret_inj in H. rewrite Ed in H. done.
Qed.

Lemma reap_removes_expired_witness :
  exists Q q rc Q' q' ms, sample_queue = Ret Q /\
    iesq_reapExpiredMsgs sample_expiry always 0 23 Q 200 false false true true = Ret (rc, Q') /\
    queue sample_expiry always Q' q' 10 /\ q' `sublist_of` q /\ q ≡ₚ q' ++ ms /\ calls Q' = calls Q ++ released ms /\
    Forall (fun x => sample_expiry x.1 <> 0 /\ sample_expiry x.1 <= 200) ms /\
    Forall (fun x => sample_expiry x.1 = 0 \/ 200 <= sample_expiry x.1) q'.
Proof.
  destruct sample_queue_ok as (Q & q & d & EQ & Hq & Hb & Ed).
  destruct (reap_removes_expired sample_expiry always 0 Q q 10 d 23 200 false false Hq Hb) as (rc & Q' & q' & ms & H);
    [lia|exact Ed|reflexivity|].
  exists Q, q, rc, Q', q', ms. split; [exact EQ|exact H].
Defined.

Lemma deletion_frees_all_witness :
  exists Q (q : list (Z * Z)) enough, sample_queue = Ret Q /\ forall fuel, (enough <= fuel)%nat ->
    exists Q', iesq_completeDeletion fuel Q = Ret Q' /\ heap Q' = ∅ /\ QExpiryData (expiry Q') = None /\
      calls Q' = calls Q ++ (releaseMessage <$> q.*1).
Proof.
  destruct sample_queue_ok as (Q & q & d & EQ & Hq & _).
  destruct (deletion_frees_all sample_expiry always Q q 10 Hq) as (enough & H).
  exists Q, q, enough. split; [exact EQ|exact H].
Defined.

(** ** Departures from the intent *)

(** A limit of 0 is no limit (policyInfo.h), and a put is not refused for it; but with
    [DiscardOldMessages] the check after the put takes it for a limit, and a queue
    keeps only its newest message. *)
Definition unlimited : iepiPolicyInfo_t := mk_policy 0 DiscardOldMessages true.

Theorem unlimited_queue_discards :
  exists Q0 Q, iesq_createQ always 0 = Ret (Some Q0) /\
    run_ops sample_expiry always 0 9 [Put unlimited quiet false true 1; Put unlimited quiet false true 2;
                                  Put unlimited quiet false true 3] Q0 = Ret ([OK; OK; OK], Q) /\
    bufferedMsgs Q = 1 /\ calls Q = [releaseMessage 1; releaseMessage 2].
Proof. eexists _, _. split; [reflexivity|]. split; [vm_compute; reflexivity|]. split; reflexivity. Qed.

(** The expiry data is not allocated at the first message that expires (allocation 1
    fails), and is at the second.  The count is one short from then on: once both are
    delivered it is -1, and the next message that expires brings it to 0.  The queue is
    then not in the list of the reaper, no time makes it scan the queue, and the message
    stays after it expired. *)
Definition fails_once (n : nat) : bool := negb (n =? 1)%nat.

Theorem expiry_lost_after_failure :
  exists Q0 Q1 Q2, iesq_createQ fails_once 0 = Ret (Some Q0) /\
    run_ops sample_expiry fails_once 0 15 [sample_put 101; sample_put 102; CheckWaiters 3; sample_put 103] Q0
      = Ret ([OK; OK; OK; OK], Q1) /\
    onReaperList (expiry Q1) = false /\ (forall now, needs_reap (expiry Q1) now = false) /\
    run_ops sample_expiry fails_once 0 15 [Reap 1000 true true] Q1 = Ret ([OK], Q2) /\ bufferedMsgs Q2 = 1.
Proof.
  eexists _, _, _. split; [reflexivity|]. split; [vm_compute; reflexivity|]. split; [reflexivity|].
  split; [reflexivity|]. split; [vm_compute; reflexivity|reflexivity].
Qed.

(** A message whose time is the time of the reaping goes when it is in the array, and
    stays when the pages are scanned. *)
Theorem reap_paths_disagree :
  exists Q0 Q1 Q2 Q3, iesq_createQ always 0 = Ret (Some Q0) /\
    run_ops sample_expiry always 0 9 [sample_put 150] Q0 = Ret ([OK], Q1) /\
    iesq_reapExpiredMsgs sample_expiry always 0 9 Q1 150 false false true true = Ret (ieqExpiryReapRC_OK, Q2) /\
    iesq_reapExpiredMsgs sample_expiry always 0 9 Q1 150 true false true true = Ret (ieqExpiryReapRC_OK, Q3) /\
    bufferedMsgs Q2 = 0 /\ bufferedMsgs Q3 = 1.
Proof. eexists _, _, _, _. repeat (split; [vm_compute; reflexivity|]). vm_compute; reflexivity. Qed.
